(* ===== verification/_CoqProject ===== *)
-Q . S2P
Prelude.v
Interact.v
KString.v
Kstate.v
Locks.v
Kalloc.v
Sched.v
SleepProto.v
Bio.v
Ide.v
Bytes.v
Fs.v
FsRead.v
Mkfs.v
MkfsProofs.v
Paging.v
PagingProofs.v
Vspace.v
VspaceProofs.v
File.v
Frame.v
FileProofs.v
PipeProofs.v
MemFrame.v
Proc.v
ProcProofs.v
Fault.v
CowProofs.v
Exec.v
Syscall.v
Console.v
ConsoleProofs.v
Trap.v
Typed.v
Kbd.v
Printf.v
Umalloc.v
Grep.v
Sh.v
Hw.v
Boot.v
Mp.v
Devices.v
E820.v
Asm.v
Segment.v
Programs.v
ProgramsProofs.v
Shell.v
