(* ===== verification/Prelude.v ===== *)
(** * A verification of the xk operating system

    xk is a small Unix-like kernel for x86-64 with its user programs and the program that builds its
    first disk.  This library models it in shallow embedding, function by function, and proves what
    makes the parts correct.

    ** The program and its parts

    The boot loader (kernel/bootmain.c) loads the kernel, which finds its memory (e820.c, kalloc.c) and
    its processors (mp.c, lapic.c), sets up page tables (x86_64vm.c), traps (trap.c) and devices, and
    starts the first process (proc.c).  From then on the kernel runs when a process traps: trap calls
    syscall, which calls the operations on files (sysfile.c, file.c, fs.c) and processes (sysproc.c,
    proc.c, exec.c, vspace.c); files go through the buffer cache (bio.c) to a disk driver (ide.c or
    memide.c) whose requests end in interrupts; whoever has to wait sleeps in proc.c under the locks of
    spinlock.c and sleeplock.c.  The programs of user/ see system calls only.

    ** How code becomes definitions

    C integers are [Z], wrapped by [u8] ... [u64] and [s8] ... [s64] where the width matters.  Kernel
    code is a function of the kernel's state: [K A], the monad [M kstate A] of this file over the record
    [kstate] of Kstate.v, whose fields are the globals of the kernel.  A run ends in [Ok] with a value
    and a state, in [Panic], in [Sleep] when the process gives up the processor, in [Fault] for a
    memory access that C does not define, or in [Hang] for a loop that does not end.  What a sleeping
    process does when it goes on is an operation of its own, named [_resume].  A pointer into a table is
    an index, a page is its kernel address, user memory is reached through the page tables.  Programs
    that talk to something outside, user programs and drivers, are interaction trees over their events
    (Interact.v); [must] says that such a program ends well whatever answers it gets.  The disk driver
    and the device switch are interfaces ([Class Driver] of Bio.v, [Devsw] of Fs.v); Ide.v and
    Console.v give the instances.

    ** Files

    Foundations.  Prelude: widths, record updates, the monad and its tactics [mrun] and [step].
    Interact: interaction trees and [must].  Kstate: structs and globals.  Bytes: structs as bytes.
    Frame, MemFrame: [keeps], what code leaves alone.
    - KString: kernel/string.c.
    - Locks: kernel/spinlock.c.  Sched, SleepProto: scheduler, sleep, wakeup, kill of kernel/proc.c and
      kernel/sleeplock.c.
    - Kalloc: kernel/kalloc.c.  Paging, PagingProofs, Segment: kernel/x86_64vm.c, inc/mmu.h,
      inc/segment.h.  Vspace, VspaceProofs: kernel/vspace.c.
    - Bio, Ide: kernel/bio.c, kernel/ide.c, kernel/memide.c.
    - Fs, FsRead: kernel/fs.c.  Mkfs, MkfsProofs: mkfs.c.
    - File, FileProofs, PipeProofs: kernel/file.c.
    - Proc, ProcProofs, Exec: kernel/proc.c, kernel/exec.c.  Fault, CowProofs: the page faults of
      kernel/trap.c.  Syscall: kernel/syscall.c, kernel/sysfile.c, kernel/sysproc.c.  Trap, Typed:
      kernel/trap.c and what every trap keeps.
    - Console, ConsoleProofs, Kbd: kernel/console.c, kernel/kbd.c.
    - Asm: kernel/vectors.S, kernel/trapasm.S, kernel/swtch.S.
    - Hw, Boot, Mp, Devices, E820: kernel/bootmain.c, mp.c, picirq.c, ioapic.c, lapic.c, uart.c, cpuid.c,
      e820.c, the start of ide.c.
    - Printf: user/printf.c, user/ulib.c and cprintf.  Umalloc, Grep, Sh: user/umalloc.c, grep.c, sh.c.
      Programs, ProgramsProofs: the small programs of user/.  Shell: the main loops of sh.c and grep.c.

    ** What the theorems show

    - Memory: the allocator hands out free pages only and frees a page with its last reference
      (Kalloc); mappages makes the processor translate as asked (PagingProofs); regions get zeroed pages
      or, without memory, are rolled back (VspaceProofs); fork shares pages and a write fault takes them
      apart without the other process noticing (CowProofs).
    - Concurrency: critical sections restore interrupts (Locks); the sleep lock keeps mutual
      exclusion and loses no wakeup in any interleaving (SleepProto); a disk request is served and its
      process goes on (Ide); a thread that calls swtch goes on with its registers (Asm).
    - Storage: the cache behaves as the disk (Bio), over any driver that keeps its promise, which Ide.v
      proves of memide.c and of ide.c; readi gives the bytes of the file, for files of up to two extents (FsRead);
      mkfs builds the file system that the kernel reads (MkfsProofs).
    - Files: reference counts are the number of descriptors over any history (FileProofs); a pipe is
      a bounded queue over any interleaving (PipeProofs); the console is a line editor (ConsoleProofs), the
      keyboard the one of its keys (Kbd).
    - Processes and traps: allocproc gives fresh slots and numbers (ProcProofs); the tables of the kernel
      stay well typed whatever traps come (Typed); trap frames save and restore everything (Asm).
    - Boot: the loader leaves the kernel in memory and jumps to it (Boot); mpinit collects the processors
      (Mp); the I/O APIC is left with every interrupt disabled (Devices).
    - User programs: printf prints its formats (Printf); malloc and free keep the heap (Umalloc); the
      matcher of grep decides its language (Grep); the shell parses its grammar, always ends, and wires
      descriptors as the line says (Sh); cat and wc write what they should for any cutting of their reads
      (ProgramsProofs), and grep.c is the grep of Grep.v for some cutting (Shell).

    Some theorems show that the code does not do what it means to: grep drops what a read without a newline brought, %ld of
    the user printf truncates, memmove of ulib.c smears, vspacewritetova does not end at an aligned
    address, mpinit does not end on an unknown entry.

    ** Fuel and bounds

    Loops over a table recurse on what is left of it: NBUF buffers, NPROC processes, the pages of the
    core map, 512 entries of a page table.  The fuel of other loops is a bound the code cannot reach: the
    parser of the shell calls itself at most four deep for every character ([parse_fuel], and
    [parsecmd_terminates] shows that it is enough); readi, writei and iappend move at least one byte or
    one extent in a turn, and the theorems show that they end; numbers of 64 bits have at most 64 digits;
    e820_init stops at E820_NR_MAX entries by its own assertion.  Running out of fuel is [Hang] or [None],
    which no theorem takes for success.  malloc takes its fuel as an argument, and its theorem says how
    much is enough for the free list at hand.  Polling loops have no fuel: they are interaction trees,
    and end when the device answers.

    The theorem on reading covers files of two extents: from the third on the code computes a wrong
    offset.  The world of ProgramsProofs.v answers read as its documentation says, with 0 at the end of a
    file; readi of this kernel does not stop there, its clamp being commented out.

    ** Not modelled

    - main.c: a list of calls, each modelled with its component.
    - bootasm.S, entry.S, initcode.S, the linker script: the change of modes and the first page tables.
    - The loading of descriptor table, segment and model specific registers: one instruction each.
    - The processor's cache of translations, and more than one processor running: the kernel runs on
      one, and a lock is taken by disabling interrupts.
    - Text the kernel prints for debugging, procdump, print_data_at_block, the call stacks of locks.
    - The test programs of the labs, crash_safety_test.py and the build files. *)
From Stdlib Require Export ZArith Lia.
From stdpp Require Export base numbers gmap strings list.

Open Scope Z_scope.

(** * Machine integers

    Every C integer is a [Z]; the width is applied where the code assigns or
    casts.  [uN] is the unsigned N-bit value, [sN] the two's complement one. *)

Definition u8 (z : Z) : Z := z mod 2^8.
Definition u16 (z : Z) : Z := z mod 2^16.
Definition u32 (z : Z) : Z := z mod 2^32.
Definition u64 (z : Z) : Z := z mod 2^64.
Definition s8 (z : Z) : Z := (z + 2^7) mod 2^8 - 2^7.
Definition s16 (z : Z) : Z := (z + 2^15) mod 2^16 - 2^15.
Definition s32 (z : Z) : Z := (z + 2^31) mod 2^32 - 2^31.
Definition s64 (z : Z) : Z := (z + 2^63) mod 2^64 - 2^63.

(** [x & mask] used as a condition. *)
Definition flag (x mask : Z) : bool := negb (Z.land x mask =? 0).

(** * Record update

    [r <| f := v |>] is [r] with field [f] replaced.  A record provides its
    eta expansion as an instance of [Eta]; the setter of a field is computed
    from it. *)

Class Eta (R : Type) := eta : R -> R.
Class Setter {R T : Type} (g : R -> T) := set : (T -> T) -> R -> R.
Arguments set {R T} g {_} f r.

Ltac build_setter :=
  lazymatch goal with
  | |- @Setter ?R ?T ?g =>
      let e := constr:(_ : Eta R) in
      let e' := eval red in e in
      let f := fresh "f" in let r := fresh "r" in
      refine (fun (f : T -> T) (r : R) => _);
      let b := eval cbv beta in (e' r) in
      lazymatch b with
      | context C [g r] => let b' := context C [f (g r)] in exact b'
      end
  end.
#[export] Hint Extern 1 (Setter _) => build_setter : typeclass_instances.

Declare Scope xk_scope.
Delimit Scope xk_scope with xk.
Open Scope xk_scope.
Notation "r <| g ::= f |>" := (set g f r)
  (at level 12, left associativity, g at level 11, format "r  <| g  ::=  f |>") : xk_scope.
Notation "r <| g := v |>" := (set g (fun _ => v) r)
  (at level 12, left associativity, g at level 11, format "r  <| g  :=  v |>") : xk_scope.

(** * Running kernel code

    Kernel code is a function from the state to a [result].  [Panic] is a call
    of [panic] (or a failed [assert]), which never returns; [Sleep s] is a
    thread that gave up the processor inside [sched] with the kernel in state
    [s]; [Fault] is an access outside an array or through a null pointer;
    [Hang] is a loop that has used up its fuel. *)

Inductive result (S A : Type) : Type :=
| Ok (a : A) (s : S)
| Panic (msg : string)
| Sleep (s : S)
| Fault
| Hang.
Arguments Ok {S A}. Arguments Panic {S A}. Arguments Sleep {S A}.
Arguments Fault {S A}. Arguments Hang {S A}.

Definition M (S A : Type) : Type := S -> result S A.

Definition ret {S A : Type} (a : A) : M S A := fun s => Ok a s.
Definition bind {S A B : Type} (m : M S A) (k : A -> M S B) : M S B := fun s =>
  match m s with
  | Ok a s' => k a s'
  | Panic msg => Panic msg
  | Sleep s' => Sleep s'
  | Fault => Fault
  | Hang => Hang
  end.
Notation "x <- m ; k" := (bind m (fun x => k))
  (at level 20, m at level 100, k at level 200) : xk_scope.
Notation "' p <- m ; k" := (bind m (fun x => match x with p => k end))
  (at level 20, p pattern, m at level 100, k at level 200) : xk_scope.
Notation "m ;; k" := (bind m (fun _ => k))
  (at level 100, k at level 200, right associativity) : xk_scope.

Section ops.
Context {S : Type}.
Definition get : M S S := fun s => Ok s s.
Definition gets {A} (f : S -> A) : M S A := fun s => Ok (f s) s.
Definition modify (f : S -> S) : M S unit := fun s => Ok tt (f s).
Definition panic {A} (msg : string) : M S A := fun _ => Panic msg.
Definition fault {A} : M S A := fun _ => Fault.
Definition hang {A} : M S A := fun _ => Hang.
(** [assert(b)] of defs.h: a failed assertion panics. *)
Definition assert_ (b : bool) : M S unit :=
  if b then ret tt else panic "assertion failed".
(** The value under a pointer, or the element of an array at an index. *)
Definition deref {A} (o : option A) : M S A :=
  match o with Some a => ret a | None => fault end.
Definition when (b : bool) (m : M S unit) : M S unit := if b then m else ret tt.
End ops.

(** Unfold the primitives of the monad. *)
Ltac mred :=
  cbv beta delta [bind get gets modify ret when deref panic fault hang assert_].

Section laws.
Context {S A B C : Type}.
Lemma bind_ret (a : A) (k : A -> M S B) s : bind (ret a) k s = k a s.
Proof. reflexivity. Qed.
Lemma bind_get (k : S -> M S B) s : bind get k s = k s s.
Proof. reflexivity. Qed.
Lemma bind_gets (f : S -> A) (k : A -> M S B) s : bind (gets f) k s = k (f s) s.
Proof. reflexivity. Qed.
Lemma bind_modify (f : S -> S) (k : unit -> M S B) s : bind (modify f) k s = k tt (f s).
Proof. reflexivity. Qed.
Lemma bind_assoc (m : M S A) (f : A -> M S B) (g : B -> M S C) s :
  bind (bind m f) g s = bind m (fun x => bind (f x) g) s.
Proof. unfold bind. destruct (m s); reflexivity. Qed.
Lemma bind_deref (a : A) (k : A -> M S B) s : bind (deref (Some a)) k s = k a s.
Proof. reflexivity. Qed.
(** A bind that succeeds is two successful runs. *)
Lemma bind_Ok (m : M S A) (k : A -> M S B) s b s' :
  bind m k s = Ok b s' <-> exists a s1, m s = Ok a s1 /\ k a s1 = Ok b s'.
Proof.
  unfold bind. destruct (m s) as [a s1| | | |]; 
    (split; [intros H; try discriminate|intros (a' & s2 & H1 & H2)]); try congruence.
  by exists a, s1.
Qed.
Lemma bind_run (m : M S A) (k : A -> M S B) s a s1 :
  m s = Ok a s1 -> bind m k s = k a s1.
Proof. unfold bind. by intros ->. Qed.
End laws.

(** * Generic lemmas and tactics *)

Create HintDb xk.
Create Rewrite HintDb xk.
Create Rewrite HintDb run.
#[export] Hint Rewrite @bind_ret @bind_get @bind_gets @bind_modify @bind_deref @bind_assoc : run.
(** Step through the primitives at the head of a program. *)
Ltac mrun := autorewrite with run; cbv beta.
(** Run the first statement by an equation for it. *)
Tactic Notation "step" uconstr(H) := rewrite (bind_run _ _ _ _ _ H).


(** Case analysis on every boolean comparison of the goal. *)
Ltac zcase :=
  repeat match goal with
  | |- context [ (?a =? ?b)%Z ] => destruct (Z.eqb_spec a b)
  | |- context [ (?a <? ?b)%Z ] => destruct (Z.ltb_spec a b)
  | |- context [ (?a <=? ?b)%Z ] => destruct (Z.leb_spec a b)
  end; simpl.


(** The number of elements of a list that satisfy a boolean predicate. *)
Fixpoint cnt {A} (P : A -> bool) (l : list A) : Z :=
  match l with [] => 0 | x :: l => Z.b2z (P x) + cnt P l end.

Lemma cnt_nonneg {A} (P : A -> bool) l : 0 <= cnt P l.
Proof. induction l; simpl; [|destruct (P a)]; simpl; lia. Qed.
Lemma cnt_app {A} (P : A -> bool) l k : cnt P (l ++ k) = cnt P l + cnt P k.
Proof. induction l; simpl; lia. Qed.
Lemma cnt_alter {A} (P : A -> bool) f i (l : list A) x :
  l !! i = Some x -> cnt P (alter f i l) = cnt P l - Z.b2z (P x) + Z.b2z (P (f x)).
Proof.
  revert i. induction l as [|y l IH]; intros [|i] H; try done; simpl in *.
  - injection H as ->. lia.
  - change (list_alter f i l) with (alter f i l). rewrite (IH i) by done. lia.
Qed.
Lemma cnt_pos {A} (P : A -> bool) l : 0 < cnt P l <-> exists i x, l !! i = Some x /\ P x = true.
Proof.
  induction l as [|y l IH]; simpl; [split; [lia|intros (i&x&?&?); done]|].
  destruct (P y) eqn:E; simpl.
  - split; [|pose proof (cnt_nonneg P l); lia]. intros _. by exists 0%nat, y.
  - rewrite Z.add_0_l, IH. split.
    + intros (i&x&?&?). by exists (S i), x.
    + intros ([|i]&x&Hx&?); simpl in Hx; [congruence|]. by exists i, x.
Qed.
Lemma cnt_le_length {A} (P : A -> bool) l : cnt P l <= Z.of_nat (length l).
Proof. induction l; simpl length; simpl cnt; [lia|destruct (P a); simpl; lia]. Qed.

Lemma cnt_replicate {A} (P : A -> bool) n x : cnt P (replicate n x) = Z.of_nat n * Z.b2z (P x).
Proof. induction n; simpl replicate; simpl cnt; [lia|destruct (P x); simpl in *; lia]. Qed.

(** Machine integers that do not overflow. *)
Lemma u32_small x : 0 <= x < 2 ^ 32 -> u32 x = x.
Proof. apply Z.mod_small. Qed.
Lemma u64_small x : 0 <= x < 2 ^ 64 -> u64 x = x.
Proof. apply Z.mod_small. Qed.
Lemma s32_small x : - 2 ^ 31 <= x < 2 ^ 31 -> s32 x = x.
Proof. intros. unfold s32. rewrite Z.mod_small; lia. Qed.
Lemma s32_range z : - 2 ^ 31 <= s32 z < 2 ^ 31.
Proof. unfold s32. pose proof (Z.mod_pos_bound (z + 2 ^ 31) (2 ^ 32)). lia. Qed.
Lemma s64_range z : - 2 ^ 63 <= s64 z < 2 ^ 63.
Proof. unfold s64. pose proof (Z.mod_pos_bound (z + 2 ^ 63) (2 ^ 64)). lia. Qed.

Lemma land_lnot_ones a n : 0 <= n -> Z.land a (Z.lnot (Z.ones n)) = 2^n * (a / 2^n).
Proof.
  intros. rewrite <-Z.ldiff_land, Z.ldiff_ones_r, Z.shiftl_mul_pow2, Z.shiftr_div_pow2 by lia.
  lia.
Qed.

(** A boolean fact on [0, n) by evaluation. *)
Lemma Z_range_check (P : Z -> bool) (n : nat) :
  forallb P (Z.of_nat <$> seq 0 n) = true -> forall c, 0 <= c < Z.of_nat n -> P c = true.
Proof.
  rewrite forallb_forall. intros H c Hc. apply H.
  apply list_elem_of_In, list_elem_of_fmap. exists (Z.to_nat c).
  split; [lia|]. apply elem_of_seq. lia.
Qed.
