(* ===== verification/Interact.v ===== *)
(** Programs that talk to something outside, as interaction trees, and what it means that they
    must end well.

    The events are the system calls of a user program, or the port and memory accesses of a
    driver.  A program may loop for ever; [must] says that it does not, whatever the answers it
    gets, as long as they are answers the world can give. *)
From ITree Require Import ITree.
From S2P Require Import Prelude.

#[export] Instance itree_ret E : MRet (itree E) := fun A a => Ret a.
#[export] Instance itree_bind E : MBind (itree E) := fun A B k t => ITree.bind t k.

(** An event by itself, and one that does not return. *)
Definition call {E : Type -> Type} {A} (e : E A) : itree E A := ITree.trigger e.
Definition leave {E : Type -> Type} {A} (e : E Empty_set) : itree E A :=
  x ← call e; match x : Empty_set with end.

(** A loop that does nothing but compute. *)
Definition pure_loop {E : Type -> Type} {S B} (f : S -> S + B) (s : S) : itree E B :=
  ITree.iter (fun s => mret (f s)) s.

(** A world: the answers it can give to an event, and the state in which an event that does not
    return leaves it. *)
Class World (E : Type -> Type) (W : Type) := {
  answers : W -> forall A, E A -> A -> W -> Prop;
  final : W -> forall A, E A -> option W }.
Arguments answers {E W _} w {A} e a w'.
Arguments final {E W _} w {A} e.

(** Every run of the program ends with [Q]; [Q None] is for the runs that end in an event that
    does not return.  An event the world has no answer to is not allowed. *)
Inductive must `{World E W} {A} (Q : option A -> W -> Prop) : itree E A -> W -> Prop :=
| must_Ret t w a : observe t = RetF a -> Q (Some a) w -> must Q t w
| must_Tau t w t' : observe t = TauF t' -> must Q t' w -> must Q t w
| must_Final X t w (e : E X) k w' : observe t = VisF e k -> final w e = Some w' -> Q None w' -> must Q t w
| must_Vis X t w (e : E X) k :
    observe t = VisF e k -> (exists x w', answers w e x w') ->
    (forall x w', answers w e x w' -> must Q (k x) w') -> must Q t w.

(** ** Rules *)

Section rules.
Context `{World E W}.
Implicit Types w : W.

Lemma must_mono {A} (Q Q' : option A -> W -> Prop) (t : itree E A) w :
  must Q t w -> (forall r w', Q r w' -> Q' r w') -> must Q' t w.
Proof. induction 1; intros; eauto using must_Ret, must_Tau, must_Final, must_Vis. Qed.
Lemma must_observe {A} Q (t t' : itree E A) w : observe t = observe t' -> must Q t' w -> must Q t w.
Proof.
  intros O. destruct 1; [eapply must_Ret|eapply must_Tau|eapply must_Final|eapply must_Vis];
    rewrite ?O; eauto.
Qed.
Lemma must_ret {A} Q (a : A) w : Q (Some a) w -> must Q (mret a) w.
Proof. by apply (must_Ret _ _ _ a). Qed.
Lemma must_leave {A} (Q : option A -> W -> Prop) (e : E Empty_set) w w' :
  final w e = Some w' -> Q None w' -> must Q (leave e) w.
Proof. intros F HQ. eapply must_Final; [cbv; reflexivity|exact F|exact HQ]. Qed.
Lemma must_call {A} Q (e : E A) w :
  (exists x w', answers w e x w') -> (forall x w', answers w e x w' -> Q (Some x) w') ->
  must Q (call e) w.
Proof. intros X1 HQ. eapply must_Vis; [reflexivity|exact X1|]. intros. by apply must_ret, HQ. Qed.

Lemma bind_observe {A B} (t : itree E B) (k : B -> itree E A) :
  observe (t ≫= k) = match observe t with
                     | RetF b => observe (k b)
                     | TauF t => TauF (t ≫= k)
                     | VisF e h => VisF e (fun x => h x ≫= k)
                     end.
Proof.
  change (observe (t ≫= k)) with (observe match observe t with
    | RetF b => k b | TauF t => Tau (t ≫= k) | VisF e h => Vis e (fun x => h x ≫= k) end).
  by destruct (observe t).
Qed.
Lemma must_bind {A B} Q (t : itree E B) (k : B -> itree E A) w :
  must (fun r w' => match r with Some b => must Q (k b) w' | None => Q None w' end) t w ->
  must Q (t ≫= k) w.
Proof.
  induction 1 as [t w b O HQ|t w t' O _ IH|X t w e h w' O F HQ|X t w e h O X1 _ IH];
    pose proof (bind_observe t k) as U; rewrite O in U.
  - by apply (must_observe _ _ _ _ U).
  - by eapply must_Tau.
  - by eapply must_Final.
  - by eapply must_Vis.
Qed.
Lemma must_iter {A S} Q (step : S -> itree E (S + A)) s w :
  must (fun r w' => match r with
                    | Some (inl s') => must Q (ITree.iter step s') w'
                    | Some (inr a) => Q (Some a) w'
                    | None => Q None w'
                    end) (step s) w ->
  must Q (ITree.iter step s) w.
Proof.
  intros M. eapply (must_observe _ _
    (step s ≫= fun r => match r with inl s' => Tau (ITree.iter step s') | inr a => Ret a end));
    [reflexivity|].
  apply must_bind. eapply must_mono; [exact M|]. intros [[s'|a]|] w' HQ; [|by apply must_ret|done].
  by eapply must_Tau.
Qed.

(** The run ends by returning [a] in the world [w'], or without returning. *)
Definition yields {A} (t : itree E A) (w : W) (a : A) (w' : W) : Prop :=
  must (fun r v => r = Some a /\ v = w') t w.
Definition exits {A} (t : itree E A) (w w' : W) : Prop := must (fun r v => r = None /\ v = w') t w.

Lemma must_then {A B} Q (t : itree E B) (k : B -> itree E A) w b w' :
  yields t w b w' -> must Q (k b) w' -> must Q (t ≫= k) w.
Proof. intros Y HQ. apply must_bind. eapply must_mono; [exact Y|]. by intros r v [-> ->]. Qed.
Lemma yields_call {A} (e : E A) w a w' :
  answers w e a w' -> (forall x v, answers w e x v -> x = a /\ v = w') -> yields (call e) w a w'.
Proof. intros H1 H2. apply must_call; [by eauto|]. by intros x v [-> ->]%H2. Qed.

(** A program that comes back to itself never ends. *)
Lemma must_tau_inv {A} Q (t t' : itree E A) w : observe t = TauF t' -> must Q t w -> must Q t' w.
Proof. intros O M. destruct M as [? ? ? O'|? ? ? O' M'|? ? ? ? ? ? O'|? ? ? ? ? O']; congruence. Qed.
Lemma spins {A} Q (t : itree E A) w : observe t = TauF t -> ~ must Q t w.
Proof.
  intros O M. remember t as t1 eqn:Ht in M. revert Ht. induction M as [? ? ? O'|? ? t2 O' M IH|? ? ? ? ? ? O'|? ? ? ? ? O']; intros ->;
    rewrite O in O'; try discriminate O'. injection O' as <-. by apply IH.
Qed.
(** A loop without events, and what comes behind it. *)
Lemma pure_loop_observe {A B S} (f : S -> S + B) s (k : B -> itree E A) :
  observe (pure_loop f s ≫= k) = match f s with inl s' => TauF (pure_loop f s' ≫= k) | inr b => observe (k b) end.
Proof.
  rewrite bind_observe. change (observe (pure_loop (E := E) f s)) with (observe
    ((mret (f s) : itree E (S + B)) ≫= fun r => match r with inl s' => Tau (pure_loop f s') | inr b => Ret b end)).
  rewrite bind_observe. cbn. by destruct (f s).
Qed.
Lemma must_pure_loop {A B S} Q (f : S -> S + B) s s' (k : B -> itree E A) w :
  f s = inl s' -> must Q (pure_loop f s ≫= k) w <-> must Q (pure_loop f s' ≫= k) w.
Proof.
  intros Hf. pose proof (pure_loop_observe f s k) as O. rewrite Hf in O.
  split; [by apply must_tau_inv|by apply must_Tau].
Qed.
Lemma must_pure_loop_end {A B S} Q (f : S -> S + B) s b (k : B -> itree E A) w :
  f s = inr b -> must Q (k b) w -> must Q (pure_loop f s ≫= k) w.
Proof. intros Hf. apply must_observe. by rewrite pure_loop_observe, Hf. Qed.
End rules.
