(* ===== verification/KString.v ===== *)
(** String and memory routines of kernel/string.c. *)
From S2P Require Import Prelude.

(** Memory is a total map from addresses to bytes. *)
Definition mem : Type := Z -> Z.
Definition store (m : mem) (a v : Z) : mem := fun x => if x =? a then v else m x.
Definition mem_ok (m : mem) : Prop := forall a, 0 <= m a < 256.

(** [stosb]/[stosl] of x86_64.h: n stores of a byte, of a 32-bit word. *)
Fixpoint stosb (n : nat) (d c : Z) (m : mem) : mem :=
  match n with
  | O => m
  | S n => stosb n (d + 1) c (store m d (u8 c))
  end.
Definition store32 (m : mem) (a w : Z) : mem :=
  store (store (store (store m a (u8 w)) (a + 1) (u8 (Z.shiftr w 8)))
    (a + 2) (u8 (Z.shiftr w 16))) (a + 3) (u8 (Z.shiftr w 24)).
Fixpoint stosl (n : nat) (d w : Z) (m : mem) : mem :=
  match n with
  | O => m
  | S n => stosl n (d + 4) w (store32 m d w)
  end.

Definition memset (dst c n : Z) (m : mem) : mem :=
  if (Z.rem (s64 dst) 4 =? 0) && (n mod 4 =? 0) then
    let c := Z.land c 255 in
    stosl (Z.to_nat (n / 4)) dst
      (Z.lor (Z.lor (Z.lor (Z.shiftl c 24) (Z.shiftl c 16)) (Z.shiftl c 8)) c) m
  else stosb (Z.to_nat n) dst c m.

Fixpoint memcmp (n : nat) (s1 s2 : Z) (m : mem) : Z :=
  match n with
  | O => 0
  | S n => if negb (m s1 =? m s2) then m s1 - m s2 else memcmp n (s1 + 1) (s2 + 1) m
  end.

Fixpoint copy_down (n : nat) (d s : Z) (m : mem) : mem :=
  match n with
  | O => m
  | S n => copy_down n (d - 1) (s - 1) (store m (d - 1) (m (s - 1)))
  end.
Fixpoint copy_up (n : nat) (d s : Z) (m : mem) : mem :=
  match n with
  | O => m
  | S n => copy_up n (d + 1) (s + 1) (store m d (m s))
  end.
Definition memmove (dst src n : Z) (m : mem) : mem :=
  if (src <? dst) && (dst <? src + n)
  then copy_down (Z.to_nat n) (dst + n) (src + n) m
  else copy_up (Z.to_nat n) dst src m.

Definition memcpy (dst src n : Z) (m : mem) : mem := memmove dst src n m.
Fixpoint strncmp (n : nat) (p q : Z) (m : mem) : Z :=
  match n with
  | O => 0
  | S n =>
      if negb (m p =? 0) && (m p =? m q) then strncmp n (p + 1) (q + 1) m
      else m p - m q
  end.

(** The first loop of strncpy: copies until n bytes or a NUL are copied; gives
    the destination reached and the bytes left. *)
Fixpoint strncpy_copy (n : nat) (s t : Z) (m : mem) : mem * Z * nat :=
  match n with
  | O => (m, s, O)
  | S n =>
      let m := store m s (m t) in
      if m s =? 0 then (m, s + 1, n) else strncpy_copy n (s + 1) (t + 1) m
  end.
Definition strncpy (s t n : Z) (m : mem) : mem :=
  let '(m, s, k) := strncpy_copy (Z.to_nat n) s t m in stosb k s 0 m.

Fixpoint safestrcpy_copy (k : nat) (s t : Z) (m : mem) : mem :=
  match k with
  | O => store m s 0
  | S k =>
      let m := store m s (m t) in
      if m s =? 0 then store m (s + 1) 0 else safestrcpy_copy k (s + 1) (t + 1) m
  end.
Definition safestrcpy (s t n : Z) (m : mem) : mem :=
  if n <=? 0 then m else safestrcpy_copy (Z.to_nat (n - 1)) s t m.

(** [strlen] runs until a NUL: the fuel bounds the scan. *)
Fixpoint strlen (fuel : nat) (s : Z) (m : mem) : option Z :=
  match fuel with
  | O => None
  | S fuel => if m s =? 0 then Some 0 else (fun n => n + 1) <$> strlen fuel (s + 1) m
  end.

(** * Specifications *)

(** The bytes [m[a, a+n)]. *)
Fixpoint bytes (n : nat) (a : Z) (m : mem) : list Z :=
  match n with O => [] | S n => m a :: bytes n (a + 1) m end.
(** The C string at [a], cut at [n] bytes. *)
Fixpoint cstr (n : nat) (a : Z) (m : mem) : list Z :=
  match n with
  | O => []
  | S n => if m a =? 0 then [] else m a :: cstr n (a + 1) m
  end.

Lemma store_eq m a v : store m a v a = v.
Proof. unfold store. by rewrite Z.eqb_refl. Qed.
Lemma store_ne m a v x : x <> a -> store m a v x = m x.
Proof. unfold store. intros. by rewrite (proj2 (Z.eqb_neq x a)). Qed.

Lemma copy_up_spec n d s m a :
  (d <= s \/ s + Z.of_nat n <= d) ->
  copy_up n d s m a = if (d <=? a) && (a <? d + Z.of_nat n) then m (s + (a - d)) else m a.
Proof.
  revert d s m. induction n as [|n IH]; intros d s m H; cbn [copy_up].
  - zcase; auto; lia.
  - rewrite IH by lia. unfold store. zcase; try (f_equal; lia); try lia; auto.
Qed.

Lemma copy_down_spec n d s m a :
  s <= d ->
  copy_down n d s m a = if (d - Z.of_nat n <=? a) && (a <? d) then m (s + (a - d)) else m a.
Proof.
  revert d s m. induction n as [|n IH]; intros d s m H; cbn [copy_down].
  - zcase; auto; lia.
  - rewrite IH by lia. unfold store. zcase; try (f_equal; lia); try lia; auto.
Qed.

(** memmove copies the *old* source bytes, overlapping or not. *)
Lemma memmove_correct dst src n m a :
  0 <= n ->
  memmove dst src n m a =
    if (dst <=? a) && (a <? dst + n) then m (src + (a - dst)) else m a.
Proof.
  intros Hn. unfold memmove.
  destruct ((src <? dst) && (dst <? src + n)) eqn:E.
  - rewrite copy_down_spec, Z2Nat.id by lia. zcase; try lia; f_equal; lia.
  - rewrite copy_up_spec, Z2Nat.id by lia. reflexivity.
Qed.

Lemma stosb_spec n d c m a :
  stosb n d c m a = if (d <=? a) && (a <? d + Z.of_nat n) then u8 c else m a.
Proof.
  revert d m. induction n as [|n IH]; intros d m; cbn [stosb].
  - zcase; auto; lia.
  - rewrite IH. unfold store. zcase; try lia; auto.
Qed.

Lemma stosb_out n d c m a : a < d -> stosb n d c m a = m a.
Proof. intros. rewrite stosb_spec. zcase; auto; lia. Qed.

(** The word that [memset] stores has the byte [c] in each lane. *)
Lemma fill_word_bytes c k :
  0 <= c < 256 -> k = 0 \/ k = 8 \/ k = 16 \/ k = 24 ->
  u8 (Z.shiftr (Z.lor (Z.lor (Z.lor (Z.shiftl c 24) (Z.shiftl c 16)) (Z.shiftl c 8)) c) k) = c.
Proof.
  intros Hc Hk. apply Z.eqb_eq.
  destruct Hk as [->|[->|[->| ->]]]; revert c Hc;
    apply (Z_range_check _ 256%nat); vm_compute; reflexivity.
Qed.

Lemma stosl_spec n d c m a :
  0 <= c < 256 ->
  stosl n d (Z.lor (Z.lor (Z.lor (Z.shiftl c 24) (Z.shiftl c 16)) (Z.shiftl c 8)) c) m a =
    if (d <=? a) && (a <? d + 4 * Z.of_nat n) then c else m a.
Proof.
  intros Hc. revert d m. induction n as [|n IH]; intros d m; cbn [stosl].
  - zcase; auto; lia.
  - rewrite IH. unfold store32.
    rewrite <-(Z.shiftr_0_r (Z.lor _ c)) at 1.
    rewrite !fill_word_bytes by tauto.
    unfold store. zcase; try lia; auto.
Qed.

(** Both branches of memset fill exactly [dst, dst+n) with the low byte of c. *)
Lemma memset_correct dst c n m a :
  0 <= n ->
  memset dst c n m a = if (dst <=? a) && (a <? dst + n) then u8 c else m a.
Proof.
  intros Hn. unfold memset, u8.
  destruct ((Z.rem (s64 dst) 4 =? 0) && (n mod 4 =? 0)) eqn:E.
  - change 255 with (Z.ones 8). rewrite Z.land_ones by lia.
    rewrite stosl_spec by (apply Z.mod_pos_bound; lia).
    rewrite Z2Nat.id by (apply Z.div_pos; lia).
    apply andb_true_iff in E as [_ E]. apply Z.eqb_eq in E.
    replace (4 * (n / 4)) with n by (pose proof (Z.div_mod n 4); lia). done.
  - rewrite stosb_spec, Z2Nat.id by lia. done.
Qed.

Lemma memcmp_eq n p q m : memcmp n p q m = 0 <-> bytes n p m = bytes n q m.
Proof.
  revert p q. induction n as [|n IH]; intros p q; simpl; [done|].
  destruct (Z.eqb_spec (m p) (m q)) as [E|E]; simpl.
  - rewrite IH, E. split; congruence.
  - split; [lia|congruence].
Qed.

(** strncmp is 0 exactly on strings equal up to the first NUL or n bytes. *)
Lemma strncmp_eq n p q m : strncmp n p q m = 0 <-> cstr n p m = cstr n q m.
Proof.
  revert p q. induction n as [|n IH]; intros p q; simpl; [done|].
  destruct (Z.eqb_spec (m p) 0) as [Hp|Hp], (Z.eqb_spec (m q) 0) as [Hq|Hq],
    (Z.eqb_spec (m p) (m q)) as [E|E]; simpl; try lia; try (rewrite IH, ?E);
    split; try lia; try congruence.
Qed.

Lemma cstr_store n a m x v :
  (x < a \/ a + Z.of_nat n <= x) -> cstr n a (store m x v) = cstr n a m.
Proof.
  revert a. induction n as [|n IH]; intros a H; simpl; [done|].
  rewrite store_ne, IH by lia. done.
Qed.
Lemma bytes_const n a m v :
  (forall x, a <= x < a + Z.of_nat n -> m x = v) -> bytes n a m = replicate n v.
Proof.
  revert a. induction n as [|n IH]; intros a H; simpl; [done|].
  f_equal; [apply H; lia|apply IH; intros; apply H; lia].
Qed.

(** The string at [a] in a field of n bytes: cut at n, padded with NULs. *)
Definition field (n : nat) (a : Z) (m : mem) : list Z :=
  let c := cstr n a m in c ++ replicate (n - length c) 0.

Lemma strncpy_copy_spec n s t m :
  (t + Z.of_nat n <= s \/ s + Z.of_nat n <= t) ->
  let '(m', s', k) := strncpy_copy n s t m in
  s' = s + Z.of_nat n - Z.of_nat k /\ (k <= n)%nat /\
  (forall a, a < s \/ s + Z.of_nat n <= a -> m' a = m a) /\
  bytes n s (stosb k s' 0 m') = field n t m.
Proof.
  revert s t m. induction n as [|n IH]; intros s t m Hd; cbn [strncpy_copy].
  { repeat split; intros; try lia; done. }
  rewrite store_eq. destruct (Z.eqb_spec (m t) 0) as [Ht|Ht].
  - repeat split; intros; try lia.
    + apply store_ne. lia.
    + unfold field. simpl. rewrite Ht. simpl. rewrite stosb_out by lia.
      rewrite store_eq, (bytes_const _ _ _ 0); [done|].
      intros x Hx. rewrite stosb_spec. zcase; done || lia.
  - specialize (IH (s + 1) (t + 1) (store m s (m t)) ltac:(lia)).
    destruct (strncpy_copy _ _ _ _) as [[m' s'] k].
    destruct IH as (-> & Hk & Hout & Hb). repeat split; intros; try lia.
    + rewrite Hout, store_ne by lia. done.
    + unfold field in *. simpl. rewrite (proj2 (Z.eqb_neq _ _) Ht). simpl.
      rewrite Hb, cstr_store by lia. f_equal.
      rewrite stosb_out, Hout, store_eq by lia. done.
Qed.

(** strncpy writes exactly the n bytes of the destination field: the source
    string cut at n and padded with NULs; nothing else changes. *)
Lemma strncpy_correct s t n m :
  0 <= n -> (t + n <= s \/ s + n <= t) ->
  bytes (Z.to_nat n) s (strncpy s t n m) = field (Z.to_nat n) t m /\
  (forall a, a < s \/ s + n <= a -> strncpy s t n m a = m a).
Proof.
  intros Hn Hd. unfold strncpy.
  pose proof (strncpy_copy_spec (Z.to_nat n) s t m ltac:(lia)) as H.
  destruct (strncpy_copy _ _ _ _) as [[m' s'] k].
  destruct H as (-> & Hk & Hout & Hb). split; [done|].
  intros a Ha. rewrite stosb_spec, Hout by lia. zcase; try lia; done.
Qed.

(** With a NUL within the fuel, strlen is the length of the string. *)
Lemma strlen_correct fuel a m :
  (length (cstr fuel a m) < fuel)%nat ->
  strlen fuel a m = Some (Z.of_nat (length (cstr fuel a m))).
Proof.
  revert a. induction fuel as [|n IH]; intros a; simpl; [lia|].
  destruct (Z.eqb_spec (m a) 0); simpl; [done|]. intros H.
  rewrite IH by lia. simpl. f_equal. lia.
Qed.

Lemma safestrcpy_copy_spec k s t m :
  (t + Z.of_nat k < s \/ s + Z.of_nat k < t) ->
  cstr (S k) s (safestrcpy_copy k s t m) = cstr k t m /\
  (forall a, a < s \/ s + Z.of_nat k < a -> safestrcpy_copy k s t m a = m a).
Proof.
  revert s t m. induction k as [|k IH]; intros s t m Hd; cbn [safestrcpy_copy].
  - simpl. rewrite store_eq. split; [done|]. intros. apply store_ne. lia.
  - rewrite store_eq. destruct (Z.eqb_spec (m t) 0) as [E|E].
    + cbn [cstr]. rewrite store_ne, store_eq, E by lia. split; [done|].
      intros. rewrite !store_ne by lia. done.
    + destruct (IH (s + 1) (t + 1) (store m s (m t))) as [IH1 IH2]; [lia|].
      split; [|intros; rewrite IH2, store_ne by lia; done].
      change (cstr (S (S k)) s ?M) with (if M s =? 0 then [] else M s :: cstr (S k) (s + 1) M).
      rewrite IH1, IH2, store_eq, cstr_store by lia.
      cbn [cstr]. by rewrite (proj2 (Z.eqb_neq _ _) E).
Qed.

(** safestrcpy always leaves a NUL-terminated string: the source cut at n-1. *)
Lemma safestrcpy_correct s t n m :
  0 < n -> (t + n <= s \/ s + n <= t) ->
  cstr (Z.to_nat n) s (safestrcpy s t n m) = cstr (Z.to_nat (n - 1)) t m /\
  (forall a, a < s \/ s + n <= a -> safestrcpy s t n m a = m a).
Proof.
  intros Hn Hd. unfold safestrcpy. rewrite (proj2 (Z.leb_gt n 0)) by lia.
  destruct (safestrcpy_copy_spec (Z.to_nat (n - 1)) s t m) as [H1 H2]; [lia|].
  replace (Z.to_nat n) with (S (Z.to_nat (n - 1))) by lia.
  split; [done|]. intros. apply H2. lia.
Qed.
