(* ===== verification/Kstate.v ===== *)
(** The kernel's data: the structs of inc/*.h and the global state of kernel/.

    A pointer into a global array is the index of the element ([option nat]
    where the code tests it against 0); a pointer to a page of physical memory
    is its kernel virtual address, a [Z] with 0 for null. *)
From S2P Require Import Prelude.

(** * Constants (param.h, fs.h, stat.h, fcntl.h, mmu.h, memlayout.h, buf.h) *)

Definition NPROC : nat := 64.
Definition NOFILE : nat := 16.
Definition NFILE : nat := 100.
Definition NINODE : nat := 50.
Definition NDEV : Z := 10.
Definition ROOTDEV : Z := 1.
Definition MAXARG : nat := 32.
Definition NBUF : nat := 30.
Definition FSSIZE : Z := 100000.

Definition INODEFILEINO : Z := 0.
Definition ROOTINO : Z := 1.
Definition BSIZE : Z := 512.
Definition EXTENT_N : nat := 7.
Definition DIRSIZ : nat := 14.
Definition sizeof_dinode : Z := 64.
Definition sizeof_dirent : Z := 16.
Definition INODEOFF (inum : Z) : Z := inum * sizeof_dinode.

Definition T_DIR : Z := 1.
Definition T_FILE : Z := 2.
Definition T_DEV : Z := 3.

Definition TRAP_PF : Z := 14.
Definition TRAP_IRQ0 : Z := 32.
Definition TRAP_SYSCALL : Z := 64.
Definition IRQ_TIMER : Z := 0.
Definition IRQ_KBD : Z := 1.
Definition IRQ_COM1 : Z := 4.
Definition IRQ_IDE : Z := 14.
Definition IRQ_ERROR : Z := 19.
Definition IRQ_SPURIOUS : Z := 31.

Definition O_RDONLY : Z := 0.
Definition O_WRONLY : Z := 1.
Definition O_RDWR : Z := 2.
Definition O_CREATE : Z := 0x200.

Definition B_VALID : Z := 2.
Definition B_DIRTY : Z := 4.

Definition PGSIZE : Z := 4096.
Definition PT_SHIFT : Z := 12.
Definition KERNBASE : Z := 0xFFFFFFFF80000000.
Definition SZ_2G : Z := 0x80000000.
Definition SZ_4G : Z := 0x100000000.
Definition V2P (a : Z) : Z := u64 (a - KERNBASE).
Definition P2V (a : Z) : Z := u64 (a + KERNBASE).
Definition PGNUM (la : Z) : Z := Z.shiftr (u64 la) PT_SHIFT.
Definition PGROUNDUP (sz : Z) : Z := Z.land (u64 (sz + PGSIZE - 1)) (Z.lnot (PGSIZE - 1)).
Definition PGROUNDDOWN (a : Z) : Z := Z.land a (Z.lnot (PGSIZE - 1)).

Lemma PGROUNDUP_eq a : PGROUNDUP a = PGSIZE * (u64 (a + PGSIZE - 1) / PGSIZE).
Proof. unfold PGROUNDUP. apply (land_lnot_ones _ 12). lia. Qed.
Lemma PGROUNDDOWN_eq a : PGROUNDDOWN a = PGSIZE * (a / PGSIZE).
Proof. unfold PGROUNDDOWN. apply (land_lnot_ones _ 12). lia. Qed.

(** * Locks (spinlock.h, sleeplock.h) *)

Inductive sleep_id : Set :=
| SlBuf (b : nat)      (* bcache.buf[b].lock *)
| SlInode (i : nat)    (* icache.inode[i].lock *)
| SlInodefile.         (* icache.inodefile.lock *)

Inductive spin_id : Set :=
| LkPtable | LkFtable | LkIcache | LkBcache | LkIde | LkKmem | LkCons | LkTicks
| LkPipe (f : nat)             (* ftable[f].pipe_buffer.lock *)
| LkSleep (l : sleep_id).      (* the lk inside a sleep lock *)

#[export] Instance sleep_id_eq : EqDecision sleep_id.
Proof. solve_decision. Defined.
#[export] Instance spin_id_eq : EqDecision spin_id.
Proof. solve_decision. Defined.
#[export] Instance sleep_id_countable : Countable sleep_id.
Proof.
  refine (inj_countable'
    (fun l => match l with SlBuf b => inl b | SlInode i => inr (Some i) | SlInodefile => inr None end)
    (fun x => match x with inl b => SlBuf b | inr (Some i) => SlInode i | inr None => SlInodefile end) _).
  by intros [].
Defined.
#[export] Instance spin_id_countable : Countable spin_id.
Proof.
  refine (inj_countable'
    (fun l => match l with
              | LkPtable => inl 0%nat | LkFtable => inl 1%nat | LkIcache => inl 2%nat
              | LkBcache => inl 3%nat | LkIde => inl 4%nat | LkKmem => inl 5%nat
              | LkCons => inl 6%nat | LkTicks => inl 7%nat
              | LkPipe f => inr (inl f) | LkSleep l => inr (inr l) end)
    (fun x => match x with
              | inl 0%nat => LkPtable | inl 1%nat => LkFtable | inl 2%nat => LkIcache
              | inl 3%nat => LkBcache | inl 4%nat => LkIde | inl 5%nat => LkKmem
              | inl 6%nat => LkCons | inl _ => LkTicks
              | inr (inl f) => LkPipe f | inr (inr l) => LkSleep l end) _).
  by intros [].
Defined.

(** [lk_cpu = true] is [lk->cpu == &cpus[0]], the only cpu ([mycpu]). *)
Record spinlock := mkSpin { lk_locked : bool; lk_cpu : bool }.
Record sleeplock := mkSleep { sl_locked : bool; sl_pid : Z }.
(** A lock as [initlock] leaves it.  The lock maps below hold only the locks in
    another state, so that a map stands for the state of every lock. *)
Definition spin_free : spinlock := mkSpin false false.
Definition sleep_free : sleeplock := mkSleep false 0.
#[export] Instance spinlock_eq : EqDecision spinlock.
Proof. solve_decision. Defined.
#[export] Instance sleeplock_eq : EqDecision sleeplock.
Proof. solve_decision. Defined.

(** The part of struct cpu that locking uses, with the interrupt flag. *)
Record cpu := mkCpu { ncli : Z; intena : bool; eflags_IF : bool }.
#[export] Instance eta_cpu : Eta cpu := fun c => mkCpu (ncli c) (intena c) (eflags_IF c).

(** * Sleep channels: the addresses passed to sleep and wakeup *)

Inductive chan : Set :=
| CProc (p : nat)          (* a struct proc, in wait *)
| CSleeplock (l : sleep_id)
| CBuf (b : nat)           (* a struct buf, in iderw *)
| CTicks                   (* &ticks *)
| CInput                   (* &input.r *)
| CPipeRead (f : nat)      (* &ftable[f].pipe_buffer.read_fd *)
| CPipeWrite (f : nat).
#[export] Instance chan_eq : EqDecision chan.
Proof. solve_decision. Defined.

(** * Physical memory (mmu.h, vspace.h, kalloc.c) *)

Record core_map_entry := mkCme {
  available : Z; cme_user : Z; cme_va : Z; ref_count : Z }.
#[export] Instance eta_cme : Eta core_map_entry :=
  fun e => mkCme (available e) (cme_user e) (cme_va e) (ref_count e).

Record kmem := mkKmem {
  npages : Z;
  core_map : list core_map_entry;
  pages_in_use : Z; pages_in_swap : Z; free_pages : Z;
  use_lock : bool;
  rand_next : Z }.
#[export] Instance eta_kmem : Eta kmem := fun k =>
  mkKmem (npages k) (core_map k) (pages_in_use k) (pages_in_swap k) (free_pages k)
    (use_lock k) (rand_next k).

Record vpage_info := mkVpi {
  vpi_used : Z; vpi_ppn : Z; vpi_present : Z; vpi_writable : Z; vpi_cow : bool }.
#[export] Instance eta_vpi : Eta vpage_info := fun v =>
  mkVpi (vpi_used v) (vpi_ppn v) (vpi_present v) (vpi_writable v) (vpi_cow v).
Definition vpi_zero : vpage_info := mkVpi 0 0 0 0 false.
(** PGSIZE / sizeof(struct vpage_info) - 1, with sizeof(struct vpage_info) = 24. *)
Definition VPIPPAGE : Z := 169.
Record vpi_page := mkVpiPage { infos : list vpage_info; vpi_next : Z }.
#[export] Instance eta_vpi_page : Eta vpi_page := fun p => mkVpiPage (infos p) (vpi_next p).
Definition vpi_page_zero : vpi_page := mkVpiPage (replicate (Z.to_nat VPIPPAGE) vpi_zero) 0.

(** The contents of a 4096-byte page, by how the kernel uses it: raw bytes
    (user memory, kernel stacks, freed pages), 512 page-table entries, or a page of
    struct vpage_info.  A page that [memset] has zeroed reads as zeroes in each. *)
Inductive page : Type :=
| PBytes (bs : list Z)
| PTable (es : list Z)
| PVpi (v : vpi_page).
Definition page_fill (c : Z) : page := PBytes (replicate (Z.to_nat PGSIZE) (u8 c)).

Inductive vr_direction := VRDIR_UP | VRDIR_DOWN.
#[export] Instance vr_direction_eq : EqDecision vr_direction.
Proof. solve_decision. Defined.
Record vregion := mkVregion {
  vr_dir : vr_direction; va_base : Z; vr_size : Z; vr_pages : Z }.
#[export] Instance eta_vregion : Eta vregion := fun r =>
  mkVregion (vr_dir r) (va_base r) (vr_size r) (vr_pages r).
Definition NREGIONS : nat := 3.
Definition VR_CODE : nat := 0.
Definition VR_HEAP : nat := 1.
Definition VR_USTACK : nat := 2.
(** memset(vr, 0, sizeof *vr): VRDIR_UP is 0. *)
Definition vregion_zero : vregion := mkVregion VRDIR_UP 0 0 0.
Record vspace := mkVspace { vs_regions : list vregion; vs_pgtbl : Z }.
#[export] Instance eta_vspace : Eta vspace := fun v => mkVspace (vs_regions v) (vs_pgtbl v).
Definition vspace_zero : vspace := mkVspace (replicate NREGIONS vregion_zero) 0.

(** * Processes (proc.h, trap.h) *)

Record trap_frame := mkTf {
  rax : Z; rbx : Z; rcx : Z; rdx : Z; rbp : Z; rsi : Z; rdi : Z;
  r8 : Z; r9 : Z; r10 : Z; r11 : Z; r12 : Z; r13 : Z; r14 : Z; r15 : Z;
  trapno : Z; err : Z; rip : Z; cs : Z; rflags : Z; rsp : Z; ss : Z }.
#[export] Instance eta_tf : Eta trap_frame := fun t =>
  mkTf (rax t) (rbx t) (rcx t) (rdx t) (rbp t) (rsi t) (rdi t) (r8 t) (r9 t) (r10 t)
    (r11 t) (r12 t) (r13 t) (r14 t) (r15 t) (trapno t) (err t) (rip t) (cs t) (rflags t)
    (rsp t) (ss t).
Definition tf_zero : trap_frame :=
  mkTf 0 0 0 0 0 0 0 0 0 0 0 0 0 0 0 0 0 0 0 0 0 0.

Inductive procstate := UNUSED | EMBRYO | SLEEPING | RUNNABLE | RUNNING | ZOMBIE.
#[export] Instance procstate_eq : EqDecision procstate.
Proof. solve_decision. Defined.
(** Where [swtch] resumes a process: at the start of [forkret], as allocproc sets
    it up, or inside [sched], whose local [intena] is on the saved stack. *)
Inductive context := CtxNone | CtxForkret | CtxSched (intena : bool).

Record proc := mkProc {
  p_vspace : vspace; p_kstack : Z; p_state : procstate; p_pid : Z;
  p_parent : option nat; p_tf : trap_frame; p_context : context;
  p_pftable : list (option nat); p_chan : option chan; p_killed : bool;
  p_name : list Z }.
#[export] Instance eta_proc : Eta proc := fun p =>
  mkProc (p_vspace p) (p_kstack p) (p_state p) (p_pid p) (p_parent p) (p_tf p)
    (p_context p) (p_pftable p) (p_chan p) (p_killed p) (p_name p).
Definition proc_zero : proc :=
  mkProc vspace_zero 0 UNUSED 0 None tf_zero CtxNone (replicate NOFILE None) None false
    (replicate 16 0).

(** * File system (fs.h, file.h, extent.h, buf.h, stat.h) *)

Record extent := mkExtent { startblkno : Z; nblocks : Z }.
Definition extent_zero : extent := mkExtent 0 0.
#[export] Instance extent_eq : EqDecision extent.
Proof. solve_decision. Defined.
Record superblock := mkSb { sb_size : Z; sb_nblocks : Z; sb_bmapstart : Z; sb_inodestart : Z }.
Record dinode := mkDinode { di_type : Z; di_devid : Z; di_size : Z; di_data : list extent }.
#[export] Instance eta_dinode : Eta dinode := fun d =>
  mkDinode (di_type d) (di_devid d) (di_size d) (di_data d).
Record inode := mkInode {
  i_dev : Z; i_inum : Z; i_ref : Z; i_valid : bool;
  i_type : Z; i_devid : Z; i_size : Z; i_data : list extent }.
#[export] Instance eta_inode : Eta inode := fun i =>
  mkInode (i_dev i) (i_inum i) (i_ref i) (i_valid i) (i_type i) (i_devid i) (i_size i) (i_data i).
Definition inode_zero : inode := mkInode 0 0 0 false 0 0 0 (replicate EXTENT_N extent_zero).
(** A struct inode *: an entry of icache.inode, or &icache.inodefile. *)
Inductive iptr : Set := ICache (i : nat) | IInodefile.
#[export] Instance iptr_eq : EqDecision iptr.
Proof. solve_decision. Defined.
Record dirent := mkDirent { de_inum : Z; de_name : list Z }.
Record stat := mkStat { st_type : Z; st_dev : Z; st_ino : Z; st_size : Z }.

(** A struct buf *: an element of bcache.buf or &bcache.head. *)
Inductive bptr : Set := BHead | BBuf (i : nat).
#[export] Instance bptr_eq : EqDecision bptr.
Proof. solve_decision. Defined.
Record buf := mkBuf {
  b_flags : Z; b_dev : Z; b_blockno : Z; b_refcnt : Z;
  b_prev : bptr; b_next : bptr; b_data : list Z }.
#[export] Instance eta_buf : Eta buf := fun b =>
  mkBuf (b_flags b) (b_dev b) (b_blockno b) (b_refcnt b) (b_prev b) (b_next b) (b_data b).
Definition buf_zero : buf := mkBuf 0 0 0 0 BHead BHead (replicate (Z.to_nat BSIZE) 0).

Definition PIPESIZE : Z := 2048.
Record pipe := mkPipe {
  read_fd : Z; write_fd : Z; pi_head : Z; pi_tail : Z; pi_full : bool; pi_empty : bool;
  pi_buf : list Z }.
#[export] Instance eta_pipe : Eta pipe := fun p =>
  mkPipe (read_fd p) (write_fd p) (pi_head p) (pi_tail p) (pi_full p) (pi_empty p) (pi_buf p).
Definition pipe_zero : pipe := mkPipe 0 0 0 0 false false (replicate (Z.to_nat PIPESIZE) 0).
Record file_info := mkFile {
  f_ref : Z; f_iptr : option iptr; f_offset : Z; f_prev_offset : Z; f_access : Z;
  f_path : option (list Z); f_isPipe : bool; f_pipe : pipe }.
#[export] Instance eta_file : Eta file_info := fun f =>
  mkFile (f_ref f) (f_iptr f) (f_offset f) (f_prev_offset f) (f_access f) (f_path f)
    (f_isPipe f) (f_pipe f).
Definition file_zero : file_info := mkFile 0 None 0 0 0 None false pipe_zero.

(** Console input (console.c). *)
Definition INPUT_BUF : Z := 128.
Record input := mkInput { in_buf : list Z; in_r : Z; in_w : Z; in_e : Z }.
#[export] Instance eta_input : Eta input := fun i =>
  mkInput (in_buf i) (in_r i) (in_w i) (in_e i).

(** * The kernel state *)

Record kstate := mkK {
  k_cpu : cpu;                              (* cpus[0] *)
  k_spins : gmap spin_id spinlock;
  k_sleeps : gmap sleep_id sleeplock;
  k_ptable : list proc;                     (* ptable.proc *)
  k_cur : option nat;                       (* cpus[0].proc *)
  k_nextpid : Z;
  k_initproc : option nat;
  k_kmem : kmem;
  k_pages : gmap Z page;                    (* physical page number -> contents *)
  k_cr3 : Z;                                (* the installed page table *)
  k_kpml4 : Z;
  k_bufs : list buf;                        (* bcache.buf *)
  k_bhead : bptr * bptr;                    (* bcache.head.prev, .next *)
  k_disk : gmap Z (list Z);                 (* block -> 512 bytes; absent: zeroes *)
  k_idequeue : list nat;                    (* idequeue, linked by qnext *)
  k_ata : list (Z * Z);                     (* the ports written by the last disk command *)
  k_havedisk1 : bool;
  k_sb : superblock;
  k_inodes : list inode;                    (* icache.inode *)
  k_inodefile : inode;                      (* icache.inodefile *)
  k_ftable : list file_info;
  k_input : input;
  k_out : list Z;                           (* what consputc has been given *)
  k_ticks : Z;
  k_crashn_enable : bool; k_crashn : Z;
  k_num_disk_reads : Z; k_num_page_faults : Z;
  k_first : bool;                           (* [first] of forkret *)
  k_end : Z; k_data : Z }.                  (* the linker's _end and data *)
#[export] Instance eta_kstate : Eta kstate := fun s =>
  mkK (k_cpu s) (k_spins s) (k_sleeps s) (k_ptable s) (k_cur s) (k_nextpid s) (k_initproc s)
    (k_kmem s) (k_pages s) (k_cr3 s) (k_kpml4 s) (k_bufs s) (k_bhead s) (k_disk s)
    (k_idequeue s) (k_ata s) (k_havedisk1 s) (k_sb s) (k_inodes s) (k_inodefile s) (k_ftable s)
    (k_input s) (k_out s) (k_ticks s) (k_crashn_enable s) (k_crashn s) (k_num_disk_reads s)
    (k_num_page_faults s) (k_first s) (k_end s) (k_data s).

(** Two states are equal if they agree on every field.  [kext] leaves the fields that do not
    agree by computation. *)
Lemma kstate_ext (s s' : kstate) :
  k_cpu s = k_cpu s' ->
  k_spins s = k_spins s' ->
  k_sleeps s = k_sleeps s' ->
  k_ptable s = k_ptable s' ->
  k_cur s = k_cur s' ->
  k_nextpid s = k_nextpid s' ->
  k_initproc s = k_initproc s' ->
  k_kmem s = k_kmem s' ->
  k_pages s = k_pages s' ->
  k_cr3 s = k_cr3 s' ->
  k_kpml4 s = k_kpml4 s' ->
  k_bufs s = k_bufs s' ->
  k_bhead s = k_bhead s' ->
  k_disk s = k_disk s' ->
  k_idequeue s = k_idequeue s' ->
  k_ata s = k_ata s' ->
  k_havedisk1 s = k_havedisk1 s' ->
  k_sb s = k_sb s' ->
  k_inodes s = k_inodes s' ->
  k_inodefile s = k_inodefile s' ->
  k_ftable s = k_ftable s' ->
  k_input s = k_input s' ->
  k_out s = k_out s' ->
  k_ticks s = k_ticks s' ->
  k_crashn_enable s = k_crashn_enable s' ->
  k_crashn s = k_crashn s' ->
  k_num_disk_reads s = k_num_disk_reads s' ->
  k_num_page_faults s = k_num_page_faults s' ->
  k_first s = k_first s' ->
  k_end s = k_end s' ->
  k_data s = k_data s' -> s = s'.
Proof. destruct s, s'; simpl; intros; by subst. Qed.
Ltac kext := apply kstate_ext; try reflexivity.

Abbreviation K := (M kstate).

(** Changing one element of an array held in the state. *)
Abbreviation upd_at i f := (alter f i) (only parsing).

(** The globals as the loader leaves them: zeroed, but for nextpid, [first] of forkret and
    rand's [next]. *)
Definition bss : kstate :=
  mkK (mkCpu 0 false false) ∅ ∅ (replicate NPROC proc_zero) None 1 None
    (mkKmem 0 [] 0 0 0 false 1) ∅ 0 0 (replicate NBUF buf_zero) (BHead, BHead) ∅ [] [] false
    (mkSb 0 0 0 0) (replicate NINODE inode_zero) inode_zero (replicate NFILE file_zero)
    (mkInput (replicate (Z.to_nat INPUT_BUF) 0) 0 0 0) [] 0 false 0 0 0 true 0 0.
