(* ===== verification/Locks.v ===== *)
(** Spin locks (kernel/spinlock.c) and interrupt nesting. *)
From S2P Require Import Prelude Kstate.

Definition spin (s : kstate) (l : spin_id) : spinlock := default spin_free (k_spins s !! l).
Definition put_spin (l : spin_id) (v : spinlock) (m : gmap spin_id spinlock) :
    gmap spin_id spinlock :=
  if decide (v = spin_free) then delete l m else <[l := v]> m.

Arguments put_spin : simpl never.

Definition cli : K unit := modify (fun s => s <| k_cpu ::= fun c => c <| eflags_IF := false |> |>).
Definition sti : K unit := modify (fun s => s <| k_cpu ::= fun c => c <| eflags_IF := true |> |>).

Definition pushcli : K unit :=
  eflags <- gets (fun s => eflags_IF (k_cpu s));
  cli;;
  n <- gets (fun s => ncli (k_cpu s));
  when (n =? 0) (modify (fun s => s <| k_cpu ::= fun c => c <| intena := eflags |> |>));;
  modify (fun s => s <| k_cpu ::= fun c => c <| ncli := ncli c + 1 |> |>).

Definition popcli : K unit :=
  eflags <- gets (fun s => eflags_IF (k_cpu s));
  if eflags then panic "popcli - interruptible" else
  modify (fun s => s <| k_cpu ::= fun c => c <| ncli := ncli c - 1 |> |>);;
  c <- gets k_cpu;
  if ncli c <? 0 then panic "popcli" else
  when ((ncli c =? 0) && intena c) sti.

Definition holding (l : spin_id) : K bool :=
  gets (fun s => lk_locked (spin s l) && lk_cpu (spin s l)).

Definition initlock (l : spin_id) : K unit :=
  modify (fun s => s <| k_spins ::= put_spin l spin_free |>).

(** The spin on xchg never ends when another cpu holds the lock: there is none. *)
Definition acquire (l : spin_id) : K unit :=
  pushcli;;
  h <- holding l;
  if h then panic "acquire" else
  old <- gets (fun s => lk_locked (spin s l));
  if old then hang else
  modify (fun s => s <| k_spins ::= put_spin l (mkSpin true (lk_cpu (spin s l))) |>);;
  modify (fun s => s <| k_spins ::= put_spin l (mkSpin (lk_locked (spin s l)) true) |>).

Definition release (l : spin_id) : K unit :=
  h <- holding l;
  if h then
    modify (fun s => s <| k_spins ::= put_spin l (mkSpin (lk_locked (spin s l)) false) |>);;
    modify (fun s => s <| k_spins ::= put_spin l (mkSpin false (lk_cpu (spin s l))) |>);;
    popcli
  else panic "release".

(** * Facts about a lock taken and given back *)

(** The state while [l] is held on top of [s]. *)
Definition locked (l : spin_id) (s : kstate) : kstate :=
  s <| k_cpu := mkCpu (ncli (k_cpu s) + 1)
         (if ncli (k_cpu s) =? 0 then eflags_IF (k_cpu s) else intena (k_cpu s)) false |>
    <| k_spins := <[l := mkSpin true true]> (k_spins s) |>.

(** No lock is in the state between taken and owned; interrupts are off exactly
    where a lock nesting needs them. *)
Definition cpu_wf (c : cpu) : Prop := 0 <= ncli c /\ (0 < ncli c -> eflags_IF c = false).

Lemma kstate_eta (s : kstate) : s = eta s.
Proof. by destruct s. Qed.
Lemma cpu_eta (c : cpu) : c = eta c.
Proof. by destruct c. Qed.

Lemma put_spin_insert l v m : v <> spin_free -> put_spin l v m = <[l := v]> m.
Proof. intros. unfold put_spin. by rewrite decide_False. Qed.

Lemma pushcli_run s :
  pushcli s = Ok tt (s <| k_cpu := mkCpu (ncli (k_cpu s) + 1)
    (if ncli (k_cpu s) =? 0 then eflags_IF (k_cpu s) else intena (k_cpu s)) false |>).
Proof.
  unfold pushcli, bind, cli, gets, modify, when. simpl.
  by destruct (ncli (k_cpu s) =? 0).
Qed.

Lemma acquire_free l s :
  k_spins s !! l = None -> acquire l s = Ok tt (locked l s).
Proof.
  intros H. unfold acquire. rewrite (bind_run _ _ _ _ _ (pushcli_run s)).
  unfold holding, bind, gets, modify, spin. simpl. repeat (rewrite H; simpl).
  rewrite (put_spin_insert l _ (k_spins s)), lookup_insert_eq by done. simpl.
  unfold locked, set. simpl. by rewrite !put_spin_insert, insert_insert_eq by done.
Qed.

Lemma acquire_held l s :
  k_spins s !! l = Some (mkSpin true true) -> acquire l s = Panic "acquire".
Proof.
  intros H. unfold acquire. rewrite (bind_run _ _ _ _ _ (pushcli_run s)).
  unfold holding, bind, gets, spin. simpl. by rewrite H.
Qed.

Lemma popcli_run s :
  eflags_IF (k_cpu s) = false -> 0 < ncli (k_cpu s) ->
  popcli s = Ok tt (s <| k_cpu := mkCpu (ncli (k_cpu s) - 1) (intena (k_cpu s))
    ((ncli (k_cpu s) =? 1) && intena (k_cpu s)) |>).
Proof.
  intros HIF Hn. unfold popcli, bind, sti, gets, modify, when. simpl. rewrite HIF. simpl.
  destruct (Z.ltb_spec (ncli (k_cpu s) - 1) 0); [lia|].
  destruct (Z.eqb_spec (ncli (k_cpu s) - 1) 0), (Z.eqb_spec (ncli (k_cpu s)) 1);
    try lia; simpl; destruct (intena (k_cpu s)) eqn:E; unfold set; simpl;
    rewrite ?HIF, ?E; done.
Qed.

Lemma release_run l s :
  k_spins s !! l = Some (mkSpin true true) ->
  release l s = popcli (s <| k_spins ::= delete l |>).
Proof.
  intros H. unfold release, holding, bind, gets, modify, spin. simpl.
  repeat (rewrite H; simpl).
  rewrite (put_spin_insert l _ (k_spins s)), lookup_insert_eq by done. simpl.
  f_equal. unfold set. simpl. rewrite (put_spin_insert l (mkSpin true false)) by done.
  unfold put_spin.
  rewrite decide_True by done.
  rewrite delete_insert_eq. done.
Qed.

Lemma release_free l s : k_spins s !! l = None -> release l s = Panic "release".
Proof. intros H. unfold release, holding, bind, gets, spin. simpl. by rewrite H. Qed.

(** Every critical section of the kernel has this shape: run [body] with the lock
    held.  If the body changes neither the locks nor the cpu, the section as a
    whole is the body plus the effect on [intena]. *)
Definition touch (c : cpu) : cpu :=
  mkCpu (ncli c) (if ncli c =? 0 then eflags_IF c else intena c) (eflags_IF c).
Definition relock (s0 s : kstate) : kstate :=
  s <| k_cpu := touch (k_cpu s0) |> <| k_spins := k_spins s0 |>.

Lemma touch_idemp c : touch (touch c) = touch c.
Proof. unfold touch. simpl. by destruct (ncli c =? 0). Qed.
Lemma cpu_wf_touch c : cpu_wf c -> cpu_wf (touch c).
Proof. done. Qed.
#[export] Hint Rewrite touch_idemp : xk.
#[export] Hint Resolve cpu_wf_touch : xk.

Lemma release_locked l s0 s :
  k_spins s0 !! l = None -> cpu_wf (k_cpu s0) ->
  k_cpu s = k_cpu (locked l s0) -> k_spins s = k_spins (locked l s0) ->
  release l s = Ok tt (relock s0 s).
Proof.
  intros Hl [Hn Hif] Hc Hs.
  rewrite release_run by (rewrite Hs; apply lookup_insert_eq).
  rewrite popcli_run by (simpl; rewrite Hc; simpl; done || lia).
  f_equal. unfold relock, touch, set. simpl. rewrite Hc, Hs. simpl.
  rewrite delete_insert_id by done.
  rewrite Z.add_simpl_r. destruct (Z.eqb_spec (ncli (k_cpu s0)) 0) as [E|E].
  - rewrite E. done.
  - destruct (Z.eqb_spec (ncli (k_cpu s0) + 1) 1); [lia|]. rewrite Hif by lia. done.
Qed.

(** A critical section whose body leaves the locks alone. *)
Lemma critical {A B} l (body : K A) (k : A -> K B) s a s' :
  k_spins s !! l = None -> cpu_wf (k_cpu s) ->
  body (locked l s) = Ok a s' ->
  k_cpu s' = k_cpu (locked l s) -> k_spins s' = k_spins (locked l s) ->
  (acquire l;; x <- body; release l;; k x) s = k a (relock s s').
Proof.
  intros Hl Hc Hb H1 H2.
  rewrite (bind_run _ _ _ _ _ (acquire_free l s Hl)).
  rewrite (bind_run _ _ _ _ _ Hb).
  by rewrite (bind_run _ _ _ _ _ (release_locked l s s' Hl Hc H1 H2)).
Qed.

Lemma cpu_wf_locked l s : cpu_wf (k_cpu s) -> cpu_wf (k_cpu (locked l s)).
Proof. intros [H _]. split; simpl; [lia|done]. Qed.

(** * Properly nested critical sections *)

Inductive lock_op := Acq (l : spin_id) | Rel (l : spin_id).
Definition run_op (o : lock_op) : K unit :=
  match o with Acq l => acquire l | Rel l => release l end.
Fixpoint run_ops (os : list lock_op) : K unit :=
  match os with [] => ret tt | o :: os => run_op o;; run_ops os end.

(** [nested H os]: in [os], each lock outside [H] is taken and given back in a
    stack discipline, and no lock is taken twice. *)
Inductive nested : gset spin_id -> list lock_op -> Prop :=
| nested_nil H : nested H []
| nested_cs H l inner rest :
    l ∉ H -> nested ({[l]} ∪ H) inner -> nested H rest ->
    nested H (Acq l :: inner ++ Rel l :: rest).

Lemma run_ops_app a b s : run_ops (a ++ b) s = (run_ops a;; run_ops b) s.
Proof.
  revert s. induction a as [|o a IH]; intros s; simpl; [done|].
  unfold bind. destruct (run_op o s); auto.
Qed.

(** [s'] is [s] up to the saved interrupt flag of an idle cpu. *)
Definition same_but_intena (s s' : kstate) : Prop :=
  exists i, s' = s <| k_cpu := mkCpu (ncli (k_cpu s)) i (eflags_IF (k_cpu s)) |> /\
            (0 < ncli (k_cpu s) -> i = intena (k_cpu s)).

Lemma same_but_intena_refl s : same_but_intena s s.
Proof. exists (intena (k_cpu s)). split; [|done]. destruct s as [[] ]. done. Qed.
Lemma same_but_intena_trans s1 s2 s3 :
  same_but_intena s1 s2 -> same_but_intena s2 s3 -> same_but_intena s1 s3.
Proof. intros (i & -> & Hi) (j & -> & Hj). exists j. simpl in *.
  split; [done|]. intros. rewrite Hj, Hi by done. done. Qed.

(** C12: nested critical sections run to the end: no panic, no lock left held,
    interrupts back as they were. *)
Theorem nested_sections_restore H os s :
  nested H os -> dom (k_spins s) = H -> cpu_wf (k_cpu s) ->
  exists s', run_ops os s = Ok tt s' /\ same_but_intena s s'.
Proof.
  intros Hn. revert s. induction Hn as [H|H l inner rest Hl _ IHi _ IHr]; intros s Hd Hc.
  { exists s. split; [done|apply same_but_intena_refl]. }
  assert (k_spins s !! l = None) as HlN by (apply not_elem_of_dom; by rewrite Hd).
  cbn [run_ops run_op]. rewrite (bind_run _ _ _ _ _ (acquire_free l s HlN)).
  destruct (IHi (locked l s)) as (s1 & Hr & i & -> & Hi).
  { simpl. by rewrite dom_insert_L, Hd. }
  { by apply cpu_wf_locked. }
  rewrite run_ops_app, (bind_run _ _ _ _ _ Hr). cbn [run_ops run_op].
  rewrite (bind_run _ _ _ tt (relock s s)).
  2:{ rewrite (release_locked l s) by (done || simpl; rewrite Hi by (simpl; destruct Hc; lia); done).
      done. }
  destruct (IHr (relock s s)) as (s2 & Hr2 & Hs2); [done| |].
  { destruct Hc as [? Hif]. split; simpl; [done|]. auto. }
  exists s2. split; [done|]. eapply same_but_intena_trans; [|done].
  eexists. split; [unfold relock, set; simpl; done|]. intros.
  destruct (Z.eqb_spec (ncli (k_cpu s)) 0); [lia|done].
Qed.

Definition can_lock (l : spin_id) (s : kstate) : Prop :=
  k_spins s !! l = None /\ cpu_wf (k_cpu s).

Lemma can_lock_locked l l' s s' :
  l <> l' -> can_lock l' s ->
  k_spins s' = k_spins (locked l s) -> k_cpu s' = k_cpu (locked l s) -> can_lock l' s'.
Proof.
  intros Hl [H1 H2] Hs Hc. split.
  - rewrite Hs. simpl. by rewrite lookup_insert_ne.
  - rewrite Hc. by apply cpu_wf_locked.
Qed.

Lemma nested_sections_restore_witness :
  exists s', run_ops [Acq LkIcache; Acq LkPtable; Rel LkPtable; Rel LkIcache] bss = Ok tt s' /\
    same_but_intena bss s'.
Proof.
  apply (nested_sections_restore ∅).
  - apply (nested_cs ∅ LkIcache [Acq LkPtable; Rel LkPtable] []); [set_solver| |constructor].
    apply (nested_cs _ LkPtable [] []); [set_solver|constructor..].
  - reflexivity.
  - split; simpl; lia.
Defined.
