(* ===== verification/Kalloc.v ===== *)
(** The physical page allocator, kernel/kalloc.c. *)
From S2P Require Import Prelude Kstate Locks.

Definition sizeof_cme : Z := 24.

(** [pa2page]: the index in core_map of the entry of the page at [pa]. *)
Definition pa2page (pa : Z) : K nat :=
  n <- gets (fun s => npages (k_kmem s));
  if u64 n <=? PGNUM pa then panic "pa2page called with invalid pa"
  else ret (Z.to_nat (PGNUM pa)).
Definition page2pa (i : nat) : Z := u64 (Z.shiftl (Z.of_nat i) PT_SHIFT).

Definition cme_at (i : nat) : K core_map_entry :=
  o <- gets (fun s => core_map (k_kmem s) !! i); deref o.
Definition cme_mod (i : nat) (f : core_map_entry -> core_map_entry) : K unit :=
  modify (fun s => s <| k_kmem ::= fun k => k <| core_map ::= upd_at i f |> |>).
Definition kmem_mod (f : kmem -> kmem) : K unit := modify (fun s => s <| k_kmem ::= f |>).

(** memset(v, c, PGSIZE) on a page. *)
Definition page_memset (v c : Z) : K unit :=
  modify (fun s => s <| k_pages ::= <[PGNUM (V2P v) := page_fill c]> |>).

(** * Memory detection *)

Record e820_entry := mkE820 { e_addr : Z; e_len : Z }.
Definition mem_max : Z := u64 (- KERNBASE).
Fixpoint detect_scan (es : list e820_entry) (mem : Z) : Z :=
  match es with
  | [] => mem
  | e :: es =>
      if mem_max <=? e_addr e then detect_scan es mem
      else detect_scan es (Z.max mem (u64 (e_addr e + e_len e)))
  end.
Definition detect_memory (es : list e820_entry) : K unit :=
  let mem := Z.min (detect_scan es 0) mem_max in
  kmem_mod (fun k => k <| npages := s32 (mem / PGSIZE) |>).

(** * Allocation and release *)

Definition acquire_core_map_lock : K unit :=
  ul <- gets (fun s => use_lock (k_kmem s)); when ul (acquire LkKmem).
Definition release_core_map_lock : K unit :=
  ul <- gets (fun s => use_lock (k_kmem s)); when ul (release LkKmem).

(** The part of [kfree] between the locks. *)
Definition kfree_body (v : Z) : K unit :=
  i <- pa2page (V2P v);
  r <- cme_at i;
  when (0 <? ref_count r) (cme_mod i (fun r => r <| ref_count := ref_count r - 1 |>));;
  r <- cme_at i;
  when (ref_count r =? 0)
    (kmem_mod (fun k => k <| pages_in_use := pages_in_use k - 1 |>
                          <| free_pages := free_pages k + 1 |>);;
     page_memset v 2;;
     cme_mod i (fun r => r <| available := 1 |> <| cme_user := 0 |> <| cme_va := 0 |>
                           <| ref_count := 0 |>)).

Definition kfree (v : Z) : K unit :=
  s <- get;
  if negb (v mod PGSIZE =? 0) || (v <? k_end s)
     || (u64 (s32 (npages (k_kmem s) * PGSIZE)) <=? V2P v)
  then panic "kfree" else
  when (use_lock (k_kmem s)) (acquire LkKmem);;
  kfree_body v;;
  when (use_lock (k_kmem s)) (release LkKmem).

Definition mark_user_mem (pa va : Z) : K unit :=
  i <- pa2page pa;
  cme_mod i (fun r => r <| cme_user := 1 |> <| cme_va := va |>).
Definition mark_kernel_mem (pa : Z) : K unit :=
  i <- pa2page pa;
  cme_mod i (fun r => r <| cme_user := 0 |> <| cme_va := 0 |>).

(** The scan of [kalloc] from index [i], with [fuel] entries left. *)
Fixpoint kalloc_scan (fuel i : nat) : K Z :=
  match fuel with
  | O => ret 0
  | S fuel =>
      r <- cme_at i;
      if available r =? 1 then
        cme_mod i (fun r => r <| available := 0 |>);;
        cme_mod i (fun r => r <| ref_count := 1 |>);;
        kmem_mod (fun k => k <| pages_in_use := pages_in_use k + 1 |>
                              <| free_pages := free_pages k - 1 |>);;
        ret (P2V (page2pa i))
      else kalloc_scan fuel (S i)
  end.
Definition kalloc : K Z :=
  s <- get;
  when (use_lock (k_kmem s)) (acquire LkKmem);;
  p <- kalloc_scan (Z.to_nat (npages (k_kmem s))) 0;
  when (use_lock (k_kmem s)) (release LkKmem);;
  ret p.

(** * Boot *)

Fixpoint freerange_loop (fuel : nat) (p vend : Z) : K unit :=
  if vend <? p + PGSIZE then ret tt else
  match fuel with
  | O => hang
  | S fuel => kfree p;; freerange_loop fuel (p + PGSIZE) vend
  end.
(** At most npages pages lie between two kernel addresses below P2V(npages). *)
Definition freerange (vstart vend : Z) : K unit :=
  n <- gets (fun s => npages (k_kmem s));
  freerange_loop (S (Z.to_nat n)) (PGROUNDUP vstart) vend.

Definition setrand (seed : Z) : K unit := kmem_mod (fun k => k <| rand_next := seed |>).
Definition rand (limit : Z) : K Z :=
  kmem_mod (fun k => k <| rand_next := u64 (rand_next k * 1103515245 + 12345) |>);;
  next <- gets (fun s => rand_next (k_kmem s));
  ret (s32 (u32 (next / 65536) mod u32 limit)).

Fixpoint get_random_user_page_loop (x : nat) : K nat :=
  match x with
  | O => panic "Tried 100 random indices for random user page, all failed"
  | S x =>
      n <- gets (fun s => npages (k_kmem s));
      i <- rand n;
      r <- cme_at (Z.to_nat i);
      if negb (cme_va r =? 0) then ret (Z.to_nat i) else get_random_user_page_loop x
  end.
Definition get_random_user_page : K nat := get_random_user_page_loop 100.

(** mem_init: the core map is placed at [vstart] and zeroed. *)
Definition mem_init (vstart : Z) : K unit :=
  n <- gets (fun s => npages (k_kmem s));
  kmem_mod (fun k => k <| core_map := replicate (Z.to_nat n) (mkCme 0 0 0 0) |>);;
  let vstart := u64 (vstart + PGROUNDUP (n * sizeof_cme)) in
  initlock LkKmem;;
  kmem_mod (fun k => k <| use_lock := false |>);;
  let vend := P2V (u64 (s32 (n * PGSIZE))) in
  freerange vstart vend;;
  kmem_mod (fun k => k <| free_pages := s32 (Z.shiftr (vend - vstart) PT_SHIFT) |>
                       <| pages_in_use := 0 |> <| pages_in_swap := 0 |> <| use_lock := true |>);;
  setrand 1.

(** * Addresses of pages *)

(** The kernel virtual address of physical page [n]; pages fit in the 2GB above
    KERNBASE. *)
Definition kva (n : Z) : Z := KERNBASE + PGSIZE * n.
Definition PAGES_MAX : Z := 0x80000.

Lemma P2V_page2pa i : Z.of_nat i < PAGES_MAX -> P2V (page2pa i) = kva (Z.of_nat i).
Proof.
  intros H. unfold P2V, page2pa, kva, u64, PGSIZE, PT_SHIFT, KERNBASE, PAGES_MAX in *.
  rewrite Z.shiftl_mul_pow2 by lia. rewrite (Z.mod_small (Z.of_nat i * _)) by lia.
  rewrite Z.mod_small; lia.
Qed.
Lemma V2P_kva n : 0 <= n < PAGES_MAX -> V2P (kva n) = PGSIZE * n.
Proof.
  intros H. unfold V2P, kva, u64, PGSIZE, KERNBASE, PAGES_MAX in *. rewrite Z.mod_small; lia.
Qed.
Lemma PGNUM_pa n : 0 <= n < PAGES_MAX -> PGNUM (PGSIZE * n) = n.
Proof.
  intros H. unfold PGNUM, u64, PGSIZE, PT_SHIFT, PAGES_MAX in *.
  rewrite Z.shiftr_div_pow2, Z.mod_small by lia. rewrite Z.mul_comm, Z.div_mul; lia.
Qed.
Lemma PGNUM_V2P_kva n : 0 <= n < PAGES_MAX -> PGNUM (V2P (kva n)) = n.
Proof. intros H. by rewrite V2P_kva, PGNUM_pa. Qed.
Lemma kva_aligned n : kva n mod PGSIZE = 0.
Proof.
  unfold kva, KERNBASE, PGSIZE.
  replace (_ + _) with ((0xFFFFFFFF80000 + n) * 4096) by lia. apply Z.mod_mul. lia.
Qed.
Lemma kva_inj a b : kva a = kva b -> a = b.
Proof. unfold kva, PGSIZE. lia. Qed.

(** * The allocator without its lock: the specification *)

Definition is_free (r : core_map_entry) : bool := available r =? 1.
Definition in_use (r : core_map_entry) : bool := 0 <? ref_count r.

Fixpoint first_free (l : list core_map_entry) : option nat :=
  match l with
  | [] => None
  | r :: l => if is_free r then Some 0%nat else S <$> first_free l
  end.

Definition kalloc_km (k : kmem) : Z * kmem :=
  match first_free (core_map k) with
  | None => (0, k)
  | Some i =>
      (kva (Z.of_nat i),
       k <| core_map ::= upd_at i (fun r => r <| available := 0 |> <| ref_count := 1 |>) |>
         <| pages_in_use := pages_in_use k + 1 |> <| free_pages := free_pages k - 1 |>)
  end.

Definition kfree_km (i : nat) (r : core_map_entry) (k : kmem) : kmem :=
  if 1 <? ref_count r
  then k <| core_map ::= upd_at i (fun r => r <| ref_count := ref_count r - 1 |>) |>
  else k <| core_map ::= upd_at i (fun _ => mkCme 1 0 0 0) |>
         <| pages_in_use := pages_in_use k - 1 |> <| free_pages := free_pages k + 1 |>.

(** The allocator's invariant. *)
Definition cme_wf (r : core_map_entry) : Prop :=
  (available r = 0 \/ available r = 1) /\ 0 <= ref_count r /\
  (available r = 1 -> ref_count r = 0).
Record kmem_wf (k : kmem) : Prop := {
  wf_npages : 0 <= npages k < PAGES_MAX;
  wf_len : Z.of_nat (length (core_map k)) = npages k;
  wf_entries : Forall cme_wf (core_map k);
  wf_free : free_pages k = cnt is_free (core_map k);
  wf_use : pages_in_use k = cnt in_use (core_map k) }.

Lemma first_free_spec l i :
  first_free l = Some i <->
  (exists r, l !! i = Some r /\ available r = 1) /\
  (forall j r, l !! j = Some r -> (j < i)%nat -> available r <> 1).
Proof.
  revert i. induction l as [|r l IH]; intros i; simpl.
  { split; [done|]. intros [(r & H & _) _]. by destruct i. }
  unfold is_free. destruct (Z.eqb_spec (available r) 1) as [E|E].
  - split.
    + intros [= <-]. split; [by exists r|lia].
    + intros [_ H]. destruct i as [|i]; [done|]. by destruct (H 0%nat r eq_refl); [lia|].
  - destruct i as [|i]; simpl.
    + split; [by destruct (first_free l)|]. intros [(r' & [= <-] & ?) _]. done.
    + rewrite fmap_Some. split.
      * intros (j & Hj & [= <-]). apply IH in Hj as [H1 H2]. split; [done|].
        intros [|j'] r' Hr' Hlt; simpl in *; [congruence|]. apply (H2 j'); [done|lia].
      * intros [H1 H2]. exists i. split; [|done]. apply IH. split; [done|].
        intros j r' Hr' Hlt. apply (H2 (S j) r'); [done|lia].
Qed.
Lemma first_free_None l : first_free l = None <-> cnt is_free l = 0.
Proof.
  induction l as [|r l IH]; simpl; [done|]. pose proof (cnt_nonneg is_free l).
  destruct (is_free r); simpl.
  - split; [done|lia].
  - rewrite fmap_None, IH. lia.
Qed.

Lemma upd_at_Forall {A} (P : A -> Prop) i f (l : list A) :
  Forall P l -> (forall x, l !! i = Some x -> P x -> P (f x)) -> Forall P (upd_at i f l).
Proof.
  intros H Hf. apply Forall_lookup. intros j y.
  destruct (decide (i = j)) as [->|Hne].
  - rewrite list_lookup_alter_eq. destruct (l !! j) as [x|] eqn:E; [|done].
    intros [= <-]. apply Hf; [done|]. by eapply Forall_lookup_1.
  - rewrite list_lookup_alter_ne by done. intros E. by eapply Forall_lookup_1.
Qed.

Lemma kalloc_km_wf k : kmem_wf k -> kmem_wf (snd (kalloc_km k)).
Proof.
  intros W. unfold kalloc_km. destruct (first_free (core_map k)) as [i|] eqn:E; [|done].
  apply first_free_spec in E as [(r & Hr & Ha) _]. destruct W as [W1 W2 W3 W4 W5].
  assert (cme_wf r) as (_ & _ & Hz) by (by eapply Forall_lookup_1).
  constructor; simpl; [done| | | |].
  - by rewrite length_alter.
  - apply upd_at_Forall; [done|]. intros x _ _. unfold cme_wf. simpl. lia.
  - rewrite (cnt_alter _ _ _ _ r), W4 by done.
    unfold is_free. simpl. rewrite Ha. simpl. lia.
  - rewrite (cnt_alter _ _ _ _ r), W5 by done.
    unfold in_use. simpl. rewrite Hz by done. simpl. lia.
Qed.

Lemma kfree_km_wf k i r :
  kmem_wf k -> core_map k !! i = Some r -> 0 < ref_count r -> kmem_wf (kfree_km i r k).
Proof.
  intros [W1 W2 W3 W4 W5] Hr Hpos. unfold kfree_km.
  assert (cme_wf r) as (Ha & _ & Hz) by (by eapply Forall_lookup_1).
  destruct (Z.ltb_spec 1 (ref_count r)); constructor; simpl; try done;
    try (by rewrite length_alter).
  - apply upd_at_Forall; [done|]. intros x Hx (? & ? & ?). simplify_eq.
    unfold cme_wf. simpl. split; [done|]. split; [lia|]. intros. lia.
  - rewrite (cnt_alter _ _ _ _ r), W4 by done. unfold is_free. simpl. lia.
  - rewrite (cnt_alter _ _ _ _ r), W5 by done. unfold in_use. simpl.
    zcase; lia.
  - apply upd_at_Forall; [done|]. intros. unfold cme_wf. simpl. lia.
  - rewrite (cnt_alter _ _ _ _ r), W4 by done. unfold is_free. simpl.
    zcase; lia.
  - rewrite (cnt_alter _ _ _ _ r), W5 by done. unfold in_use. simpl.
    zcase; lia.
Qed.

(** * The code runs the specification *)

Lemma kalloc_scan_run fuel i s :
  (i + fuel)%nat = length (core_map (k_kmem s)) ->
  Z.of_nat (length (core_map (k_kmem s))) <= PAGES_MAX ->
  kalloc_scan fuel i s =
    match first_free (drop i (core_map (k_kmem s))) with
    | None => Ok 0 s
    | Some j => Ok (kva (Z.of_nat (i + j))) (s <| k_kmem ::= fun k =>
        k <| core_map ::= upd_at (i + j)%nat (fun r => r <| available := 0 |> <| ref_count := 1 |>) |>
          <| pages_in_use := pages_in_use k + 1 |> <| free_pages := free_pages k - 1 |> |>)
    end.
Proof.
  revert i. induction fuel as [|fuel IH]; intros i Hi Hm; cbn [kalloc_scan].
  { rewrite drop_ge by lia. done. }
  destruct (lookup_lt_is_Some_2 (core_map (k_kmem s)) i) as [r Hr]; [lia|].
  rewrite (drop_S _ r) by done. cbn [first_free].
  unfold cme_at. unfold bind at 1 2, gets, deref. rewrite Hr. simpl. unfold ret, is_free.
  destruct (available r =? 1).
  - unfold cme_mod, kmem_mod, bind, modify. rewrite Nat.add_0_r, P2V_page2pa by lia.
    f_equal. unfold set; simpl. by rewrite list_alter_alter_eq.
  - rewrite IH by lia. destruct (first_free (drop (S i) _)); simpl; [|done].
    replace (i + S n)%nat with (S i + n)%nat by lia. done.
Qed.

Lemma kalloc_run s :
  kmem_wf (k_kmem s) -> use_lock (k_kmem s) = true -> can_lock LkKmem s ->
  kalloc s = Ok (fst (kalloc_km (k_kmem s)))
    (s <| k_kmem := snd (kalloc_km (k_kmem s)) |> <| k_cpu ::= touch |>).
Proof.
  intros W Hu [Hl Hc]. unfold kalloc, when. mrun. rewrite Hu.
  destruct W as [W1 W2 _ _ _].
  pose proof (kalloc_scan_run (Z.to_nat (npages (k_kmem s))) 0 (locked LkKmem s)
    ltac:(simpl; lia) ltac:(simpl; unfold PAGES_MAX in *; lia)) as Hs.
  rewrite drop_0 in Hs. cbn [k_kmem locked] in Hs. unfold kalloc_km.
  change (core_map (k_kmem (locked LkKmem s))) with (core_map (k_kmem s)) in Hs.
  destruct (first_free (core_map (k_kmem s))) as [j|];
    rewrite (critical LkKmem _ _ s _ _ Hl Hc Hs) by done; done.
Qed.

(** Entry [i] is a page of the core map that the kernel image does not occupy. *)
Definition page_at (s : kstate) (i : nat) (r : core_map_entry) : Prop :=
  core_map (k_kmem s) !! i = Some r /\ k_end s <= kva (Z.of_nat i).

(** What [kfree] of page [i] with entry [r] leaves. *)
Definition kfree_st (i : nat) (r : core_map_entry) (s : kstate) : kstate :=
  s <| k_kmem ::= kfree_km i r |>
    <| k_pages ::= if 1 <? ref_count r then id else <[Z.of_nat i := page_fill 2]> |>.

Lemma kfree_body_run s i r :
  0 <= npages (k_kmem s) < PAGES_MAX ->
  Z.of_nat (length (core_map (k_kmem s))) = npages (k_kmem s) ->
  core_map (k_kmem s) !! i = Some r -> 0 <= ref_count r ->
  kfree_body (kva (Z.of_nat i)) s = Ok tt (kfree_st i r s).
Proof.
  intros Hn Hlen Hr Hpos. pose proof (lookup_lt_Some _ _ _ Hr) as Hi.
  unfold kfree_body, pa2page, page_memset, cme_at, cme_mod, kmem_mod. mred.
  rewrite PGNUM_V2P_kva, Nat2Z.id by (unfold PAGES_MAX in *; lia).
  unfold u64. rewrite Z.mod_small by (unfold PAGES_MAX in *; lia).
  destruct (Z.leb_spec (npages (k_kmem s)) (Z.of_nat i)); [lia|].
  rewrite Hr. simpl. unfold kfree_st, kfree_km.
  destruct (Z.ltb_spec 0 (ref_count r)); simpl;
    [rewrite list_lookup_alter_eq|]; rewrite Hr; simpl.
  - destruct (Z.eqb_spec (ref_count r - 1) 0), (Z.ltb_spec 1 (ref_count r)); try lia; f_equal;
      unfold set; simpl; rewrite ?list_alter_alter_eq; done.
  - destruct (Z.eqb_spec (ref_count r) 0), (Z.ltb_spec 1 (ref_count r)); try lia. f_equal.
Qed.

Lemma kfree_run s i r :
  0 <= npages (k_kmem s) < PAGES_MAX ->
  Z.of_nat (length (core_map (k_kmem s))) = npages (k_kmem s) ->
  page_at s i r -> 0 <= ref_count r ->
  (use_lock (k_kmem s) = true -> can_lock LkKmem s) ->
  kfree (kva (Z.of_nat i)) s =
    Ok tt (kfree_st i r s <| k_cpu ::= if use_lock (k_kmem s) then touch else id |>).
Proof.
  intros Hn Hlen [Hr Hend] Hpos Hl. pose proof (lookup_lt_Some _ _ _ Hr) as Hi.
  unfold kfree. mrun.
  rewrite kva_aligned, V2P_kva by (unfold PAGES_MAX in *; lia).
  destruct (Z.ltb_spec (kva (Z.of_nat i)) (k_end s)); [lia|].
  assert (u64 (s32 (npages (k_kmem s) * PGSIZE)) = npages (k_kmem s) * PGSIZE) as ->.
  { unfold u64, s32, PGSIZE, PAGES_MAX in *. rewrite (Z.mod_small (_ + 2^31)) by lia.
    rewrite Z.mod_small; lia. }
  destruct (Z.leb_spec (npages (k_kmem s) * PGSIZE) (PGSIZE * Z.of_nat i));
    [unfold PGSIZE in *; lia|]. cbn [negb orb Z.eqb].
  destruct (use_lock (k_kmem s)) eqn:Hu; simpl when.
  - destruct (Hl eq_refl) as [Hl1 Hl2].
    pose proof (kfree_body_run (locked LkKmem s) i r Hn Hlen Hr Hpos) as Hb.
    unfold when. step (acquire_free LkKmem s Hl1). step Hb.
    rewrite (release_locked LkKmem s _ Hl1 Hl2); done.
  - unfold when, bind, ret. rewrite (kfree_body_run s i r) by done. done.
Qed.

(** * Properties *)

(** C1: kalloc never fails but by returning 0, which it does exactly when no page is
    free; otherwise it hands out the lowest free page, which nobody references, with
    one reference, and the counters and the invariant stay right. *)
Theorem kalloc_correct s :
  kmem_wf (k_kmem s) -> use_lock (k_kmem s) = true -> can_lock LkKmem s ->
  exists p s', kalloc s = Ok p s' /\ kmem_wf (k_kmem s') /\ can_lock LkKmem s' /\
    (p = 0 /\ free_pages (k_kmem s) = 0 /\ k_kmem s' = k_kmem s \/
     exists i r, p = kva (Z.of_nat i) /\ core_map (k_kmem s) !! i = Some r /\
       available r = 1 /\ ref_count r = 0 /\
       (forall j r', core_map (k_kmem s) !! j = Some r' -> (j < i)%nat -> available r' <> 1) /\
       core_map (k_kmem s') =
         alter (fun r => r <| available := 0 |> <| ref_count := 1 |>) i (core_map (k_kmem s)) /\
       free_pages (k_kmem s') = free_pages (k_kmem s) - 1 /\
       pages_in_use (k_kmem s') = pages_in_use (k_kmem s) + 1).
Proof.
  intros W Hu Hl. rewrite kalloc_run by done.
  eexists _, _. split; [done|]. split; [by apply kalloc_km_wf|]. split; [done|].
  simpl. unfold kalloc_km. destruct (first_free (core_map (k_kmem s))) as [i|] eqn:E.
  - right. apply first_free_spec in E as [(r & Hr & Ha) Hlow]. exists i, r.
    assert (cme_wf r) as (_ & _ & Hz) by (eapply Forall_lookup_1; [apply W|done]).
    repeat split; auto.
  - left. apply first_free_None in E. by rewrite (wf_free _ W).
Qed.

(** C10: kfree of a referenced page drops one reference; only the last one frees the
    page, fills it with junk and moves it between the counters. *)
Theorem kfree_correct s i r :
  kmem_wf (k_kmem s) -> use_lock (k_kmem s) = true -> can_lock LkKmem s ->
  page_at s i r -> 0 < ref_count r ->
  exists s', kfree (kva (Z.of_nat i)) s = Ok tt s' /\ kmem_wf (k_kmem s') /\
    can_lock LkKmem s' /\
    (1 < ref_count r /\ k_pages s' = k_pages s /\
       core_map (k_kmem s') !! i = Some (r <| ref_count := ref_count r - 1 |>) /\
       free_pages (k_kmem s') = free_pages (k_kmem s) \/
     ref_count r = 1 /\ k_pages s' !! Z.of_nat i = Some (page_fill 2) /\
       core_map (k_kmem s') !! i = Some (mkCme 1 0 0 0) /\
       free_pages (k_kmem s') = free_pages (k_kmem s) + 1).
Proof.
  intros W Hu Hl Hp Hpos. pose proof Hp as [Hr _].
  rewrite (kfree_run s i r) by (done || apply W || lia). rewrite Hu.
  eexists. split; [done|]. split; [by apply kfree_km_wf|]. split; [done|].
  unfold kfree_st, kfree_km. simpl. destruct (Z.ltb_spec 1 (ref_count r)); simpl;
    [left|right]; rewrite list_lookup_alter_eq, Hr; simpl.
  - done.
  - split; [lia|]. split; [apply lookup_insert_eq|]. done.
Qed.

Lemma freerange_loop_run fuel s (k : nat) :
  use_lock (k_kmem s) = false ->
  0 <= npages (k_kmem s) < PAGES_MAX ->
  Z.of_nat (length (core_map (k_kmem s))) = npages (k_kmem s) ->
  k_end s <= kva (Z.of_nat k) ->
  (forall j r, core_map (k_kmem s) !! j = Some r -> (k <= j)%nat -> ref_count r = 0) ->
  (length (core_map (k_kmem s)) <= k + fuel)%nat ->
  (k <= length (core_map (k_kmem s)))%nat ->
  exists s', freerange_loop fuel (kva (Z.of_nat k)) (kva (npages (k_kmem s))) s = Ok tt s' /\
    core_map (k_kmem s') = take k (core_map (k_kmem s)) ++
      replicate (length (core_map (k_kmem s)) - k) (mkCme 1 0 0 0) /\
    npages (k_kmem s') = npages (k_kmem s) /\ k_cpu s' = k_cpu s /\ k_spins s' = k_spins s.
Proof.
  revert s k. induction fuel as [|fuel IH]; intros s k Hu Hn Hlen Hend Hz Hf Hk.
  - replace k with (length (core_map (k_kmem s))) by lia.
    exists s. rewrite Hlen. simpl.
    destruct (Z.ltb_spec (kva (npages (k_kmem s))) (kva (npages (k_kmem s)) + PGSIZE));
      [|unfold PGSIZE in *; lia].
    rewrite take_ge, Nat.sub_diag, app_nil_r by lia. done.
  - cbn [freerange_loop]. unfold kva at 1 2. destruct (Z.ltb_spec
      (KERNBASE + PGSIZE * npages (k_kmem s)) (KERNBASE + PGSIZE * Z.of_nat k + PGSIZE)).
    { exists s. replace k with (length (core_map (k_kmem s))) by (unfold PGSIZE in *; lia).
      rewrite take_ge, Nat.sub_diag, app_nil_r by lia. done. }
    destruct (lookup_lt_is_Some_2 (core_map (k_kmem s)) k) as [r Hr];
      [unfold PGSIZE in *; lia|].
    assert (ref_count r = 0) as Hr0 by (by eapply Hz).
    fold (kva (Z.of_nat k)).
    step (kfree_run s k r Hn Hlen (conj Hr Hend) ltac:(lia) ltac:(by rewrite Hu)).
    rewrite Hu. set (s1 := kfree_st k r s <| k_cpu ::= id |>).
    assert (core_map (k_kmem s1) = alter (fun _ => mkCme 1 0 0 0) k (core_map (k_kmem s))) as Hcm.
    { unfold s1, kfree_st, kfree_km. simpl. by rewrite Hr0. }
    assert (npages (k_kmem s1) = npages (k_kmem s)) as Hnp.
    { unfold s1, kfree_st, kfree_km. simpl. by rewrite Hr0. }
    assert (use_lock (k_kmem s1) = false) as Hu1.
    { unfold s1, kfree_st, kfree_km. simpl. by rewrite Hr0. }
    replace (kva (Z.of_nat k) + PGSIZE) with (kva (Z.of_nat (S k)))
      by (unfold kva, PGSIZE; lia).
    fold (kva (npages (k_kmem s))). rewrite <-Hnp.
    destruct (IH s1 (S k)) as (s' & Hrun & Hc & Hn' & Hcpu & Hsp); auto.
    + by rewrite Hnp.
    + by rewrite Hcm, length_alter, Hnp.
    + unfold s1, kfree_st. simpl. unfold kva, PGSIZE in *. lia.
    + intros j r' Hj Hle. rewrite Hcm, list_lookup_alter_ne in Hj by lia.
      eapply Hz; [done|lia].
    + rewrite Hcm, length_alter. lia.
    + rewrite Hcm, length_alter. apply lookup_lt_Some in Hr. lia.
    + exists s'. split; [done|]. rewrite Hc, Hn', Hnp, Hcpu, Hsp.
      split; [|done]. rewrite Hcm, length_alter, (take_S_r _ _ (mkCme 1 0 0 0)).
      2:{ by rewrite list_lookup_alter_eq, Hr. }
      rewrite take_alter_ge, <-app_assoc by lia. apply lookup_lt_Some in Hr.
      replace (length (core_map (k_kmem s)) - k)%nat
        with (S (length (core_map (k_kmem s)) - S k)) by lia. done.
Qed.

(** Rounding an address of kernel memory up to a page. *)
Lemma PGROUNDUP_kva v :
  KERNBASE <= v -> v + PGSIZE < 2^64 ->
  exists k : nat, PGROUNDUP v = kva (Z.of_nat k) /\ v <= kva (Z.of_nat k) < v + PGSIZE.
Proof.
  intros Hb Hv. exists (Z.to_nat ((v + PGSIZE - 1 - KERNBASE) / PGSIZE)).
  pose proof (Z.div_mod (v + PGSIZE - 1 - KERNBASE) PGSIZE).
  pose proof (Z.mod_pos_bound (v + PGSIZE - 1 - KERNBASE) PGSIZE).
  rewrite Z2Nat.id by (apply Z.div_pos; unfold PGSIZE; lia). split.
  - rewrite PGROUNDUP_eq. unfold u64. rewrite Z.mod_small by (unfold KERNBASE, PGSIZE in *; lia).
    unfold kva. replace (v + PGSIZE - 1) with (v + PGSIZE - 1 - KERNBASE + 0xFFFFFFFF80000 * PGSIZE)
      by (unfold KERNBASE, PGSIZE; lia).
    rewrite Z.div_add by done.
    replace (v + PGSIZE - 1 - KERNBASE + 0xFFFFFFFF80000 * PGSIZE - KERNBASE)
      with (v + PGSIZE - 1 - KERNBASE) by (unfold KERNBASE, PGSIZE; lia).
    unfold KERNBASE, PGSIZE; lia.
  - unfold kva, PGSIZE in *. lia.
Qed.
Lemma PGROUNDUP_nonneg v : 0 <= PGROUNDUP v.
Proof.
  rewrite PGROUNDUP_eq. unfold u64, PGSIZE. apply Z.mul_nonneg_nonneg; [lia|].
  apply Z.div_pos; [apply Z.mod_pos_bound|]; lia.
Qed.
(** The end of the memory, as freerange computes it in ints. *)
Lemma memory_end n : 0 <= n < PAGES_MAX -> P2V (u64 (s32 (n * PGSIZE))) = kva n.
Proof.
  intros H. unfold P2V, u64, s32, kva, PGSIZE, PAGES_MAX, KERNBASE in *.
  rewrite (Z.mod_small (n * 4096 + 2^31)) by lia. rewrite (Z.mod_small (_ - 2^31)) by lia.
  rewrite Z.mod_small; lia.
Qed.

(** C11: boot.  mem_init zeroes the core map behind the kernel image, frees every page
    from the first one after it, and leaves the counters and the invariant right. *)
Theorem mem_init_establishes s :
  0 <= npages (k_kmem s) < PAGES_MAX -> KERNBASE <= k_end s ->
  k_end s + PGROUNDUP (npages (k_kmem s) * sizeof_cme) + PGSIZE <= kva (npages (k_kmem s)) ->
  exists s' (k : nat), mem_init (k_end s) s = Ok tt s' /\ kmem_wf (k_kmem s') /\
    use_lock (k_kmem s') = true /\ k_spins s' !! LkKmem = None /\ k_cpu s' = k_cpu s /\
    core_map (k_kmem s') = replicate k (mkCme 0 0 0 0) ++
      replicate (Z.to_nat (npages (k_kmem s)) - k) (mkCme 1 0 0 0) /\
    k_end s + PGROUNDUP (npages (k_kmem s) * sizeof_cme) <= kva (Z.of_nat k) /\
    kva (Z.of_nat k) < k_end s + PGROUNDUP (npages (k_kmem s) * sizeof_cme) + PGSIZE.
Proof.
  intros Hn Hend Hroom. set (n := npages (k_kmem s)) in *.
  set (v := k_end s + PGROUNDUP (n * sizeof_cme)) in *.
  pose proof (PGROUNDUP_nonneg (n * sizeof_cme)) as Hp0.
  destruct (PGROUNDUP_kva v) as (k & Hround & Hkv);
    [lia|unfold kva, KERNBASE, PGSIZE, PAGES_MAX in *; lia|].
  assert (u64 (k_end s + PGROUNDUP (n * sizeof_cme)) = v) as Hu64.
  { unfold u64. rewrite Z.mod_small; [done|]. unfold kva, KERNBASE, PGSIZE, PAGES_MAX, v in *. lia. }
  pose proof (memory_end n Hn) as Hvend.
  unfold mem_init, initlock, kmem_mod, setrand, freerange. mrun. fold n. rewrite Hu64, Hvend.
  cbn [k_kmem npages set]. rewrite Hround.
  edestruct (freerange_loop_run (S (Z.to_nat n))
    (s <| k_kmem ::= fun k => k <| core_map := replicate (Z.to_nat n) (mkCme 0 0 0 0) |> |>
       <| k_spins ::= put_spin LkKmem spin_free |>
       <| k_kmem ::= fun k => k <| use_lock := false |> |>) k) as (s1 & Hrun & Hc & Hnp & Hcpu & Hsp);
    simpl; fold n; rewrite ?length_replicate; auto; try lia.
  { intros j r Hj _. apply lookup_replicate in Hj as [-> _]. done. }
  { assert (Z.of_nat k <= n) by (unfold kva, PGSIZE in *; lia). lia. }
  simpl in *. fold n in Hrun. step Hrun.
  rewrite length_replicate, take_replicate in Hc.
  assert (Z.of_nat k <= n) as Hkn by (unfold kva, PGSIZE in *; lia).
  rewrite Nat.min_l in Hc by lia.
  eexists _, k. split; [reflexivity|]. simpl. fold n in Hnp.
  split; [|split; [done|split; [|split; [done|split; [done|lia]]]]].
  - constructor; simpl; rewrite ?Hc, ?Hnp; try done.
    + rewrite length_app, !length_replicate. lia.
    + apply Forall_app; split; apply Forall_replicate; unfold cme_wf; simpl; lia.
    + rewrite cnt_app, !cnt_replicate. simpl. rewrite Z.shiftr_div_pow2 by done.
      assert ((kva n - v) / 2 ^ PT_SHIFT = n - Z.of_nat k) as ->.
      { symmetry. unfold kva, PGSIZE, PT_SHIFT in *.
        apply (Z.div_unique _ _ _ (4096 * Z.of_nat k + KERNBASE - v)); lia. }
      unfold s32. rewrite Z.mod_small; unfold PAGES_MAX in *; lia.
    + rewrite cnt_app, !cnt_replicate. simpl. lia.
  - rewrite Hsp. unfold put_spin. rewrite decide_True by done. apply lookup_delete_eq.
Qed.

(** A machine with three pages above the kernel image: one shared, one free, one in use. *)
Definition three_pages : kstate :=
  bss <| k_end := KERNBASE |>
      <| k_kmem := mkKmem 3 [mkCme 0 0 0 2; mkCme 1 0 0 0; mkCme 0 0 0 1] 2 0 1 true 1 |>.
Lemma three_pages_wf : kmem_wf (k_kmem three_pages).
Proof.
  split; try reflexivity; [vm_compute; split; congruence|].
  repeat constructor; simpl; lia.
Qed.
Lemma three_pages_lock : can_lock LkKmem three_pages.
Proof. split; [reflexivity|]. split; simpl; lia. Qed.

Lemma kalloc_correct_witness :
  exists p s', kalloc three_pages = Ok p s' /\ kmem_wf (k_kmem s') /\ p = kva 1.
Proof.
  destruct (kalloc_correct three_pages three_pages_wf eq_refl three_pages_lock)
    as (p & s' & H1 & H2 & _ & [(_ & H & _)|(i & r & Hp & Hr & Ha & _)]); [discriminate H|].
  exists p, s'. split; [exact H1|]. split; [exact H2|]. rewrite Hp.
  destruct i as [|[|[|i]]]; simpl in Hr; [|done| |done]; injection Hr as <-; discriminate Ha.
Defined.

Lemma kfree_correct_witness :
  exists s', kfree (kva 2) three_pages = Ok tt s' /\ kmem_wf (k_kmem s') /\
    free_pages (k_kmem s') = 2.
Proof.
  destruct (kfree_correct three_pages 2 (mkCme 0 0 0 1) three_pages_wf eq_refl three_pages_lock)
    as (s' & H1 & H2 & _ & H); [split; [reflexivity|]; vm_compute; congruence|reflexivity|].
  exists s'. split; [exact H1|]. split; [exact H2|].
  destruct H as [(H & _)|(_ & _ & _ & H)]; [discriminate H|exact H].
Defined.

Lemma mem_init_establishes_witness :
  exists s', mem_init (KERNBASE + 0x100000)
      (bss <| k_end := KERNBASE + 0x100000 |> <| k_kmem ::= fun k => k <| npages := 512 |> |>)
    = Ok tt s' /\ kmem_wf (k_kmem s').
Proof.
  destruct (mem_init_establishes
    (bss <| k_end := KERNBASE + 0x100000 |> <| k_kmem ::= fun k => k <| npages := 512 |> |>))
    as (s' & k & H1 & H2 & _).
  - vm_compute. split; congruence.
  - vm_compute. congruence.
  - vm_compute. congruence.
  - exists s'. split; [exact H1|exact H2].
Defined.
