(* ===== verification/Sched.v ===== *)
(** Scheduling, sleep and wakeup (kernel/proc.c), and the sleep locks built on them
    (kernel/sleeplock.c). *)
From S2P Require Import Prelude Kstate Locks.

(** [myproc()], dereferenced by every caller but [sleep]. *)
Definition myproc : K nat := o <- gets k_cur; deref o.
Definition proc_at (i : nat) : K proc := o <- gets (fun s => k_ptable s !! i); deref o.
Definition proc_mod (i : nat) (f : proc -> proc) : K unit :=
  modify (fun s => s <| k_ptable ::= upd_at i f |>).

(** vspaceinstall and vspaceinstallkern of kernel/vspace.c.  The task-state segment is
    not modelled. *)
Definition vspaceinstall (i : nat) : K unit :=
  p <- proc_at i;
  if p_kstack p =? 0 then panic "mrinstall: null kstack" else
  if vs_pgtbl (p_vspace p) =? 0 then panic "mrinstall: page table not initialized" else
  pushcli;;
  modify (fun s => s <| k_cr3 := V2P (vs_pgtbl (p_vspace p)) |>);;
  popcli.
Definition vspaceinstallkern : K unit := modify (fun s => s <| k_cr3 := V2P (k_kpml4 s) |>).

(** [sched]: the checks, then [swtch] away: the thread stops here. *)
Definition sched {A} : K A :=
  h <- holding LkPtable;
  if negb h then panic "sched ptable.lock" else
  c <- gets k_cpu;
  if negb (ncli c =? 1) then panic "sched locks" else
  i <- myproc;
  p <- proc_at i;
  if decide (p_state p = RUNNING) then panic "sched running" else
  if eflags_IF c then panic "sched interruptible" else
  proc_mod i (fun p => p <| p_context := CtxSched (intena c) |>);;
  (fun s => Sleep s).

(** One round of [scheduler]'s loop body, up to the [swtch] into process [i] and to
    where that process continues; false if the process is not RUNNABLE. *)
Definition dispatch (i : nat) : K bool :=
  p <- proc_at i;
  if negb (bool_decide (p_state p = RUNNABLE)) then ret false else
  modify (fun s => s <| k_cur := Some i |>);;
  vspaceinstall i;;
  proc_mod i (fun p => p <| p_state := RUNNING |>);;
  match p_context p with
  | CtxNone => fault
  | CtxForkret => ret true
  | CtxSched ie =>
      modify (fun s => s <| k_cpu ::= fun c => c <| intena := ie |> |>);; ret true
  end.
(** What [scheduler] does when a process has switched back to it. *)
Definition switched_back : K unit :=
  vspaceinstallkern;;
  modify (fun s => s <| k_cur := None |>).

(** The part of [yield] before and after the switch. *)
Definition yield : K unit :=
  acquire LkPtable;;
  i <- myproc;
  proc_mod i (fun p => p <| p_state := RUNNABLE |>);;
  sched.
Definition yield_resume : K unit := release LkPtable.

(** [sleep] up to the switch; [sleep_resume] is the rest, run when the scheduler
    has switched back to the process. *)
Definition sleep {A} (c : chan) (lk : spin_id) : K A :=
  o <- gets k_cur;
  match o with
  | None => panic "sleep"
  | Some i =>
      when (negb (bool_decide (lk = LkPtable))) (acquire LkPtable;; release lk);;
      proc_mod i (fun p => p <| p_chan := Some c |>);;
      proc_mod i (fun p => p <| p_state := SLEEPING |>);;
      sched
  end.
Definition sleep_resume (lk : spin_id) : K unit :=
  i <- myproc;
  proc_mod i (fun p => p <| p_chan := None |>);;
  when (negb (bool_decide (lk = LkPtable))) (release LkPtable;; acquire lk).

Definition wake_proc (c : chan) (p : proc) : proc :=
  if decide (p_state p = SLEEPING /\ p_chan p = Some c) then p <| p_state := RUNNABLE |> else p.
Definition wakeup1 (c : chan) : K unit :=
  modify (fun s => s <| k_ptable ::= fmap (wake_proc c) |>).
Definition wakeup (c : chan) : K unit :=
  acquire LkPtable;; wakeup1 c;; release LkPtable.

(** The scan of [kill] and [findproc]: the first entry with that pid. *)
Fixpoint find_pid (pid : Z) (l : list proc) : option nat :=
  match l with
  | [] => None
  | p :: l => if p_pid p =? pid then Some 0%nat else S <$> find_pid pid l
  end.
Definition kill_proc (p : proc) : proc :=
  let p := p <| p_killed := true |> in
  if decide (p_state p = SLEEPING) then p <| p_state := RUNNABLE |> else p.
Definition kill (pid : Z) : K Z :=
  acquire LkPtable;;
  o <- gets (fun s => find_pid pid (k_ptable s));
  match o with
  | Some i => proc_mod i kill_proc;; release LkPtable;; ret 0
  | None => release LkPtable;; ret (-1)
  end.
Definition findproc (pid : Z) : K (option nat) := gets (fun s => find_pid pid (k_ptable s)).

(** * Sleep locks *)

Definition slk (s : kstate) (l : sleep_id) : sleeplock := default sleep_free (k_sleeps s !! l).
Definition put_sleep (l : sleep_id) (v : sleeplock) (m : gmap sleep_id sleeplock) :
    gmap sleep_id sleeplock :=
  if decide (v = sleep_free) then delete l m else <[l := v]> m.
Arguments put_sleep : simpl never.

Definition initsleeplock (l : sleep_id) : K unit :=
  initlock (LkSleep l);;
  modify (fun s => s <| k_sleeps ::= put_sleep l sleep_free |>).

(** The loop test of [acquiresleep] and what follows it, with the inner lock held:
    also where a woken process continues. *)
Definition acquiresleep_loop (l : sleep_id) : K unit :=
  b <- gets (fun s => sl_locked (slk s l));
  if b then sleep (CSleeplock l) (LkSleep l) else
  modify (fun s => s <| k_sleeps ::= put_sleep l (mkSleep true (sl_pid (slk s l))) |>);;
  i <- myproc;
  p <- proc_at i;
  modify (fun s => s <| k_sleeps ::= put_sleep l (mkSleep true (p_pid p)) |>);;
  release (LkSleep l).
Definition acquiresleep (l : sleep_id) : K unit :=
  acquire (LkSleep l);; acquiresleep_loop l.
Definition acquiresleep_resume (l : sleep_id) : K unit :=
  sleep_resume (LkSleep l);; acquiresleep_loop l.

Definition releasesleep (l : sleep_id) : K unit :=
  acquire (LkSleep l);;
  modify (fun s => s <| k_sleeps ::= put_sleep l (mkSleep false 0) |>);;
  wakeup (CSleeplock l);;
  release (LkSleep l).

Definition holdingsleep (l : sleep_id) : K bool :=
  acquire (LkSleep l);;
  r <- gets (fun s => sl_locked (slk s l));
  release (LkSleep l);;
  ret r.

(** * Running them *)

Lemma wakeup_run c s :
  can_lock LkPtable s ->
  wakeup c s = Ok tt (s <| k_ptable ::= fmap (wake_proc c) |> <| k_cpu ::= touch |>).
Proof.
  intros [H1 H2]. unfold wakeup, wakeup1.
  step (acquire_free _ s H1). mrun. rewrite (release_locked LkPtable s) by done. done.
Qed.

Lemma touch_locked l s : cpu_wf (k_cpu s) -> touch (k_cpu (locked l s)) = k_cpu (locked l s).
Proof.
  intros [H _]. unfold touch, locked. cbn [k_cpu set ncli intena eflags_IF].
  destruct (Z.eqb_spec (ncli (k_cpu s) + 1) 0); [lia|done].
Qed.
(** A wakeup under lock [l]. *)
Lemma wakeup_held l c s0 s :
  l <> LkPtable -> can_lock l s0 -> can_lock LkPtable s0 ->
  k_cpu s = k_cpu (locked l s0) -> k_spins s = k_spins (locked l s0) ->
  wakeup c s = Ok tt (s <| k_ptable ::= fmap (wake_proc c) |>).
Proof.
  intros Hl [_ Hw] Hp Hc Hs. rewrite wakeup_run by (by eapply (can_lock_locked l)).
  f_equal. kext. simpl. rewrite Hc. by apply touch_locked.
Qed.

Lemma put_sleep_locked l pid m : put_sleep l (mkSleep true pid) m = <[l := mkSleep true pid]> m.
Proof. unfold put_sleep. by rewrite decide_False. Qed.
Lemma put_sleep_free l m : put_sleep l (mkSleep false 0) m = delete l m.
Proof. unfold put_sleep. by rewrite decide_True. Qed.

Lemma holdingsleep_run l s :
  can_lock (LkSleep l) s ->
  holdingsleep l s = Ok (sl_locked (slk s l)) (s <| k_cpu ::= touch |>).
Proof.
  intros [H1 H2]. unfold holdingsleep. step (acquire_free _ s H1). mrun.
  by step (release_locked (LkSleep l) s _ H1 H2 eq_refl eq_refl).
Qed.

Lemma acquiresleep_run l s i p :
  can_lock (LkSleep l) s -> k_sleeps s !! l = None ->
  k_cur s = Some i -> k_ptable s !! i = Some p ->
  acquiresleep l s =
    Ok tt (s <| k_sleeps ::= <[l := mkSleep true (p_pid p)]> |> <| k_cpu ::= touch |>).
Proof.
  intros [H1 H2] Hs Hc Hp. unfold acquiresleep. step (acquire_free _ s H1).
  unfold acquiresleep_loop, myproc, proc_at, slk. mrun. simpl. rewrite Hs. simpl.
  mrun. simpl. rewrite Hc. mrun. simpl. rewrite Hp. mrun.
  rewrite (release_locked (LkSleep l) s) by done. f_equal. unfold relock, set. simpl.
  by rewrite !put_sleep_locked, insert_insert_eq.
Qed.

(** A process that goes to sleep, as the scheduler finds it. *)
Definition asleep (c : chan) (ie : bool) (p : proc) : proc :=
  p <| p_chan := Some c |> <| p_state := SLEEPING |> <| p_context := CtxSched ie |>.

(** [sleep] called with only [lk] held: the thread stops with only ptable.lock held. *)
Lemma sleep_run {A} c lk s m ie i p :
  lk <> LkPtable -> k_cpu s = mkCpu 1 ie false ->
  k_spins s = <[lk := mkSpin true true]> m -> m !! lk = None -> m !! LkPtable = None ->
  k_cur s = Some i -> k_ptable s !! i = Some p ->
  sleep (A:=A) c lk s =
    Sleep (s <| k_ptable ::= alter (asleep c ie) i |>
             <| k_spins := <[LkPtable := mkSpin true true]> m |>).
Proof.
  intros Hlk Hcpu Hsp Hm1 Hm2 Hc Hp. unfold sleep, when. mrun. rewrite Hc.
  rewrite bool_decide_false by done. simpl. mrun.
  rewrite (bind_run _ _ _ tt (locked LkPtable s)).
  2:{ apply acquire_free. by rewrite Hsp, lookup_insert_ne by congruence. }
  rewrite (bind_run _ _ _ tt (s <| k_spins := <[LkPtable := mkSpin true true]> m |>)).
  2:{ rewrite release_run, popcli_run; simpl; rewrite ?Hcpu; try done.
      - f_equal. unfold set. simpl. rewrite Hcpu, Hsp. simpl.
        rewrite delete_insert_ne, delete_insert_id by congruence. done.
      - by rewrite lookup_insert_ne, Hsp, lookup_insert_eq by congruence. }
  unfold sched, holding, spin, myproc, proc_at, proc_mod. mrun. simpl.
  rewrite lookup_insert_eq. simpl. mrun. simpl. rewrite Hcpu. simpl. mrun. simpl.
  rewrite Hc. mrun. simpl. rewrite !list_lookup_alter_eq, Hp. mrun.
  simpl. mrun. rewrite decide_False by done. mrun.
  f_equal. unfold set, asleep. simpl.
  by rewrite !list_alter_alter_eq.
Qed.

Lemma acquiresleep_busy l s i p pid :
  can_lock (LkSleep l) s -> can_lock LkPtable s -> ncli (k_cpu s) = 0 ->
  k_sleeps s !! l = Some (mkSleep true pid) ->
  k_cur s = Some i -> k_ptable s !! i = Some p ->
  acquiresleep l s =
    Sleep (s <| k_ptable ::= alter (asleep (CSleeplock l) (eflags_IF (k_cpu s))) i |>
             <| k_spins ::= <[LkPtable := mkSpin true true]> |>
             <| k_cpu := mkCpu 1 (eflags_IF (k_cpu s)) false |>).
Proof.
  intros [H1 H2] [H3 _] Hn Hs Hc Hp. unfold acquiresleep. step (acquire_free _ s H1).
  unfold acquiresleep_loop, slk. mrun. simpl. rewrite Hs. simpl.
  rewrite (sleep_run _ _ _ (k_spins s) (eflags_IF (k_cpu s)) i p); simpl; rewrite ?Hn; try done.
  unfold locked, set. simpl. by rewrite Hn.
Qed.

Lemma releasesleep_run l s :
  can_lock (LkSleep l) s -> can_lock LkPtable s ->
  releasesleep l s =
    Ok tt (s <| k_sleeps ::= delete l |> <| k_ptable ::= fmap (wake_proc (CSleeplock l)) |>
             <| k_cpu ::= touch |>).
Proof.
  intros [H1 H2] [H3 _]. unfold releasesleep. step (acquire_free _ s H1). mrun.
  erewrite bind_run; [|apply wakeup_run; by apply (can_lock_locked (LkSleep l) _ s)].
  rewrite (release_locked (LkSleep l) s); try done.
  simpl. unfold touch. simpl. destruct H2 as [H2 _].
  by rewrite (proj2 (Z.eqb_neq (ncli (k_cpu s) + 1) 0)) by lia.
Qed.

(** [kill]: the first process with that pid, whatever its state, is marked. *)
Definition killed_at (pid : Z) (ps : list proc) : list proc :=
  match find_pid pid ps with Some i => alter kill_proc i ps | None => ps end.

Lemma kill_run pid s :
  can_lock LkPtable s ->
  kill pid s = Ok (match find_pid pid (k_ptable s) with Some _ => 0 | None => -1 end)
    (s <| k_ptable ::= killed_at pid |> <| k_cpu ::= touch |>).
Proof.
  intros [H1 H2]. unfold kill, killed_at, proc_mod. step (acquire_free _ s H1). mrun. simpl.
  destruct (find_pid pid (k_ptable s)) eqn:E; mrun;
    (erewrite bind_run; [|by apply (release_locked LkPtable s)]);
    unfold ret, relock, set; simpl; by rewrite E.
Qed.

(** A process that [yield] has put back, as the scheduler finds it. *)
Definition yielded (ie : bool) (p : proc) : proc :=
  p <| p_state := RUNNABLE |> <| p_context := CtxSched ie |>.

Lemma yield_run s i p :
  can_lock LkPtable s -> ncli (k_cpu s) = 0 -> k_cur s = Some i -> k_ptable s !! i = Some p ->
  yield s = Sleep (s <| k_ptable ::= alter (yielded (eflags_IF (k_cpu s))) i |>
                     <| k_spins ::= <[LkPtable := mkSpin true true]> |>
                     <| k_cpu := mkCpu 1 (eflags_IF (k_cpu s)) false |>).
Proof.
  intros [H1 H2] Hn Hc Hp. unfold yield. step (acquire_free _ s H1).
  unfold sched, holding, spin, myproc, proc_at, proc_mod. mrun. simpl. rewrite Hc. mrun. simpl.
  rewrite lookup_insert_eq. simpl. mrun. simpl. rewrite Hn. simpl. mrun. simpl.
  rewrite Hc. mrun. simpl. rewrite !list_lookup_alter_eq, Hp. simpl. mrun.
  rewrite decide_False by done. mrun. f_equal. unfold set, yielded. simpl.
  by rewrite !list_alter_alter_eq, Hn.
Qed.

(** A RUNNABLE process that gave up the processor in [sched] gets it back. *)
Lemma dispatch_run j p s ie ie' :
  k_ptable s !! j = Some p -> p_state p = RUNNABLE -> p_context p = CtxSched ie ->
  p_kstack p <> 0 -> vs_pgtbl (p_vspace p) <> 0 -> k_cpu s = mkCpu 1 ie' false ->
  dispatch j s =
    Ok true (s <| k_cur := Some j |> <| k_cr3 := V2P (vs_pgtbl (p_vspace p)) |>
               <| k_ptable ::= alter (fun p => p <| p_state := RUNNING |>) j |>
               <| k_cpu := mkCpu 1 ie false |>).
Proof.
  intros Hp Hr Hx Hk Hv Hc. unfold dispatch, vspaceinstall, proc_at, proc_mod. mrun. rewrite Hp.
  mrun. rewrite Hr. simpl. mrun. simpl. rewrite Hp. mrun.
  rewrite !(proj2 (Z.eqb_neq _ _)) by done. mrun. step (pushcli_run _). simpl. rewrite Hc.
  mrun. erewrite bind_run; [|by apply popcli_run]. mrun. rewrite Hx. mrun. done.
Qed.

Lemma dispatch_skip j p s :
  k_ptable s !! j = Some p -> p_state p <> RUNNABLE -> dispatch j s = Ok false s.
Proof.
  intros Hp Hr. unfold dispatch, proc_at. mrun. rewrite Hp. mrun.
  by rewrite bool_decide_false.
Qed.

(** With ptable.lock given back, the rest of a woken [acquiresleep] is [acquiresleep]
    from the start: the test is made again. *)
Definition woken (i : nat) (ie : bool) (m : gmap spin_id spinlock) (s : kstate) : kstate :=
  s <| k_ptable ::= alter (fun p => p <| p_chan := None |>) i |>
    <| k_spins := m |> <| k_cpu := mkCpu 0 ie ie |>.
Lemma ptable_release_run s m ie :
  k_spins s = <[LkPtable := mkSpin true true]> m -> m !! LkPtable = None ->
  k_cpu s = mkCpu 1 ie false ->
  release LkPtable s = Ok tt (s <| k_spins := m |> <| k_cpu := mkCpu 0 ie ie |>).
Proof.
  intros Hs Hm Hc. rewrite release_run by (rewrite Hs; apply lookup_insert_eq).
  rewrite popcli_run by (simpl; by rewrite Hc). f_equal. unfold set. simpl.
  by rewrite Hc, Hs, delete_insert_id.
Qed.
Lemma acquiresleep_eq l s :
  acquiresleep l s = (acquire (LkSleep l);; acquiresleep_loop l) s.
Proof. reflexivity. Qed.
Lemma acquiresleep_resume_run l s i m ie :
  k_spins s = <[LkPtable := mkSpin true true]> m -> m !! LkPtable = None ->
  k_cpu s = mkCpu 1 ie false -> k_cur s = Some i ->
  acquiresleep_resume l s = acquiresleep l (woken i ie m s).
Proof.
  intros Hs Hm Hc Hi. unfold acquiresleep_resume, sleep_resume, myproc, proc_mod. mrun.
  rewrite Hi. mrun. rewrite bool_decide_false by done. simpl. unfold when. mrun.
  rewrite acquiresleep_eq. unfold woken.
  erewrite bind_run; [reflexivity|by apply (ptable_release_run _ m ie)].
Qed.

(** * A process in the kernel, outside every critical section *)

Definition has_space (p : proc) : Prop :=
  p_kstack p <> 0 /\ vs_pgtbl (p_vspace p) <> 0.
Record running_as (s : kstate) (i : nat) (p : proc) : Prop := {
  ra_cur : k_cur s = Some i;
  ra_proc : k_ptable s !! i = Some p;
  ra_state : p_state p = RUNNING;
  ra_space : has_space p;
  ra_spins : k_spins s = ∅;
  ra_ncli : ncli (k_cpu s) = 0 }.

(** The state without what taking and giving back locks, or giving up the processor and
    getting it back, may change: the saved interrupt flag, the page table register (which is
    set on every switch), the saved contexts and channels, whether a process that is not
    running sleeps or may run (a wakeup may always come early), and the ports of the disk. *)
Definition settle (p : proc) : proc :=
  p <| p_context := CtxNone |> <| p_chan := None |>
    <| p_state := if decide (p_state p = SLEEPING) then RUNNABLE else p_state p |>.
Definition forget (s : kstate) : kstate :=
  s <| k_cpu ::= fun c => c <| intena := false |> |> <| k_cr3 := 0 |>
    <| k_ptable ::= fmap settle |> <| k_ata := [] |>.
Definition calm (s s' : kstate) : Prop := forget s = forget s'.
#[export] Instance calm_equiv : Equivalence calm.
Proof. split; unfold calm; [done|congruence..]. Qed.

Lemma running_can_lock s i p l : running_as s i p -> can_lock l s.
Proof. intros [_ _ _ _ Hs Hn]. split; [by rewrite Hs|]. split; [lia|]. rewrite Hn. lia. Qed.
Lemma settle_wake c p : settle (wake_proc c p) = settle p.
Proof. unfold wake_proc, settle, set. destruct (decide _) as [[E _]|]; [|done]. simpl. by rewrite E. Qed.
Lemma settle_wakes c (ps : list proc) : settle <$> (wake_proc c <$> ps) = settle <$> ps.
Proof. rewrite <-list_fmap_compose. apply list_fmap_ext. intros _ p _. apply settle_wake. Qed.
(** What a field outside the forgotten ones is, is the same. *)
Lemma calm_get {A} (f : kstate -> A) s s' : (forall s, f (forget s) = f s) -> calm s s' -> f s = f s'.
Proof. intros H E. by rewrite <-H, E, H. Qed.
Lemma settle_eq p p' :
  settle p = settle p' -> p_state p = RUNNING ->
  p_state p' = RUNNING /\ p_kstack p' = p_kstack p /\ p_vspace p' = p_vspace p /\
  p_pid p' = p_pid p /\ p_pftable p' = p_pftable p.
Proof.
  intros E H. pose proof (f_equal p_state E) as E1. pose proof (f_equal p_kstack E) as E2.
  pose proof (f_equal p_vspace E) as E3. pose proof (f_equal p_pid E) as E4.
  pose proof (f_equal p_pftable E) as E5. simpl in *. rewrite H in E1. simpl in E1.
  split_and!; try done. by destruct (p_state p').
Qed.
Lemma calm_running s s' i p :
  calm s s' -> running_as s i p -> exists p', running_as s' i p' /\ settle p' = settle p.
Proof.
  intros E [H1 H2 H3 [H4 H4'] H5 H6].
  assert (exists p', k_ptable s' !! i = Some p' /\ settle p' = settle p) as (p' & Hp' & Ep).
  { pose proof (f_equal (fun s => k_ptable s !! i) E) as Hl. simpl in Hl.
    rewrite !list_lookup_fmap, H2 in Hl. destruct (k_ptable s' !! i) as [p'|]; [|done].
    exists p'. split; [done|]. symmetry. by apply (inj Some). }
  destruct (settle_eq p p') as (E1 & E2 & E3 & _); [done..|].
  exists p'. split; [|done]. split; try done.
  - by rewrite <-(calm_get k_cur s s').
  - split; congruence.
  - by rewrite <-(calm_get k_spins s s').
  - by rewrite <-(calm_get (fun s => ncli (k_cpu s)) s s').
Qed.
