(* ===== verification/SleepProto.v ===== *)
(** The protocol of sleep locks: any number of processes contending for one lock,
    with preemption and kill, in every interleaving the scheduler allows. *)
From stdpp Require Import functions.
From S2P Require Import Prelude Kstate Locks Sched.

(** What each process is doing with the lock: nothing, asleep inside acquiresleep,
    or past it. *)
Inductive phase := Idle | Waiting | Holding.
#[export] Instance phase_eq : EqDecision phase.
Proof. solve_decision. Defined.

Record sys := mkSys { sk : kstate; ph : nat -> phase }.

Inductive action :=
| AAcquire          (* the running process calls acquiresleep *)
| ARelease          (* the running process, which has the lock, calls releasesleep *)
| AYield            (* the timer preempts the running process *)
| AKill (pid : Z)   (* the running process calls kill *)
| ADispatch (j : nat). (* the scheduler, with ptable.lock, reaches entry j *)

Inductive outcome := Next (σ : sys) | Disabled | Crash.

Section Protocol.
Context (l : sleep_id).

(** The running process [i] comes back from a kernel function, or has switched to the
    scheduler inside it. *)
Definition after (i : nat) (ok slept : phase) (ph : nat -> phase) (r : result kstate unit) :
    outcome :=
  match r with
  | Ok _ s => Next (mkSys s (<[i := ok]> ph))
  | Sleep s =>
      match switched_back s with
      | Ok _ s => Next (mkSys s (<[i := slept]> ph))
      | _ => Crash
      end
  | _ => Crash
  end.

Definition do_act (a : action) (σ : sys) : outcome :=
  let s := sk σ in let ph := ph σ in
  match a, k_cur s with
  | AAcquire, Some i =>
      if decide (ph i = Idle) then after i Holding Waiting ph (acquiresleep l s) else Disabled
  | ARelease, Some i =>
      if decide (ph i = Holding) then after i Idle Idle ph (releasesleep l s) else Disabled
  | AYield, Some i => after i (ph i) (ph i) ph (yield s)
  | AKill pid, Some i => after i (ph i) (ph i) ph ((kill pid;; ret tt) s)
  | ADispatch j, None =>
      if decide (length (k_ptable s) <= j)%nat then Disabled else
      match dispatch j s with
      | Ok false s => Next (mkSys s ph)
      | Ok true s =>
          match ph j with
          | Waiting => after j Holding Waiting ph (acquiresleep_resume l s)
          | p => after j p p ph (yield_resume s)
          end
      | _ => Crash
      end
  | _, _ => Disabled
  end.

Inductive reachable (σ0 : sys) : sys -> Prop :=
| reach_init : reachable σ0 σ0
| reach_step σ a σ' : reachable σ0 σ -> do_act a σ = Next σ' -> reachable σ0 σ'.

(** * The invariant *)

(** A process that is not on the processor and is not asleep. *)
Definition parked (p : proc) : Prop :=
  p_state p <> RUNNING /\ p_state p <> SLEEPING /\
  (p_state p = RUNNABLE -> exists ie, p_context p = CtxSched ie).
(** A process inside acquiresleep. *)
Definition queued (held : bool) (p : proc) : Prop :=
  (exists ie, p_context p = CtxSched ie) /\ p_chan p = Some (CSleeplock l) /\
  (p_state p = RUNNABLE \/ p_state p = SLEEPING /\ held = true).

Definition entry_ok (cur : bool) (held : bool) (f : phase) (p : proc) : Prop :=
  (p_state p <> UNUSED -> has_space p) /\
  match f, cur with
  | Waiting, true => False
  | Waiting, false => queued held p
  | _, true => p_state p = RUNNING
  | _, false => parked p
  end.

(** Which locks are held, by who runs. *)
Definition mode_ok (s : kstate) : Prop :=
  match k_cur s with
  | None => k_spins s = {[ LkPtable := mkSpin true true ]} /\
            exists ie, k_cpu s = mkCpu 1 ie false
  | Some i => k_spins s = ∅ /\ ncli (k_cpu s) = 0 /\ is_Some (k_ptable s !! i)
  end.

Definition lock_ok (s : kstate) (ph : nat -> phase) : Prop :=
  match k_sleeps s !! l with
  | None => forall i, ph i <> Holding
  | Some v => sl_locked v = true /\
      exists i p, ph i = Holding /\ k_ptable s !! i = Some p /\ sl_pid v = p_pid p /\
        forall j, ph j = Holding -> j = i
  end.

Definition held (s : kstate) : bool := sl_locked (slk s l).

Record inv (σ : sys) : Prop := {
  inv_mode : mode_ok (sk σ);
  inv_lock : lock_ok (sk σ) (ph σ);
  inv_procs : forall i p, k_ptable (sk σ) !! i = Some p ->
    entry_ok (bool_decide (k_cur (sk σ) = Some i)) (held (sk σ)) (ph σ i) p }.

(** * Preservation *)

Lemma inv_ext s ph ph' : (forall j, ph j = ph' j) -> inv (mkSys s ph) -> inv (mkSys s ph').
Proof.
  intros E [H1 H2 H3]. split; simpl in *; [done| |].
  - unfold lock_ok in *. destruct (k_sleeps s !! l) as [v|].
    + destruct H2 as [? (i & p & Hi & ? & ? & Hu)]. split; [done|]. exists i, p.
      rewrite <-E. split_and!; try done. intros j. rewrite <-E. auto.
    + intros i. rewrite <-E. auto.
  - intros i p Hp. rewrite <-E. auto.
Qed.

(** Taking the lock can only help the condition on the others. *)
Lemma entry_held cur b f p : entry_ok cur b f p -> entry_ok cur true f p.
Proof.
  unfold entry_ok, queued. intros [H1 H2]. split; [done|]. destruct f, cur; naive_solver.
Qed.

(** The running process. *)
Lemma inv_running s ph i :
  inv (mkSys s ph) -> k_cur s = Some i ->
  k_spins s = ∅ /\ ncli (k_cpu s) = 0 /\ (forall lk, can_lock lk s) /\
  exists p, k_ptable s !! i = Some p /\ p_state p = RUNNING /\ has_space p.
Proof.
  intros [H1 _ H3] Hc. unfold mode_ok in H1. simpl in *. rewrite Hc in H1.
  destruct H1 as (Hs & Hn & p & Hp). specialize (H3 i p Hp).
  rewrite bool_decide_true in H3 by done. destruct H3 as [Hsp Hst].
  assert (p_state p = RUNNING) as Hr by (by destruct (ph i)).
  split_and!; [done|done| |].
  - intros lk. split; [by rewrite Hs|]. split; [lia|]. rewrite Hn. lia.
  - exists p. split_and!; try done; apply Hsp; by rewrite Hr.
Qed.

(** The scheduler. *)
Lemma inv_sched s ph :
  inv (mkSys s ph) -> k_cur s = None ->
  k_spins s = <[LkPtable := mkSpin true true]> ∅ /\ exists ie, k_cpu s = mkCpu 1 ie false.
Proof. intros [H1 _ _] Hc. unfold mode_ok in H1. simpl in *. by rewrite Hc in H1. Qed.

Lemma busy_keeps s ph i :
  inv (mkSys s (<[i := Idle]> ph)) -> k_cur s = Some i -> is_Some (k_sleeps s !! l) ->
  exists σ, after i Holding Waiting ph (acquiresleep l s) = Next σ /\ inv σ.
Proof.
  intros I Hc [[lv pid] E].
  destruct (inv_running _ _ _ I Hc) as (Hs & Hn & Hl & p & Hp & Hr & Hsp).
  destruct I as [_ I2 I3]. simpl in *. unfold lock_ok in I2. rewrite E in I2. simpl in I2.
  destruct I2 as [-> (h & q & Hh & Hq & Hpid & Hu)].
  rewrite (acquiresleep_busy _ _ i p pid) by done. simpl. unfold switched_back.
  eexists. split; [done|]. split; simpl.
  - split; [simpl; by rewrite Hs|]. by eexists.
  - unfold lock_ok. simpl. rewrite E. split; [done|].
    destruct (decide (h = i)) as [->|]; [by rewrite fn_lookup_insert in Hh|].
    rewrite fn_lookup_insert_ne in Hh by done.
    exists h, q. rewrite fn_lookup_insert_ne, list_lookup_alter_ne by done.
    split_and!; try done. intros j Hj. destruct (decide (j = i)) as [->|].
    + by rewrite fn_lookup_insert in Hj.
    + apply Hu. by rewrite fn_lookup_insert_ne in * by done.
  - unfold held, slk in *. simpl. rewrite E in *. simpl in *. intros j x Hx.
    destruct (decide (j = i)) as [->|].
    + rewrite list_lookup_alter_eq, Hp in Hx. injection Hx as <-.
      rewrite fn_lookup_insert. split; [done|]. simpl. unfold queued. simpl. split_and!; eauto.
    + rewrite list_lookup_alter_ne in Hx by done. rewrite fn_lookup_insert_ne by done.
      specialize (I3 j x Hx). rewrite fn_lookup_insert_ne in I3 by done.
      by rewrite bool_decide_false in I3 by congruence.
Qed.

Lemma free_keeps s ph i :
  inv (mkSys s (<[i := Idle]> ph)) -> k_cur s = Some i -> k_sleeps s !! l = None ->
  exists σ, after i Holding Waiting ph (acquiresleep l s) = Next σ /\ inv σ.
Proof.
  intros I Hc E. destruct (inv_running _ _ _ I Hc) as (Hs & Hn & Hl & p & Hp & Hr & Hsp).
  destruct I as [_ I2 I3]. simpl in *.
  rewrite (acquiresleep_run _ _ i p) by done. simpl. eexists. split; [done|]. split; simpl.
  - unfold mode_ok. simpl. rewrite Hc. by rewrite Hs.
  - unfold lock_ok in *. simpl. rewrite E in I2. rewrite lookup_insert_eq. split; [done|].
    exists i, p. rewrite fn_lookup_insert. split_and!; try done. intros j Hj.
    destruct (decide (j = i)) as [|]; [done|]. specialize (I2 j).
    by rewrite fn_lookup_insert_ne in * by done.
  - unfold held, slk. simpl. rewrite lookup_insert_eq. simpl. intros j x Hx.
    specialize (I3 j x Hx). destruct (decide (j = i)) as [->|].
    + rewrite fn_lookup_insert in *. by rewrite bool_decide_true in * by done.
    + rewrite fn_lookup_insert_ne in * by done. by apply entry_held in I3.
Qed.

Lemma acquire_keeps s ph i :
  inv (mkSys s (<[i := Idle]> ph)) -> k_cur s = Some i ->
  exists σ, after i Holding Waiting ph (acquiresleep l s) = Next σ /\ inv σ.
Proof.
  intros I Hc. destruct (k_sleeps s !! l) eqn:E.
  - apply busy_keeps; eauto.
  - by apply free_keeps.
Qed.

Lemma release_keeps s ph i :
  inv (mkSys s ph) -> k_cur s = Some i -> ph i = Holding ->
  exists σ, after i Idle Idle ph (releasesleep l s) = Next σ /\ inv σ.
Proof.
  intros I Hc Hh. destruct (inv_running _ _ _ I Hc) as (Hs & Hn & Hl & p & Hp & Hr & Hsp).
  destruct I as [I1 I2 I3]. simpl in *. rewrite releasesleep_run by done. simpl.
  eexists. split; [done|]. split; simpl.
  - unfold mode_ok in *. simpl. rewrite Hc in *. split_and!; try apply I1.
    rewrite list_lookup_fmap, Hp. eauto.
  - unfold lock_ok in *. simpl. rewrite lookup_delete_eq. intros j Hj.
    destruct (decide (j = i)) as [->|]; [by rewrite fn_lookup_insert in Hj|].
    rewrite fn_lookup_insert_ne in Hj by done. destruct (k_sleeps s !! l).
    + destruct I2 as [_ (h & q & _ & _ & _ & Hu)]. apply n. rewrite (Hu j Hj). symmetry. by apply Hu.
    + by eapply I2.
  - unfold held, slk. simpl. rewrite lookup_delete_eq. simpl. intros j x Hx.
    rewrite list_lookup_fmap in Hx. destruct (k_ptable s !! j) as [y|] eqn:Hy; [|done].
    injection Hx as <-. specialize (I3 j y Hy). unfold wake_proc.
    destruct (decide (j = i)) as [->|].
    + rewrite fn_lookup_insert. rewrite Hh in I3. rewrite bool_decide_true in * by done.
      destruct I3 as [? I3]. rewrite decide_False by (intros [? _]; congruence). done.
    + rewrite fn_lookup_insert_ne by done. rewrite bool_decide_false in * by congruence.
      unfold entry_ok, queued, parked in *. destruct I3 as [Ha Hb].
      destruct (decide (p_state y = SLEEPING /\ p_chan y = Some (CSleeplock l))) as [[? ?]|Hd].
      * split; [intros _; apply Ha; congruence|]. destruct (ph j); naive_solver.
      * split; [done|]. destruct (ph j); naive_solver.
Qed.

(** The process table changes, entry by entry, in a way the invariant does not see. *)
Lemma table_keeps s s' ph f :
  inv (mkSys s ph) -> mode_ok s' -> k_sleeps s' = k_sleeps s -> k_cur s' = k_cur s ->
  (forall i, k_ptable s' !! i = f i <$> k_ptable s !! i) ->
  (forall i p, p_pid (f i p) = p_pid p) ->
  (forall i p, k_ptable s !! i = Some p ->
     entry_ok (bool_decide (k_cur s = Some i)) (held s) (ph i) p ->
     entry_ok (bool_decide (k_cur s = Some i)) (held s) (ph i) (f i p)) ->
  inv (mkSys s' ph).
Proof.
  intros [_ I2 I3] Hm Hsl Hc Hf Hpid He. split; simpl in *; [done| |].
  - unfold lock_ok in *. rewrite Hsl. destruct (k_sleeps s !! l); [|done].
    destruct I2 as [? (h & q & ? & Hq & ? & ?)]. split; [done|]. exists h, (f h q).
    rewrite Hf, Hq, Hpid. done.
  - intros i p Hp. rewrite Hf in Hp. destruct (k_ptable s !! i) as [q|] eqn:Hq; [|done].
    injection Hp as <-. unfold held, slk. rewrite Hc, Hsl. auto.
Qed.

(** kill never puts a process to sleep. *)
Lemma entry_kill cur b f p : entry_ok cur b f p -> entry_ok cur b f (kill_proc p).
Proof.
  unfold entry_ok, kill_proc, queued, parked, has_space. simpl. intros [H1 H2].
  destruct (decide (p_state p = SLEEPING)) as [E|E]; simpl.
  - split; [intros _; apply H1; congruence|]. destruct f, cur; naive_solver congruence.
  - done.
Qed.

Lemma kill_keeps s ph i pid :
  inv (mkSys s ph) -> k_cur s = Some i ->
  exists σ, after i (ph i) (ph i) ph ((kill pid;; ret tt) s) = Next σ /\ inv σ.
Proof.
  intros I Hc. destruct (inv_running _ _ _ I Hc) as (Hs & Hn & Hl & p & Hp & _).
  step (kill_run pid s (Hl _)). simpl. eexists. split; [done|].
  apply (inv_ext _ ph).
  { intros j. destruct (decide (j = i)) as [->|];
      by rewrite ?fn_lookup_insert, ?fn_lookup_insert_ne. }
  apply (table_keeps s _ _ (fun j p =>
    if decide (find_pid pid (k_ptable s) = Some j) then kill_proc p else p)); try done.
  - unfold mode_ok. simpl. rewrite Hc. split_and!; try done. unfold killed_at.
    destruct (find_pid _ _); [|by eexists].
    destruct (decide (n = i)) as [->|].
    + rewrite list_lookup_alter_eq, Hp. by eexists.
    + rewrite list_lookup_alter_ne by done. by eexists.
  - intros j. simpl. unfold killed_at. destruct (find_pid _ _) as [n|]; [|by destruct (k_ptable s !! j)].
    destruct (decide (n = j)) as [->|].
    + rewrite list_lookup_alter_eq. destruct (k_ptable s !! j); [|done]. simpl.
      by rewrite decide_True.
    + rewrite list_lookup_alter_ne by done. destruct (k_ptable s !! j); [|done]. simpl.
      by rewrite decide_False by congruence.
  - intros j q. destruct (decide _); [|done]. unfold kill_proc. by destruct (decide _).
  - intros j q _. destruct (decide _); [apply entry_kill|done].
Qed.

Lemma yield_keeps s ph i :
  inv (mkSys s ph) -> k_cur s = Some i ->
  exists σ, after i (ph i) (ph i) ph (yield s) = Next σ /\ inv σ.
Proof.
  intros I Hc. destruct (inv_running _ _ _ I Hc) as (Hs & Hn & Hl & p & Hp & Hr & Hsp).
  rewrite (yield_run _ i p) by done. simpl. unfold switched_back. eexists. split; [done|].
  apply (inv_ext _ ph).
  { intros j. destruct (decide (j = i)) as [->|];
      by rewrite ?fn_lookup_insert, ?fn_lookup_insert_ne. }
  destruct I as [_ I2 I3]. split; simpl in *.
  - split; [simpl; by rewrite Hs|]. by eexists.
  - unfold lock_ok in *. simpl. destruct (k_sleeps s !! l); [|done].
    destruct I2 as [? (h & q & ? & Hq & ? & ?)]. split; [done|]. exists h.
    destruct (decide (h = i)) as [->|].
    + rewrite list_lookup_alter_eq, Hq. eexists. split_and!; done.
    + rewrite list_lookup_alter_ne by done. by exists q.
  - intros j x Hx. destruct (decide (j = i)) as [->|].
    + rewrite list_lookup_alter_eq, Hp in Hx. injection Hx as <-.
      specialize (I3 i p Hp). rewrite bool_decide_true in I3 by done.
      split; [done|]. destruct I3 as [_ I3].
      destruct (ph i); [|done|]; split_and!; simpl; eauto.
    + rewrite list_lookup_alter_ne in Hx by done. specialize (I3 j x Hx).
      by rewrite bool_decide_false in I3 by congruence.
Qed.

(** A process that was not running continues: outside acquiresleep, or at its start. *)
Lemma resume_keeps s s' ph j p f g :
  inv (mkSys s ph) -> k_cur s = None -> k_ptable s !! j = Some p -> p_state p = RUNNABLE ->
  k_cur s' = Some j -> k_spins s' = ∅ -> ncli (k_cpu s') = 0 ->
  k_sleeps s' = k_sleeps s -> k_ptable s' = alter f j (k_ptable s) ->
  p_state (f p) = RUNNING -> p_pid (f p) = p_pid p ->
  (has_space p -> has_space (f p)) ->
  g = (if decide (ph j = Waiting) then Idle else ph j) ->
  inv (mkSys s' (<[j := g]> ph)).
Proof.
  intros [_ I2 I3] Hn Hp Hr Hc Hs Hcpu Hsl Hf Hst Hpid Hsp Hg.
  assert (g = Holding <-> ph j = Holding) as Hgh by (subst g; by destruct (ph j)).
  split; simpl in *.
  - unfold mode_ok. rewrite Hc, Hf, list_lookup_alter_eq, Hp. split_and!; try done.
  - unfold lock_ok in *. rewrite Hsl, Hf. destruct (k_sleeps s !! l).
    + destruct I2 as [? (h & q & Hh & Hq & ? & Hu)]. split; [done|]. exists h.
      assert (forall i, <[j := g]> ph i = Holding -> ph i = Holding) as Hback.
      { intros i. destruct (decide (i = j)) as [->|];
          [rewrite fn_lookup_insert; apply Hgh|by rewrite fn_lookup_insert_ne]. }
      destruct (decide (h = j)) as [->|].
      * rewrite list_lookup_alter_eq, Hq, fn_lookup_insert. exists (f q).
        assert (q = p) as -> by congruence. rewrite Hpid.
        split_and!; try done; [by apply Hgh|]. intros i Hi. by apply Hu, Hback.
      * rewrite list_lookup_alter_ne, fn_lookup_insert_ne by done. exists q.
        split_and!; try done. intros i Hi. by apply Hu, Hback.
    + intros i. destruct (decide (i = j)) as [->|].
      * rewrite fn_lookup_insert, Hgh. apply I2.
      * rewrite fn_lookup_insert_ne by done. apply I2.
  - intros i x Hx. rewrite Hf in Hx. rewrite Hc. unfold held, slk in *. rewrite Hsl.
    destruct (decide (i = j)) as [->|].
    + rewrite list_lookup_alter_eq, Hp in Hx. injection Hx as <-.
      rewrite fn_lookup_insert, bool_decide_true by done.
      destruct (I3 j p Hp) as [Ha _]. split; [intros _; apply Hsp, Ha; congruence|].
      subst g. by destruct (ph j).
    + rewrite list_lookup_alter_ne in Hx by done. rewrite fn_lookup_insert_ne by done.
      specialize (I3 i x Hx). rewrite Hn in I3. rewrite bool_decide_false by congruence.
      by rewrite bool_decide_false in I3 by done.
Qed.

Lemma dispatch_keeps s ph j :
  inv (mkSys s ph) -> k_cur s = None -> (j < length (k_ptable s))%nat ->
  exists σ, do_act (ADispatch j) (mkSys s ph) = Next σ /\ inv σ.
Proof.
  intros I Hn [p Hp]%lookup_lt_is_Some. destruct (inv_sched _ _ I Hn) as (Hs & ie' & Hc).
  unfold do_act. simpl. rewrite Hn.
  rewrite decide_False by (apply lookup_lt_Some in Hp; lia).
  destruct (decide (p_state p = RUNNABLE)) as [Hr|Hr].
  2:{ rewrite (dispatch_skip _ p) by done. by eexists. }
  assert (has_space p /\ exists ie, p_context p = CtxSched ie) as [[Hk Hv] [ie Hx]].
  { destruct I as [_ _ I3]. destruct (I3 j p Hp) as [H1 H2]. simpl in *. rewrite Hn in H2.
    rewrite bool_decide_false in H2 by done. split; [apply H1; congruence|].
    destruct (ph j); [by apply H2|by apply H2|by apply H2]. }
  rewrite (dispatch_run j p s ie ie') by done. cbv iota. destruct (ph j) eqn:E.
  2:{ erewrite acquiresleep_resume_run; [|done..].
      apply acquire_keeps; [|done].
      eapply (resume_keeps s); try done; simpl.
      - by rewrite list_alter_alter_eq.
      - done.
      - done.
      - done.
      - by rewrite E. }
  all: unfold yield_resume; (erewrite ptable_release_run; [|done..]); simpl;
    eexists; (split; [done|]); eapply (resume_keeps s); try done; by rewrite E.
Qed.

Lemma act_keeps a σ :
  inv σ -> do_act a σ = Disabled \/ exists σ', do_act a σ = Next σ' /\ inv σ'.
Proof.
  destruct σ as [s ph]. intros I. destruct (k_cur s) as [i|] eqn:Hc.
  - unfold do_act. simpl. rewrite Hc. destruct a; [destruct (decide _)|destruct (decide _)|..].
    + right. apply acquire_keeps; [|done]. apply (inv_ext _ ph); [|done].
      intros j. destruct (decide (j = i)) as [->|];
        by rewrite ?fn_lookup_insert, ?fn_lookup_insert_ne.
    + by left.
    + right. by apply release_keeps.
    + by left.
    + right. by apply yield_keeps.
    + right. by apply kill_keeps.
    + by left.
  - destruct a; try (left; unfold do_act; simpl; by rewrite Hc).
    destruct (decide (length (k_ptable s) <= j)%nat).
    + left. unfold do_act. simpl. rewrite Hc. by rewrite decide_True.
    + right. apply dispatch_keeps; [done..|lia].
Qed.

(** At the start one process runs, nobody has the lock or waits for it. *)
Record initial (σ : sys) : Prop := {
  init_idle : forall i, ph σ i = Idle;
  init_free : k_sleeps (sk σ) !! l = None;
  init_mode : mode_ok (sk σ);
  init_procs : forall i p, k_ptable (sk σ) !! i = Some p ->
    (p_state p <> UNUSED -> has_space p) /\
    if decide (k_cur (sk σ) = Some i) then p_state p = RUNNING else parked p }.

Lemma reachable_inv σ0 σ : initial σ0 -> reachable σ0 σ -> inv σ.
Proof.
  intros I0. induction 1 as [|σ a σ' _ IH Hs].
  - destruct I0 as [H1 H2 H3 H4]. split; [done| |].
    + unfold lock_ok. rewrite H2. intros i. by rewrite H1.
    + intros i p Hp. destruct (H4 i p Hp) as [Ha Hb]. split; [done|]. rewrite H1.
      destruct (decide _); [by rewrite bool_decide_true|by rewrite bool_decide_false].
  - destruct (act_keeps a σ IH) as [E|(σ2 & E & ?)]; congruence.
Qed.

(** C2: a sleep lock under contention.  However processes call acquiresleep and
    releasesleep, are preempted, killed and scheduled, no step panics or faults; at most
    one process is past acquiresleep, and the lock then carries its pid; and no wakeup is
    lost: while the lock is free every process inside acquiresleep is RUNNABLE. *)
Theorem sleeplock_protocol σ0 σ :
  initial σ0 -> reachable σ0 σ ->
  (forall a, do_act a σ <> Crash) /\
  (forall i j, ph σ i = Holding -> ph σ j = Holding -> i = j) /\
  (forall i p, ph σ i = Holding -> k_ptable (sk σ) !! i = Some p ->
     k_sleeps (sk σ) !! l = Some (mkSleep true (p_pid p))) /\
  (forall i p, ph σ i = Waiting -> k_ptable (sk σ) !! i = Some p ->
     held (sk σ) = false -> p_state p = RUNNABLE).
Proof.
  intros I0 Hr. pose proof (reachable_inv _ _ I0 Hr) as I. split_and!.
  - intros a. destruct (act_keeps a σ I) as [E|(σ2 & E & ?)]; congruence.
  - destruct I as [_ I2 _]. unfold lock_ok in I2. intros i j Hi Hj.
    destruct (k_sleeps (sk σ) !! l); [|by apply I2 in Hi].
    destruct I2 as [_ (h & q & _ & _ & _ & Hu)]. rewrite (Hu i), (Hu j); done.
  - destruct I as [_ I2 _]. unfold lock_ok in I2. intros i p Hi Hp.
    destruct (k_sleeps (sk σ) !! l) as [[b pid]|]; [|by apply I2 in Hi].
    destruct I2 as [? (h & q & _ & Hq & ? & Hu)]. simpl in *.
    assert (i = h) as -> by auto. congruence.
  - destruct I as [_ _ I3]. intros i p Hi Hp Hh. destruct (I3 i p Hp) as [_ H].
    rewrite Hi, Hh in H. destruct (bool_decide _); [done|].
    by destruct H as (_ & _ & [?|[_ ?]]).
Qed.
End Protocol.

(** Running a fixed sequence of actions. *)
Fixpoint run_acts (l : sleep_id) (acts : list action) (σ : sys) : outcome :=
  match acts with
  | [] => Next σ
  | a :: acts => match do_act l a σ with Next σ' => run_acts l acts σ' | o => o end
  end.
Lemma run_acts_reachable l acts σ0 σ1 σ :
  reachable l σ0 σ1 -> run_acts l acts σ1 = Next σ -> reachable l σ0 σ.
Proof.
  revert σ1. induction acts as [|a acts IH]; simpl; intros σ1 H1 H2; [by injection H2 as <-|].
  destruct (do_act l a σ1) eqn:E; try done. apply (IH σ2); [|done]. by eapply reach_step.
Qed.

(** Two processes: the first takes the lock, is preempted; the second asks for it and
    goes to sleep; the first gives it back. *)
Definition proc_ready : proc :=
  proc_zero <| p_kstack := 1 |> <| p_vspace := mkVspace [] 1 |> <| p_context := CtxSched true |>.
Definition proc_a : proc := proc_ready <| p_state := RUNNING |> <| p_pid := 1 |>.
Definition proc_b : proc := proc_ready <| p_state := RUNNABLE |> <| p_pid := 2 |>.
Definition two_procs : sys :=
  mkSys (bss <| k_cur := Some 0%nat |> <| k_ptable := [proc_a; proc_b] |>) (fun _ => Idle).
Definition two_acts : list action :=
  [AAcquire; AYield; ADispatch 1; AAcquire; ADispatch 0; ARelease].

Lemma two_procs_initial : initial SlInodefile two_procs.
Proof.
  split; [reflexivity..| |].
  - split; [reflexivity|]. split; [reflexivity|]. by eexists.
  - intros i q Hq. change ([proc_a; proc_b] !! i = Some q) in Hq.
    destruct i as [|[|i]]; [..|done]; apply (f_equal (default proc_a)) in Hq;
      simpl in Hq; subst q; (split; [done|]); [reflexivity|].
    split_and!; [done..|]. intros _. by eexists.
Qed.

Lemma sleeplock_protocol_witness :
  match run_acts SlInodefile two_acts two_procs with
  | Next σ => ph σ 1%nat = Waiting /\
      forall p, k_ptable (sk σ) !! 1%nat = Some p -> p_state p = RUNNABLE
  | _ => False
  end.
Proof.
  assert (match run_acts SlInodefile two_acts two_procs with
          | Next σ => ph σ 1%nat = Waiting /\ held SlInodefile (sk σ) = false
          | _ => False
          end) as H by (vm_compute; split; reflexivity).
  destruct (run_acts SlInodefile two_acts two_procs) as [σ| |] eqn:E; [|elim H..].
  destruct H as [Hw Hh]. split; [exact Hw|]. intros p Hp.
  refine (proj2 (proj2 (proj2 (sleeplock_protocol SlInodefile two_procs σ
    two_procs_initial _))) _ p Hw Hp Hh).
  exact (run_acts_reachable _ two_acts _ two_procs _ (reach_init _ _) E).
Defined.
