(* ===== verification/Bio.v ===== *)
(** The buffer cache (kernel/bio.c): a cache of disk blocks on a doubly linked list in
    order of use, over a disk driver given by an interface. *)
From S2P Require Import Prelude Kstate Locks Sched.

(** * The driver's interface

    What bio.c needs of the compiled driver: [iderw].  kernel/ide.c and kernel/memide.c are
    the instances (Ide.v). *)
Class Driver := iderw : nat -> K unit.

(** * Buffers *)

Definition buf_at (i : nat) : K buf := o <- gets (fun s => k_bufs s !! i); deref o.
Definition buf_mod (i : nat) (f : buf -> buf) : K unit :=
  modify (fun s => s <| k_bufs ::= upd_at i f |>).

(** The links, through a [struct buf *]. *)
Definition get_next (p : bptr) : K bptr :=
  match p with
  | BHead => gets (fun s => snd (k_bhead s))
  | BBuf i => b <- buf_at i; ret (b_next b)
  end.
Definition get_prev (p : bptr) : K bptr :=
  match p with
  | BHead => gets (fun s => fst (k_bhead s))
  | BBuf i => b <- buf_at i; ret (b_prev b)
  end.
Definition set_next (p q : bptr) : K unit :=
  match p with
  | BHead => modify (fun s => s <| k_bhead := (fst (k_bhead s), q) |>)
  | BBuf i => buf_at i;; buf_mod i (fun b => b <| b_next := q |>)
  end.
Definition set_prev (p q : bptr) : K unit :=
  match p with
  | BHead => modify (fun s => s <| k_bhead := (q, snd (k_bhead s)) |>)
  | BBuf i => buf_at i;; buf_mod i (fun b => b <| b_prev := q |>)
  end.

(** Put [b] in front of the list. *)
Definition push_front (i : nat) : K unit :=
  h <- get_next BHead;
  set_next (BBuf i) h;;
  set_prev (BBuf i) BHead.
Definition push_front_head (i : nat) : K unit :=
  h <- get_next BHead;
  set_prev h (BBuf i);;
  set_next BHead (BBuf i).

Fixpoint binit_loop (n i : nat) : K unit :=
  match n with
  | O => ret tt
  | S n =>
      push_front i;;
      initsleeplock (SlBuf i);;
      push_front_head i;;
      binit_loop n (S i)
  end.
Definition binit : K unit :=
  initlock LkBcache;;
  set_prev BHead BHead;;
  set_next BHead BHead;;
  binit_loop NBUF 0.

(** The two scans of [bget]; the fuel is the number of buffers and the head. *)
Fixpoint scan (step : bptr -> K bptr) (test : buf -> bool) (fuel : nat) (p : bptr) :
    K (option nat) :=
  match fuel with
  | O => hang
  | S fuel =>
      match p with
      | BHead => ret None
      | BBuf i =>
          b <- buf_at i;
          if test b then ret (Some i) else q <- step p; scan step test fuel q
      end
  end.
Definition is_block (dev blockno : Z) (b : buf) : bool :=
  (b_dev b =? dev) && (b_blockno b =? blockno).
Definition is_clean (b : buf) : bool := (b_refcnt b =? 0) && negb (flag (b_flags b) B_DIRTY).
Definition bget (dev blockno : Z) : K nat :=
  acquire LkBcache;;
  p <- get_next BHead;
  o <- scan get_next (is_block dev blockno) (S NBUF) p;
  match o with
  | Some i =>
      buf_mod i (fun b => b <| b_refcnt := u32 (b_refcnt b + 1) |>);;
      release LkBcache;;
      acquiresleep (SlBuf i);;
      ret i
  | None =>
      p <- get_prev BHead;
      o <- scan get_prev is_clean (S NBUF) p;
      match o with
      | Some i =>
          buf_mod i (fun b => b <| b_dev := dev |> <| b_blockno := blockno |>
                                <| b_flags := 0 |> <| b_refcnt := 1 |>);;
          release LkBcache;;
          acquiresleep (SlBuf i);;
          ret i
      | None => panic "bget: no buffers"
      end
  end.

Section Cache.
Context {D : Driver}.

Definition bread (dev blockno : Z) : K nat :=
  modify (fun s => s <| k_num_disk_reads := s32 (k_num_disk_reads s + 1) |>);;
  i <- bget dev blockno;
  b <- buf_at i;
  when (negb (flag (b_flags b) B_VALID)) (iderw i);;
  ret i.

(** [reboot] does not return. *)
Definition reboot {A} : K A := panic "reboot".

Definition bwrite (i : nat) : K unit :=
  ce <- gets k_crashn_enable;
  when ce
    (modify (fun s => s <| k_crashn := s32 (k_crashn s - 1) |>);;
     n <- gets k_crashn;
     when (n <? 0) reboot);;
  h <- holdingsleep (SlBuf i);
  if negb h then panic "bwrite" else
  buf_mod i (fun b => b <| b_flags := Z.lor (b_flags b) B_DIRTY |>);;
  iderw i.
End Cache.

(** Take [b] out of the list. *)
Definition unlink (i : nat) : K unit :=
  q <- get_next (BBuf i); p <- get_prev (BBuf i); set_prev q p;;
  p <- get_prev (BBuf i); q <- get_next (BBuf i); set_next p q.
Definition brelse (i : nat) : K unit :=
  h <- holdingsleep (SlBuf i);
  if negb h then panic "brelse" else
  releasesleep (SlBuf i);;
  acquire LkBcache;;
  buf_mod i (fun b => b <| b_refcnt := u32 (b_refcnt b - 1) |>);;
  b <- buf_at i;
  when (b_refcnt b =? 0) (unlink i;; push_front i;; push_front_head i);;
  release LkBcache.

(** * Doubly linked lists

    [chain f p l q]: following [f] from [p] goes through [l] and arrives at [q]. *)

Fixpoint chain (f : bptr -> bptr) (p : bptr) (l : list nat) (q : bptr) : Prop :=
  match l with
  | [] => f p = q
  | x :: l => f p = BBuf x /\ chain f (BBuf x) l q
  end.
Definition upd (f : bptr -> bptr) (p q : bptr) : bptr -> bptr :=
  fun x => if decide (x = p) then q else f x.
Record dll (nx pv : bptr -> bptr) (l : list nat) : Prop := {
  dll_next : chain nx BHead l BHead;
  dll_prev : chain pv BHead (reverse l) BHead;
  dll_nodup : NoDup l }.

Lemma upd_eq f p q : upd f p q p = q.
Proof. unfold upd. by rewrite decide_True. Qed.
Lemma upd_ne f p q x : x <> p -> upd f p q x = f x.
Proof. intros. unfold upd. by rewrite decide_False. Qed.

Lemma chain_ext f g p (l : list nat) q :
  (forall x, x ∈ p :: (BBuf <$> l) -> f x = g x) -> chain f p l q -> chain g p l q.
Proof.
  revert p. induction l as [|x l IH]; simpl; intros p E; [rewrite E by set_solver; done|].
  intros [H1 H2]. split; [rewrite <-E by set_solver; done|]. apply IH; [|done].
  intros y Hy. apply E. set_solver.
Qed.
Lemma chain_app f p a x b q :
  chain f p (a ++ x :: b) q <-> chain f p a (BBuf x) /\ chain f (BBuf x) b q.
Proof. revert p. induction a as [|y a IH]; simpl; intros p; [done|]. rewrite IH. naive_solver. Qed.
(** Redirecting the last link of a chain. *)
Lemma chain_last f p (l : list nat) q q' :
  NoDup (p :: (BBuf <$> l)) -> chain f p l q ->
  chain (upd f (default p (BBuf <$> last l)) q') p l q'.
Proof.
  revert p. induction l as [|x l IH]; intros p Hn; simpl; [by rewrite upd_eq|].
  rewrite fmap_cons in Hn. apply NoDup_cons in Hn as [Hp Hn]. intros [H1 H2].
  destruct l as [|y l]; simpl.
  - rewrite upd_ne by set_solver. split; [done|]. by rewrite upd_eq.
  - split.
    + rewrite upd_ne; [done|]. destruct (last (y :: l)) eqn:E; [|by apply last_None in E].
      apply last_Some_elem_of in E. simpl. set_solver.
    + specialize (IH (BBuf x) Hn H2). simpl in IH.
      by destruct (last (y :: l)) eqn:E; [|apply last_None in E].
Qed.

(** The neighbours of an element. *)
Lemma chain_head f p (l : list nat) q : chain f p l q -> f p = default q (BBuf <$> head l).
Proof. destruct l; simpl; [done|]. by intros [? _]. Qed.

(** Taking an element out of one direction. *)
Lemma chain_remove f (a b : list nat) x :
  NoDup (BHead :: (BBuf <$> a ++ x :: b)) -> chain f BHead (a ++ x :: b) BHead ->
  chain (upd f (default BHead (BBuf <$> last a)) (f (BBuf x))) BHead (a ++ b) BHead.
Proof.
  intros Hn [H1 H2]%chain_app. rewrite fmap_app, fmap_cons in Hn.
  destruct b as [|y b]; simpl in H2.
  - rewrite app_nil_r, H2. apply chain_last with (BBuf x); [|done].
    rewrite app_comm_cons in Hn. by apply NoDup_app in Hn as [? _].
  - destruct H2 as [Hy H2]. rewrite Hy. apply chain_app. split.
    + apply chain_last with (BBuf x); [|done].
      rewrite app_comm_cons in Hn. by apply NoDup_app in Hn as [? _].
    + eapply chain_ext; [|done]. intros z Hz. rewrite upd_ne; [done|].
      rewrite app_comm_cons, fmap_cons in Hn. apply NoDup_app in Hn as (_ & Hd & _).
      intros ->. apply (Hd (default BHead (BBuf <$> last a))); [|set_solver].
      destruct (last a) eqn:E; [apply last_Some_elem_of in E|]; set_solver.
Qed.

#[export] Instance BBuf_inj : Inj eq eq BBuf.
Proof. by intros ? ? [=]. Qed.
Lemma NoDup_ptrs (l : list nat) : NoDup l -> NoDup (BHead :: (BBuf <$> l)).
Proof.
  intros H. apply NoDup_cons. split; [set_solver|]. by apply (NoDup_fmap_2 BBuf).
Qed.

Lemma reverse_mid {A} (a b : list A) x : reverse (a ++ x :: b) = reverse b ++ x :: reverse a.
Proof. by rewrite reverse_app, reverse_cons, <-app_assoc. Qed.

Lemma dll_neighbours nx pv a b x :
  dll nx pv (a ++ x :: b) ->
  pv (BBuf x) = default BHead (BBuf <$> last a) /\
  nx (BBuf x) = default BHead (BBuf <$> head b).
Proof.
  intros [H1 H2 _]. apply chain_app in H1 as [_ H1]. rewrite reverse_mid in H2.
  apply chain_app in H2 as [_ H2]. split.
  - rewrite (chain_head _ _ _ _ H2). by rewrite head_reverse.
  - by apply chain_head.
Qed.

Lemma dll_unlink nx pv a b x :
  dll nx pv (a ++ x :: b) ->
  dll (upd nx (pv (BBuf x)) (nx (BBuf x))) (upd pv (nx (BBuf x)) (pv (BBuf x))) (a ++ b).
Proof.
  intros H. destruct (dll_neighbours _ _ _ _ _ H) as [Hp Hn]. destruct H as [H1 H2 H3]. split.
  - rewrite Hp. apply chain_remove; [by apply NoDup_ptrs|done].
  - rewrite reverse_app. replace (nx (BBuf x)) with (default BHead (BBuf <$> last (reverse b))).
    + rewrite reverse_mid in H2. apply chain_remove; [|done].
      apply NoDup_ptrs. rewrite <-reverse_mid. by rewrite reverse_Permutation.
    + by rewrite Hn, last_reverse.
  - apply NoDup_app in H3 as (? & Hd & [_ ?]%NoDup_cons). apply NoDup_app. set_solver.
Qed.

Lemma dll_push nx pv l x :
  x ∉ l -> dll nx pv l ->
  dll (upd (upd nx (BBuf x) (nx BHead)) BHead (BBuf x))
      (upd (upd pv (BBuf x) BHead) (nx BHead) (BBuf x)) (x :: l).
Proof.
  intros Hx [H1 H2 H3]. pose proof (NoDup_ptrs _ H3) as Hn. split.
  - simpl. rewrite upd_eq. split; [done|]. destruct l as [|y l]; simpl in *.
    + by rewrite upd_ne, upd_eq by done.
    + destruct H1 as [H1 H1']. rewrite upd_ne, upd_eq by done. split; [done|].
      eapply chain_ext; [|done]. intros z Hz. rewrite !upd_ne by set_solver. done.
  - rewrite reverse_cons. apply chain_app. rewrite (chain_head _ _ _ _ H1). split.
    + replace (head l) with (last (reverse l)) by apply last_reverse.
      apply chain_last with BHead.
      * apply NoDup_ptrs. by rewrite reverse_Permutation.
      * eapply chain_ext; [|done]. intros z Hz. rewrite upd_ne; [done|].
        intros ->. apply elem_of_cons in Hz as [|Hz]; [done|].
        apply list_elem_of_fmap in Hz as (? & [= <-] & Hz).
        by apply Hx, elem_of_reverse.
    + simpl. rewrite upd_ne; [by rewrite upd_eq|]. destruct l; simpl; [done|]. set_solver.
  - by apply NoDup_cons.
Qed.

(** * The links in the state *)

Definition nxs (s : kstate) (p : bptr) : bptr :=
  match p with BHead => snd (k_bhead s) | BBuf i => default BHead (b_next <$> k_bufs s !! i) end.
Definition pvs (s : kstate) (p : bptr) : bptr :=
  match p with BHead => fst (k_bhead s) | BBuf i => default BHead (b_prev <$> k_bufs s !! i) end.
Definition valid (s : kstate) (p : bptr) : Prop :=
  match p with BHead => True | BBuf i => (i < length (k_bufs s))%nat end.
(** A buffer without its links, and a step that changes only links. *)
Definition core (b : buf) : buf := b <| b_next := BHead |> <| b_prev := BHead |>.
Definition unlinked (s : kstate) : kstate :=
  s <| k_bufs ::= fmap core |> <| k_bhead := (BHead, BHead) |>.

Lemma get_next_run p s : valid s p -> get_next p s = Ok (nxs s p) s.
Proof.
  destruct p as [|i]; [done|]. intros [b Hb]%lookup_lt_is_Some.
  unfold get_next, buf_at. mrun. simpl. rewrite Hb. by mrun.
Qed.
Lemma get_prev_run p s : valid s p -> get_prev p s = Ok (pvs s p) s.
Proof.
  destruct p as [|i]; [done|]. intros [b Hb]%lookup_lt_is_Some.
  unfold get_prev, buf_at. mrun. simpl. rewrite Hb. by mrun.
Qed.

(** What a store into a link does, seen through [nxs] and [pvs]. *)
Record stored (s s' : kstate) (nx pv : bptr -> bptr) : Prop := {
  st_next : forall x, nxs s' x = nx x;
  st_prev : forall x, pvs s' x = pv x;
  st_unlinked : unlinked s' = unlinked s;
  st_length : length (k_bufs s') = length (k_bufs s) }.

Lemma alter_lookup {A} (f : A -> A) i j (l : list A) :
  alter f i l !! j = if decide (j = i) then f <$> l !! j else l !! j.
Proof.
  destruct (decide (j = i)) as [->|]; [apply list_lookup_alter_eq|by apply list_lookup_alter_ne].
Qed.
Lemma fmap_alter_same {A B} (g : A -> B) (f : A -> A) i (l : list A) :
  (forall x, g (f x) = g x) -> g <$> alter f i l = g <$> l.
Proof.
  intros H. apply list_eq. intros j. rewrite !list_lookup_fmap, alter_lookup.
  destruct (decide (j = i)); [|done]. destruct (l !! j); simpl; by rewrite ?H.
Qed.

Lemma set_next_run p q s :
  valid s p -> exists s', set_next p q s = Ok tt s' /\ stored s s' (upd (nxs s) p q) (pvs s).
Proof.
  destruct p as [|i]; intros Hv.
  - eexists. split; [done|]. split; try done. intros [|j]; [by rewrite upd_eq|by rewrite upd_ne].
  - apply lookup_lt_is_Some in Hv as [b Hb]. unfold set_next, buf_at, buf_mod. mrun. simpl.
    rewrite Hb. mrun. eexists. split; [done|]. split; simpl.
    + intros [|j]; [by rewrite upd_ne|]. simpl. rewrite alter_lookup.
      destruct (decide (j = i)) as [->|]; [by rewrite upd_eq, Hb|by rewrite upd_ne by congruence].
    + intros [|j]; [done|]. simpl. rewrite alter_lookup.
      destruct (decide (j = i)) as [->|]; [|done]. by rewrite Hb.
    + unfold unlinked, set. simpl. by rewrite fmap_alter_same.
    + by rewrite length_alter.
Qed.
Lemma set_prev_run p q s :
  valid s p -> exists s', set_prev p q s = Ok tt s' /\ stored s s' (nxs s) (upd (pvs s) p q).
Proof.
  destruct p as [|i]; intros Hv.
  - eexists. split; [done|]. split; try done. intros [|j]; [by rewrite upd_eq|by rewrite upd_ne].
  - apply lookup_lt_is_Some in Hv as [b Hb]. unfold set_prev, buf_at, buf_mod. mrun. simpl.
    rewrite Hb. mrun. eexists. split; [done|]. split; simpl.
    + intros [|j]; [done|]. simpl. rewrite alter_lookup.
      destruct (decide (j = i)) as [->|]; [|done]. by rewrite Hb.
    + intros [|j]; [by rewrite upd_ne|]. simpl. rewrite alter_lookup.
      destruct (decide (j = i)) as [->|]; [by rewrite upd_eq, Hb|by rewrite upd_ne by congruence].
    + unfold unlinked, set. simpl. by rewrite fmap_alter_same.
    + by rewrite length_alter.
Qed.

Lemma upd_cong f g p q x : (forall y, f y = g y) -> upd f p q x = upd g p q x.
Proof. intros E. unfold upd. by rewrite E. Qed.
Lemma valid_stored s s' nx pv p : stored s s' nx pv -> valid s p -> valid s' p.
Proof. intros [_ _ _ H]. unfold valid. by rewrite H. Qed.
Lemma dll_ext nx pv nx' pv' l :
  (forall x, nx x = nx' x) -> (forall x, pv x = pv' x) -> dll nx pv l -> dll nx' pv' l.
Proof. intros E1 E2 [H1 H2 H3]. split; [..|done]; by (eapply chain_ext; [|done]; auto). Qed.

Lemma push_front_run i s :
  valid s (BBuf i) ->
  exists s', push_front i s = Ok tt s' /\
    stored s s' (upd (nxs s) (BBuf i) (nxs s BHead)) (upd (pvs s) (BBuf i) BHead).
Proof.
  intros Hv. unfold push_front. step (get_next_run BHead s I).
  destruct (set_next_run (BBuf i) (nxs s BHead) s Hv) as (s1 & E1 & S1). step E1.
  destruct (set_prev_run (BBuf i) BHead s1) as (s2 & -> & S2); [by eapply valid_stored|].
  exists s2. split; [done|]. destruct S1 as [A1 B1 C1 D1], S2 as [A2 B2 C2 D2].
  split; [..|congruence|congruence]; intros x.
  - by rewrite A2.
  - rewrite B2. by apply upd_cong.
Qed.
Lemma push_front_head_run i s :
  valid s (nxs s BHead) ->
  exists s', push_front_head i s = Ok tt s' /\
    stored s s' (upd (nxs s) BHead (BBuf i)) (upd (pvs s) (nxs s BHead) (BBuf i)).
Proof.
  intros Hv. unfold push_front_head. step (get_next_run BHead s I).
  destruct (set_prev_run (nxs s BHead) (BBuf i) s Hv) as (s1 & E1 & S1). step E1.
  destruct (set_next_run BHead (BBuf i) s1) as (s2 & -> & S2); [done|].
  exists s2. split; [done|]. destruct S1 as [A1 B1 C1 D1], S2 as [A2 B2 C2 D2].
  split; [..|congruence|congruence]; intros x.
  - rewrite A2. by apply upd_cong.
  - by rewrite B2.
Qed.

(** A list of buffers all in the array. *)
Definition in_array (s : kstate) (l : list nat) : Prop :=
  forall i, i ∈ l -> (i < length (k_bufs s))%nat.
Lemma next_valid s l : in_array s l -> dll (nxs s) (pvs s) l -> valid s (nxs s BHead).
Proof.
  intros Hl [H _ _]. rewrite (chain_head _ _ _ _ H). destruct l; simpl; [done|].
  apply Hl. set_solver.
Qed.

(** Pushing a buffer that is not on the list: the two halves, with a step in between
    that does not touch the links. *)
Lemma push_run (m : K unit) i l s :
  in_array s (i :: l) -> i ∉ l -> dll (nxs s) (pvs s) l ->
  (forall s, exists s', m s = Ok tt s' /\ k_bufs s' = k_bufs s /\ k_bhead s' = k_bhead s) ->
  exists s1 s2 s3,
    push_front i s = Ok tt s1 /\ m s1 = Ok tt s2 /\ push_front_head i s2 = Ok tt s3 /\
    dll (nxs s3) (pvs s3) (i :: l) /\ length (k_bufs s3) = length (k_bufs s) /\
    unlinked s1 = unlinked s /\ unlinked s3 = unlinked s2.
Proof.
  intros Hl Hi Hd Hm. destruct (push_front_run i s) as (s1 & E1 & [A1 B1 C1 D1]).
  { apply Hl. set_solver. }
  destruct (Hm s1) as (s2 & E2 & Hb & Hh).
  assert (nxs s2 BHead = nxs s BHead) as Hx.
  { simpl. rewrite Hh. change (nxs s1 BHead = nxs s BHead). rewrite A1. by rewrite upd_ne. }
  destruct (push_front_head_run i s2) as (s3 & E3 & [A3 B3 C3 D3]).
  { rewrite Hx. pose proof (next_valid s l ltac:(intros ? ?; apply Hl; set_solver) Hd) as Hv.
    unfold valid in *. by rewrite Hb, D1. }
  exists s1, s2, s3. split_and!; try done; [|congruence].
  eapply dll_ext; [| |by apply (dll_push _ _ _ i Hi Hd)].
  - intros x. rewrite A3. apply upd_cong. intros y. unfold nxs at 3. rewrite Hb, Hh. symmetry.
    apply A1.
  - intros x. rewrite B3, Hx. apply upd_cong. intros y. unfold pvs at 2. rewrite Hb, Hh.
    symmetry. apply B1.
Qed.

Lemma unlink_run i a b s :
  in_array s (a ++ i :: b) -> dll (nxs s) (pvs s) (a ++ i :: b) ->
  exists s', unlink i s = Ok tt s' /\ dll (nxs s') (pvs s') (a ++ b) /\
    unlinked s' = unlinked s /\ length (k_bufs s') = length (k_bufs s).
Proof.
  intros Hl Hd. destruct (dll_neighbours _ _ _ _ _ Hd) as [Hp Hq].
  assert (valid s (BBuf i)) as Hi by (apply Hl; set_solver).
  assert (nxs s (BBuf i) <> BBuf i) as Hne.
  { rewrite Hq. destruct Hd as [_ _ (_ & _ & [Hb _]%NoDup_cons)%NoDup_app].
    destruct b; simpl; [done|]. set_solver. }
  unfold unlink. step (get_next_run _ s Hi). step (get_prev_run _ s Hi).
  destruct (set_prev_run (nxs s (BBuf i)) (pvs s (BBuf i)) s) as (s1 & E1 & S1).
  { rewrite Hq. destruct b; simpl; [done|]. apply Hl. set_solver. }
  step E1. pose proof (valid_stored _ _ _ _ _ S1 Hi) as Hi1.
  step (get_prev_run _ s1 Hi1). step (get_next_run _ s1 Hi1).
  destruct S1 as [A1 B1 C1 D1]. rewrite A1, B1, upd_ne by congruence.
  destruct (set_next_run (pvs s (BBuf i)) (nxs s (BBuf i)) s1) as (s2 & -> & [A2 B2 C2 D2]).
  { rewrite Hp. destruct (last a) eqn:E; simpl; [|done]. rewrite D1. apply Hl.
    apply last_Some_elem_of in E. set_solver. }
  exists s2. split_and!; [done| |congruence..].
  eapply dll_ext; [| |by apply (dll_unlink _ _ a b i Hd)].
  - intros x. rewrite A2. apply upd_cong. done.
  - intros x. by rewrite B2, B1.
Qed.

(** The scans are searches of the list. *)
Fixpoint find_first (P : nat -> bool) (l : list nat) : option nat :=
  match l with [] => None | x :: l => if P x then Some x else find_first P l end.
Definition buf_test (s : kstate) (test : buf -> bool) (i : nat) : bool :=
  match k_bufs s !! i with Some b => test b | None => false end.

Lemma scan_run step f test s l fuel p :
  (forall p, valid s p -> step p s = Ok (f p) s) ->
  in_array s l -> chain f p l BHead -> (length l < fuel)%nat ->
  scan step test fuel (f p) s = Ok (find_first (buf_test s test) l) s.
Proof.
  intros Hs. revert fuel p. induction l as [|x l IH]; intros [|fuel] p Hl Hc Hf;
    simpl in Hf; try lia; simpl.
  - simpl in Hc. by rewrite Hc.
  - destruct Hc as [Hx Hc]. rewrite Hx. unfold buf_at. mrun.
    assert (valid s (BBuf x)) as Hv by (apply Hl; set_solver).
    pose proof Hv as [b Hb]%lookup_lt_is_Some.
    unfold buf_test. rewrite Hb. mrun. destruct (test b); [done|].
    step (Hs (BBuf x) Hv). apply IH; [|done|lia]. intros y ?. apply Hl. set_solver.
Qed.

Lemma find_first_Some P l i :
  find_first P l = Some i ->
  exists a b, l = a ++ i :: b /\ P i = true /\ forall x, x ∈ a -> P x = false.
Proof.
  induction l as [|x l IH]; simpl; [done|]. destruct (P x) eqn:E.
  - intros [= ->]. exists [], l. set_solver.
  - intros (a & b & -> & ? & ?)%IH. exists (x :: a), b. set_solver.
Qed.
Lemma find_first_None P l : find_first P l = None <-> forall x, x ∈ l -> P x = false.
Proof.
  induction l as [|x l IH]; simpl; [set_solver|]. destruct (P x) eqn:E.
  - split; [done|]. intros H. rewrite H in E; set_solver.
  - rewrite IH. set_solver.
Qed.

(** * The cache *)

Record linked (s : kstate) (l : list nat) : Prop := {
  lk_length : length (k_bufs s) = NBUF;
  lk_dll : dll (nxs s) (pvs s) l;
  lk_perm : l ≡ₚ seq 0 NBUF }.

Lemma linked_same s s' l :
  k_bufs s' = k_bufs s -> k_bhead s' = k_bhead s -> linked s l -> linked s' l.
Proof.
  intros E1 E2 [H1 H2 H3]. split; [congruence| |done].
  eapply dll_ext; [..|done]; intros [|x]; unfold nxs, pvs; by rewrite ?E1, ?E2.
Qed.
Lemma linked_in_array s l : linked s l -> in_array s l.
Proof. intros [H1 _ H2] i Hi. rewrite H2 in Hi. apply elem_of_seq in Hi. lia. Qed.
Lemma linked_elem s l i : linked s l -> i ∈ l <-> is_Some (k_bufs s !! i).
Proof. intros [H1 _ H2]. rewrite H2, elem_of_seq, lookup_lt_is_Some. lia. Qed.
Lemma linked_fuel s l : linked s l -> (length l < S NBUF)%nat.
Proof. intros [_ _ H]. rewrite H, length_seq. lia. Qed.

Lemma scan_next_run s l test :
  linked s l -> scan get_next test (S NBUF) (nxs s BHead) s = Ok (find_first (buf_test s test) l) s.
Proof.
  intros Hl. apply scan_run.
  - intros p. apply get_next_run.
  - by apply linked_in_array.
  - apply Hl.
  - by eapply linked_fuel.
Qed.
Lemma scan_prev_run s l test :
  linked s l ->
  scan get_prev test (S NBUF) (pvs s BHead) s = Ok (find_first (buf_test s test) (reverse l)) s.
Proof.
  intros Hl. apply scan_run.
  - intros p. apply get_prev_run.
  - intros i Hi. apply (linked_in_array s l Hl). by apply elem_of_reverse.
  - apply Hl.
  - rewrite length_reverse. by eapply linked_fuel.
Qed.

Definition taken (i : nat) (pid : Z) (f : buf -> buf) (s : kstate) : kstate :=
  s <| k_bufs ::= alter f i |> <| k_sleeps ::= <[SlBuf i := mkSleep true pid]> |>
    <| k_cpu ::= touch |>.
Definition hit (b : buf) : buf := b <| b_refcnt := u32 (b_refcnt b + 1) |>.
Definition recycled (dev n : Z) (b : buf) : buf :=
  b <| b_dev := dev |> <| b_blockno := n |> <| b_flags := 0 |> <| b_refcnt := 1 |>.

(** Both ends of bget: the lock is given back and the buffer's own lock taken. *)
Lemma bget_take c p s i f :
  running_as s c p -> k_sleeps s !! SlBuf i = None ->
  (buf_mod i f;; release LkBcache;; acquiresleep (SlBuf i);; ret i) (locked LkBcache s) =
    Ok i (taken i (p_pid p) f s).
Proof.
  intros Hr Hs. pose proof (running_can_lock s c p LkBcache Hr) as [Hl Hw].
  unfold buf_mod. mrun. erewrite bind_run; [|by apply (release_locked LkBcache s)].
  erewrite bind_run; [|apply (acquiresleep_run _ _ c p)].
  - unfold ret. f_equal. kext. simpl. by rewrite touch_idemp.
  - split; simpl; [by rewrite (ra_spins _ _ _ Hr)|]. by apply cpu_wf_touch.
  - done.
  - apply Hr.
  - apply Hr.
Qed.

Lemma bget_hit c p s l dev n i :
  running_as s c p -> linked s l -> find_first (buf_test s (is_block dev n)) l = Some i ->
  k_sleeps s !! SlBuf i = None ->
  bget dev n s = Ok i (taken i (p_pid p) hit s).
Proof.
  intros Hr Hl Hf Hs. unfold bget.
  step (acquire_free LkBcache s (proj1 (running_can_lock s c p LkBcache Hr))).
  rewrite (bind_run _ _ (locked LkBcache s) _ _ (get_next_run BHead _ I)).
  rewrite (bind_run _ _ _ _ _ (scan_next_run (locked LkBcache s) l _
    (linked_same s (locked LkBcache s) l eq_refl eq_refl Hl))).
  change (buf_test (locked LkBcache s)) with (buf_test s). rewrite Hf.
  by apply (bget_take c).
Qed.
Lemma bget_miss c p s l dev n i :
  running_as s c p -> linked s l -> find_first (buf_test s (is_block dev n)) l = None ->
  find_first (buf_test s is_clean) (reverse l) = Some i -> k_sleeps s !! SlBuf i = None ->
  bget dev n s = Ok i (taken i (p_pid p) (recycled dev n) s).
Proof.
  intros Hr Hl Hf Hc Hs. unfold bget.
  step (acquire_free LkBcache s (proj1 (running_can_lock s c p LkBcache Hr))).
  rewrite (bind_run _ _ (locked LkBcache s) _ _ (get_next_run BHead _ I)).
  rewrite (bind_run _ _ _ _ _ (scan_next_run (locked LkBcache s) l _
    (linked_same s (locked LkBcache s) l eq_refl eq_refl Hl))).
  change (buf_test (locked LkBcache s)) with (buf_test s). rewrite Hf.
  rewrite (bind_run _ _ (locked LkBcache s) _ _ (get_prev_run BHead _ I)).
  rewrite (bind_run _ _ _ _ _ (scan_prev_run (locked LkBcache s) l _
    (linked_same s (locked LkBcache s) l eq_refl eq_refl Hl))).
  change (buf_test (locked LkBcache s)) with (buf_test s). rewrite Hc.
  by apply (bget_take c).
Qed.

(** * What the cache promises *)

Definition zero_block : list Z := replicate (Z.to_nat BSIZE) 0.
Definition blk (s : kstate) (n : Z) : list Z := default zero_block (k_disk s !! n).

(** A buffer nobody uses is empty or holds what is on disk. *)
Definition buf_ok (s : kstate) (i : nat) (b : buf) : Prop :=
  length (b_data b) = Z.to_nat BSIZE /\ (b_dev b = 0 \/ b_dev b = ROOTDEV) /\
  match k_sleeps s !! SlBuf i with
  | None => b_refcnt b = 0 /\
      (b_flags b = 0 \/
       b_flags b = B_VALID /\ b_dev b = ROOTDEV /\ b_data b = blk s (b_blockno b))
  | Some v => sl_locked v = true /\ b_refcnt b = 1
  end.
Record cache_inv (s : kstate) (l : list nat) : Prop := {
  ci_linked : linked s l;
  ci_uniq : forall i j b c, k_bufs s !! i = Some b -> k_bufs s !! j = Some c ->
    b_dev b <> 0 -> b_dev b = b_dev c -> b_blockno b = b_blockno c -> i = j;
  ci_buf : forall i b, k_bufs s !! i = Some b -> buf_ok s i b;
  ci_disk : forall n, length (blk s n) = Z.to_nat BSIZE }.

(** A process that may do disk I/O. *)
Record ready (s : kstate) (c : nat) (p : proc) : Prop := {
  rd_running : running_as s c p;
  rd_queue : k_idequeue s = [];
  rd_disk : k_havedisk1 s = true;
  rd_crash : k_crashn_enable s = false }.

(** What a driver promises for a request nobody else is in the way of. *)
Class DriverLaws (D : Driver) : Prop := {
  iderw_read s c p i b v :
    ready s c p -> k_bufs s !! i = Some b -> k_sleeps s !! SlBuf i = Some v ->
    sl_locked v = true -> b_dev b = ROOTDEV -> 0 <= b_blockno b < FSSIZE -> b_flags b = 0 ->
    length (b_data b) = Z.to_nat BSIZE ->
    exists s', iderw i s = Ok tt s' /\
      calm (s <| k_bufs ::= alter (fun b => b <| b_flags := B_VALID |>
                                    <| b_data := blk s (b_blockno b) |>) i |>) s';
  iderw_write s c p i b v :
    ready s c p -> k_bufs s !! i = Some b -> k_sleeps s !! SlBuf i = Some v ->
    sl_locked v = true -> b_dev b = ROOTDEV -> 0 <= b_blockno b < FSSIZE ->
    b_flags b = Z.lor B_VALID B_DIRTY -> length (b_data b) = Z.to_nat BSIZE ->
    exists s', iderw i s = Ok tt s' /\
      calm (s <| k_bufs ::= alter (fun b => b <| b_flags := B_VALID |>) i |>
              <| k_disk ::= <[b_blockno b := b_data b]> |>) s' }.

(** The state without what the block layer may change. *)
Definition forget_blk (s : kstate) : kstate :=
  forget s <| k_bufs := [] |> <| k_bhead := (BHead, BHead) |> <| k_num_disk_reads := 0 |>
    <| k_sleeps := ∅ |> <| k_disk := ∅ |>.
Definition bframe (s s' : kstate) : Prop := forget_blk s = forget_blk s'.
#[export] Instance bframe_equiv : Equivalence bframe.
Proof. split; unfold bframe; [done|congruence..]. Qed.
Lemma bframe_get {A} (f : kstate -> A) s s' :
  (forall s, f (forget_blk s) = f s) -> bframe s s' -> f s = f s'.
Proof. intros H E. by rewrite <-H, E, H. Qed.
Lemma calm_bframe s s' : calm s s' -> bframe s s'.
Proof. unfold calm, bframe, forget_blk. by intros ->. Qed.

Lemma calm_ready s s' c p :
  calm s s' -> ready s c p -> exists p', ready s' c p' /\ settle p' = settle p.
Proof.
  intros E [H1 H2 H3 H4]. destruct (calm_running _ _ _ _ E H1) as (p' & Hp & Ep). exists p'.
  split; [|done]. split; [done|..].
  - by rewrite <-(calm_get k_idequeue s s').
  - by rewrite <-(calm_get k_havedisk1 s s').
  - by rewrite <-(calm_get k_crashn_enable s s').
Qed.

(** A state that differs only where [ready] does not look. *)
Ltac still_ready :=
  match goal with
  | H : ready _ ?c ?p |- ready _ ?c ?p => destruct H as [[] ? ? ?]; split; [by split|done..]
  end.

Lemma cache_inv_same s s' l :
  k_bufs s' = k_bufs s -> k_bhead s' = k_bhead s ->
  (forall j, k_sleeps s' !! SlBuf j = k_sleeps s !! SlBuf j) ->
  k_disk s' = k_disk s -> cache_inv s l -> cache_inv s' l.
Proof.
  intros E1 E2 E3 E4 [H1 H2 H3 H4]. split.
  - by apply (linked_same s).
  - intros i j b c. rewrite E1. apply H2.
  - intros i b. rewrite E1. intros Hb. unfold buf_ok, blk. rewrite E3, E4. by apply H3.
  - intros n. unfold blk. rewrite E4. apply H4.
Qed.
Lemma cache_inv_calm s s' l : calm s s' -> cache_inv s l -> cache_inv s' l.
Proof.
  intros E. apply cache_inv_same; [| |intros j|]; symmetry; try by apply (calm_get _ s s').
  by rewrite (calm_get k_sleeps s s').
Qed.

(** A change of the core of one buffer, links aside. *)
Lemma linked_alter s s' l f i :
  (forall b, b_next (f b) = b_next b /\ b_prev (f b) = b_prev b) ->
  k_bufs s' = alter f i (k_bufs s) -> k_bhead s' = k_bhead s -> linked s l -> linked s' l.
Proof.
  intros Hf E1 E2 [H1 H2 H3]. split; [by rewrite E1, length_alter| |done].
  eapply dll_ext; [..|done]; intros [|x]; unfold nxs, pvs; rewrite ?E1, ?E2; try done;
    rewrite alter_lookup; destruct (decide (x = i)); try done;
    destruct (k_bufs s !! x); simpl; try done; symmetry; apply Hf.
Qed.

Lemma cache_inv_alter s s' l f i b :
  cache_inv s l -> k_bufs s !! i = Some b ->
  k_bufs s' = alter f i (k_bufs s) -> k_bhead s' = k_bhead s -> 
  (forall j, j <> i -> k_sleeps s' !! SlBuf j = k_sleeps s !! SlBuf j) ->
  (forall b, b_next (f b) = b_next b /\ b_prev (f b) = b_prev b) ->
  (forall j c, j <> i -> k_bufs s !! j = Some c ->
     b_dev c <> 0 -> b_dev (f b) = b_dev c -> b_blockno (f b) <> b_blockno c) ->
  (forall j c, j <> i -> k_bufs s !! j = Some c -> b_dev c <> 0 ->
     blk s' (b_blockno c) = blk s (b_blockno c)) ->
  (forall n, length (blk s' n) = Z.to_nat BSIZE) ->
  buf_ok s' i (f b) -> cache_inv s' l.
Proof.
  intros [H1 H2 H3 H4] Hb E1 E2 E3 Hf Hu Hd Hn Hok. split; [by eapply linked_alter| | |done].
  - intros j k x y. rewrite E1, !alter_lookup.
    destruct (decide (j = i)) as [->|], (decide (k = i)) as [->|]; try done.
    + rewrite Hb. intros [= <-] Hy ? ? ?. exfalso. eapply (Hu k y); eauto; congruence.
    + rewrite Hb. intros Hx [= <-] ? ? ?. exfalso. eapply (Hu j x); eauto; congruence.
    + apply H2.
  - intros j x. rewrite E1, alter_lookup. destruct (decide (j = i)) as [->|].
    + rewrite Hb. by intros [= <-].
    + intros Hx. specialize (H3 j x Hx). unfold buf_ok in *. rewrite E3 by done.
      destruct H3 as (? & ? & H3). split_and!; try done.
      destruct (k_sleeps s !! SlBuf j); [done|]. destruct H3 as [? [?|(? & ? & ?)]]; [eauto|].
      split; [done|]. right. split_and!; try done. rewrite (Hd j x); [done..|]. 
      unfold ROOTDEV in *. lia.
Qed.

(** Buffer [i] holds block [n] with contents [d]. *)
Definition holds (s : kstate) (i : nat) (n : Z) (d : list Z) : Prop :=
  exists b, k_bufs s !! i = Some b /\ b_flags b = B_VALID /\ b_dev b = ROOTDEV /\
    b_blockno b = n /\ b_data b = d.

(** Nobody uses block [n], and some buffer is not in use. *)
Definition block_free (s : kstate) (n : Z) : Prop :=
  forall j b, k_bufs s !! j = Some b -> b_dev b = ROOTDEV -> b_blockno b = n ->
    k_sleeps s !! SlBuf j = None.
Definition room (s : kstate) : Prop :=
  exists j, (j < NBUF)%nat /\ k_sleeps s !! SlBuf j = None.

Lemma unheld_clean s l j :
  cache_inv s l -> (j < NBUF)%nat -> k_sleeps s !! SlBuf j = None ->
  buf_test s is_clean j = true.
Proof.
  intros I Hj Hs. rewrite <-(lk_length _ _ (ci_linked _ _ I)) in Hj.
  apply lookup_lt_is_Some in Hj as [b Hb]. unfold buf_test. rewrite Hb.
  destruct (ci_buf _ _ I j b Hb) as (_ & _ & H). rewrite Hs in H.
  destruct H as [Hr [Hf|(Hf & _)]]; unfold is_clean; by rewrite Hr, Hf.
Qed.
Lemma clean_unheld s l i b :
  cache_inv s l -> k_bufs s !! i = Some b -> is_clean b = true -> k_sleeps s !! SlBuf i = None.
Proof.
  intros I Hb Hc. destruct (ci_buf _ _ I i b Hb) as (_ & _ & H).
  destruct (k_sleeps s !! SlBuf i); [|done]. destruct H as [_ H].
  unfold is_clean in Hc. by rewrite H in Hc.
Qed.

(** What bget hands out. *)
Record got (s : kstate) (l : list nat) (n : Z) (pid : Z) (i : nat) (f : buf -> buf) (b : buf) :
    Prop := {
  got_buf : k_bufs s !! i = Some b;
  got_free : k_sleeps s !! SlBuf i = None;
  got_dev : b_dev (f b) = ROOTDEV;
  got_blockno : b_blockno (f b) = n;
  got_data : length (b_data (f b)) = Z.to_nat BSIZE;
  got_flags : b_flags (f b) = 0 \/ b_flags (f b) = B_VALID /\ b_data (f b) = blk s n;
  got_inv : cache_inv (taken i pid f s) l }.

Lemma taken_inv s l i pid f b :
  cache_inv s l -> k_bufs s !! i = Some b ->
  (forall b, b_next (f b) = b_next b /\ b_prev (f b) = b_prev b) ->
  (forall j c, j <> i -> k_bufs s !! j = Some c ->
     b_dev c <> 0 -> b_dev (f b) = b_dev c -> b_blockno (f b) <> b_blockno c) ->
  length (b_data (f b)) = Z.to_nat BSIZE -> b_dev (f b) = ROOTDEV -> b_refcnt (f b) = 1 ->
  cache_inv (taken i pid f s) l.
Proof.
  intros I Hb Hf Hu Hlen Hdev Hr. eapply (cache_inv_alter s _ l f i b); try done.
  - intros j Hj. simpl. by rewrite lookup_insert_ne by congruence.
  - apply I.
  - split; [done|]. split; [by right|]. simpl. by rewrite lookup_insert_eq.
Qed.

Lemma bget_got s l c p n :
  cache_inv s l -> ready s c p -> block_free s n -> room s ->
  exists i f b, bget ROOTDEV n s = Ok i (taken i (p_pid p) f s) /\ got s l n (p_pid p) i f b.
Proof.
  intros I [Hr _ _ _] Hfree (j & Hj & Hs). pose proof (ci_linked _ _ I) as Hl.
  destruct (find_first (buf_test s (is_block ROOTDEV n)) l) as [i|] eqn:E.
  - pose proof E as (a & b & -> & Ht & _)%find_first_Some. unfold buf_test in Ht.
    destruct (k_bufs s !! i) as [x|] eqn:Hx; [|done].
    apply andb_prop in Ht as [Hd%Z.eqb_eq Hn%Z.eqb_eq].
    pose proof (Hfree i x Hx Hd Hn) as Hi.
    destruct (ci_buf _ _ I i x Hx) as (Hlen & _ & Hok). rewrite Hi in Hok.
    destruct Hok as [Href Hok]. exists i, hit, x. split; [by eapply bget_hit|]. split; try done.
    + destruct Hok as [?|(? & ? & ?)]; [by left|right]. split; [done|]. simpl. congruence.
    + eapply taken_inv; try done.
      * intros k y Hk Hy Hy0 E1 E2. apply Hk. by apply (ci_uniq _ _ I k i y x).
      * simpl. by rewrite Href.
  - destruct (find_first (buf_test s is_clean) (reverse l)) as [i|] eqn:E2.
    2:{ rewrite find_first_None in E2. specialize (E2 j). rewrite elem_of_reverse in E2.
        rewrite (unheld_clean s l) in E2 by done. discriminate E2.
        rewrite (lk_perm _ _ Hl), elem_of_seq. lia. }
    pose proof E2 as (a & b & _ & Ht & _)%find_first_Some. unfold buf_test in Ht.
    destruct (k_bufs s !! i) as [x|] eqn:Hx; [|done].
    pose proof (clean_unheld s l i x I Hx Ht) as Hi.
    destruct (ci_buf _ _ I i x Hx) as (Hlen & _ & _).
    exists i, (recycled ROOTDEV n), x. split; [by eapply bget_miss|]. split; try done.
    + by left.
    + eapply taken_inv; try done. intros k y Hk Hy Hy0 E3 E4. simpl in E3, E4.
      rewrite find_first_None in E. specialize (E k).
      unfold buf_test in E. rewrite Hy in E. unfold is_block in E.
      rewrite <-E3, <-E4, !Z.eqb_refl in E. discriminate E.
      rewrite (linked_elem s l k Hl), Hy. by eexists.
Qed.

Section Promises.
Context {D : Driver} {L : DriverLaws D}.

(** The state while the read count is up. *)
Definition counted (s : kstate) : kstate :=
  s <| k_num_disk_reads := s32 (k_num_disk_reads s + 1) |>.

Lemma ready_taken s c p i pid f : ready s c p -> ready (taken i pid f s) c p.
Proof. intros R. still_ready. Qed.
Lemma ready_counted s c p : ready s c p -> ready (counted s) c p.
Proof. intros R. still_ready. Qed.

(** What holds after bread(ROOTDEV, n) on [s]. *)
Record bread_post (s : kstate) (l : list nat) (c : nat) (p : proc) (n : Z) (i : nat)
    (s' : kstate) : Prop := {
  br_inv : cache_inv s' l;
  br_ready : exists p', ready s' c p' /\ settle p' = settle p;
  br_frame : bframe s s';
  br_disk : k_disk s' = k_disk s;
  br_free : k_sleeps s !! SlBuf i = None;
  br_sleeps : k_sleeps s' = <[SlBuf i := mkSleep true (p_pid p)]> (k_sleeps s);
  br_holds : holds s' i n (blk s n);
  br_others : forall j, j <> i -> k_bufs s' !! j = k_bufs s !! j }.

Lemma bread_run s l c p n :
  cache_inv s l -> ready s c p -> 0 <= n < FSSIZE -> block_free s n -> room s ->
  exists i s', bread ROOTDEV n s = Ok i s' /\ bread_post s l c p n i s'.
Proof.
  intros I R Hn Hf Hroom. unfold bread. mrun. fold (counted s).
  destruct (bget_got (counted s) l c p n) as (i & f & b & E & [G1 G2 G3 G4 G5 G6 G7]).
  { by apply (cache_inv_same s). } { by apply ready_counted. } { done. } { done. }
  change (k_bufs s !! i = Some b) in G1.
  step E. set (s1 := taken i (p_pid p) f (counted s)) in *.
  assert (k_bufs s1 !! i = Some (f b)) as Hb by (simpl; by rewrite alter_lookup, decide_True, G1).
  unfold buf_at. mrun. rewrite Hb. mrun.
  assert (ready s1 c p) as R1 by by apply ready_taken, ready_counted.
  assert (forall j, j <> i -> k_bufs s1 !! j = k_bufs s !! j) as Ho.
  { intros j Hj. simpl. by rewrite alter_lookup, decide_False. }
  destruct G6 as [G6|[G6 Gd]]; rewrite G6; unfold when; simpl (negb _).
  - destruct (iderw_read s1 c p i (f b) (mkSleep true (p_pid p)))
      as (s2 & E2 & C2); try done; [apply lookup_insert_eq|lia|].
    step E2. exists i, s2. split; [done|].
    set (s1' := s1 <| k_bufs ::= _ |>) in C2.
    assert (k_bufs s1' = alter (fun b => b <| b_flags := B_VALID |>
      <| b_data := blk s1 (b_blockno b) |>) i (k_bufs s1)) as Eb by reflexivity.
    assert (cache_inv s1' l) as I1.
    { eapply (cache_inv_alter s1 s1' l _ i (f b)); try done.
      - intros j x Hj Hx Hx0 E3 E4. simpl in E3, E4. apply Hj.
        eapply (ci_uniq _ _ G7 j i); eauto; congruence.
      - apply I.
      - split; [apply I|]. split; [by right|]. simpl. rewrite lookup_insert_eq. split; [done|].
        destruct (ci_buf _ _ G7 i (f b) Hb) as (_ & _ & H). simpl in H.
        rewrite lookup_insert_eq in H. apply H. }
    split.
    + by apply (cache_inv_calm s1').
    + apply (calm_ready s1' s2 c p C2). still_ready.
    + transitivity s1'; [done|]. by apply calm_bframe.
    + by rewrite <-(calm_get k_disk s1' s2).
    + done.
    + by rewrite <-(calm_get k_sleeps s1' s2).
    + exists (f b <| b_flags := B_VALID |> <| b_data := blk s n |>).
      rewrite <-(calm_get k_bufs s1' s2) by done.
      split_and!; try done. rewrite Eb, alter_lookup, decide_True, Hb by done. simpl.
      by rewrite G4.
    + intros j Hj. rewrite <-(calm_get k_bufs s1' s2), <-Ho by done.
      by rewrite Eb, alter_lookup, decide_False.
  - mrun. exists i, s1. split; [done|]. split; try done.
    + by exists p.
    + by exists (f b).
Qed.

(** What holds after bwrite of a buffer with block [n] and data [d]. *)
Record bwrite_post (s : kstate) (l : list nat) (c : nat) (p : proc) (n : Z) (d : list Z)
    (i : nat) (s' : kstate) : Prop := {
  bw_inv : cache_inv s' l;
  bw_ready : exists p', ready s' c p' /\ settle p' = settle p;
  bw_frame : bframe s s';
  bw_disk : k_disk s' = <[n := d]> (k_disk s);
  bw_sleeps : k_sleeps s' = k_sleeps s;
  bw_holds : holds s' i n d;
  bw_others : forall j, j <> i -> k_bufs s' !! j = k_bufs s !! j }.

Lemma bwrite_run s l c p n d i v :
  cache_inv s l -> ready s c p -> 0 <= n < FSSIZE -> length d = Z.to_nat BSIZE ->
  k_sleeps s !! SlBuf i = Some v -> holds s i n d ->
  exists s', bwrite i s = Ok tt s' /\ bwrite_post s l c p n d i s'.
Proof.
  intros I R Hn Hd Hs (b & Hb & Hf & Hdev & Hblk & Hdata).
  destruct (ci_buf _ _ I i b Hb) as (_ & _ & Hok). rewrite Hs in Hok. destruct Hok as [Hv Href].
  unfold bwrite. mrun. rewrite (rd_crash _ _ _ R). unfold when. mrun.
  step (holdingsleep_run (SlBuf i) s (running_can_lock _ _ _ _ (rd_running _ _ _ R))).
  unfold slk. rewrite Hs. simpl (default _ _). rewrite Hv. simpl (negb _). cbv iota.
  unfold buf_mod. mrun.
  set (s1 := s <| k_cpu ::= touch |> <| k_bufs ::= _ |>).
  assert (k_bufs s1 = alter (fun b => b <| b_flags := Z.lor (b_flags b) B_DIRTY |>) i (k_bufs s))
    as Eb1 by reflexivity.
  assert (ready s1 c p) as R1 by still_ready.
  destruct (iderw_write s1 c p i (b <| b_flags := Z.lor (b_flags b) B_DIRTY |>) v)
    as (s2 & -> & C2); try done.
  { by rewrite Eb1, alter_lookup, decide_True, Hb. } { simpl. lia. } { simpl. by rewrite Hf. }
  { simpl. by rewrite Hdata. }
  exists s2. split; [done|].
  set (s3 := s1 <| k_bufs ::= _ |> <| k_disk ::= _ |>) in C2.
  assert (k_bufs s3 = alter (fun b => b <| b_flags := B_VALID |>) i (k_bufs s)) as Eb3.
  { change (k_bufs s3) with (alter (fun b => b <| b_flags := B_VALID |>) i (k_bufs s1)).
    rewrite Eb1. apply list_alter_alter_eq. }
  assert (k_disk s3 = <[n := d]> (k_disk s)) as Ed3 by (by rewrite <-Hblk, <-Hdata).
  split.
  - apply (cache_inv_calm s3); [done|].
    eapply (cache_inv_alter s s3 l _ i b); try done.
    + intros j x Hj Hx Hx0 E3 E4. simpl in E3, E4. apply Hj.
      eapply (ci_uniq _ _ I j i); eauto; congruence.
    + intros j x Hj Hx Hx0. unfold blk. rewrite Ed3, lookup_insert_ne; [done|].
      intros E. apply Hj. destruct (ci_buf _ _ I j x Hx) as (_ & [|] & _); [done|].
      eapply (ci_uniq _ _ I j i); eauto; congruence.
    + intros m. unfold blk. rewrite Ed3. destruct (decide (m = n)) as [->|].
      * by rewrite lookup_insert_eq.
      * rewrite lookup_insert_ne by done. apply I.
    + split; [simpl; by rewrite Hdata|]. split; [by right|]. simpl. by rewrite Hs.
  - apply (calm_ready s3 s2 c p C2). still_ready.
  - transitivity s3; [done|]. by apply calm_bframe.
  - by rewrite <-(calm_get k_disk s3 s2).
  - by rewrite <-(calm_get k_sleeps s3 s2).
  - exists (b <| b_flags := B_VALID |>). rewrite <-(calm_get k_bufs s3 s2) by done.
    by rewrite Eb3, alter_lookup, decide_True, Hb.
  - intros j Hj. rewrite <-(calm_get k_bufs s3 s2) by done.
    by rewrite Eb3, alter_lookup, decide_False.
Qed.
End Promises.

(** What holds after brelse: the buffer is the most recently used one. *)
Record brelse_post (s : kstate) (l' : list nat) (c : nat) (p : proc) (i : nat) (s' : kstate) :
    Prop := {
  be_inv : cache_inv s' l';
  be_ready : exists p', ready s' c p' /\ settle p' = settle p;
  be_frame : bframe s s';
  be_disk : k_disk s' = k_disk s;
  be_sleeps : k_sleeps s' = delete (SlBuf i) (k_sleeps s);
  be_others : forall j, j <> i -> core <$> k_bufs s' !! j = core <$> k_bufs s !! j }.

Lemma unlinked_get {A} (f : kstate -> A) s s' :
  (forall s, f (unlinked s) = f s) -> unlinked s' = unlinked s -> f s' = f s.
Proof. intros H E. by rewrite <-H, E, H. Qed.
Lemma unlinked_core s s' j :
  unlinked s' = unlinked s -> core <$> k_bufs s' !! j = core <$> k_bufs s !! j.
Proof.
  intros E. apply (f_equal (fun s => k_bufs s !! j)) in E. simpl in E.
  by rewrite !list_lookup_fmap in E.
Qed.

(** The relinking at the end of brelse. *)
Lemma relink_run s i a b :
  linked s (a ++ i :: b) ->
  exists s', (unlink i;; push_front i;; push_front_head i) s = Ok tt s' /\
    linked s' (i :: a ++ b) /\ unlinked s' = unlinked s.
Proof.
  intros Hl. pose proof (linked_in_array _ _ Hl) as Ha. destruct Hl as [Hlen Hd Hp].
  destruct (unlink_run i a b s Ha Hd) as (s1 & E1 & D1 & U1 & L1). step E1.
  destruct (push_run (ret tt) i (a ++ b) s1) as (s2 & s3 & s4 & E2 & E3 & E4 & D4 & L4 & U2 & U4).
  - intros x Hx. rewrite L1. apply Ha. set_solver.
  - destruct Hd as [_ _ (_ & Hd & [Hb _]%NoDup_cons)%NoDup_app]. specialize (Hd i). set_solver.
  - done.
  - intros x. by exists x.
  - step E2. injection E3 as <-. exists s4. split; [done|]. split; [|congruence].
    split; [congruence|done|]. rewrite <-Hp. apply Permutation_middle.
Qed.

(** The cache invariant does not see the links. *)
Lemma cache_inv_relink s s' l l' :
  unlinked s' = unlinked s -> linked s' l' -> cache_inv s l -> cache_inv s' l'.
Proof.
  intros U Hl [_ H2 H3 H4].
  assert (forall j x', k_bufs s' !! j = Some x' ->
    exists x, k_bufs s !! j = Some x /\ core x' = core x) as Hc.
  { intros j x' Hx'. pose proof (unlinked_core s s' j U) as E. rewrite Hx' in E.
    destruct (k_bufs s !! j) as [x|]; [|done]. exists x. split; [done|]. by apply (inj Some) in E. }
  assert (k_sleeps s' = k_sleeps s) as Es by by apply unlinked_get.
  assert (k_disk s' = k_disk s) as Ed by by apply unlinked_get.
  split; [done|..].
  - intros j k x y (x0 & Hx & Ex)%Hc (y0 & Hy & Ey)%Hc.
    pose proof (f_equal b_dev Ex). pose proof (f_equal b_blockno Ex).
    pose proof (f_equal b_dev Ey). pose proof (f_equal b_blockno Ey). simpl in *.
    intros. eapply H2; eauto; congruence.
  - intros j x (x0 & Hx & Ex)%Hc. specialize (H3 j x0 Hx). unfold buf_ok, blk in *.
    pose proof (f_equal b_dev Ex) as F1. pose proof (f_equal b_blockno Ex) as F2.
    pose proof (f_equal b_flags Ex) as F3. pose proof (f_equal b_refcnt Ex) as F4.
    pose proof (f_equal b_data Ex) as F5. simpl in F1, F2, F3, F4, F5.
    by rewrite F1, F2, F3, F4, F5, Es, Ed.
  - intros n. unfold blk. rewrite Ed. apply H4.
Qed.

(** The state of brelse when it comes to the list. *)
Definition dropped (i : nat) (s : kstate) : kstate :=
  s <| k_sleeps ::= delete (SlBuf i) |> <| k_ptable ::= fmap (wake_proc (CSleeplock (SlBuf i))) |>
    <| k_bufs ::= alter (fun b => b <| b_refcnt := u32 (b_refcnt b - 1) |>) i |>
    <| k_cpu ::= touch |>.
Lemma dropped_inv s l i n :
  cache_inv s l -> is_Some (k_sleeps s !! SlBuf i) -> holds s i n (blk s n) ->
  cache_inv (dropped i s) l.
Proof.
  intros I [v Hs] (b & Hb & Hf & Hdev & Hblk & Hdata).
  destruct (ci_buf _ _ I i b Hb) as (Hlen & _ & Hok). rewrite Hs in Hok. destruct Hok as [_ Href].
  eapply (cache_inv_alter s (dropped i s) l _ i b); try done.
  - intros j Hj. simpl. by rewrite lookup_delete_ne by congruence.
  - intros j x Hj Hx Hx0 E3 E4. simpl in E3, E4. apply Hj.
    eapply (ci_uniq _ _ I j i); eauto; congruence.
  - apply I.
  - split; [done|]. split; [by right|]. simpl. rewrite lookup_delete_eq, Href. split; [done|].
    right. split_and!; try done. by rewrite Hdata, Hblk.
Qed.

Lemma brelse_run s a b c p n i v :
  cache_inv s (a ++ i :: b) -> ready s c p -> k_sleeps s !! SlBuf i = Some v ->
  holds s i n (blk s n) ->
  exists s', brelse i s = Ok tt s' /\ brelse_post s (i :: a ++ b) c p i s'.
Proof.
  intros I R Hs Hh. pose proof Hh as (x & Hx & _).
  destruct (ci_buf _ _ I i x Hx) as (_ & _ & Hok). rewrite Hs in Hok. destruct Hok as [Hv Href].
  pose proof (fun l => running_can_lock _ _ _ l (rd_running _ _ _ R)) as Hl.
  unfold brelse. step (holdingsleep_run (SlBuf i) s (Hl _)).
  unfold slk. rewrite Hs. simpl (default _ _). rewrite Hv. simpl (negb _). cbv iota.
  erewrite bind_run; [|apply releasesleep_run; [apply Hl|apply Hl]].
  set (s1 := s <| k_cpu ::= touch |> <| k_sleeps ::= _ |> <| k_ptable ::= _ |> <| k_cpu ::= _ |>).
  step (acquire_free LkBcache s1 (proj1 (Hl _))). unfold buf_mod, buf_at. mrun.
  set (s2 := locked LkBcache s1 <| k_bufs ::= _ |>).
  assert (k_bufs s2 !! i = Some (x <| b_refcnt := 0 |>)) as Hx2.
  { change (k_bufs s2) with (alter (fun b => b <| b_refcnt := u32 (b_refcnt b - 1) |>) i (k_bufs s)).
    rewrite alter_lookup, decide_True, Hx by done. simpl. by rewrite Href. }
  rewrite Hx2. mrun. unfold when. simpl (_ =? 0). cbv iota.
  assert (cache_inv s2 (a ++ i :: b)) as I2.
  { apply (cache_inv_same (dropped i s)); try done. eapply dropped_inv; eauto. }
  destruct (relink_run s2 i a b (ci_linked _ _ I2)) as (s3 & E3 & L3 & U3).
  pose proof (cache_inv_relink _ _ _ _ U3 L3 I2) as I3.
  step E3. rewrite (release_locked LkBcache s1).
  2:{ apply Hl. } 2:{ apply cpu_wf_touch, cpu_wf_touch. apply Hl; exact LkBcache. }
  2:{ exact (unlinked_get k_cpu _ _ (fun _ => eq_refl) U3). }
  2:{ exact (unlinked_get k_spins _ _ (fun _ => eq_refl) U3). }
  eexists. split; [done|].
  assert (calm (s <| k_sleeps ::= delete (SlBuf i) |>) s1) as C1
    by (unfold calm; kext; simpl; by rewrite settle_wakes).
  assert (bframe s (relock s1 s3)) as F.
  { apply calm_bframe in C1. transitivity s1; [exact C1|]. unfold bframe.
    replace (forget_blk (relock s1 s3)) with (forget_blk (relock s1 (unlinked s3))) by by kext.
    rewrite U3. by kext. }
  split.
  - by apply (cache_inv_same s3).
  - destruct (calm_ready _ s1 c p C1) as (p' & Hp' & Ep); [still_ready|].
    exists p'. split; [|done]. destruct Hp' as [[] ? ? ?].
    split; [split; try done|..]; simpl.
    + by rewrite (unlinked_get k_cur _ _ (fun _ => eq_refl) U3).
    + by rewrite (unlinked_get k_ptable _ _ (fun _ => eq_refl) U3).
    + by rewrite (unlinked_get k_idequeue _ _ (fun _ => eq_refl) U3).
    + by rewrite (unlinked_get k_havedisk1 _ _ (fun _ => eq_refl) U3).
    + by rewrite (unlinked_get k_crashn_enable _ _ (fun _ => eq_refl) U3).
  - done.
  - simpl. by rewrite (unlinked_get k_disk _ _ (fun _ => eq_refl) U3).
  - simpl. by rewrite (unlinked_get k_sleeps _ _ (fun _ => eq_refl) U3).
  - intros j Hj. simpl. rewrite (unlinked_core _ _ j U3). 
    change (k_bufs s2) with (alter (fun b => b <| b_refcnt := u32 (b_refcnt b - 1) |>) i (k_bufs s)).
    by rewrite alter_lookup, decide_False.
Qed.

(** * Starting up *)

Definition empty_list (s : kstate) : kstate := s <| k_bhead := (BHead, BHead) |>.

Lemma initsleeplock_run l s :
  initsleeplock l s =
    Ok tt (s <| k_spins ::= put_spin (LkSleep l) spin_free |> <| k_sleeps ::= delete l |>).
Proof.
  unfold initsleeplock, initlock. mrun. reflexivity.
Qed.

Lemma binit_loop_run n i s :
  (i + n = NBUF)%nat -> length (k_bufs s) = NBUF -> dll (nxs s) (pvs s) (reverse (seq 0 i)) ->
  exists s', binit_loop n i s = Ok tt s' /\ linked s' (reverse (seq 0 NBUF)) /\
    (forall j, core <$> k_bufs s' !! j = core <$> k_bufs s !! j) /\ k_disk s' = k_disk s /\
    k_sleeps s' = foldr (fun j m => delete (SlBuf j) m) (k_sleeps s) (reverse (seq i n)).
Proof.
  revert i s. induction n as [|n IH]; intros i s Hn Hlen Hd.
  - assert (i = NBUF) as -> by lia. exists s. split; [done|]. split; [|done].
    split; [done|done|]. by rewrite reverse_Permutation.
  - destruct (push_run (initsleeplock (SlBuf i)) i (reverse (seq 0 i)) s)
      as (s1 & s2 & s3 & E1 & E2 & E3 & D3 & L3 & U1 & U3).
    + intros x Hx. rewrite elem_of_cons, elem_of_reverse, elem_of_seq in Hx. lia.
    + rewrite elem_of_reverse, elem_of_seq. lia.
    + done.
    + intros x. rewrite initsleeplock_run. by eexists.
    + simpl. step E1. step E2. step E3. destruct (IH (S i) s3) as (s' & E & Hl & Hc & Hk & Hs).
      * lia.
      * congruence.
      * by rewrite seq_S, reverse_snoc.
      * exists s'. rewrite E. split; [done|]. split; [done|].
        rewrite initsleeplock_run in E2. injection E2 as <-. split_and!.
        -- intros j. rewrite Hc, (unlinked_core _ _ j U3). simpl. by apply unlinked_core.
        -- rewrite Hk, (unlinked_get k_disk _ _ (fun _ => eq_refl) U3). simpl.
           by rewrite (unlinked_get k_disk _ _ (fun _ => eq_refl) U1).
        -- rewrite Hs, (unlinked_get k_sleeps _ _ (fun _ => eq_refl) U3). simpl.
           rewrite (unlinked_get k_sleeps _ _ (fun _ => eq_refl) U1).
           by rewrite reverse_cons, foldr_app.
Qed.

Lemma foldr_delete_lookup (l : list nat) (m : gmap sleep_id sleeplock) j :
  j ∈ l -> foldr (fun j m => delete (SlBuf j) m) m l !! SlBuf j = None.
Proof.
  induction l as [|x l IH]; simpl; [set_solver|]. intros Hj.
  destruct (decide (x = j)) as [->|]; [by rewrite lookup_delete_eq|].
  rewrite lookup_delete_ne by congruence. apply IH. set_solver.
Qed.

Lemma binit_run s :
  k_bufs s = replicate NBUF buf_zero -> (forall n, length (blk s n) = Z.to_nat BSIZE) ->
  exists s', binit s = Ok tt s' /\ cache_inv s' (reverse (seq 0 NBUF)) /\
    (forall i, (i < NBUF)%nat -> k_sleeps s' !! SlBuf i = None) /\ k_disk s' = k_disk s.
Proof.
  intros Hb Hd. unfold binit, initlock, set_prev, set_next. mrun.
  set (s1 := _ <| k_bhead := _ |>).
  destruct (binit_loop_run NBUF 0 s1) as (s' & E & Hl & Hc & Hk & Hs).
  - done.
  - change (length (k_bufs s) = NBUF). by rewrite Hb.
  - by split; [..|constructor].
  - assert (forall i, (i < NBUF)%nat -> k_sleeps s' !! SlBuf i = None) as Hfree.
    { intros i Hi. rewrite Hs. apply foldr_delete_lookup.
      rewrite elem_of_reverse, elem_of_seq. lia. }
    assert (forall i b, k_bufs s' !! i = Some b -> core b = buf_zero) as Hz.
    { intros i b Hi. specialize (Hc i). rewrite Hi in Hc.
      change (k_bufs s1) with (k_bufs s) in Hc. rewrite Hb in Hc.
      destruct (replicate NBUF buf_zero !! i) as [b0|] eqn:E0; [|done].
      apply lookup_replicate in E0 as [-> _]. by apply (inj Some) in Hc. }
    exists s'. split; [done|]. split; [|done]. split; [done|..].
    + intros i j b b' Hi _ Hdev. specialize (Hz i b Hi). by apply (f_equal b_dev) in Hz.
    + intros i b Hi. pose proof (Hz i b Hi) as E0. unfold buf_ok.
      rewrite Hfree by (rewrite <-(lk_length _ _ Hl); by eapply lookup_lt_Some).
      pose proof (f_equal b_dev E0) as F1. pose proof (f_equal b_flags E0) as F2.
      pose proof (f_equal b_refcnt E0) as F3. pose proof (f_equal b_data E0) as F4.
      simpl in F1, F2, F3, F4. rewrite F1, F2, F3, F4. by split_and!; [|left|..|left].
    + intros n. unfold blk. rewrite Hk. apply Hd.
Qed.

(** * Whole accesses to a block *)

(** A process outside every buffer. *)
Record bio_ok (s : kstate) (c : nat) (p : proc) : Prop := {
  bo_quiet : forall i, k_sleeps s !! SlBuf i = None;
  bo_inv : exists l, cache_inv s l;
  bo_ready : ready s c p }.
(** From [s] to [s'] only the cache has changed, and the disk to [d]. *)
Record accessed (s : kstate) (c : nat) (p : proc) (d : gmap Z (list Z)) (s' : kstate) : Prop := {
  ac_ok : exists p', bio_ok s' c p' /\ settle p' = settle p;
  ac_frame : bframe s s';
  ac_disk : k_disk s' = d;
  ac_sleeps : k_sleeps s' = k_sleeps s }.

Section Access.
Context {D : Driver} {L : DriverLaws D}.

Lemma bread_quiet s c p n :
  bio_ok s c p -> 0 <= n < FSSIZE ->
  exists l i s', cache_inv s l /\ bread ROOTDEV n s = Ok i s' /\ bread_post s l c p n i s'.
Proof.
  intros [Hq [l Hl] Hr] Hn. destruct (bread_run s l c p n) as (i & s' & E & H); try done.
  - intros j b _ _ _. apply Hq.
  - exists 0%nat. split; [unfold NBUF; lia|apply Hq].
  - by exists l, i, s'.
Qed.

Lemma held_split s l i n d : cache_inv s l -> holds s i n d -> exists a b, l = a ++ i :: b.
Proof.
  intros I (b & Hb & _). apply list_elem_of_split. rewrite (linked_elem s l i (ci_linked _ _ I)).
  by eexists.
Qed.

Lemma brelse_quiet s l c p n i pid m :
  cache_inv s l -> ready s c p -> holds s i n (blk s n) ->
  k_sleeps s = <[SlBuf i := mkSleep true pid]> m -> (forall j, m !! SlBuf j = None) ->
  exists s', brelse i s = Ok tt s' /\ bframe s s' /\ k_disk s' = k_disk s /\ k_sleeps s' = m /\
    exists p', bio_ok s' c p' /\ settle p' = settle p.
Proof.
  intros I R Hh Hs Hm. destruct (held_split s l i n _ I Hh) as (a & b & ->).
  destruct (brelse_run s a b c p n i (mkSleep true pid)) as (s' & E & [H1 H2 H3 H4 H5 _]); try done.
  { rewrite Hs. apply lookup_insert_eq. }
  assert (k_sleeps s' = m) as Hm'. { rewrite H5, Hs. by apply delete_insert_id. }
  exists s'. split_and!; try done. destruct H2 as (p' & R' & Ep). exists p'. split; [|done].
  split; [|by eexists|done]. intros j. by rewrite Hm'.
Qed.

(** Reading a block: the data is what is on disk. *)
Lemma read_block_run {A} s c p n (k : list Z -> K A) :
  bio_ok s c p -> 0 <= n < FSSIZE ->
  exists s', accessed s c p (k_disk s) s' /\
    (i <- bread ROOTDEV n; b <- buf_at i; brelse i;; k (b_data b)) s = k (blk s n) s'.
Proof.
  intros B Hn. destruct (bread_quiet s c p n B Hn) as (l & i & s1 & I & E & [H1 H2 H3 H4 H5 H6 H7 _]).
  destruct H2 as (p1 & R1 & Ep1).
  assert (blk s1 n = blk s n) as Hblk by (unfold blk; by rewrite H4).
  destruct (brelse_quiet s1 l c p1 n i (p_pid p) (k_sleeps s)) as (s2 & E2 & F2 & D2 & S2 & p2 & B2 & Ep2);
    try done; [by rewrite Hblk|apply B|].
  destruct H7 as (b & Hb & _ & _ & _ & Hd).
  exists s2. split.
  - split; [|by transitivity s1|congruence|done]. exists p2. split; [done|congruence].
  - step E. unfold buf_at. mrun. rewrite Hb. mrun. step E2. by rewrite Hd.
Qed.

(** Changing a block: the new contents are on disk before the buffer is given back. *)
Lemma write_block_run {A} s c p n (g : list Z -> list Z) (k : K A) :
  bio_ok s c p -> 0 <= n < FSSIZE ->
  (forall d, length d = Z.to_nat BSIZE -> length (g d) = Z.to_nat BSIZE) ->
  exists s', accessed s c p (<[n := g (blk s n)]> (k_disk s)) s' /\
    (i <- bread ROOTDEV n; buf_mod i (fun b => b <| b_data ::= g |>);; bwrite i;; brelse i;; k) s =
      k s'.
Proof.
  intros B Hn Hg.
  destruct (bread_quiet s c p n B Hn) as (l & i & s1 & I & E & [H1 H2 H3 H4 H5 H6 H7 _]).
  destruct H2 as (p1 & R1 & Ep1). destruct H7 as (b & Hb & Hf & Hdev & Hno & Hd).
  set (s2 := s1 <| k_bufs ::= alter (fun b => b <| b_data ::= g |>) i |>).
  assert (k_bufs s2 = alter (fun b => b <| b_data ::= g |>) i (k_bufs s1)) as Eb by reflexivity.
  assert (holds s2 i n (g (blk s n))) as Hh2.
  { exists (b <| b_data ::= g |>). rewrite Eb, alter_lookup, decide_True, Hb by done.
    split_and!; try done. simpl. by rewrite Hd. }
  assert (length (g (blk s n)) = Z.to_nat BSIZE) as Hlen by (apply Hg, I).
  assert (cache_inv s2 l) as I2.
  { destruct (ci_buf _ _ H1 i b Hb) as (Hl & Hdv & Hk). eapply (cache_inv_alter s1 s2 l _ i b); try done.
    - intros j x Hj Hx Hx0 E3 E4. apply Hj. eapply (ci_uniq _ _ H1 j i); eauto; simpl in *; congruence.
    - apply H1.
    - split; [simpl; by rewrite Hd|]. split; [done|]. simpl. rewrite H6, lookup_insert_eq in *. done. }
  assert (ready s2 c p1) as R2 by still_ready.
  destruct (bwrite_run s2 l c p1 n (g (blk s n)) i (mkSleep true (p_pid p))) as
    (s3 & E3 & [W1 W2 W3 W4 W5 W6 _]); try done.
  { change (k_sleeps s2) with (k_sleeps s1). by rewrite H6, lookup_insert_eq. }
  destruct W2 as (p3 & R3 & Ep3).
  destruct (brelse_quiet s3 l c p3 n i (p_pid p) (k_sleeps s)) as
    (s4 & E4 & F4 & D4 & S4 & p4 & B4 & Ep4); try done.
  { unfold blk. by rewrite W4, lookup_insert_eq. }
  { by rewrite W5. } { apply B. }
  exists s4. split.
  - split.
    + exists p4. split; [done|congruence].
    + transitivity s1; [done|]. transitivity s2; [done|]. by transitivity s3.
    + rewrite D4, W4. change (k_disk s2) with (k_disk s1). by rewrite H4.
    + done.
  - step E. unfold buf_mod. mrun. fold s2. step E3. by step E4.
Qed.
End Access.

(** C13: binit.  From zeroed buffers the list of all buffers is built, doubly linked, with the
    last buffer in front, and the cache invariant holds: every buffer is empty and unlocked. *)
Theorem binit_establishes s :
  k_bufs s = replicate NBUF buf_zero -> (forall n, length (blk s n) = Z.to_nat BSIZE) ->
  exists s', binit s = Ok tt s' /\ cache_inv s' (reverse (seq 0 NBUF)) /\
    (forall i, (i < NBUF)%nat -> k_sleeps s' !! SlBuf i = None) /\ k_disk s' = k_disk s.
Proof. apply binit_run. Qed.

Lemma binit_establishes_witness :
  exists s', binit bss = Ok tt s' /\ cache_inv s' (reverse (seq 0 NBUF)).
Proof.
  destruct (binit_establishes bss) as (s' & H1 & H2 & _).
  - reflexivity.
  - intros n. reflexivity.
  - exists s'. split; [exact H1|exact H2].
Defined.

(** C3: the cache under a driver that keeps its promises.  A process that changes block [n]
    through a buffer, writes it and gives it back, and then reads block [m], gets the new
    contents if m = n and otherwise what was on disk, whatever the cache held before; the new
    contents are on disk, and nothing outside the cache and the disk has changed. *)
Theorem cache_transparent {D : Driver} {L : DriverLaws D} s c p n m g :
  bio_ok s c p -> 0 <= n < FSSIZE -> 0 <= m < FSSIZE ->
  (forall d, length d = Z.to_nat BSIZE -> length (g d) = Z.to_nat BSIZE) ->
  exists s' p',
    (i <- bread ROOTDEV n; buf_mod i (fun b => b <| b_data ::= g |>);; bwrite i;; brelse i;;
     j <- bread ROOTDEV m; b <- buf_at j; brelse j;; ret (b_data b)) s =
      Ok (if decide (m = n) then g (blk s n) else blk s m) s' /\
    bio_ok s' c p' /\ bframe s s' /\ k_disk s' = <[n := g (blk s n)]> (k_disk s) /\
    k_sleeps s' = k_sleeps s.
Proof.
  intros B Hn Hm Hg.
  destruct (write_block_run s c p n g (j <- bread ROOTDEV m; b <- buf_at j; brelse j;; ret (b_data b)))
    as (s1 & [A1 A2 A3 A4] & E1); try done.
  destruct A1 as (p1 & B1 & _).
  destruct (read_block_run s1 c p1 m ret) as (s2 & [C1 C2 C3 C4] & E2); try done.
  destruct C1 as (p2 & B2 & _). exists s2, p2. rewrite E1, E2. split_and!.
  - unfold ret, blk. rewrite A3. destruct (decide (m = n)) as [->|].
    + by rewrite lookup_insert_eq.
    + by rewrite lookup_insert_ne.
  - done.
  - by transitivity s1.
  - by rewrite C3.
  - by rewrite C4.
Qed.

(** C14: replacement.  When block [n] is not cached, bget recycles the least recently used
    buffer that nobody uses: in the list from most to least recently released, every buffer
    behind it is in use or dirty. *)
Theorem bget_recycles_lru s l c p n :
  cache_inv s l -> ready s c p -> room s ->
  (forall j b, k_bufs s !! j = Some b -> is_block ROOTDEV n b = false) ->
  exists a i z, l = a ++ i :: z /\
    bget ROOTDEV n s = Ok i (taken i (p_pid p) (recycled ROOTDEV n) s) /\
    buf_test s is_clean i = true /\ forall j, j ∈ z -> buf_test s is_clean j = false.
Proof.
  intros I [R _ _ _] (j & Hj & Hs) Hmiss.
  assert (find_first (buf_test s (is_block ROOTDEV n)) l = None) as E1.
  { apply find_first_None. intros x Hx. unfold buf_test.
    destruct (k_bufs s !! x) eqn:E; [by eapply Hmiss|done]. }
  destruct (find_first (buf_test s is_clean) (reverse l)) as [i|] eqn:E2.
  2:{ rewrite find_first_None in E2. specialize (E2 j). rewrite elem_of_reverse in E2.
      rewrite (unheld_clean s l) in E2 by done. discriminate E2.
      rewrite (lk_perm _ _ (ci_linked _ _ I)), elem_of_seq. lia. }
  pose proof E2 as (a & z & El & Ht & Hz)%find_first_Some.
  exists (reverse z), i, (reverse a). split_and!.
  - rewrite <-(reverse_involutive l), El, reverse_mid. done.
  - eapply bget_miss; eauto using ci_linked. unfold buf_test in Ht.
    destruct (k_bufs s !! i) as [x|] eqn:Hx; [|done]. by eapply clean_unheld.
  - done.
  - intros x Hx. apply Hz. by apply elem_of_reverse.
Qed.

(** * A machine after binit, with one process running *)

Definition proc_on : proc :=
  proc_zero <| p_kstack := 1 |> <| p_vspace := mkVspace [] 1 |> <| p_state := RUNNING |>
    <| p_pid := 1 |>.
Definition pre_boot : kstate :=
  bss <| k_cur := Some 0%nat |> <| k_ptable := [proc_on] |> <| k_havedisk1 := true |>.
Definition booted : kstate := match binit pre_boot with Ok _ s => s | _ => bss end.

Lemma booted_inv : cache_inv booted (reverse (seq 0 NBUF)) /\ forall i, k_sleeps booted !! SlBuf i = None.
Proof.
  destruct (binit_run pre_boot) as (s' & E & I & _ & _); [reflexivity|intros n; reflexivity|].
  assert (booted = s') as -> by (unfold booted; by rewrite E).
  split; [exact I|]. intros i.
  assert (k_sleeps s' = ∅) as ->; [|apply lookup_empty].
  change (match Ok tt s' with Ok _ s => k_sleeps s = ∅ | _ => True end). rewrite <-E.
  vm_compute. reflexivity.
Qed.
Lemma booted_ready : ready booted 0 proc_on.
Proof.
  split; [split|..]; try (vm_compute; reflexivity). split; discriminate.
Qed.
Lemma booted_ok : bio_ok booted 0 proc_on.
Proof.
  split; [apply booted_inv|eexists; apply booted_inv|apply booted_ready].
Qed.

Lemma bget_recycles_lru_witness :
  exists a i z, reverse (seq 0 NBUF) = a ++ i :: z /\ buf_test booted is_clean i = true.
Proof.
  destruct (bget_recycles_lru booted (reverse (seq 0 NBUF)) 0 proc_on 7) as (a & i & z & H1 & _ & H3 & _).
  - exact (proj1 booted_inv).
  - exact booted_ready.
  - exists 0%nat. split; [apply Nat.ltb_lt; reflexivity|apply booted_inv].
  - intros j b Hb. unfold is_block.
    assert (Forall (fun b => b_dev b = 0) (k_bufs booted)) as F.
    { vm_compute. repeat constructor. }
    rewrite Forall_lookup in F. by rewrite (F j b Hb).
  - exists a, i, z. split; [exact H1|exact H3].
Defined.
