(* ===== verification/Ide.v ===== *)
(** The disk drivers: kernel/memide.c (blocks in memory) and kernel/ide.c (a queue of
    requests, completed by interrupts).  Both give what the buffer cache asks of a driver. *)
From S2P Require Import Prelude Kstate Locks Sched Bio.

(** * kernel/memide.c *)

(** [disksize] is the size of the linked-in image, in blocks; [k_disk] the image. *)
Definition memide_iderw (disksize : Z) (i : nat) : K unit :=
  h <- holdingsleep (SlBuf i);
  if negb h then panic "iderw: buf not locked" else
  b <- buf_at i;
  if Z.land (b_flags b) (Z.lor B_VALID B_DIRTY) =? B_VALID then panic "iderw: nothing to do" else
  if negb (b_dev b =? 1) then panic "iderw: request not for disk 1" else
  if u32 disksize <=? b_blockno b then panic "iderw: block out of range" else
  (if flag (b_flags b) B_DIRTY then
     buf_mod i (fun b => b <| b_flags := Z.land (b_flags b) (Z.lnot B_DIRTY) |>);;
     modify (fun s => s <| k_disk ::= <[b_blockno b := b_data b]> |>)
   else
     d <- gets (fun s => blk s (b_blockno b));
     buf_mod i (fun b => b <| b_data := d |>));;
  buf_mod i (fun b => b <| b_flags := Z.lor (b_flags b) B_VALID |>).
Definition memide_ideintr : K unit := ret tt.

(** * kernel/ide.c *)

Definition IDE_BSY : Z := 0x80.
Definition IDE_DRDY : Z := 0x40.
Definition IDE_DF : Z := 0x20.
Definition IDE_ERR : Z := 0x01.
Definition IDE_CMD_READ : Z := 0x20.
Definition IDE_CMD_WRITE : Z := 0x30.
Definition IDE_CMD_RDMUL : Z := 0xc4.
Definition IDE_CMD_WRMUL : Z := 0xc5.
Definition SECTOR_SIZE : Z := 512.

(** The controller: the status it ends a poll with, and what a command, given by the ports
    written, does to the disk. *)
Class Ata := {
  ata_status : Z;
  ata_write : list (Z * Z) -> list Z -> gmap Z (list Z) -> gmap Z (list Z);
  ata_read : list (Z * Z) -> gmap Z (list Z) -> list Z }.

Section Ide.
Context {A : Ata}.

Definition idewait (checkerr : bool) : Z :=
  if checkerr && flag ata_status (Z.lor IDE_DF IDE_ERR) then -1 else 0.

(** The ports idestart writes for a request. *)
Definition ide_ports (sector_per_block sector dev cmd : Z) : list (Z * Z) :=
  [ (0x3f6, 0); (0x1f2, sector_per_block); (0x1f3, Z.land sector 0xff);
    (0x1f4, Z.land (Z.shiftr sector 8) 0xff); (0x1f5, Z.land (Z.shiftr sector 16) 0xff);
    (0x1f6, Z.lor (Z.lor 0xe0 (Z.shiftl (Z.land dev 1) 4)) (Z.land (Z.shiftr sector 24) 0x0f));
    (0x1f7, cmd) ].
Definition idestart (i : nat) : K unit :=
  b <- buf_at i;
  if FSSIZE <=? b_blockno b then panic "incorrect blockno" else
  let sector_per_block := BSIZE / SECTOR_SIZE in
  let sector := s32 (b_blockno b * sector_per_block) in
  let read_cmd := if sector_per_block =? 1 then IDE_CMD_READ else IDE_CMD_RDMUL in
  let write_cmd := if sector_per_block =? 1 then IDE_CMD_WRITE else IDE_CMD_WRMUL in
  if 7 <? sector_per_block then panic "idestart" else
  if flag (b_flags b) B_DIRTY then
    modify (fun s => s <| k_ata := ide_ports sector_per_block sector (b_dev b) write_cmd |>);;
    modify (fun s => s <| k_disk := ata_write (k_ata s) (b_data b) (k_disk s) |>)
  else modify (fun s => s <| k_ata := ide_ports sector_per_block sector (b_dev b) read_cmd |>).

Definition ideintr : K unit :=
  acquire LkIde;;
  q <- gets k_idequeue;
  match q with
  | [] => release LkIde
  | i :: q =>
      modify (fun s => s <| k_idequeue := q |>);;
      b <- buf_at i;
      when (negb (flag (b_flags b) B_DIRTY) && (0 <=? idewait true))
        (d <- gets (fun s => ata_read (k_ata s) (k_disk s));
         buf_mod i (fun b => b <| b_data := d |>));;
      buf_mod i (fun b => b <| b_flags := Z.lor (b_flags b) B_VALID |>);;
      buf_mod i (fun b => b <| b_flags := Z.land (b_flags b) (Z.lnot B_DIRTY) |>);;
      wakeup (CBuf i);;
      q <- gets k_idequeue;
      match q with [] => ret tt | j :: _ => idestart j end;;
      release LkIde
  end.

(** The wait of iderw: the loop test and what follows it, also where a woken process goes on. *)
Definition iderw_loop (i : nat) : K unit :=
  b <- buf_at i;
  if negb (Z.land (b_flags b) (Z.lor B_VALID B_DIRTY) =? B_VALID) then sleep (CBuf i) LkIde
  else release LkIde.
Definition ide_iderw (i : nat) : K unit :=
  h <- holdingsleep (SlBuf i);
  if negb h then panic "iderw: buf not locked" else
  b <- buf_at i;
  if Z.land (b_flags b) (Z.lor B_VALID B_DIRTY) =? B_VALID then panic "iderw: nothing to do" else
  hd <- gets k_havedisk1;
  if negb (b_dev b =? 0) && negb hd then panic "iderw: ide disk 1 not present" else
  acquire LkIde;;
  modify (fun s => s <| k_idequeue := k_idequeue s ++ [i] |>);;
  q <- gets k_idequeue;
  when (bool_decide (head q = Some i)) (idestart i);;
  iderw_loop i.
Definition iderw_resume (i : nat) : K unit := sleep_resume LkIde;; iderw_loop i.

(** A request with no other process to run: the scheduler idles, with interrupts on, until the
    disk interrupts it, then gets back to the process. *)
Definition ide_sync (i : nat) : K unit := fun s =>
  match ide_iderw i s with
  | Sleep s1 =>
      (switched_back;;
       release LkPtable;;
       sti;; cli;; ideintr;; sti;;
       acquire LkPtable;;
       c <- deref (k_cur s);
       d <- dispatch c;
       if negb d then hang else iderw_resume i) s1
  | r => r
  end.
End Ide.

(** * Both are drivers *)

Lemma locked_flags b : b_flags b = 0 \/ b_flags b = Z.lor B_VALID B_DIRTY ->
  Z.land (b_flags b) (Z.lor B_VALID B_DIRTY) =? B_VALID = false.
Proof. by intros [->| ->]. Qed.

Lemma memide_run disksize s c p i b v :
  FSSIZE <= disksize < 2^31 -> ready s c p -> k_bufs s !! i = Some b ->
  k_sleeps s !! SlBuf i = Some v -> sl_locked v = true -> b_dev b = ROOTDEV ->
  0 <= b_blockno b < FSSIZE -> b_flags b = 0 \/ b_flags b = Z.lor B_VALID B_DIRTY ->
  memide_iderw disksize i s =
    Ok tt (s <| k_bufs ::= alter (fun b => b <| b_flags := B_VALID |>
               <| b_data := if flag (b_flags b) B_DIRTY then b_data b else blk s (b_blockno b) |>) i |>
             <| k_disk ::= if flag (b_flags b) B_DIRTY then <[b_blockno b := b_data b]> else id |>
             <| k_cpu ::= touch |>).
Proof.
  intros Hsz R Hb Hs Hv Hd Hn Hf. unfold memide_iderw.
  step (holdingsleep_run (SlBuf i) s (running_can_lock _ _ _ _ (rd_running _ _ _ R))).
  unfold slk. rewrite Hs. simpl (default _ _). rewrite Hv. simpl (negb _). cbv iota.
  unfold buf_at, buf_mod. mrun. simpl. rewrite Hb. mrun.
  rewrite locked_flags by done. rewrite Hd. simpl (negb _). cbv iota.
  assert (u32 disksize <=? b_blockno b = false) as ->.
  { unfold u32. rewrite Z.mod_small by lia. apply Z.leb_gt. lia. }
  destruct Hf as [Hf|Hf]; rewrite Hf;
    [change (flag 0 B_DIRTY) with false|change (flag (Z.lor B_VALID B_DIRTY) B_DIRTY) with true];
    cbv iota; mrun; unfold modify.
  all: f_equal; kext; simpl; rewrite !list_alter_alter_eq; apply list_eq; intros j;
    rewrite !alter_lookup; destruct (decide (j = i)) as [->|]; [|done]; rewrite Hb; simpl;
    f_equal; destruct b; simpl in *; by rewrite Hf.
Qed.

#[export] Instance memide_laws disksize :
  FSSIZE <= disksize < 2^31 -> DriverLaws (memide_iderw disksize).
Proof.
  intros Hsz. split.
  - intros s c p i b v R Hb Hs Hv Hd Hn Hf Hl. unfold iderw.
    rewrite (memide_run disksize s c p i b v) by (done || by left). eexists. split; [done|].
    unfold calm. kext; simpl.
    + apply list_eq. intros j. rewrite !alter_lookup.
      destruct (decide (j = i)) as [->|]; [|done]. rewrite Hb. simpl. by rewrite Hf.
    + by rewrite Hf.
  - intros s c p i b v R Hb Hs Hv Hd Hn Hf Hl. unfold iderw.
    rewrite (memide_run disksize s c p i b v) by (done || by right). eexists. split; [done|].
    unfold calm. kext; simpl.
    + apply list_eq. intros j. rewrite !alter_lookup.
      destruct (decide (j = i)) as [->|]; [|done]. rewrite Hb. simpl. by rewrite Hf.
    + by rewrite Hf.
Qed.

(** The controller's documented behaviour: LBA28 addressing through ports 0x1f3-0x1f6. *)
Fixpoint port (r : Z) (ps : list (Z * Z)) : Z :=
  match ps with [] => 0 | (a, v) :: ps => if a =? r then v else port r ps end.
Definition lba (ps : list (Z * Z)) : Z :=
  port 0x1f3 ps + 2^8 * port 0x1f4 ps + 2^16 * port 0x1f5 ps +
  2^24 * Z.land (port 0x1f6 ps) 0x0f.
Class AtaLaws (A : Ata) : Prop := {
  ata_status_ok : Z.land ata_status (Z.lor IDE_DF IDE_ERR) = 0;
  ata_write_ok ps d disk :
    port 0x1f2 ps = 1 -> port 0x1f7 ps = IDE_CMD_WRITE -> ata_write ps d disk = <[lba ps := d]> disk;
  ata_read_ok ps disk :
    port 0x1f2 ps = 1 -> port 0x1f7 ps = IDE_CMD_READ ->
    ata_read ps disk = default zero_block (disk !! lba ps) }.

Lemma lba_ports n dev cmd : 0 <= n < 2^28 -> lba (ide_ports 1 n dev cmd) = n.
Proof.
  intros Hn. unfold lba, ide_ports. cbn [port Z.eqb Pos.eqb].
  change 0xff with (Z.ones 8). change 0x0f with (Z.ones 4).
  rewrite !Z.land_lor_distr_l, <-(Z.land_assoc (Z.shiftr n 24)), Z.land_diag.
  replace (Z.land (Z.shiftl (Z.land dev 1) 4) (Z.ones 4)) with 0.
  2:{ rewrite Z.land_ones, Z.shiftl_mul_pow2 by lia. symmetry. apply Z.mod_mul. lia. }
  change (Z.land 224 (Z.ones 4)) with 0. rewrite !Z.lor_0_l.
  rewrite !Z.land_ones, !Z.shiftr_div_pow2 by lia.
  Z.to_euclidean_division_equations. lia.
Qed.

Section IdeDriver.
Context {A : Ata} {L : AtaLaws A}.

(** The request for [b] as the controller gets it. *)
Definition ide_req (b : buf) : list (Z * Z) :=
  ide_ports 1 (b_blockno b) (b_dev b)
    (if flag (b_flags b) B_DIRTY then IDE_CMD_WRITE else IDE_CMD_READ).
Definition ide_put (b : buf) (d : gmap Z (list Z)) : gmap Z (list Z) :=
  if flag (b_flags b) B_DIRTY then <[b_blockno b := b_data b]> d else d.

Lemma ide_req_lba b : 0 <= b_blockno b < FSSIZE -> lba (ide_req b) = b_blockno b.
Proof. intros H. apply lba_ports. unfold FSSIZE in H. lia. Qed.

Lemma idestart_run i s b :
  k_bufs s !! i = Some b -> 0 <= b_blockno b < FSSIZE ->
  idestart i s = Ok tt (s <| k_ata := ide_req b |> <| k_disk ::= ide_put b |>).
Proof.
  intros Hb Hn. unfold idestart, buf_at. mrun. rewrite Hb. mrun.
  assert (FSSIZE <=? b_blockno b = false) as -> by (apply Z.leb_gt; lia).
  change (BSIZE / SECTOR_SIZE) with 1. cbv zeta. change (1 =? 1) with true.
  change (7 <? 1) with false. cbv iota. rewrite Z.mul_1_r.
  assert (s32 (b_blockno b) = b_blockno b) as ->.
  { unfold s32, FSSIZE in *. rewrite Z.mod_small by lia. lia. }
  pose proof (ide_req_lba b Hn) as Hlba. unfold ide_req, ide_put in *.
  destruct (flag (b_flags b) B_DIRTY); mrun; unfold modify; f_equal; kext.
  simpl. rewrite ata_write_ok by done. by rewrite Hlba.
Qed.

(** The state of the process that waits for its request. *)
Definition waiting (i : nat) (b : buf) (c : nat) (s : kstate) : kstate :=
  s <| k_idequeue := [i] |> <| k_ata := ide_req b |> <| k_disk ::= ide_put b |>
    <| k_ptable ::= alter (asleep (CBuf i) (eflags_IF (k_cpu s))) c |>
    <| k_spins := <[LkPtable := mkSpin true true]> ∅ |>
    <| k_cpu := mkCpu 1 (eflags_IF (k_cpu s)) false |>.

Lemma ide_iderw_run s c p i b v :
  ready s c p -> k_bufs s !! i = Some b -> k_sleeps s !! SlBuf i = Some v ->
  sl_locked v = true -> b_dev b = ROOTDEV -> 0 <= b_blockno b < FSSIZE ->
  b_flags b = 0 \/ b_flags b = Z.lor B_VALID B_DIRTY ->
  ide_iderw i s = Sleep (waiting i b c s).
Proof.
  intros [[Hc Hp Hr Hsp Hs Hn] Hq Hd1 _] Hb Hsl Hv Hd Hno Hf.
  assert (forall l, can_lock l s) as Hl.
  { intros l. split; [by rewrite Hs|]. split; rewrite Hn; lia. }
  unfold ide_iderw. step (holdingsleep_run (SlBuf i) s (Hl _)).
  unfold slk. rewrite Hsl. simpl (default _ _). rewrite Hv. simpl (negb _). cbv iota.
  unfold buf_at at 1. mrun. simpl (k_bufs _). rewrite Hb. mrun.
  rewrite locked_flags by done. mrun. simpl (k_havedisk1 _). rewrite Hd1, andb_false_r.
  set (s1 := s <| k_cpu ::= touch |>).
  step (acquire_free LkIde s1 (proj1 (Hl LkIde))). mrun.
  set (s2 := locked LkIde s1 <| k_idequeue := _ |>).
  assert (k_idequeue s2 = [i]) as Hq2. { change (k_idequeue s ++ [i] = [i]). by rewrite Hq. }
  rewrite Hq2. simpl (bool_decide _). rewrite bool_decide_true by done. unfold when.
  step (idestart_run i s2 b Hb Hno). unfold iderw_loop, buf_at. mrun.
  change (k_bufs (s2 <| k_ata := ide_req b |> <| k_disk ::= ide_put b |>)) with (k_bufs s).
  rewrite Hb. mrun. rewrite locked_flags by done. simpl (negb _). cbv iota.
  rewrite (sleep_run _ _ _ ∅ (eflags_IF (k_cpu s)) c p); try done.
  - f_equal. kext; [|exact Hq2]. simpl. by rewrite Hn.
  - simpl. rewrite Hn. done.
  - simpl. by rewrite Hs.
Qed.

(** What the interrupt makes of the buffer. *)
Definition ide_done (s : kstate) (b : buf) : buf :=
  b <| b_flags := B_VALID |>
    <| b_data := if flag (b_flags b) B_DIRTY then b_data b else ata_read (k_ata s) (k_disk s) |>.

Lemma ideintr_last s i b :
  (forall l, can_lock l s) -> k_idequeue s = [i] -> k_bufs s !! i = Some b ->
  b_flags b = 0 \/ b_flags b = Z.lor B_VALID B_DIRTY ->
  ideintr s = Ok tt (s <| k_idequeue := [] |> <| k_bufs ::= alter (ide_done s) i |>
                       <| k_ptable ::= fmap (wake_proc (CBuf i)) |> <| k_cpu ::= touch |>).
Proof.
  intros Hl Hq Hb Hf. unfold ideintr. step (acquire_free LkIde s (proj1 (Hl LkIde))). mrun.
  change (k_idequeue (locked LkIde s)) with (k_idequeue s). rewrite Hq. unfold buf_at. mrun.
  change (k_bufs (locked LkIde s <| k_idequeue := [] |>)) with (k_bufs s). rewrite Hb. mrun.
  assert (idewait true = 0) as ->.
  { unfold idewait, flag. by rewrite ata_status_ok. }
  change (0 <=? 0) with true. rewrite andb_true_r. unfold buf_mod, when.
  destruct Hf as [Hf|Hf]; rewrite Hf;
    [change (flag 0 B_DIRTY) with false|change (flag (Z.lor B_VALID B_DIRTY) B_DIRTY) with true];
    simpl (negb _); cbv iota; mrun.
  all: (erewrite bind_run; [|apply wakeup_run; by apply (can_lock_locked LkIde _ s)]); mrun;
    simpl (k_idequeue _); cbv iota; mrun;
    rewrite (release_locked LkIde s); [|apply Hl|apply Hl; exact LkIde| |done].
  all: try (simpl; unfold touch; simpl; destruct (Hl LkIde) as [_ [Hn _]];
    by rewrite (proj2 (Z.eqb_neq (ncli (k_cpu s) + 1) 0)) by lia).
  all: f_equal; kext; simpl; rewrite !list_alter_alter_eq; apply list_eq; intros j;
    rewrite !alter_lookup; destruct (decide (j = i)) as [->|]; [|done]; rewrite Hb; simpl;
    f_equal; unfold ide_done; destruct b; simpl in *; by rewrite Hf.
Qed.

Lemma iderw_resume_run s c i b ie :
  k_cur s = Some c -> k_bufs s !! i = Some b -> b_flags b = B_VALID ->
  k_spins s = <[LkPtable := mkSpin true true]> ∅ -> k_cpu s = mkCpu 1 ie false ->
  iderw_resume i s =
    Ok tt (s <| k_ptable ::= alter (fun p => p <| p_chan := None |>) c |>
             <| k_spins := ∅ |> <| k_cpu := mkCpu 0 ie ie |>).
Proof.
  intros Hc Hb Hf Hs Hcpu. unfold iderw_resume, sleep_resume, myproc, proc_mod. mrun.
  rewrite Hc. mrun. rewrite bool_decide_false by done. simpl (negb _). unfold when. mrun.
  erewrite bind_run; [|by apply (ptable_release_run _ ∅ ie)].
  set (s1 := _ <| k_cpu := _ |>).
  erewrite bind_run; [|by apply (acquire_free LkIde s1)].
  unfold iderw_loop, buf_at. mrun. change (k_bufs (locked LkIde s1)) with (k_bufs s). rewrite Hb.
  mrun. rewrite Hf. simpl (negb _). cbv iota.
  rewrite (release_locked LkIde s1) by done. reflexivity.
Qed.

(** The process gets the processor back once the interrupt has come. *)
Definition served (i c : nat) (b : buf) (p : proc) (s : kstate) : kstate :=
  s <| k_bufs ::= alter (ide_done (waiting i b c s)) i |> <| k_disk ::= ide_put b |>
    <| k_ata := ide_req b |> <| k_cr3 := V2P (vs_pgtbl (p_vspace p)) |>
    <| k_ptable ::= fun ps =>
         alter (fun p => p <| p_state := RUNNING |> <| p_chan := None |>) c
           (wake_proc (CBuf i) <$> alter (asleep (CBuf i) (eflags_IF (k_cpu s))) c ps) |>
    <| k_cpu := mkCpu 0 (eflags_IF (k_cpu s)) (eflags_IF (k_cpu s)) |>.

Lemma ide_sync_run s c p i b v :
  ready s c p -> k_bufs s !! i = Some b -> k_sleeps s !! SlBuf i = Some v ->
  sl_locked v = true -> b_dev b = ROOTDEV -> 0 <= b_blockno b < FSSIZE ->
  b_flags b = 0 \/ b_flags b = Z.lor B_VALID B_DIRTY ->
  ide_sync i s = Ok tt (served i c b p s).
Proof.
  intros R Hb Hsl Hv Hd Hno Hf. unfold ide_sync. rewrite (ide_iderw_run s c p i b v) by done.
  destruct R as [[Hc Hp Hr [Hsp1 Hsp2] Hs Hn] Hq Hd1 _].
  unfold switched_back, vspaceinstallkern, sti, cli. mrun.
  erewrite bind_run; [|by apply (ptable_release_run _ ∅ (eflags_IF (k_cpu s)))]. mrun.
  set (s5 := _ <| k_cpu ::= (fun c => c <| eflags_IF := false |>) |>).
  erewrite bind_run; [|apply (ideintr_last s5 i b); try done].
  mrun. set (s6 := _ <| k_cpu ::= (fun c => c <| eflags_IF := true |>) |>).
  erewrite bind_run; [|by apply (acquire_free LkPtable s6)]. rewrite Hc. mrun.
  assert (k_ptable s6 !! c = Some (asleep (CBuf i) (eflags_IF (k_cpu s)) p <| p_state := RUNNABLE |>))
    as Hp6.
  { change (k_ptable s6) with (wake_proc (CBuf i) <$>
      alter (asleep (CBuf i) (eflags_IF (k_cpu s))) c (k_ptable s)).
    rewrite list_lookup_fmap, alter_lookup, decide_True, Hp by done. simpl. unfold wake_proc.
    by rewrite decide_True. }
  erewrite bind_run; [|by eapply (dispatch_run c _ _ (eflags_IF (k_cpu s)) true)].
  simpl (negb _). cbv iota.
  rewrite (iderw_resume_run _ c i (ide_done s5 b) (eflags_IF (k_cpu s))); try done.
  - f_equal. kext; simpl; rewrite ?list_alter_alter_eq; done.
  - change (k_bufs _) with (alter (ide_done s5) i (k_bufs s)).
    by rewrite alter_lookup, decide_True, Hb.
Qed.

(** A switch there and back is invisible. *)
Lemma settle_round_trip i c ie p (ps : list proc) :
  ps !! c = Some p -> p_state p = RUNNING ->
  settle <$> alter (fun p => p <| p_state := RUNNING |> <| p_chan := None |>) c
    (wake_proc (CBuf i) <$> alter (asleep (CBuf i) ie) c ps) = settle <$> ps.
Proof.
  intros Hp Hr. apply list_eq. intros j. rewrite !list_lookup_fmap, alter_lookup, list_lookup_fmap.
  rewrite !alter_lookup. destruct (decide (j = c)) as [->|].
  - rewrite Hp. simpl. unfold wake_proc, settle. simpl. rewrite decide_True by done. simpl.
    rewrite Hr. done.
  - destruct (ps !! j); simpl; [|done]. by rewrite settle_wake.
Qed.

#[export] Instance ide_laws : DriverLaws ide_sync.
Proof.
  split; intros s c p i b v R Hb Hs Hv Hd Hn Hf Hl; unfold iderw;
    rewrite (ide_sync_run s c p i b v) by (done || (by left) || by right);
    (eexists; split; [done|]); pose proof R as [[_ Hp Hr _ _ Hncli] _ _ _];
    pose proof (ide_req_lba b Hn) as Hlba;
    unfold calm; kext; simpl; 
    try (by unfold set; simpl; rewrite Hncli); try (by rewrite (settle_round_trip _ _ _ p)).
  - apply list_eq. intros j. rewrite !alter_lookup. destruct (decide (j = i)) as [->|]; [|done].
    rewrite Hb. simpl. f_equal. unfold ide_done, ide_put. rewrite Hf.
    change (flag 0 B_DIRTY) with false. simpl. unfold ide_put. rewrite Hf.
    change (flag 0 B_DIRTY) with false. cbv iota. rewrite ata_read_ok; [by rewrite Hlba|done|].
    unfold ide_req. by rewrite Hf.
  - unfold ide_put. by rewrite Hf.
  - apply list_eq. intros j. rewrite !alter_lookup. destruct (decide (j = i)) as [->|]; [|done].
    rewrite Hb. simpl. f_equal. unfold ide_done. by rewrite Hf.
  - unfold ide_put. by rewrite Hf.
Qed.
End IdeDriver.


(** A controller that does what the documentation says. *)
#[export] Instance lba_disk : Ata := {
  ata_status := IDE_DRDY;
  ata_write ps d disk := <[lba ps := d]> disk;
  ata_read ps disk := default zero_block (disk !! lba ps) }.
#[export] Instance lba_disk_laws : AtaLaws lba_disk.
Proof. by split. Qed.

(** The booted machine with a dirty buffer for block 5, locked by the process. *)
Definition dirty_buf : buf :=
  buf_zero <| b_dev := ROOTDEV |> <| b_blockno := 5 |> <| b_flags := Z.lor B_VALID B_DIRTY |>.
Definition with_dirty : kstate :=
  pre_boot <| k_bufs := [dirty_buf] |> <| k_sleeps := {[ SlBuf 0 := mkSleep true 1 ]} |>.


(** The controller gets the right block.  The bytes idestart writes to the address ports
    encode every block of the file system: read back as an LBA28 address they are the block. *)
Theorem idestart_addresses {A : Ata} {L : AtaLaws A} i s b :
  k_bufs s !! i = Some b -> 0 <= b_blockno b < FSSIZE ->
  exists s', idestart i s = Ok tt s' /\ lba (k_ata s') = b_blockno b /\
    Forall (fun r => 0 <= snd r < 256) (k_ata s').
Proof.
  intros Hb Hn. rewrite (idestart_run i s b) by done. eexists. split; [done|].
  split; [by apply ide_req_lba|]. simpl. unfold ide_req, ide_ports.
  assert (forall x, 0 <= Z.land x 0xff < 256) as H1.
  { intros x. change 0xff with (Z.ones 8). rewrite Z.land_ones by lia. apply Z.mod_pos_bound. lia. }
  assert (0 <= Z.lor (Z.lor 0xe0 (Z.shiftl (Z.land (b_dev b) 1) 4))
                 (Z.land (Z.shiftr (b_blockno b) 24) 15) < 256) as H2.
  { replace (Z.shiftr (b_blockno b) 24) with 0.
    2:{ unfold FSSIZE in Hn. rewrite Z.shiftr_div_pow2 by lia. symmetry. apply Z.div_small. lia. }
    change (Z.land 0 15) with 0. rewrite Z.lor_0_r. change 1 with (Z.ones 1).
    rewrite Z.land_ones by lia. pose proof (Z.mod_pos_bound (b_dev b) (2^1) ltac:(lia)) as Hm.
    assert (b_dev b mod 2^1 = 0 \/ b_dev b mod 2^1 = 1) as [-> | ->] by lia; by vm_compute. }
  repeat (apply Forall_cons; split; [cbn [snd]|]); try apply H1; try apply H2; try done.
  destruct (flag _ _); by vm_compute.
Qed.

Lemma idestart_addresses_witness :
  exists s', idestart 0 with_dirty = Ok tt s' /\ lba (k_ata s') = 5.
Proof.
  destruct (idestart_addresses 0 with_dirty dirty_buf) as (s' & H1 & H2 & _).
  - reflexivity.
  - split; [apply Z.leb_le|apply Z.ltb_lt]; reflexivity.
  - exists s'. split; [exact H1|exact H2].
Defined.

Lemma ideintr_next {A : Ata} {L : AtaLaws A} s i j q bi bj :
  (forall l, can_lock l s) -> k_idequeue s = i :: j :: q -> i <> j ->
  k_bufs s !! i = Some bi -> k_bufs s !! j = Some bj -> 0 <= b_blockno bj < FSSIZE ->
  b_flags bi = 0 \/ b_flags bi = Z.lor B_VALID B_DIRTY ->
  ideintr s = Ok tt (s <| k_idequeue := j :: q |> <| k_bufs ::= alter (ide_done s) i |>
                       <| k_ptable ::= fmap (wake_proc (CBuf i)) |> <| k_ata := ide_req bj |>
                       <| k_disk ::= ide_put bj |> <| k_cpu ::= touch |>).
Proof.
  intros Hl Hq Hij Hb Hbj Hn Hf. unfold ideintr.
  step (acquire_free LkIde s (proj1 (Hl LkIde))). mrun.
  change (k_idequeue (locked LkIde s)) with (k_idequeue s). rewrite Hq. unfold buf_at. mrun.
  change (k_bufs (locked LkIde s <| k_idequeue := j :: q |>)) with (k_bufs s). rewrite Hb. mrun.
  assert (idewait true = 0) as -> by (unfold idewait, flag; by rewrite ata_status_ok).
  change (0 <=? 0) with true. rewrite andb_true_r. unfold buf_mod, when.
  destruct Hf as [Hf|Hf]; rewrite Hf;
    [change (flag 0 B_DIRTY) with false|change (flag (Z.lor B_VALID B_DIRTY) B_DIRTY) with true];
    simpl (negb _); cbv iota; mrun.
  all: (erewrite bind_run; [|apply wakeup_run; by apply (can_lock_locked LkIde _ s)]); mrun;
    simpl (k_idequeue _); cbv iota.
  all: match goal with |- context [(bind (idestart ?x) _) ?st] =>
    assert (k_bufs st !! x = Some bj) as Hj
      by (rewrite <-Hbj; repeat (etransitivity; [apply list_lookup_alter_ne; exact Hij|]);
          reflexivity);
    rewrite (bind_run _ _ _ _ _ (idestart_run _ st bj Hj Hn)) end.
  all: rewrite (release_locked LkIde s); [|apply Hl|apply Hl; exact LkIde| |done].
  all: try (simpl; unfold touch; simpl; destruct (Hl LkIde) as [_ [Hncli _]];
    by rewrite (proj2 (Z.eqb_neq (ncli (k_cpu s) + 1) 0)) by lia).
  all: f_equal; kext; simpl; rewrite !list_alter_alter_eq; apply list_eq; intros k;
    rewrite !alter_lookup; destruct (decide (k = i)) as [->|]; [|done]; rewrite Hb; simpl;
    f_equal; unfold ide_done; destruct bi; simpl in *; by rewrite Hf.
Qed.

(** The queue is served in order.  With more requests waiting, the interrupt completes the
    first: its buffer is valid and clean, its sleeper may run; the next one is started and
    becomes the head of the queue. *)
Theorem ideintr_in_order {A : Ata} {L : AtaLaws A} s i j q bi bj :
  (forall l, can_lock l s) -> k_idequeue s = i :: j :: q -> i <> j ->
  k_bufs s !! i = Some bi -> k_bufs s !! j = Some bj -> 0 <= b_blockno bj < FSSIZE ->
  b_flags bi = 0 \/ b_flags bi = Z.lor B_VALID B_DIRTY ->
  exists s', ideintr s = Ok tt s' /\ k_idequeue s' = j :: q /\ k_spins s' = k_spins s /\
    k_bufs s' = alter (ide_done s) i (k_bufs s) /\ lba (k_ata s') = b_blockno bj /\
    k_disk s' = ide_put bj (k_disk s) /\
    k_ptable s' = wake_proc (CBuf i) <$> k_ptable s.
Proof.
  intros Hl Hq Hij Hb Hbj Hn Hf. rewrite (ideintr_next s i j q bi bj) by done.
  eexists. split; [reflexivity|]. split_and!; try reflexivity. by apply ide_req_lba.
Qed.

(** Two requests waiting. *)
Definition two_dirty : kstate :=
  with_dirty <| k_bufs := [dirty_buf; dirty_buf <| b_blockno := 6 |>] |>
    <| k_idequeue := [0; 1]%nat |>.
Lemma ideintr_in_order_witness :
  exists s', ideintr two_dirty = Ok tt s' /\ k_idequeue s' = [1%nat].
Proof.
  destruct (ideintr_in_order two_dirty 0 1 [] dirty_buf (dirty_buf <| b_blockno := 6 |>))
    as (s' & H1 & H2 & _).
  - intros l. split; [reflexivity|]. split; simpl; lia.
  - reflexivity.
  - discriminate.
  - reflexivity.
  - reflexivity.
  - split; [apply Z.leb_le|apply Z.ltb_lt]; reflexivity.
  - right. reflexivity.
  - exists s'. split; [exact H1|exact H2].
Defined.

(** The buffer cache over kernel/memide.c. *)
Lemma cache_transparent_witness :
  exists s' p',
    (i <- bread (D:=memide_iderw FSSIZE) ROOTDEV 3;
     buf_mod i (fun b => b <| b_data ::= fun _ => replicate (Z.to_nat BSIZE) 1 |>);;
     bwrite (D:=memide_iderw FSSIZE) i;; brelse i;;
     j <- bread (D:=memide_iderw FSSIZE) ROOTDEV 3; b <- buf_at j; brelse j;; ret (b_data b)) booted =
      Ok (replicate (Z.to_nat BSIZE) 1) s' /\ bio_ok s' 0 p'.
Proof.
  destruct (cache_transparent (D:=memide_iderw FSSIZE)
    (L:=memide_laws FSSIZE (conj (Z.le_refl _) (proj1 (Z.ltb_lt FSSIZE (2^31)) eq_refl)))
    booted 0 proc_on 3 3 (fun _ => replicate (Z.to_nat BSIZE) 1)) as (s' & p' & H1 & H2 & _).
  - exact booted_ok.
  - split; [apply Z.leb_le|apply Z.ltb_lt]; reflexivity.
  - split; [apply Z.leb_le|apply Z.ltb_lt]; reflexivity.
  - intros d _. apply length_replicate.
  - exists s', p'. split; [exact H1|exact H2].
Defined.
