(* ===== verification/Bytes.v ===== *)
(** Integers and structs as little-endian bytes: the on-disk layout of fs.h, shared by the
    kernel's file system and mkfs. *)
From S2P Require Import Prelude Kstate.

Fixpoint le (n : nat) (z : Z) : list Z :=
  match n with O => [] | S n => z mod 256 :: le n (z / 256) end.
Fixpoint of_le (bs : list Z) : Z :=
  match bs with [] => 0 | b :: bs => b + 256 * of_le bs end.
(** The [n] bytes at offset [off]. *)
Definition slice (off n : nat) (bs : list Z) : list Z := take n (drop off bs).
Definition field_at (off n : nat) (bs : list Z) : Z := of_le (slice off n bs).
(** [memmove(p + off, src, length src)] on an object. *)
Definition splice (off : nat) (src bs : list Z) : list Z :=
  take off bs ++ src ++ drop (off + length src) bs.

(** struct extent, struct dinode, struct dirent, struct superblock. *)
Definition extent_bytes (e : extent) : list Z := le 4 (startblkno e) ++ le 4 (nblocks e).
Definition extent_of (bs : list Z) : extent := mkExtent (field_at 0 4 bs) (field_at 4 4 bs).
Fixpoint extents_of (n : nat) (bs : list Z) : list extent :=
  match n with O => [] | S n => extent_of bs :: extents_of n (drop 8 bs) end.
Definition dinode_bytes (d : dinode) : list Z :=
  le 2 (u16 (di_type d)) ++ le 2 (u16 (di_devid d)) ++ le 4 (di_size d) ++
  flat_map extent_bytes (di_data d).
Definition dinode_of (bs : list Z) : dinode :=
  mkDinode (s16 (field_at 0 2 bs)) (s16 (field_at 2 2 bs)) (field_at 4 4 bs)
    (extents_of EXTENT_N (drop 8 bs)).
Definition dirent_bytes (d : dirent) : list Z := le 2 (de_inum d) ++ de_name d.
Definition dirent_of (bs : list Z) : dirent := mkDirent (field_at 0 2 bs) (slice 2 DIRSIZ bs).
Definition superblock_of (bs : list Z) : superblock :=
  mkSb (field_at 0 4 bs) (field_at 4 4 bs) (field_at 8 4 bs) (field_at 12 4 bs).
Definition superblock_bytes (b : superblock) : list Z :=
  le 4 (sb_size b) ++ le 4 (sb_nblocks b) ++ le 4 (sb_bmapstart b) ++ le 4 (sb_inodestart b).

(** * Round trips *)

Lemma length_le n z : length (le n z) = n.
Proof. revert z. induction n; intros z; simpl; [done|by rewrite IHn]. Qed.
Lemma of_le_le n z : of_le (le n z) = z mod 256 ^ Z.of_nat n.
Proof.
  revert z. induction n as [|n IH]; intros z; [by rewrite Z.mod_1_r|].
  cbn [le of_le]. rewrite IH, Nat2Z.inj_succ, Z.pow_succ_r by lia.
  rewrite (Z.rem_mul_r z 256) by lia. lia.
Qed.
Lemma le_of_le bs : Forall (fun b => 0 <= b < 256) bs -> le (length bs) (of_le bs) = bs.
Proof.
  induction 1 as [|b bs Hb _ IH]; [done|]. cbn [le of_le length].
  rewrite (Z.mul_comm 256), Z.mod_add, Z.div_add, (Z.mod_small b), (Z.div_small b), Z.add_0_l, IH
    by lia. done.
Qed.
Lemma le_bytes n z : Forall (fun b => 0 <= b < 256) (le n z).
Proof. revert z. induction n; intros z; constructor; [apply Z.mod_pos_bound; lia|apply IHn]. Qed.

Lemma slice_app_skip a b off n : (length a <= off)%nat ->
  slice off n (a ++ b) = slice (off - length a) n b.
Proof. intros H. unfold slice. by rewrite drop_app_ge. Qed.
Lemma slice_app_take a b n : length a = n -> slice 0 n (a ++ b) = a.
Proof. intros <-. unfold slice. by rewrite drop_0, take_app_length. Qed.
Lemma slice_all a n : length a = n -> slice 0 n a = a.
Proof. intros <-. unfold slice. by rewrite drop_0, firstn_all. Qed.

Lemma length_extent_bytes e : length (extent_bytes e) = 8%nat.
Proof. unfold extent_bytes. by rewrite length_app, !length_le. Qed.

Definition extent_ok (e : extent) : Prop := 0 <= startblkno e < 2^32 /\ 0 <= nblocks e < 2^32.
Lemma extent_of_bytes e bs : extent_ok e -> extent_of (extent_bytes e ++ bs) = e.
Proof.
  intros [H1 H2]. unfold extent_of, extent_bytes, field_at. rewrite <-app_assoc.
  rewrite slice_app_take by apply length_le.
  rewrite slice_app_skip by (rewrite length_le; lia). rewrite length_le, Nat.sub_diag.
  rewrite slice_app_take by apply length_le.
  rewrite !of_le_le. change (256 ^ Z.of_nat 4) with (2^32).
  rewrite !Z.mod_small by lia. by destruct e.
Qed.
Lemma extents_of_bytes n es bs :
  length es = n -> Forall extent_ok es -> extents_of n (flat_map extent_bytes es ++ bs) = es.
Proof.
  intros <-. induction 1 as [|e es He _ IH]; [done|]. cbn [extents_of flat_map length].
  rewrite <-app_assoc, extent_of_bytes by done. f_equal.
  rewrite drop_app_length' by (by rewrite length_extent_bytes). apply IH.
Qed.
Lemma length_flat_extents es : length (flat_map extent_bytes es) = (8 * length es)%nat.
Proof. induction es as [|e es IH]; [done|]. cbn [flat_map length]. rewrite length_app, IH, length_extent_bytes. lia. Qed.

Lemma s16_u16 z : -2^15 <= z < 2^15 -> s16 (u16 z) = z.
Proof. intros H. unfold s16, u16. Z.to_euclidean_division_equations. lia. Qed.

Record dinode_ok (d : dinode) : Prop := {
  do_type : -2^15 <= di_type d < 2^15;
  do_devid : -2^15 <= di_devid d < 2^15;
  do_size : 0 <= di_size d < 2^32;
  do_len : length (di_data d) = EXTENT_N;
  do_extents : Forall extent_ok (di_data d) }.

Lemma length_dinode_bytes d : length (di_data d) = EXTENT_N -> length (dinode_bytes d) = 64%nat.
Proof.
  intros H. unfold dinode_bytes. rewrite !length_app, !length_le, length_flat_extents, H. done.
Qed.

Lemma dinode_of_bytes d bs : dinode_ok d -> dinode_of (dinode_bytes d ++ bs) = d.
Proof.
  intros [H1 H2 H3 H4 H5]. unfold dinode_of, dinode_bytes, field_at. rewrite <-!app_assoc.
  rewrite slice_app_take by apply length_le.
  rewrite slice_app_skip by (rewrite length_le; lia). rewrite length_le, Nat.sub_diag.
  rewrite slice_app_take by apply length_le.
  rewrite slice_app_skip by (rewrite length_le; lia). rewrite length_le.
  rewrite slice_app_skip by (rewrite length_le; lia). rewrite length_le.
  change (4 - 2 - 2)%nat with 0%nat. rewrite slice_app_take by apply length_le.
  rewrite !of_le_le. change (256 ^ Z.of_nat 2) with (2^16). change (256 ^ Z.of_nat 4) with (2^32).
  rewrite (Z.mod_small (di_size d)) by lia.
  unfold u16 at 1 2. rewrite !Z.mod_mod by lia. fold (u16 (di_type d)) (u16 (di_devid d)).
  rewrite !s16_u16 by lia.
  rewrite (drop_app_ge (le 2 _)), length_le by (rewrite length_le; lia).
  rewrite (drop_app_ge (le 2 _)), length_le by (rewrite length_le; lia).
  rewrite (drop_app_ge (le 4 _)), length_le by (rewrite length_le; lia).
  change (8 - 2 - 2 - 4)%nat with 0%nat. rewrite drop_0, extents_of_bytes by done.
  by destruct d.
Qed.

Lemma length_splice off src bs :
  (off + length src <= length bs)%nat -> length (splice off src bs) = length bs.
Proof. intros H. unfold splice. rewrite !length_app, length_take, length_drop. lia. Qed.
Lemma slice_splice off src bs :
  (off + length src <= length bs)%nat -> slice off (length src) (splice off src bs) = src.
Proof.
  intros H. unfold slice, splice. rewrite drop_app_length' by (rewrite length_take; lia).
  by rewrite take_app_length.
Qed.
Lemma splice_lookup off src bs i :
  (off + length src <= length bs)%nat ->
  splice off src bs !! i =
    if decide (off <= i < off + length src)%nat then src !! (i - off)%nat else bs !! i.
Proof.
  intros H. unfold splice. destruct (decide (i < off)%nat) as [Hi|Hi].
  - rewrite lookup_app_l by (rewrite length_take; lia). rewrite lookup_take_lt by lia.
    by rewrite decide_False by lia.
  - rewrite lookup_app_r by (rewrite length_take; lia). rewrite length_take, Nat.min_l by lia.
    destruct (decide (i < off + length src)%nat) as [Hj|Hj].
    + rewrite lookup_app_l by lia. by rewrite decide_True by lia.
    + rewrite lookup_app_r by lia. rewrite lookup_drop. rewrite decide_False by lia.
      f_equal. lia.
Qed.
