(* ===== verification/Fs.v ===== *)
(** The file system, kernel/fs.c: inodes and their cache, reading and writing through extents,
    directories and path names. *)
From S2P Require Import Prelude Kstate Locks Sched Bytes Bio.

(** * Devices

    struct devsw: the functions of a device, by its number; none where the table has 0.  A
    read gives the return value and the bytes stored at [dst]. *)
Class Devsw := {
  dev_read : Z -> option (iptr -> Z -> K (Z * list Z));
  dev_write : Z -> option (iptr -> list Z -> Z -> K Z) }.

(** * Inodes *)

Definition ip_lock (ip : iptr) : sleep_id :=
  match ip with ICache i => SlInode i | IInodefile => SlInodefile end.
Definition ip_get (ip : iptr) : K inode :=
  match ip with
  | ICache i => o <- gets (fun s => k_inodes s !! i); deref o
  | IInodefile => gets k_inodefile
  end.
Definition ip_mod (ip : iptr) (f : inode -> inode) : K unit :=
  match ip with
  | ICache i => modify (fun s => s <| k_inodes ::= upd_at i f |>)
  | IInodefile => modify (fun s => s <| k_inodefile ::= f |>)
  end.

Definition idup (ip : iptr) : K iptr :=
  acquire LkIcache;;
  ip_mod ip (fun I => I <| i_ref := i_ref I + 1 |>);;
  release LkIcache;;
  ret ip.

Definition irelease (ip : iptr) : K unit :=
  acquire LkIcache;;
  I <- ip_get ip;
  when (i_ref I =? 1) (ip_mod ip (fun I => I <| i_type := 0 |>));;
  ip_mod ip (fun I => I <| i_ref := i_ref I - 1 |>);;
  release LkIcache.

Definition unlocki (ip : iptr) : K unit :=
  h <- holdingsleep (ip_lock ip);
  I <- ip_get ip;
  if negb h || (i_ref I <? 1) then panic "unlocki" else
  releasesleep (ip_lock ip).

Definition stati (ip : iptr) : K stat :=
  h <- holdingsleep (ip_lock ip);
  if negb h then panic "not holding lock" else
  I <- ip_get ip;
  ret (mkStat (i_type I) (s32 (i_dev I)) (i_inum I) (i_size I)).

Definition getCapacity (I : inode) : Z :=
  foldl (fun c e => u32 (c + u32 (nblocks e * BSIZE))) 0 (i_data I).

(** The inode's fields from its copy on disk. *)
Definition load_dinode (d : dinode) (I : inode) : inode :=
  I <| i_type := di_type d |> <| i_devid := di_devid d |> <| i_size := di_size d |>
    <| i_data := di_data d |>.

Section Fs.
Context {D : Driver} {V : Devsw}.

(** Move to the extent where the offset is: the index of the extent and the bytes before it.
    The fuel is one more than the extents; past the last one is outside the array. *)
Fixpoint seek_extent (fuel : nat) (es : list extent) (k : nat) (size off : Z) : K (nat * Z) :=
  match fuel with
  | O => hang
  | S fuel =>
      e <- deref (es !! k);
      if u32 (size + u32 (nblocks e * BSIZE)) <? off
      then seek_extent fuel es (S k) (u32 (size + u32 (nblocks e * BSIZE))) off
      else ret (k, size)
  end.

(** The loop of [readi]; every turn reads at least a byte or goes to the next extent. *)
Fixpoint readi_loop (fuel : nat) (I : inode) (n tot off size : Z) (k : nat) (acc : list Z) :
    K (Z * list Z) :=
  match fuel with
  | O => hang
  | S fuel =>
      if tot <? n then
        e <- deref (i_data I !! k);
        if size <? u32 (nblocks e * BSIZE) then
          bp <- bread (i_dev I) (u32 (startblkno e + size / BSIZE));
          b <- buf_at bp;
          let m := Z.min (n - tot) (BSIZE - size mod BSIZE) in
          brelse bp;;
          readi_loop fuel I n (tot + m) (u32 (off + m)) (u32 (size + m)) k
            (acc ++ slice (Z.to_nat (size mod BSIZE)) (Z.to_nat m) (b_data b))
        else readi_loop fuel I n tot off (u32 (off - size)) (S k) acc
      else ret (s32 n, acc)
  end.

Definition readi (ip : iptr) (off n : Z) : K (Z * list Z) :=
  h <- holdingsleep (ip_lock ip);
  if negb h then panic "not holding lock" else
  I <- ip_get ip;
  if i_type I =? T_DEV then
    if (i_devid I <? 0) || (NDEV <=? i_devid I) then ret (-1, []) else
    match dev_read (i_devid I) with None => ret (-1, []) | Some rd => rd ip n end
  else
  if (i_size I <? off) || (u32 (off + n) <? off) then ret (-1, []) else
  '(k, size) <- seek_extent (S EXTENT_N) (i_data I) 0 0 off;
  readi_loop (S (Z.to_nat n + EXTENT_N)) I n 0 off (u32 (off - size)) k [].

(** Scan of the free map from its last block down; the first zero byte stands for eight free
    blocks, which it then marks. *)
Definition first_zero (bs : list Z) : option nat := fst <$> list_find (fun b => b = 0) bs.
Fixpoint getfree_loop (fuel : nat) (dev i : Z) : K Z :=
  match fuel with
  | O => hang
  | S fuel =>
      sb <- gets k_sb;
      if sb_bmapstart sb <=? i then
        bp <- bread dev i;
        b <- buf_at bp;
        match first_zero (b_data b) with
        | Some j =>
            buf_mod bp (fun b => b <| b_data ::= <[j := 255]> |>);;
            bwrite bp;;
            brelse bp;;
            ret (u32 (sb_nblocks sb + sb_inodestart sb
                      - (sb_inodestart sb - 1 - i) * BSIZE - (Z.of_nat j + 1) * 8))
        | None => brelse bp;; getfree_loop fuel dev (u32 (i - 1))
        end
      else ret 0
  end.
Definition getfreestartblkno (dev : Z) : K Z :=
  sb <- gets k_sb;
  getfree_loop (S (Z.to_nat (sb_inodestart sb))) dev (u32 (sb_inodestart sb - 1)).

(** [memmove(bp->data + o, src, m)]; the source must have the bytes. *)
Definition put_block (dev blockno o : Z) (src : list Z) (m : Z) : K unit :=
  bp <- bread dev blockno;
  if (length src <? Z.to_nat m)%nat then fault else
  buf_mod bp (fun b => b <| b_data ::= splice (Z.to_nat o) (take (Z.to_nat m) src) |>);;
  bwrite bp;;
  brelse bp.

Definition ext_mod (ip : iptr) (k : nat) (f : extent -> extent) : K unit :=
  ip_mod ip (fun I => I <| i_data ::= upd_at k f |>).
Fixpoint skip_used (fuel : nat) (es : list extent) (k : nat) : K nat :=
  match fuel with
  | O => hang
  | S fuel => e <- deref (es !! k); if nblocks e =? 0 then ret k else skip_used fuel es (S k)
  end.
(** The loop of [appendi]; the extent pointer moves on every turn. *)
Fixpoint appendi_loop (fuel : nat) (ip : iptr) (src : list Z) (append tot size : Z) (k : nat) :
    K unit :=
  match fuel with
  | O => hang
  | S fuel =>
      if tot <? append then
        I <- ip_get ip;
        e <- deref (i_data I !! k);
        when (nblocks e =? 0)
          (b <- getfreestartblkno (i_dev I);
           ext_mod ip k (fun e => mkExtent b (nblocks e));;
           ext_mod ip k (fun e => mkExtent (startblkno e) 8));;
        I <- ip_get ip;
        e <- deref (i_data I !! k);
        if size <? u32 (nblocks e * BSIZE) then
          let m := Z.min (append - tot) (BSIZE - size mod BSIZE) in
          put_block (i_dev I) (u32 (startblkno e + size / BSIZE)) (size mod BSIZE) src m;;
          appendi_loop fuel ip (drop (Z.to_nat m) src) append (tot + m) (u32 (size + m)) (S k)
        else appendi_loop fuel ip src append tot 0 (S (S k))
      else ret tt
  end.
Definition appendi (ip : iptr) (src : list Z) (append : Z) : K Z :=
  I <- ip_get ip;
  k <- skip_used (S EXTENT_N) (i_data I) 0;
  appendi_loop (S (S EXTENT_N)) ip src append 0 0 k;;
  ret (s32 append).

Fixpoint writei_loop (fuel : nat) (I : inode) (n tot off size : Z) (k : nat) (src : list Z) :
    K (list Z) :=
  match fuel with
  | O => hang
  | S fuel =>
      if tot <? n then
        e <- deref (i_data I !! k);
        if size <? u32 (nblocks e * BSIZE) then
          let m := Z.min (n - tot) (BSIZE - size mod BSIZE) in
          put_block (i_dev I) (u32 (startblkno e + off / BSIZE)) (size mod BSIZE) src m;;
          writei_loop fuel I n (tot + m) (u32 (off + m)) (u32 (size + m)) k (drop (Z.to_nat m) src)
        else writei_loop fuel I n tot off (u32 (off - size)) (S k) src
      else ret src
  end.
Definition writei (ip : iptr) (src : list Z) (off n : Z) : K Z :=
  h <- holdingsleep (ip_lock ip);
  if negb h then panic "not holding lock" else
  I <- ip_get ip;
  if i_type I =? T_DEV then
    if (i_devid I <? 0) || (NDEV <=? i_devid I) then ret (-1) else
    match dev_write (i_devid I) with None => ret (-1) | Some wr => wr ip src n end
  else
  let capacity := getCapacity I in
  if u32 (off + n) <? off then ret (-1) else
  let append := if capacity <? u32 (off + n) then u32 (off + n - capacity) else 0 in
  let n := if capacity <? u32 (off + n) then u32 (capacity - off) else n in
  '(k, size) <- seek_extent (S EXTENT_N) (i_data I) 0 0 off;
  src <- writei_loop (S (Z.to_nat n + EXTENT_N)) I n 0 off (u32 (off - size)) k src;
  if 0 <? append then a <- appendi ip src append; ret (s32 (n + a)) else ret (s32 n).

(** [read_dinode] and [locki] call each other; the fuel of [locki_f] bounds the nesting, which
    is locki (an inode), locki (the inode file), read_dinode (lock held). *)
Definition read_dinode_with (locki : iptr -> K unit) (inum : Z) : K dinode :=
  h <- holdingsleep SlInodefile;
  when (negb h) (locki IInodefile);;
  '(_, bs) <- readi IInodefile (u32 (INODEOFF inum)) sizeof_dinode;
  when (negb h) (unlocki IInodefile);;
  if (length bs =? Z.to_nat sizeof_dinode)%nat then ret (dinode_of bs) else fault.
Fixpoint locki_f (fuel : nat) (ip : iptr) : K unit :=
  match fuel with
  | O => hang
  | S fuel =>
      I <- ip_get ip;
      if i_ref I <? 1 then panic "locki" else
      acquiresleep (ip_lock ip);;
      I <- ip_get ip;
      if i_valid I then ret tt else
      when (negb (bool_decide (ip = IInodefile))) (locki_f fuel IInodefile);;
      d <- read_dinode_with (locki_f fuel) (i_inum I);
      when (negb (bool_decide (ip = IInodefile))) (unlocki IInodefile);;
      ip_mod ip (load_dinode d);;
      ip_mod ip (fun I => I <| i_valid := true |>);;
      I <- ip_get ip;
      if i_type I =? 0 then panic "iget: no type" else ret tt
  end.
Definition locki : iptr -> K unit := locki_f 3.
Definition read_dinode : Z -> K dinode := read_dinode_with locki.

Definition concurrent_stati (ip : iptr) : K stat :=
  locki ip;; st <- stati ip; unlocki ip;; ret st.
Definition concurrent_readi (ip : iptr) (off n : Z) : K (Z * list Z) :=
  locki ip;; r <- readi ip off n; unlocki ip;; ret r.
Definition concurrent_writei (ip : iptr) (src : list Z) (off n : Z) : K Z :=
  locki ip;; r <- writei ip src off n; unlocki ip;; ret r.

(** The scan of [iget]: a live entry for the inode, and the first empty one. *)
Fixpoint find_inode (P : inode -> bool) (l : list inode) : option nat :=
  match l with [] => None | x :: l => if P x then Some 0%nat else S <$> find_inode P l end.
Definition is_inode (dev inum : Z) (I : inode) : bool :=
  (0 <? i_ref I) && (i_dev I =? dev) && (i_inum I =? inum).
Definition iget (dev inum : Z) : K iptr :=
  acquire LkIcache;;
  l <- gets k_inodes;
  match find_inode (is_inode dev inum) l with
  | Some i =>
      ip_mod (ICache i) (fun I => I <| i_ref := i_ref I + 1 |>);;
      release LkIcache;;
      ret (ICache i)
  | None =>
      match find_inode (fun I => i_ref I =? 0) l with
      | None => panic "iget: no inodes"
      | Some i =>
          ip_mod (ICache i) (fun I => I <| i_ref := 1 |> <| i_valid := false |>
                                        <| i_dev := dev |> <| i_inum := inum |>);;
          release LkIcache;;
          d <- read_dinode inum;
          ip_mod (ICache i) (load_dinode d);;
          I <- ip_get (ICache i);
          if i_type I =? 0 then panic "iget: no type" else ret (ICache i)
      end
  end.

(** * Starting up *)

Definition readsb (dev : Z) : K superblock :=
  bp <- bread dev 1;
  b <- buf_at bp;
  brelse bp;;
  ret (superblock_of (b_data b)).

Definition init_inodefile (dev : Z) : K unit :=
  sb <- gets k_sb;
  bp <- bread dev (sb_inodestart sb);
  b <- buf_at bp;
  let di := dinode_of (b_data b) in
  modify (fun s => s <| k_inodefile := mkInode dev INODEFILEINO 1 true (di_type di) (di_devid di)
    (di_size di) (take 1 (di_data di) ++ replicate (EXTENT_N - 1) extent_zero) |>);;
  brelse bp.

Fixpoint iinit_locks (n i : nat) : K unit :=
  match n with O => ret tt | S n => initsleeplock (SlInode i);; iinit_locks n (S i) end.
Definition iinit (dev : Z) : K unit :=
  initlock LkIcache;;
  iinit_locks NINODE 0;;
  initsleeplock SlInodefile;;
  sb <- readsb dev;
  modify (fun s => s <| k_sb := sb |>);;
  init_inodefile dev.

(** * Directories *)

(** strncmp(s, t, n) of two byte sequences, each followed by a NUL. *)
Fixpoint strncmp_bytes (n : nat) (s t : list Z) : Z :=
  match n with
  | O => 0
  | S n =>
      let a := hd 0 s in let b := hd 0 t in
      if negb (a =? 0) && (a =? b) then strncmp_bytes n (tl s) (tl t) else a - b
  end.
Definition namecmp (s t : list Z) : Z := strncmp_bytes DIRSIZ s t.

(** The loop of [dirlookup]: the inode and the offset stored in poff. *)
Fixpoint dirlookup_loop (fuel : nat) (dp : iptr) (name : list Z) (off : Z) : K (option (iptr * Z)) :=
  match fuel with
  | O => hang
  | S fuel =>
      I <- ip_get dp;
      if off <? i_size I then
        '(r, bs) <- readi dp off sizeof_dirent;
        if negb (r =? sizeof_dirent) then panic "dirlink read" else
        let de := dirent_of bs in
        if de_inum de =? 0 then dirlookup_loop fuel dp name (u32 (off + sizeof_dirent)) else
        if namecmp name (de_name de) =? 0 then
          ip <- iget (i_dev I) (de_inum de); ret (Some (ip, off))
        else dirlookup_loop fuel dp name (u32 (off + sizeof_dirent))
      else ret None
  end.
Definition dirlookup (dp : iptr) (name : list Z) : K (option (iptr * Z)) :=
  I <- ip_get dp;
  if negb (i_type I =? T_DIR) then panic "dirlookup not DIR" else
  dirlookup_loop (S (Z.to_nat (i_size I))) dp name 0.

(** * Paths

    A path is its bytes, without the NUL. *)

Definition slash : Z := 47.
Fixpoint drop_while (P : Z -> bool) (l : list Z) : list Z :=
  match l with [] => [] | x :: l' => if P x then drop_while P l' else l end.
Fixpoint take_while (P : Z -> bool) (l : list Z) : list Z :=
  match l with [] => [] | x :: l' => if P x then x :: take_while P l' else [] end.
(** The next element, cut at DIRSIZ bytes as it is in [name], and the path behind it. *)
Definition skipelem (path : list Z) : option (list Z * list Z) :=
  match drop_while (Z.eqb slash) path with
  | [] => None
  | s => Some (take DIRSIZ (take_while (fun c => negb (c =? slash)) s),
               drop_while (Z.eqb slash) (drop_while (fun c => negb (c =? slash)) s))
  end.

(** The loop of [namex]: the inode found, and the contents of [name]. *)
Fixpoint namex_loop (fuel : nat) (ip : iptr) (path : list Z) (parent : bool) (name : list Z) :
    K (option iptr * list Z) :=
  match fuel with
  | O => hang
  | S fuel =>
      match skipelem path with
      | None => if parent then irelease ip;; ret (None, name) else ret (Some ip, name)
      | Some (name, path) =>
          locki ip;;
          I <- ip_get ip;
          if negb (i_type I =? T_DIR) then unlocki ip;; irelease ip;; ret (None, name) else
          if parent && bool_decide (path = []) then unlocki ip;; ret (Some ip, name) else
          o <- dirlookup ip name;
          match o with
          | None => unlocki ip;; irelease ip;; ret (None, name)
          | Some (next, _) => unlocki ip;; irelease ip;; namex_loop fuel next path parent name
          end
      end
  end.
(** A relative path starts at the root too, found by another call of namex. *)
Definition namex_abs (path : list Z) (parent : bool) (name : list Z) : K (option iptr * list Z) :=
  ip <- iget ROOTDEV ROOTINO; namex_loop (S (length path)) ip path parent name.
Definition namex (path : list Z) (parent : bool) (name : list Z) : K (option iptr * list Z) :=
  if bool_decide (head path = Some slash) then namex_abs path parent name
  else
    '(o, _) <- namex_abs [slash] false [];
    root <- deref o;
    ip <- idup root;
    namex_loop (S (length path)) ip path parent name.
Definition namei (path : list Z) : K (option iptr) :=
  '(o, _) <- namex path false []; ret o.
Definition nameiparent (path : list Z) : K (option iptr * list Z) := namex path true [].
Definition rootlookup (name : list Z) : K (option (iptr * Z)) :=
  o <- namei [slash]; root <- deref o; dirlookup root name.

(** * Creating files *)

(** strncpy(dst, s, n): cut at [n] bytes, padded with NULs. *)
Definition strncpy_bytes (n : nat) (s : list Z) : list Z :=
  let s := take n (take_while (fun c => negb (c =? 0)) s) in s ++ replicate (n - length s) 0.

Definition update_dinode (ip : iptr) : K unit :=
  inodefile <- iget ROOTDEV INODEFILEINO;
  I <- ip_get ip;
  d <- read_dinode (i_inum I);
  I <- ip_get ip;
  if negb (i_size I =? di_size d) then
    writei inodefile (dinode_bytes (d <| di_size := i_size I |> <| di_data := i_data I |>))
      (u32 (i_inum I * sizeof_dinode)) sizeof_dinode;;
    ret tt
  else ret tt.

(** The loop of [createi] over the directory: the last entry read. *)
Fixpoint createi_scan (fuel : nat) (ip : iptr) (off : Z) (de : dirent) : K dirent :=
  match fuel with
  | O => hang
  | S fuel =>
      I <- ip_get ip;
      if off <? i_size I then
        '(r, bs) <- concurrent_readi ip off sizeof_dirent;
        if negb (r =? sizeof_dirent) then panic "dirlink read" else
        createi_scan fuel ip (off + sizeof_dirent) (dirent_of bs)
      else ret de
  end.

Definition createi (inodefile : iptr) (path : list Z) : K iptr :=
  let dinode := mkDinode T_FILE T_DEV 0 (replicate EXTENT_N extent_zero) in
  acquiresleep SlInodefile;;
  If <- gets k_inodefile;
  let inum := s32 (i_size If / sizeof_dinode) in
  writei IInodefile (dinode_bytes dinode) (u32 (INODEOFF inum)) sizeof_dinode;;
  releasesleep SlInodefile;;
  '(o, name) <- nameiparent path;
  rootino <- deref o;
  let de := mkDirent (u16 inum) (strncpy_bytes DIRSIZ name) in
  R <- ip_get rootino;
  concurrent_writei rootino (dirent_bytes de) (i_size R) sizeof_dirent;;
  ip_mod inodefile (fun I => I <| i_size := u32 (i_size I + sizeof_dinode) |>);;
  ip_mod rootino (fun I => I <| i_size := u32 (i_size I + sizeof_dirent) |>);;
  R <- ip_get rootino;
  de <- createi_scan (S (Z.to_nat (i_size R))) rootino 0 de;
  update_dinode inodefile;;
  update_dinode rootino;;
  iget ROOTDEV (de_inum de).

Definition concurrent_createi (path : list Z) : K iptr :=
  inodefile <- iget ROOTDEV INODEFILEINO;
  acquiresleep (ip_lock inodefile);;
  ip <- createi inodefile path;
  releasesleep (ip_lock inodefile);;
  ret ip.
End Fs.
