(* ===== verification/FsRead.v ===== *)
(** Reading files (kernel/fs.c): readi gives the bytes of the file, for files of one and two
    extents. *)
From S2P Require Import Prelude Kstate Locks Sched Bytes Bio Ide Fs.

Lemma accessed_trans s c p d1 s1 p1 d2 s2 :
  accessed s c p d1 s1 -> settle p1 = settle p -> accessed s1 c p1 d2 s2 -> accessed s c p d2 s2.
Proof.
  intros [_ F1 _ S1] Ep [(p2 & B2 & Ep2) F2 D2 S2]. split.
  - exists p2. split; [done|congruence].
  - by transitivity s1.
  - done.
  - congruence.
Qed.
Lemma accessed_refl s c p : bio_ok s c p -> accessed s c p (k_disk s) s.
Proof. intros B. split; try done. by exists p. Qed.
Lemma accessed_touch s c p : bio_ok s c p -> accessed s c p (k_disk s) (s <| k_cpu ::= touch |>).
Proof.
  intros [H1 [l H2] R]. split; try done. exists p. split; [|done]. split.
  - done.
  - exists l. by apply (cache_inv_same s).
  - destruct R as [[] ? ? ?]. split; [by split|done..].
Qed.

(** * The bytes of a file *)

(** Byte [x] of an extent. *)
Definition ebyte (s : kstate) (e : extent) (x : Z) : Z :=
  default 0 (blk s (startblkno e + x / BSIZE) !! Z.to_nat (x mod BSIZE)).
Definition esize (e : extent) : Z := nblocks e * BSIZE.
(** Byte [x] of a file with two extents. *)
Definition fbyte (s : kstate) (e0 e1 : extent) (x : Z) : Z :=
  if x <? esize e0 then ebyte s e0 x else ebyte s e1 (x - esize e0).
Definition fbytes (s : kstate) (e0 e1 : extent) (off n : Z) : list Z :=
  fbyte s e0 e1 <$> seqZ off n.

(** An extent inside the file system. *)
Definition extent_in (e : extent) : Prop :=
  0 <= startblkno e /\ 0 <= nblocks e /\ startblkno e + nblocks e <= FSSIZE.

Lemma esize_u32 e : extent_in e -> u32 (nblocks e * BSIZE) = esize e.
Proof. intros (? & ? & ?). unfold u32, esize, FSSIZE, BSIZE in *. apply Z.mod_small. lia. Qed.
Lemma extent_block e x :
  extent_in e -> 0 <= x < esize e ->
  u32 (startblkno e + x / BSIZE) = startblkno e + x / BSIZE /\
  0 <= startblkno e + x / BSIZE < FSSIZE.
Proof.
  intros (? & ? & ?) Hx. unfold esize, FSSIZE, BSIZE in *.
  assert (0 <= x / 512 < nblocks e) by (Z.to_euclidean_division_equations; lia).
  split; [apply Z.mod_small|]; lia.
Qed.

(** A piece of a block is a piece of the extent. *)
Lemma slice_ebyte s e x m :
  length (blk s (startblkno e + x / BSIZE)) = Z.to_nat BSIZE ->
  0 <= x -> 0 <= m <= BSIZE - x mod BSIZE ->
  slice (Z.to_nat (x mod BSIZE)) (Z.to_nat m) (blk s (startblkno e + x / BSIZE)) =
    ebyte s e <$> seqZ x m.
Proof.
  intros Hl Hx Hm. unfold BSIZE in *. pose proof (Z.mod_pos_bound x 512 ltac:(lia)).
  apply list_eq. intros j. unfold slice.
  destruct (decide (j < Z.to_nat m)%nat) as [Hj|Hj].
  - rewrite lookup_take_lt, lookup_drop by done. rewrite list_lookup_fmap, lookup_seqZ_lt by lia.
    simpl. unfold ebyte. unfold BSIZE.
    replace ((x + Z.of_nat j) / 512) with (x / 512) by (Z.to_euclidean_division_equations; lia).
    replace ((x + Z.of_nat j) mod 512) with (x mod 512 + Z.of_nat j)
      by (Z.to_euclidean_division_equations; lia).
    rewrite Z2Nat.inj_add, Nat2Z.id by lia.
    destruct (lookup_lt_is_Some_2 (blk s (startblkno e + x / 512)) (Z.to_nat (x mod 512) + j))
      as [b Hb]; [rewrite Hl; lia|]. by rewrite Hb.
  - rewrite lookup_take_ge by lia. symmetry. apply lookup_ge_None_2.
    rewrite length_fmap, length_seqZ. lia.
Qed.

Lemma fbyte_disk s s' e0 e1 : k_disk s' = k_disk s -> forall x, fbyte s' e0 e1 x = fbyte s e0 e1 x.
Proof. intros E x. unfold fbyte, ebyte, blk. by rewrite E. Qed.
Lemma fbytes_disk s s' e0 e1 off n : k_disk s' = k_disk s -> fbytes s' e0 e1 off n = fbytes s e0 e1 off n.
Proof. intros E. apply list_fmap_ext. intros _ x _. by apply fbyte_disk. Qed.
Lemma fbytes_app s e0 e1 off n m :
  0 <= n -> 0 <= m -> fbytes s e0 e1 off (n + m) = fbytes s e0 e1 off n ++ fbytes s e0 e1 (off + n) m.
Proof. intros. unfold fbytes. by rewrite seqZ_app, fmap_app. Qed.

Section Read.
Context {D : Driver} {L : DriverLaws D} {V : Devsw}.
Context (I : inode) (e0 e1 : extent) (rest : list extent).
Context (Hdev : i_dev I = ROOTDEV) (Hdata : i_data I = e0 :: e1 :: rest).
Context (He0 : extent_in e0) (He1 : extent_in e1).

(** Where the loop is: in the first or in the second extent, at [size] bytes into it. *)
Definition at_pos (k : nat) (size pos : Z) : Prop :=
  k = 0%nat /\ size = pos /\ pos <= esize e0 \/
  k = 1%nat /\ size = pos - esize e0 /\ esize e0 <= pos.

Lemma seek_extent_at off s :
  0 <= off <= esize e0 + esize e1 ->
  exists k size, seek_extent (S EXTENT_N) (i_data I) 0 0 off s = Ok (k, size) s /\
    at_pos k (u32 (off - size)) off.
Proof.
  intros Hoff. pose proof (esize_u32 e0 He0) as E0. pose proof (esize_u32 e1 He1) as E1.
  assert (esize e0 + esize e1 < 2^32) as Hb.
  { destruct He0 as (? & ? & ?), He1 as (? & ? & ?). unfold esize, FSSIZE, BSIZE in *. lia. }
  assert (0 <= esize e0 /\ 0 <= esize e1) as [? ?].
  { destruct He0 as (? & ? & ?), He1 as (? & ? & ?). unfold esize, BSIZE. lia. }
  assert (forall x, 0 <= x < 2^32 -> u32 x = x) as Hu by (intros; by apply Z.mod_small).
  rewrite Hdata. change (S EXTENT_N) with 8%nat. cbn [seek_extent]. simpl (_ !! 0%nat). mrun.
  rewrite E0, !(Hu (0 + esize e0)) by lia. rewrite Z.add_0_l.
  destruct (Z.ltb_spec (esize e0) off).
  - simpl (_ !! 1%nat). mrun. rewrite E1. destruct (Z.ltb_spec (u32 (esize e0 + esize e1)) off) as [Hlt|_].
    { rewrite Hu in Hlt by lia. lia. }
    exists 1%nat, (esize e0). split; [done|]. rewrite Hu by lia. right. lia.
  - exists 0%nat, 0. split; [done|]. rewrite Hu by lia. left. lia.
Qed.

Lemma readi_loop_run fuel n tot pos size k acc s c p :
  bio_ok s c p -> 0 <= tot <= n -> 0 <= pos -> pos + (n - tot) <= esize e0 + esize e1 ->
  n < 2^32 -> at_pos k size pos -> (Z.to_nat (n - tot) + (1 - k) < fuel)%nat ->
  exists s', accessed s c p (k_disk s) s' /\
    readi_loop fuel I n tot pos size k acc s =
      Ok (s32 n, acc ++ fbytes s e0 e1 pos (n - tot)) s'.
Proof.
  assert (esize e0 + esize e1 < 2^32) as Hb.
  { destruct He0 as (? & ? & ?), He1 as (? & ? & ?). unfold esize, FSSIZE, BSIZE in *. lia. }
  assert (forall x, 0 <= x < 2^32 -> u32 x = x) as Hu by (intros; by apply Z.mod_small).
  revert tot pos size k acc s p.
  induction fuel as [|fuel IH]; intros tot pos size k acc s p B Ht Hp Hn Hn32 Hat Hf; [lia|].
  cbn [readi_loop]. destruct (Z.ltb_spec tot n) as [Hlt|Hge].
  2:{ exists s. split; [by apply accessed_refl|]. replace (n - tot) with 0 by lia.
      unfold fbytes. rewrite seqZ_nil by lia. by rewrite app_nil_r. }
  assert (exists e, i_data I !! k = Some e /\ extent_in e /\ (k <= 1)%nat /\
    (forall x, 0 <= x -> size + x < esize e -> fbyte s e0 e1 (pos + x) = ebyte s e (size + x)) /\
    0 <= size /\ pos + esize e - size <= esize e0 + esize e1 /\
    (esize e <= size -> k = 0%nat /\ at_pos 1 (u32 (pos - size)) pos)) as (e & Hk & He & Hk1 & Hby & Hs0 & Hr & Hnext).
  { rewrite Hdata. destruct Hat as [(-> & -> & Hle)|(-> & -> & Hle)].
    - exists e0. split_and!; try done; try lia.
      + intros x Hx Hlx. unfold fbyte. destruct (Z.ltb_spec (pos + x) (esize e0)); [done|lia].
      + destruct He1 as (? & ? & ?). unfold esize, BSIZE in *. lia.
      + intros Hge. split; [done|]. right. rewrite Hu by lia. lia.
    - exists e1. split_and!; try done; try lia.
      intros x Hx Hlx. unfold fbyte. destruct (Z.ltb_spec (pos + x) (esize e0)); [lia|].
      f_equal. lia. }
  rewrite Hk. mrun. rewrite (esize_u32 e He).
  destruct (Z.ltb_spec size (esize e)) as [Hin|Hout].
  - set (m := Z.min (n - tot) (BSIZE - size mod BSIZE)).
    assert (0 < m <= n - tot /\ m <= BSIZE - size mod BSIZE) as [Hm1 Hm2].
    { pose proof (Z.mod_pos_bound size BSIZE ltac:(done)). lia. }
    assert (m <= esize e - size) as Hm3.
    { unfold esize. pose proof (Z.div_mod size BSIZE ltac:(done)). unfold esize in *.
      unfold BSIZE in *. Z.to_euclidean_division_equations. nia. }
    destruct (extent_block e size He) as [Hblk Hrange]; [lia|]. rewrite Hblk, Hdev.
    destruct (read_block_run s c p (startblkno e + size / BSIZE) (fun d =>
      readi_loop fuel I n (tot + m) (u32 (pos + m)) (u32 (size + m)) k
        (acc ++ slice (Z.to_nat (size mod BSIZE)) (Z.to_nat m) d))) as (s1 & A1 & ->); try done.
    pose proof A1 as [(p1 & B1 & Ep1) _ D1 _].
    assert (u32 (pos + m) = pos + m) as -> by (apply Hu; lia).
    assert (u32 (size + m) = size + m) as ->.
    { apply Hu. destruct He as (? & ? & ?). unfold esize, BSIZE, FSSIZE in *. lia. }
    destruct (IH (tot + m) (pos + m) (size + m) k
      (acc ++ slice (Z.to_nat (size mod BSIZE)) (Z.to_nat m) (blk s (startblkno e + size / BSIZE)))
      s1 p1) as (s2 & A2 & E2); try done; try lia.
    { destruct Hat as [(-> & -> & _)|(-> & -> & _)]; [left|right; lia].
      rewrite Hdata in Hk. injection Hk as <-. lia. }
    exists s2. split; [rewrite <-D1; by eapply accessed_trans|]. rewrite E2. do 2 f_equal.
    rewrite (fbytes_disk s s1), <-app_assoc by done. f_equal.
    replace (n - tot) with (m + (n - (tot + m))) by lia. rewrite fbytes_app by lia. f_equal.
    destruct B as [_ [l0 B0] _]. rewrite slice_ebyte by (apply (ci_disk _ _ B0) || lia).
    unfold fbytes. apply list_eq. intros j. rewrite !list_lookup_fmap.
    destruct (decide (j < Z.to_nat m)%nat) as [Hj|Hj].
    + rewrite !lookup_seqZ_lt by lia. simpl. rewrite Hby by lia. done.
    + rewrite !lookup_seqZ_ge by lia. done.
  - destruct (Hnext Hout) as [-> Hat1].
    destruct (IH tot pos (u32 (pos - size)) 1%nat acc s p) as (s' & A & E); try done; [lia|].
    by exists s'.
Qed.
End Read.

(** * readi *)

Definition at_inode (s : kstate) (ip : iptr) (I : inode) : Prop :=
  match ip with ICache i => k_inodes s !! i = Some I | IInodefile => k_inodefile s = I end.
Lemma ip_get_run s ip I : at_inode s ip I -> ip_get ip s = Ok I s.
Proof.
  destruct ip; simpl; intros H; unfold ip_get; mrun; [by rewrite H|]. unfold gets. by rewrite H.
Qed.
Lemma at_inode_bframe s s' ip I : bframe s s' -> at_inode s ip I -> at_inode s' ip I.
Proof.
  intros F. destruct ip; simpl.
  - by rewrite (bframe_get k_inodes s s').
  - by rewrite (bframe_get k_inodefile s s').
Qed.
(** The inode's lock is held. *)
Definition ip_held (s : kstate) (ip : iptr) : Prop :=
  exists v, k_sleeps s !! ip_lock ip = Some v /\ sl_locked v = true.
Lemma holdingsleep_held s c p l :
  bio_ok s c p -> holdingsleep l s = Ok (sl_locked (slk s l)) (s <| k_cpu ::= touch |>).
Proof.
  intros [_ _ R]. apply holdingsleep_run. eapply running_can_lock. apply R.
Qed.

Section Readi.
Context {D : Driver} {L : DriverLaws D} {V : Devsw}.

Lemma readi_run s c p ip I e0 e1 rest off n :
  bio_ok s c p -> at_inode s ip I -> ip_held s ip -> i_type I <> T_DEV -> i_dev I = ROOTDEV ->
  i_data I = e0 :: e1 :: rest -> extent_in e0 -> extent_in e1 ->
  0 <= off <= i_size I -> 0 <= n -> off + n <= esize e0 + esize e1 ->
  exists s', accessed s c p (k_disk s) s' /\ readi ip off n s = Ok (s32 n, fbytes s e0 e1 off n) s'.
Proof.
  intros B Hi (v & Hv & Hl) Ht Hd Hx He0 He1 Hoff Hn Hend.
  assert (esize e0 + esize e1 < 2^32) as Hb.
  { destruct He0 as (? & ? & ?), He1 as (? & ? & ?). unfold esize, FSSIZE, BSIZE in *. lia. }
  unfold readi. step (holdingsleep_held s c p (ip_lock ip) B).
  unfold slk. rewrite Hv. simpl (default _ _). rewrite Hl. simpl (negb _). cbv iota.
  pose proof (accessed_touch s c p B) as A0. set (s0 := s <| k_cpu ::= touch |>) in *.
  pose proof A0 as [(p0 & B0 & Ep0) _ _ _].
  step (ip_get_run s0 ip I (at_inode_bframe s s0 ip I eq_refl Hi)).
  rewrite (proj2 (Z.eqb_neq _ _) Ht). 
  assert ((i_size I <? off) || (u32 (off + n) <? off) = false) as ->.
  { unfold u32. rewrite Z.mod_small by lia. apply orb_false_iff. split; apply Z.ltb_ge; lia. }
  destruct (seek_extent_at I e0 e1 rest Hx He0 He1 off s0) as (k & size & E & Hat); [lia|]. step E.
  destruct (readi_loop_run I e0 e1 rest Hd Hx He0 He1 (S (Z.to_nat n + EXTENT_N)) n 0 off
    (u32 (off - size)) k [] s0 c p0) as (s' & A & E'); try done; try lia.
  { unfold EXTENT_N. lia. }
  exists s'. rewrite E'. split.
  - by eapply accessed_trans.
  - rewrite Z.sub_0_r. done.
Qed.


(** C16: reading past the end.  readi with an offset behind the size, or with off + n wrapping
    around 2^32, returns -1, stores nothing and does no I/O. *)
Theorem readi_bad_offset s c p ip I off n :
  bio_ok s c p -> at_inode s ip I -> ip_held s ip -> i_type I <> T_DEV ->
  0 <= off < 2^32 -> 0 <= n < 2^32 -> i_size I < off \/ 2^32 <= off + n ->
  readi ip off n s = Ok (-1, []) (s <| k_cpu ::= touch |>).
Proof.
  intros B Hi (v & Hv & Hl) Ht Hoff Hn Hbad.
  unfold readi. step (holdingsleep_held s c p (ip_lock ip) B).
  unfold slk. rewrite Hv. simpl (default _ _). rewrite Hl. simpl (negb _). cbv iota.
  set (s0 := s <| k_cpu ::= touch |>).
  step (ip_get_run s0 ip I (at_inode_bframe s s0 ip I eq_refl Hi)).
  rewrite (proj2 (Z.eqb_neq _ _) Ht).
  assert ((i_size I <? off) || (u32 (off + n) <? off) = true) as ->; [|done].
  apply orb_true_iff. destruct Hbad; [left; apply Z.ltb_lt; lia|right; apply Z.ltb_lt].
  unfold u32. rewrite <-(Z.mod_unique (off + n) (2^32) 1 (off + n - 2^32)) by lia. lia.
Qed.
End Readi.

(** * A machine with a locked inode *)

#[export] Instance no_devices : Devsw := {
  dev_read _ := None; dev_write _ := None }.
Definition two_extents : inode :=
  mkInode ROOTDEV 5 1 true T_FILE 0 600
    (mkExtent 10 1 :: mkExtent 20 1 :: replicate 5 extent_zero).
Definition add_inode (I : inode) (s : kstate) : kstate :=
  s <| k_inodes := [I] |> <| k_sleeps := {[ SlInode 0 := mkSleep true 1 ]} |>.
Lemma add_inode_ok I s c p : bio_ok s c p -> bio_ok (add_inode I s) c p.
Proof.
  intros [H1 [l H2] [[] ? ? ?]]. split.
  - intros i. by apply lookup_singleton_ne.
  - exists l. apply (cache_inv_same s); try reflexivity; [|done]. intros j. rewrite H1.
    by apply lookup_singleton_ne.
  - split; [by split|done..].
Qed.
Definition with_file : kstate := add_inode two_extents booted.
Lemma with_file_ok : bio_ok with_file 0 proc_on.
Proof. apply add_inode_ok, booted_ok. Qed.
Lemma with_file_held : ip_held with_file (ICache 0).
Proof. exists (mkSleep true 1). split; reflexivity. Qed.
Lemma memide_ok : DriverLaws (memide_iderw FSSIZE).
Proof. apply memide_laws. unfold FSSIZE. lia. Qed.


Lemma readi_bad_offset_witness :
  readi (D:=memide_iderw FSSIZE) (ICache 0) 601 1 with_file =
    Ok (-1, []) (with_file <| k_cpu ::= touch |>).
Proof.
  apply (readi_bad_offset (D:=memide_iderw FSSIZE) with_file 0 proc_on (ICache 0) two_extents 601 1);
    [exact with_file_ok|reflexivity|exact with_file_held|discriminate|..].
  - split; [apply Z.leb_le|apply Z.ltb_lt]; reflexivity.
  - split; [apply Z.leb_le|apply Z.ltb_lt]; reflexivity.
  - left. apply Z.ltb_lt. reflexivity.
Defined.
