(* ===== verification/Mkfs.v ===== *)
(** The image builder, mkfs.c: the program that makes the first disk of the kernel.

    The image file is a map from block numbers to blocks: a block that was never written is behind
    the end of the file.  [Panic] is an exit(1) or a failed assertion.  What the host gives is an
    argument: the names and the bytes of the files, as read returns them piece by piece, [None]
    for a file that cannot be opened.  Seeks and writes of the host succeed; what is printed is
    not modelled. *)
From S2P Require Import Prelude Kstate Locks Sched Bytes Bio Fs.

(** * Globals *)

Record mkfs := mkMkfs {
  image : gmap Z (list Z);
  sb : superblock;
  freeinode : Z;
  freeblock : Z }.
#[export] Instance eta_mkfs : Eta mkfs := fun m =>
  mkMkfs (image m) (sb m) (freeinode m) (freeblock m).
Definition mkfs_bss : mkfs := mkMkfs ∅ (mkSb 0 0 0 0) 0 0.

Definition IPB : Z := BSIZE / sizeof_dinode.
Definition CONSOLE_DEV : Z := 1.
Definition nbitmap : Z := FSSIZE / (BSIZE * 8) + 1.
Definition nmeta : Z := 2 + nbitmap.
Definition xshort (x : Z) : Z := of_le (le 2 x).
Definition xint (x : Z) : Z := of_le (le 4 x).

(** * Sectors and inodes *)

Definition wsect (sec : Z) (buf : list Z) : M mkfs unit :=
  modify (fun m => m <| image ::= <[u32 (sec * BSIZE) / BSIZE := buf]> |>).
Definition rsect (sec : Z) : M mkfs (list Z) :=
  o <- gets (fun m => image m !! (u32 (sec * BSIZE) / BSIZE));
  match o with Some b => ret b | None => panic "read" end.

(** The block and the offset in it of an inode. *)
Definition inode_block (inum : Z) : M mkfs Z :=
  s <- gets sb; ret (u32 (xint (sb_inodestart s) + INODEOFF inum / BSIZE)).
Definition inode_offset (inum : Z) : nat := Z.to_nat (inum mod IPB * sizeof_dinode).
Definition winode (inum : Z) (d : dinode) : M mkfs unit :=
  bn <- inode_block inum;
  buf <- rsect bn;
  wsect bn (splice (inode_offset inum) (dinode_bytes d) buf).
Definition rinode (inum : Z) : M mkfs dinode :=
  bn <- inode_block inum;
  buf <- rsect bn;
  ret (dinode_of (slice (inode_offset inum) (Z.to_nat sizeof_dinode) buf)).

Definition ialloc (type : Z) : M mkfs Z :=
  inum <- gets freeinode;
  modify (fun m => m <| freeinode := u32 (inum + 1) |>);;
  winode inum (mkDinode (s16 (xshort type)) 0 (xint 0) (replicate EXTENT_N extent_zero));;
  ret inum.

(** Assignments to a field of [din], and to the first extent. *)
Definition set_start (b : Z) (d : dinode) : dinode :=
  d <| di_data ::= alter (fun e => mkExtent b (nblocks e)) 0%nat |>.
Definition set_nblocks (n : Z) (d : dinode) : dinode :=
  d <| di_data ::= alter (fun e => mkExtent (startblkno e) n) 0%nat |>.
Definition first_extent (d : dinode) : extent := default extent_zero (di_data d !! 0%nat).

Definition iallocblocks (inum start numblks : Z) : M mkfs unit :=
  din <- rinode inum;
  winode inum (set_nblocks (xint numblks) (set_start (xint start) din)).

(** The loop of iappend: [p] the bytes left.  Each turn writes a byte at least. *)
Fixpoint iappend_loop (fuel : nat) (start off : Z) (p : list Z) : M mkfs Z :=
  match fuel with
  | O => hang
  | S fuel =>
      if 0 <? Z.of_nat (length p) then
        let fbn := off / BSIZE in
        let n1 := Z.min (Z.of_nat (length p)) (u32 ((fbn + 1) * BSIZE - off)) in
        buf <- rsect (u32 (start + fbn));
        wsect (u32 (start + fbn))
          (splice (Z.to_nat (off - fbn * BSIZE)) (take (Z.to_nat n1) p) buf);;
        iappend_loop fuel start (u32 (off + n1)) (drop (Z.to_nat n1) p)
      else ret off
  end.
Definition iappend (inum : Z) (p : list Z) : M mkfs unit :=
  din <- rinode inum;
  off <- iappend_loop (S (length p)) (xint (startblkno (first_extent din))) (xint (di_size din)) p;
  winode inum (din <| di_size := xint off |>).

(** * The bitmap *)

Fixpoint set_bits (n i : nat) (buf : list Z) : list Z :=
  match n with
  | O => buf
  | S n => set_bits n (S i) (alter (fun b => Z.lor b (Z.shiftl 1 (Z.of_nat (i mod 8)))) (i / 8)%nat buf)
  end.
Fixpoint balloc_loop (fuel : nat) (nbuf remaining : Z) : M mkfs unit :=
  match fuel with
  | O => hang
  | S fuel =>
      if 0 <? remaining then
        s <- gets sb;
        wsect (u32 (sb_bmapstart s + nbuf))
          (set_bits (Z.to_nat (Z.min remaining (BSIZE * 8))) 0 (replicate (Z.to_nat BSIZE) 0));;
        balloc_loop fuel (nbuf + 1) (remaining - BSIZE * 8)
      else ret tt
  end.
Definition balloc (used : Z) : M mkfs unit := balloc_loop (S (S (Z.to_nat (used / (BSIZE * 8))))) 0 used.

(** * main *)

Fixpoint zero_sectors (n : nat) (i : Z) : M mkfs unit :=
  match n with
  | O => ret tt
  | S n => wsect i (replicate (Z.to_nat BSIZE) 0);; zero_sectors n (i + 1)
  end.
Definition mkfs_superblock : M mkfs unit :=
  modify (fun m => m <| sb := mkSb (xint FSSIZE) (xint (FSSIZE - nmeta)) (xint 2) (xint (2 + nbitmap)) |>);;
  modify (fun m => m <| freeblock := nmeta |>);;
  zero_sectors (Z.to_nat FSSIZE) 0;;
  s <- gets sb;
  wsect 1 (splice 0 (superblock_bytes s) (replicate (Z.to_nat BSIZE) 0)).
Definition take_blocks (n : Z) : M mkfs unit :=
  modify (fun m => m <| freeblock := u32 (freeblock m + n) |>).

(** [inum_count]: as many inodes as the files need with the inode file, the root and the console. *)
Definition mkfs_inodefile (inum_count : Z) : M mkfs unit :=
  ino <- ialloc T_FILE;
  assert_ (ino =? INODEFILEINO);;
  din <- rinode ino;
  s <- gets sb;
  let blkn := inum_count / IPB in
  let blkn := if (blkn =? 0) || negb ((inum_count * sizeof_dinode) mod BSIZE =? 0) then blkn + 1 else blkn in
  winode ino (set_nblocks (xint blkn) (set_start (sb_inodestart s) din)
    <| di_size := xint (inum_count * sizeof_dinode) |>);;
  take_blocks blkn.

Definition str_dot : list Z := [46].
Definition str_dotdot : list Z := [46; 46].
Definition str_console : list Z := [99; 111; 110; 115; 111; 108; 101].
Definition add_entry (rootino inum : Z) (name : list Z) : M mkfs unit :=
  iappend rootino (dirent_bytes (mkDirent (xshort inum) (strncpy_bytes DIRSIZ name))).
Definition dir_size (argc : Z) : Z := (argc + 1) * sizeof_dirent.
Definition dir_blocks (argc : Z) : Z :=
  dir_size argc / BSIZE + (if dir_size argc mod BSIZE =? 0 then 0 else 1).
Definition mkfs_root (argc : Z) : M mkfs Z :=
  rootino <- ialloc T_DIR;
  assert_ (rootino =? ROOTINO);;
  start <- gets freeblock;
  iallocblocks rootino (s32 start) (s32 (dir_blocks argc));;
  take_blocks (dir_blocks argc);;
  add_entry rootino rootino str_dot;;
  add_entry rootino rootino str_dotdot;;
  ret rootino.
Definition mkfs_console (rootino : Z) : M mkfs unit :=
  inum <- ialloc T_DEV;
  din <- rinode inum;
  winode inum (din <| di_devid := s16 (xshort CONSOLE_DEV) |>);;
  add_entry rootino inum str_console.

(** A file of the command line: its path, and its bytes in the pieces read gives. *)
Definition host_file : Type := list Z * option (list (list Z)).
Definition out_user : list Z := [111; 117; 116; 47; 117; 115; 101; 114; 47].
Definition underscore : Z := 95.
Definition base_name (path : list Z) : list Z :=
  let name := drop 9 path in
  match name with c :: name' => if c =? underscore then name' else name | [] => name end.
Fixpoint append_all (inum : Z) (pieces : list (list Z)) : M mkfs unit :=
  match pieces with [] => ret tt | p :: pieces => iappend inum p;; append_all inum pieces end.
Definition mkfs_file (rootino : Z) (f : host_file) : M mkfs unit :=
  let '(path, pieces) := f in
  assert_ (bool_decide (take 9 path = out_user));;
  assert_ (negb (bool_decide (slash ∈ drop 9 path)));;
  match pieces with
  | None => panic "open"
  | Some pieces =>
      inum <- ialloc T_FILE;
      add_entry rootino inum (base_name path);;
      din <- rinode inum;
      start <- gets freeblock;
      winode inum (set_start (xint start) din);;
      append_all inum pieces;;
      din <- rinode inum;
      let size := xint (di_size din) in
      let n := xint (size / BSIZE + (if size mod BSIZE =? 0 then 0 else 1)) in
      take_blocks (xint n);;
      winode inum (set_nblocks n din)
  end.
Fixpoint mkfs_files (rootino : Z) (fs : list host_file) : M mkfs unit :=
  match fs with [] => ret tt | f :: fs => mkfs_file rootino f;; mkfs_files rootino fs end.

(** main, after the arguments have been looked at and the image has been opened. *)
Definition mkfs_main (fs : list host_file) : M mkfs unit :=
  let argc := Z.of_nat (length fs) + 2 in
  mkfs_superblock;;
  mkfs_inodefile (argc + 1);;
  rootino <- mkfs_root argc;
  mkfs_console rootino;;
  mkfs_files rootino fs;;
  din <- rinode rootino;
  winode rootino (din <| di_size := xint (dir_size argc) |>);;
  b <- gets freeblock;
  balloc (s32 b).
