(* ===== verification/MkfsProofs.v ===== *)
(** Correctness of mkfs.c: the image it builds is the file system that the kernel reads. *)
From S2P Require Import Prelude Kstate Locks Sched Bytes Bio Fs Mkfs.

(** * The image as one array of bytes *)

Definition byte_at (img : gmap Z (list Z)) (a : Z) : Z :=
  default 0 (default [] (img !! (a / BSIZE)) !! Z.to_nat (a mod BSIZE)).
Definition img_bytes (img : gmap Z (list Z)) (a : Z) (n : nat) : list Z :=
  (fun i => byte_at img (a + Z.of_nat i)) <$> seq 0 n.
(** Every block below FSSIZE can be read. *)
Definition full (img : gmap Z (list Z)) : Prop :=
  forall b, 0 <= b < FSSIZE -> exists bs, img !! b = Some bs /\ length bs = Z.to_nat BSIZE.
(** [img'] is [img] with [bs] at address [a]. *)
Record patched (img : gmap Z (list Z)) (a : Z) (bs : list Z) (img' : gmap Z (list Z)) : Prop := {
  pa_full : full img';
  pa_byte x : 0 <= x -> byte_at img' x =
    if decide (a <= x < a + Z.of_nat (length bs)) then default 0 (bs !! Z.to_nat (x - a))
    else byte_at img x }.

Lemma length_peek img a n : length (img_bytes img a n) = n.
Proof. unfold img_bytes. by rewrite length_fmap, length_seq. Qed.
Lemma peek_lookup img a n i : (i < n)%nat -> img_bytes img a n !! i = Some (byte_at img (a + Z.of_nat i)).
Proof. intros H. unfold img_bytes. by rewrite list_lookup_fmap, lookup_seq_lt. Qed.
Lemma peek_ext img img' a a' n :
  (forall i, (i < n)%nat -> byte_at img' (a' + Z.of_nat i) = byte_at img (a + Z.of_nat i)) ->
  img_bytes img' a' n = img_bytes img a n.
Proof.
  intros H. unfold img_bytes. apply list_fmap_ext. intros i x Hx. apply lookup_seq in Hx as [-> Hi]. by apply H.
Qed.
Lemma peek_eq img a bs :
  (forall i, (i < length bs)%nat -> byte_at img (a + Z.of_nat i) = default 0 (bs !! i)) ->
  img_bytes img a (length bs) = bs.
Proof.
  intros H. apply list_eq. intros i. destruct (decide (i < length bs)%nat) as [Hi|Hi].
  - rewrite peek_lookup, H by done. by destruct (lookup_lt_is_Some_2 bs i Hi) as [x ->].
  - rewrite !lookup_ge_None_2; rewrite ?length_peek; auto with lia.
Qed.
Lemma peek_here img a bs img' : 0 <= a -> patched img a bs img' -> img_bytes img' a (length bs) = bs.
Proof.
  intros Ha P. apply peek_eq. intros i Hi. rewrite (pa_byte _ _ _ _ P), decide_True by lia.
  do 2 f_equal. lia.
Qed.
Lemma peek_away img a bs img' x n :
  0 <= x -> patched img a bs img' -> x + Z.of_nat n <= a \/ a + Z.of_nat (length bs) <= x ->
  img_bytes img' x n = img_bytes img x n.
Proof.
  intros Hx P H. apply peek_ext. intros i Hi. rewrite (pa_byte _ _ _ _ P), decide_False by lia. done.
Qed.
Lemma patched_nil img a : full img -> patched img a [] img.
Proof. intros F. split; [done|]. intros x Hx. by rewrite decide_False by (simpl; lia). Qed.
Lemma patched_app img a bs1 img1 bs2 img2 :
  patched img a bs1 img1 -> patched img1 (a + Z.of_nat (length bs1)) bs2 img2 ->
  patched img a (bs1 ++ bs2) img2.
Proof.
  intros P1 P2. split; [apply P2|]. intros x Hx. rewrite (pa_byte _ _ _ _ P2), (pa_byte _ _ _ _ P1) by done.
  rewrite length_app. repeat case_decide; try lia; try done.
  - rewrite lookup_app_r by lia. do 2 f_equal. lia.
  - by rewrite lookup_app_l by lia.
Qed.

(** * Blocks *)

Lemma block_addr b o : 0 <= o < BSIZE -> (b * BSIZE + o) / BSIZE = b /\ (b * BSIZE + o) mod BSIZE = o.
Proof.
  intros H. split.
  - symmetry. apply (Z.div_unique _ _ _ o); lia.
  - symmetry. apply (Z.mod_unique _ _ b); lia.
Qed.
Lemma patch_block img b buf off src :
  full img -> 0 <= b < FSSIZE -> img !! b = Some buf -> (off + length src <= Z.to_nat BSIZE)%nat ->
  patched img (b * BSIZE + Z.of_nat off) src (<[b := splice off src buf]> img).
Proof.
  intros F Hb Hbuf Ho. assert (length buf = Z.to_nat BSIZE) as Hl.
  { destruct (F b Hb) as (bs & E & ?). congruence. }
  split.
  - intros c Hc. destruct (decide (b = c)) as [<-|Hne].
    + rewrite lookup_insert_eq. eexists. split; [done|]. by rewrite length_splice by lia.
    + rewrite lookup_insert_ne by done. by apply F.
  - intros x Hx. unfold byte_at. pose proof (Z.div_mod x BSIZE ltac:(done)) as Hd.
    pose proof (Z.mod_pos_bound x BSIZE eq_refl) as Hm. unfold BSIZE in *.
    destruct (decide (b = x / 512)) as [->|Hne].
    + rewrite lookup_insert_eq. simpl. rewrite Hbuf. simpl. rewrite splice_lookup by lia.
      repeat case_decide; try lia; try done. do 2 f_equal. lia.
    + rewrite lookup_insert_ne by done. rewrite decide_False; [done|]. nia.
Qed.
Lemma slice_block img b buf off n :
  full img -> 0 <= b < FSSIZE -> img !! b = Some buf -> (off + n <= Z.to_nat BSIZE)%nat ->
  slice off n buf = img_bytes img (b * BSIZE + Z.of_nat off) n.
Proof.
  intros F Hb Hbuf Ho. assert (length buf = Z.to_nat BSIZE) as Hl.
  { destruct (F b Hb) as (bs & E & ?). congruence. }
  apply list_eq. intros i. unfold slice. destruct (decide (i < n)%nat) as [Hi|Hi].
  - rewrite lookup_take_lt, lookup_drop, peek_lookup by lia. unfold byte_at.
    rewrite <-Z.add_assoc. destruct (block_addr b (Z.of_nat off + Z.of_nat i)) as [-> ->].
    { unfold BSIZE in *. lia. }
    rewrite Hbuf. simpl. replace (Z.to_nat _) with (off + i)%nat by lia.
    destruct (lookup_lt_is_Some_2 buf (off + i)%nat) as [y ->]; [lia|done].
  - rewrite !lookup_ge_None_2; rewrite ?length_peek, ?length_take; auto with lia.
Qed.

(** * Code that runs to its end *)

Definition runs {A} (m : M mkfs A) (Q : A -> mkfs -> Prop) (s : mkfs) : Prop :=
  match m s with Ok a s' => Q a s' | _ => False end.
Lemma runs_bind {A B} (m : M mkfs A) (k : A -> M mkfs B) Q s :
  runs m (fun a s' => runs (k a) Q s') s -> runs (bind m k) Q s.
Proof. unfold runs, bind. by destruct (m s). Qed.
Lemma runs_mono {A} (m : M mkfs A) (Q R : A -> mkfs -> Prop) s :
  runs m Q s -> (forall a s', Q a s' -> R a s') -> runs m R s.
Proof. unfold runs. destruct (m s); try done. intros H HQ. by apply HQ. Qed.
Lemma runs_seq {A B} (m : M mkfs A) (k : A -> M mkfs B) (Q : A -> mkfs -> Prop) R s :
  runs m Q s -> (forall a s', Q a s' -> runs (k a) R s') -> runs (bind m k) R s.
Proof. intros H1 H2. apply runs_bind. by eapply runs_mono. Qed.
Lemma runs_ret {A} (a : A) (Q : A -> mkfs -> Prop) s : Q a s -> runs (ret a) Q s.
Proof. done. Qed.
Lemma runs_gets {A} (f : mkfs -> A) (Q : A -> mkfs -> Prop) s : Q (f s) s -> runs (gets f) Q s.
Proof. done. Qed.
Lemma runs_modify f (Q : unit -> mkfs -> Prop) s : Q tt (f s) -> runs (modify f) Q s.
Proof. done. Qed.
Lemma runs_assert b (Q : unit -> mkfs -> Prop) s : b = true -> Q tt s -> runs (assert_ b) Q s.
Proof. by intros ->. Qed.

(** [s'] is [s] with [bs] at address [a] of the image. *)
Record wrote (a : Z) (bs : list Z) (s s' : mkfs) : Prop := {
  wr_image : patched (image s) a bs (image s');
  wr_rest : s' = s <| image := image s' |> }.
(** The image can be read, and the inode file begins behind the bitmap. *)
Record ready (s : mkfs) : Prop := {
  rd_full : full (image s);
  rd_start : sb_inodestart (sb s) = nmeta;
  rd_bmap : sb_bmapstart (sb s) = 2 }.
Lemma wrote_ready a bs s s' : ready s -> wrote a bs s s' -> ready s'.
Proof. intros [F1 F2 F3] [P ->]. split; [apply P|done|done]. Qed.

Lemma xint_small x : 0 <= x < 2 ^ 32 -> xint x = x.
Proof. intros H. unfold xint. rewrite of_le_le. by apply Z.mod_small. Qed.
Lemma xshort_small x : 0 <= x < 2 ^ 16 -> xshort x = x.
Proof. intros H. unfold xshort. rewrite of_le_le. by apply Z.mod_small. Qed.
Lemma sector b : 0 <= b < FSSIZE -> u32 (b * BSIZE) / BSIZE = b.
Proof.
  intros H. unfold FSSIZE, BSIZE in *. rewrite u32_small by lia. by rewrite Z.div_mul.
Qed.

Lemma runs_wsect b buf old off src s :
  full (image s) -> 0 <= b < FSSIZE -> image s !! b = Some old -> buf = splice off src old ->
  (off + length src <= Z.to_nat BSIZE)%nat ->
  runs (wsect b buf) (fun _ s' => wrote (b * BSIZE + Z.of_nat off) src s s') s.
Proof.
  intros F Hb Ho -> Hl. apply runs_modify. split; [|done]. simpl. rewrite sector by done.
  by apply patch_block.
Qed.
Lemma runs_rsect b s (Q : list Z -> mkfs -> Prop) :
  full (image s) -> 0 <= b < FSSIZE ->
  (forall buf, image s !! b = Some buf -> Q buf s) -> runs (rsect b) Q s.
Proof.
  intros F Hb H. unfold rsect. apply runs_bind, runs_gets. rewrite sector by done.
  destruct (F b Hb) as (buf & E & _). rewrite E. apply runs_ret. by apply H.
Qed.

(** * Inodes *)

(** The address of inode [i]. *)
Definition iaddr (i : Z) : Z := nmeta * BSIZE + sizeof_dinode * i.
Definition inum_ok (i : Z) : Prop := 0 <= i < IPB * (FSSIZE - nmeta).
Lemma inode_place i :
  inum_ok i -> 0 <= nmeta + INODEOFF i / BSIZE < FSSIZE /\
    (nmeta + INODEOFF i / BSIZE) * BSIZE + Z.of_nat (inode_offset i) = iaddr i /\
    (inode_offset i + 64 <= Z.to_nat BSIZE)%nat.
Proof.
  unfold inum_ok, inode_offset, iaddr, INODEOFF, IPB, sizeof_dinode, BSIZE, nmeta, nbitmap, FSSIZE, BSIZE.
  change (512 / 64) with 8. change (100000 / (512 * 8)) with 24. intros H.
  Z.to_euclidean_division_equations. lia.
Qed.
Lemma runs_inode_block i s (Q : Z -> mkfs -> Prop) :
  ready s -> inum_ok i -> Q (nmeta + INODEOFF i / BSIZE) s -> runs (inode_block i) Q s.
Proof.
  intros R Hi H. unfold inode_block. apply runs_bind, runs_gets, runs_ret. rewrite (rd_start _ R).
  destruct (inode_place i Hi) as (Hb & _). rewrite xint_small by done.
  rewrite u32_small by (unfold FSSIZE in Hb; lia). done.
Qed.
Lemma runs_winode i d s :
  ready s -> inum_ok i -> length (di_data d) = EXTENT_N ->
  runs (winode i d) (fun _ s' => wrote (iaddr i) (dinode_bytes d) s s') s.
Proof.
  intros R Hi Hd. destruct (inode_place i Hi) as (Hb & <- & Ho). unfold winode.
  apply runs_bind, runs_inode_block; [done|done|]. apply runs_bind, runs_rsect; [apply R|done|].
  intros buf Hbuf. eapply runs_wsect; try done; [apply R|]. by rewrite length_dinode_bytes.
Qed.
Definition inode_is (i : Z) (d : dinode) (s : mkfs) : Prop :=
  img_bytes (image s) (iaddr i) 64 = dinode_bytes d.
Lemma runs_rinode i d s (Q : dinode -> mkfs -> Prop) :
  ready s -> inum_ok i -> inode_is i d s -> dinode_ok d -> Q d s -> runs (rinode i) Q s.
Proof.
  intros R Hi Hd D H. destruct (inode_place i Hi) as (Hb & Ha & Ho). unfold rinode.
  apply runs_bind, runs_inode_block; [done|done|]. apply runs_bind, runs_rsect; [apply R|done|].
  intros buf Hbuf. apply runs_ret. change (Z.to_nat sizeof_dinode) with 64%nat.
  rewrite (slice_block _ _ _ _ _ (rd_full _ R) Hb Hbuf Ho), Ha, Hd.
  rewrite <-(app_nil_r (dinode_bytes d)), dinode_of_bytes by done. done.
Qed.

(** * Appending to a file *)

Lemma runs_iappend_loop fuel start off p s :
  (length p < fuel)%nat -> ready s -> 0 <= off -> 0 <= start ->
  start * BSIZE + off + Z.of_nat (length p) <= FSSIZE * BSIZE ->
  runs (iappend_loop fuel start off p)
    (fun off' s' => off' = off + Z.of_nat (length p) /\ wrote (start * BSIZE + off) p s s') s.
Proof.
  revert off p s. induction fuel as [|fuel IH]; intros off p s Hf R Ho Hs Hb; [lia|].
  cbn [iappend_loop]. destruct (Z.ltb_spec 0 (Z.of_nat (length p))) as [Hp|Hp].
  2:{ destruct p; [|simpl in Hp; lia]. apply runs_ret. split; [simpl; lia|].
      split; [apply patched_nil, R|by destruct s]. }
  unfold BSIZE, FSSIZE in Hb. pose proof (Z.div_mod off 512 ltac:(lia)) as Hd.
  pose proof (Z.mod_pos_bound off 512 ltac:(lia)) as Hm.
  assert (0 <= start + off / BSIZE < FSSIZE) as Hblk by (unfold BSIZE, FSSIZE; lia).
  rewrite (u32_small (start + _)) by (unfold FSSIZE in Hblk; lia).
  rewrite (u32_small ((off / BSIZE + 1) * BSIZE - off)) by (unfold BSIZE; lia).
  set (n1 := Z.min (Z.of_nat (length p)) ((off / BSIZE + 1) * BSIZE - off)).
  assert (0 < n1 <= Z.of_nat (length p) /\ n1 <= 512 - off mod 512) as Hn1 by (unfold n1, BSIZE; lia).
  rewrite (u32_small (off + n1)) by lia.
  assert (length (take (Z.to_nat n1) p) = Z.to_nat n1) as Ht by (rewrite length_take; lia).
  apply runs_bind, runs_rsect; [apply R|done|]. intros buf Hbuf.
  eapply runs_seq; [eapply runs_wsect; [apply R|done|done|done|rewrite Ht; unfold BSIZE; lia]|].
  intros [] s1 W1. cbv beta in W1. eapply runs_mono; [apply IH|].
  - rewrite length_drop. lia.
  - by eapply wrote_ready.
  - lia.
  - done.
  - rewrite length_drop. unfold BSIZE, FSSIZE. lia.
  - intros off' s' [-> W2]. rewrite length_drop. split; [lia|].
    pose proof (wr_image _ _ _ _ W1) as P1. pose proof (wr_image _ _ _ _ W2) as P2.
    split; [|rewrite (wr_rest _ _ _ _ W2), (wr_rest _ _ _ _ W1); by destruct s].
    rewrite <-(take_drop (Z.to_nat n1) p). eapply patched_app.
    + replace (start * BSIZE + off) with
        ((start + off / BSIZE) * BSIZE + Z.of_nat (Z.to_nat (off - off / BSIZE * BSIZE))); [exact P1|].
      unfold BSIZE. lia.
    + rewrite Ht. replace (_ + _ + Z.of_nat (Z.to_nat n1)) with (start * BSIZE + (off + n1)) by lia. done.
Qed.

(** * The file system being built *)

(** The sizes in blocks of the inode file and of the root directory, which have room for [count]
    inodes and [count] entries. *)
Record layout_ok (ib db count : Z) : Prop := {
  lo_ib : sizeof_dinode * count <= ib * BSIZE;
  lo_db : sizeof_dirent * count <= db * BSIZE;
  lo_count : 0 <= count < 2 ^ 16;
  lo_ib0 : 0 <= ib < 2 ^ 17;
  lo_db0 : 0 <= db < 2 ^ 17 }.
Section Layout.
Context (ib db count : Z).
Definition dir_start : Z := nmeta + ib.
Definition data_start : Z := nmeta + ib + db.
Context (L : layout_ok ib db count).
Let Hib := lo_ib _ _ _ L.
Let Hdb := lo_db _ _ _ L.
Let Hcount := lo_count _ _ _ L.
Let Hib0 := lo_ib0 _ _ _ L.
Let Hdb0 := lo_db0 _ _ _ L.

(** The address of entry [j] of the root directory. *)
Definition eaddr (j : Z) : Z := dir_start * BSIZE + sizeof_dirent * j.

(** [ds]: the inodes made so far; [es]: the entries of the root; [fs]: the first block and the
    bytes of the files; [fb]: the first block behind
    them; [cur]: the value of freeblock. *)
Record built (ds : list dinode) (es : list dirent) (fs : list (Z * list Z)) (fb cur : Z) (s : mkfs) : Prop := {
  bu_ready : ready s;
  bu_inode : freeinode s = Z.of_nat (length ds);
  bu_block : freeblock s = cur;
  bu_room : data_start <= fb <= FSSIZE;
  bu_inodes : Z.of_nat (length ds) <= count;
  bu_entries : Z.of_nat (length es) <= count;
  bu_dinode i d : ds !! i = Some d -> inode_is (Z.of_nat i) d s /\ dinode_ok d;
  bu_entry j e : es !! j = Some e -> img_bytes (image s) (eaddr (Z.of_nat j)) 16 = dirent_bytes e;
  bu_file k st bs : fs !! k = Some (st, bs) ->
    img_bytes (image s) (st * BSIZE) (length bs) = bs /\ data_start <= st /\
    st * BSIZE + Z.of_nat (length bs) <= fb * BSIZE;
  bu_super : img_bytes (image s) BSIZE 16 = superblock_bytes (mkSb FSSIZE (FSSIZE - nmeta) 2 nmeta);
  bu_bitmap x : 2 * BSIZE <= x < nmeta * BSIZE -> byte_at (image s) x = 0 }.

Lemma count_inum i ds es fs fb cur s :
  built ds es fs fb cur s -> 0 <= i < count -> inum_ok i.
Proof.
  intros B Hi. pose proof (bu_room _ _ _ _ _ _ B) as H. unfold inum_ok, IPB, data_start in *.
  change (BSIZE / sizeof_dinode) with 8. unfold sizeof_dinode, BSIZE in *. lia.
Qed.
Lemma length_dirent_bytes e : length (de_name e) = DIRSIZ -> length (dirent_bytes e) = 16%nat.
Proof. intros H. unfold dirent_bytes. by rewrite length_app, length_le, H. Qed.

Local Ltac places :=
  unfold iaddr, eaddr, dir_start, data_start, nmeta, sizeof_dinode, sizeof_dirent, BSIZE in *;
  change nbitmap with 25 in *; lia.
Local Ltac away W := erewrite peek_away; [done| |exact (wr_image _ _ _ _ W)|]; places.
Local Ltac off W := rewrite (pa_byte _ _ _ _ (wr_image _ _ _ _ W)), decide_False; [done|places..].

(** Writes that leave everything built alone but what they are for. *)
Lemma built_inode i d ds es fs fb cur s s' :
  built ds es fs fb cur s -> (i < length ds)%nat -> dinode_ok d ->
  wrote (iaddr (Z.of_nat i)) (dinode_bytes d) s s' -> built (<[i := d]> ds) es fs fb cur s'.
Proof.
  intros B Hi D W. pose proof (length_dinode_bytes d (do_len _ D)) as Hl.
  pose proof (bu_inodes _ _ _ _ _ _ B) as Hds. destruct B as [B1 B2 B3 B4 B5 B6 B7 B8 B9 B10 B11].
  split; rewrite ?length_insert; try done; try (rewrite (wr_rest _ _ _ _ W); done).
  - by eapply wrote_ready.
  - intros j d' Hj. destruct (decide (i = j)) as [<-|Hne].
    + rewrite list_lookup_insert_eq in Hj by done. injection Hj as <-. split; [|done].
      unfold inode_is. rewrite <-Hl. apply (peek_here (image s)); [|apply W].
      places.
    + rewrite list_lookup_insert_ne in Hj by done. destruct (B7 j d' Hj) as [H1 H2]. split; [|done].
      unfold inode_is. rewrite <-H1. away W.
  - intros j e He. rewrite <-(B8 j e He). pose proof (lookup_lt_Some _ _ _ He). away W.
  - intros k st bs Hk. destruct (B9 k st bs Hk) as (H1 & H2 & H3). split; [|done]. rewrite <-H1 at 2. away W.
  - rewrite <-B10. away W.
  - intros x Hx. rewrite <-(B11 x Hx). off W.
Qed.
Lemma built_entry e ds es fs fb cur s s' :
  built ds es fs fb cur s -> Z.of_nat (length es) < count -> length (de_name e) = DIRSIZ ->
  wrote (eaddr (Z.of_nat (length es))) (dirent_bytes e) s s' -> built ds (es ++ [e]) fs fb cur s'.
Proof.
  intros B He E W. pose proof (length_dirent_bytes e E) as Hl.
  pose proof (bu_inodes _ _ _ _ _ _ B) as Hds. destruct B as [B1 B2 B3 B4 B5 B6 B7 B8 B9 B10 B11].
  split; try done; try (rewrite (wr_rest _ _ _ _ W); done).
  - by eapply wrote_ready.
  - rewrite length_app. simpl. lia.
  - intros j d' Hj. destruct (B7 j d' Hj) as [H1 H2]. split; [|done]. apply lookup_lt_Some in Hj.
    unfold inode_is. rewrite <-H1. away W.
  - intros j e' [Hj|[Hj Hj']]%lookup_app_Some.
    + rewrite <-(B8 j e' Hj). apply lookup_lt_Some in Hj. away W.
    + apply list_lookup_singleton_Some in Hj' as [Hj0 <-]. replace j with (length es) by lia.
      rewrite <-Hl. apply (peek_here (image s)); [|apply W].
      places.
  - intros k st bs Hk. destruct (B9 k st bs Hk) as (H1 & H2 & H3). split; [|done]. rewrite <-H1 at 2. away W.
  - rewrite <-B10. away W.
  - intros x Hx. rewrite <-(B11 x Hx). off W.
Qed.
Lemma built_data a bs0 ds es fs fb cur s s' :
  built ds es fs fb cur s -> fb * BSIZE <= a -> wrote a bs0 s s' -> built ds es fs fb cur s'.
Proof.
  intros B Ha W.
  pose proof (bu_inodes _ _ _ _ _ _ B) as Hds. destruct B as [B1 B2 B3 B4 B5 B6 B7 B8 B9 B10 B11].
  split; try done; try (rewrite (wr_rest _ _ _ _ W); done).
  - by eapply wrote_ready.
  - intros j d' Hj. destruct (B7 j d' Hj) as [H1 H2]. split; [|done]. apply lookup_lt_Some in Hj.
    unfold inode_is. rewrite <-H1. away W.
  - intros j e' Hj. rewrite <-(B8 j e' Hj). apply lookup_lt_Some in Hj. away W.
  - intros k st bs Hk. destruct (B9 k st bs Hk) as (H1 & H2 & H3). split; [|done]. rewrite <-H1 at 2. away W.
  - rewrite <-B10. away W.
  - intros x Hx. rewrite <-(B11 x Hx). off W.
Qed.

(** * Operations on it *)

Definition new_dinode (t : Z) : dinode := mkDinode t 0 0 (replicate EXTENT_N extent_zero).
Definition one_extent (t size start n : Z) : dinode :=
  mkDinode t 0 size (mkExtent start n :: replicate 6 extent_zero).
Lemma one_extent_ok t size start n :
  -2^15 <= t < 2^15 -> 0 <= size < 2^32 -> 0 <= start < 2^32 -> 0 <= n < 2^32 ->
  dinode_ok (one_extent t size start n).
Proof.
  intros H1 H2 H3 H4. split; simpl; try done. constructor; [done|]. by repeat constructor.
Qed.

Lemma runs_rinode_built i d ds es fs fb cur s (Q : dinode -> mkfs -> Prop) :
  built ds es fs fb cur s -> ds !! i = Some d -> Q d s -> runs (rinode (Z.of_nat i)) Q s.
Proof.
  intros B Hi H. destruct (bu_dinode _ _ _ _ _ _ B i d Hi) as [H1 H2].
  eapply runs_rinode; [apply B| |done|done|done]. eapply count_inum; [done|].
  pose proof (bu_inodes _ _ _ _ _ _ B). apply lookup_lt_Some in Hi. lia.
Qed.
Lemma runs_winode_built i d ds es fs fb cur s :
  built ds es fs fb cur s -> (i < length ds)%nat -> dinode_ok d ->
  runs (winode (Z.of_nat i) d) (fun _ s' => built (<[i := d]> ds) es fs fb cur s' /\
    wrote (iaddr (Z.of_nat i)) (dinode_bytes d) s s') s.
Proof.
  intros B Hi D. pose proof (bu_inodes _ _ _ _ _ _ B).
  eapply runs_mono; [apply runs_winode; [apply B| |apply D]|].
  - eapply count_inum; [done|lia].
  - intros [] s' W. split; [|done]. by eapply built_inode.
Qed.
Lemma runs_ialloc_built t ds es fs fb cur s :
  built ds es fs fb cur s -> Z.of_nat (length ds) < count -> 0 <= t < 2 ^ 15 ->
  runs (ialloc t) (fun i s' => i = Z.of_nat (length ds) /\ built (ds ++ [new_dinode t]) es fs fb cur s') s.
Proof.
  intros B Hn Ht. unfold ialloc. apply runs_bind, runs_gets, runs_bind, runs_modify.
  rewrite (bu_inode _ _ _ _ _ _ B). rewrite xshort_small, u32_small by lia. change (xint 0) with 0.
  replace (s16 t) with t by (unfold s16; rewrite Z.mod_small; lia).
  fold (new_dinode t). set (s1 := s <| freeinode := _ |>).
  assert (dinode_ok (new_dinode t)) as D by (split; simpl; try done; [lia|by repeat constructor]).
  assert (ready s1) as R1 by (by destruct (bu_ready _ _ _ _ _ _ B)).
  eapply runs_seq; [apply runs_winode; [done| |done]|].
  { eapply count_inum; [done|lia]. }
  intros [] s' W. cbv beta in W. apply runs_ret. split; [done|].
  pose proof (length_dinode_bytes _ (do_len _ D)) as Hl.
  destruct B as [B1 B2 B3 B4 B5 B6 B7 B8 B9 B10 B11].
  split; rewrite ?length_app; simpl length; try done; try (rewrite (wr_rest _ _ _ _ W); simpl; lia); try lia.
  - by eapply (wrote_ready _ _ s1).
  - intros j d' [Hj|[Hj Hj']]%lookup_app_Some.
    + destruct (B7 j d' Hj) as [H1 H2]. split; [|done]. apply lookup_lt_Some in Hj.
      unfold inode_is. rewrite <-H1. change (image s) with (image s1). away W.
    + apply list_lookup_singleton_Some in Hj' as [Hj0 <-]. replace j with (length ds) by lia.
      split; [|done]. unfold inode_is. rewrite <-Hl. apply (peek_here (image s1)); [|apply W]. places.
  - intros j e' Hj. rewrite <-(B8 j e' Hj). apply lookup_lt_Some in Hj. change (image s) with (image s1). away W.
  - intros k st bs Hk. destruct (B9 k st bs Hk) as (H1 & H2 & H3). split; [|done].
    rewrite <-H1 at 2. change (image s) with (image s1). away W.
  - rewrite <-B10. change (image s) with (image s1). away W.
  - intros x Hx. rewrite <-(B11 x Hx). change (image s) with (image s1). off W.
Qed.

(** The root directory with [n] entries. *)
Definition root_dinode (n : nat) : dinode := one_extent T_DIR (sizeof_dirent * Z.of_nat n) dir_start db.
Definition entry_of (inum : Z) (name : list Z) : dirent := mkDirent inum (strncpy_bytes DIRSIZ name).
Lemma length_strncpy n l : length (strncpy_bytes n l) = n.
Proof. unfold strncpy_bytes. rewrite length_app, length_replicate, length_take. lia. Qed.
Lemma runs_add_entry inum name ds es fs fb cur s :
  built ds es fs fb cur s -> ds !! 1%nat = Some (root_dinode (length es)) -> Z.of_nat (length es) < count ->
  0 <= inum < 2 ^ 16 ->
  runs (add_entry ROOTINO inum name)
    (fun _ s' => built (<[1%nat := root_dinode (S (length es))]> ds) (es ++ [entry_of inum name]) fs fb cur s') s.
Proof.
  intros B Hr He Hi. unfold add_entry, iappend. rewrite xshort_small by done. fold (entry_of inum name).
  assert (length (dirent_bytes (entry_of inum name)) = 16%nat) as Hl.
  { apply length_dirent_bytes, length_strncpy. }
  pose proof (bu_room _ _ _ _ _ _ B) as Hroom.
  apply runs_bind. change ROOTINO with (Z.of_nat 1). eapply runs_rinode_built; [done|done|].
  simpl startblkno. cbn [root_dinode one_extent di_size]. rewrite !xint_small by (unfold FSSIZE in *; places).
  eapply runs_seq; [apply runs_iappend_loop; [lia|apply B|unfold sizeof_dirent; lia|places|]|].
  { rewrite Hl. unfold FSSIZE, BSIZE in *. places. }
  intros off s1 [-> W1]. rewrite Hl. pose proof (lookup_lt_Some _ _ _ Hr) as Hlt.
  assert (built ds (es ++ [entry_of inum name]) fs fb cur s1) as B1.
  { eapply built_entry; [done|done|apply length_strncpy|exact W1]. }
  rewrite xint_small by (unfold FSSIZE in *; places).
  eapply runs_mono; [apply (runs_winode_built _ _ _ _ _ _ _ _ B1 Hlt)|].
  - apply one_extent_ok; try done; unfold FSSIZE in *; places.
  - intros [] s' [B' _]. replace (root_dinode (S (length es))) with
      (root_dinode (length es) <| di_size := sizeof_dirent * Z.of_nat (length es) + Z.of_nat 16 |>); [done|].
    unfold root_dinode, one_extent, set. simpl. f_equal. unfold sizeof_dirent. lia.
Qed.

(** * A file *)

Lemma peek_app img a n m : img_bytes img a (n + m) = img_bytes img a n ++ img_bytes img (a + Z.of_nat n) m.
Proof.
  unfold img_bytes. rewrite seq_app, fmap_app. f_equal. apply list_eq. intros i.
  rewrite !list_lookup_fmap. destruct (decide (i < m)%nat).
  - rewrite !lookup_seq_lt by done. simpl. f_equal. f_equal. lia.
  - by rewrite !lookup_seq_ge by lia.
Qed.
(** The bytes at the first block that is not in use. *)
Definition pending (fb : Z) (bs : list Z) (s : mkfs) : Prop :=
  img_bytes (image s) (fb * BSIZE) (length bs) = bs.
Definition file_dinode (fb : Z) (bs : list Z) (n : Z) : dinode :=
  one_extent T_FILE (Z.of_nat (length bs)) fb n.
Lemma runs_iappend_file i acc p ds es fs fb cur s :
  built ds es fs fb cur s -> ds !! i = Some (file_dinode fb acc 0) -> pending fb acc s ->
  fb * BSIZE + Z.of_nat (length (acc ++ p)) <= FSSIZE * BSIZE ->
  runs (iappend (Z.of_nat i) p) (fun _ s' =>
    built (<[i := file_dinode fb (acc ++ p) 0]> ds) es fs fb cur s' /\ pending fb (acc ++ p) s') s.
Proof.
  intros B Hi Hp Hb. unfold iappend. apply runs_bind. eapply runs_rinode_built; [done|done|].
  pose proof (bu_room _ _ _ _ _ _ B) as Hroom. simpl startblkno. cbn [file_dinode one_extent di_size].
  rewrite length_app in Hb. pose proof (lookup_lt_Some _ _ _ Hi) as Hlt.
  pose proof (bu_inodes _ _ _ _ _ _ B) as Hds.
  rewrite !xint_small by (unfold FSSIZE in *; places).
  eapply runs_seq; [apply runs_iappend_loop; [lia|apply B|lia|places|lia]|].
  intros off s1 [-> W1]. rewrite xint_small by (unfold FSSIZE in *; places).
  assert (built ds es fs fb cur s1) as B1 by (eapply built_data; [done| |exact W1]; lia).
  eapply runs_mono; [apply (runs_winode_built _ _ _ _ _ _ _ _ B1 Hlt)|].
  - apply one_extent_ok; try done; unfold FSSIZE in *; places.
  - intros [] s' [B' W']. split.
    + unfold file_dinode. rewrite length_app, Nat2Z.inj_add. exact B'.
    + unfold pending.
      erewrite peek_away; [| |exact (wr_image _ _ _ _ W')|]; [|places|].
      2:{ right. rewrite length_dinode_bytes by done. places. }
      rewrite length_app, peek_app. f_equal.
      * etransitivity; [|exact Hp]. eapply peek_away; [places|apply W1|left; lia].
      * eapply peek_here; [places|apply W1].
Qed.
Lemma runs_append_all i pieces acc ds es fs fb cur s :
  built ds es fs fb cur s -> ds !! i = Some (file_dinode fb acc 0) -> pending fb acc s ->
  fb * BSIZE + Z.of_nat (length (acc ++ concat pieces)) <= FSSIZE * BSIZE ->
  runs (append_all (Z.of_nat i) pieces) (fun _ s' =>
    built (<[i := file_dinode fb (acc ++ concat pieces) 0]> ds) es fs fb cur s' /\
    pending fb (acc ++ concat pieces) s') s.
Proof.
  revert acc ds s. induction pieces as [|p pieces IH]; intros acc ds s B Hi Hp Hb; cbn [append_all concat].
  - apply runs_ret. rewrite app_nil_r, list_insert_id by done. done.
  - cbn [concat] in Hb. rewrite app_assoc in *. eapply runs_seq; [apply runs_iappend_file; try done|].
    { rewrite length_app in Hb. lia. }
    intros [] s1 [B1 P1]. pose proof (lookup_lt_Some _ _ _ Hi) as Hlt.
    eapply runs_mono; [eapply IH; try done|].
    + by rewrite list_lookup_insert_eq.
    + intros [] s'. by rewrite list_insert_insert_eq.
Qed.

Definition blocks_of (n : Z) : Z := n / BSIZE + (if n mod BSIZE =? 0 then 0 else 1).
Lemma blocks_of_bound n : 0 <= n -> 0 <= blocks_of n <= n /\ n <= blocks_of n * BSIZE < n + BSIZE.
Proof.
  intros H. unfold blocks_of, BSIZE. pose proof (Z.div_mod n 512 ltac:(lia)).
  pose proof (Z.mod_pos_bound n 512 ltac:(lia)). pose proof (Z.div_pos n 512).
  destruct (Z.eqb_spec (n mod 512) 0); lia.
Qed.
(** What is in use grows by the blocks of the file written behind it. *)
Lemma built_take bs n ds es fs fb s :
  built ds es fs fb fb s -> pending fb bs s -> Z.of_nat (length bs) <= n * BSIZE -> fb + n <= FSSIZE -> 0 <= n ->
  built ds es (fs ++ [(fb, bs)]) (fb + n) (fb + n) (s <| freeblock := u32 (freeblock s + n) |>).
Proof.
  intros B P Hn Hf Hn0. destruct B as [B1 B2 B3 B4 B5 B6 B7 B8 B9 B10 B11]. split; try done.
  - by destruct B1.
  - simpl. rewrite B3. apply u32_small. unfold FSSIZE in *. places.
  - lia.
  - intros k st bs' [Hk|[Hk Hk']]%lookup_app_Some.
    + destruct (B9 k st bs' Hk) as (H1 & H2 & H3). split_and!; try done. unfold BSIZE in *. lia.
    + apply list_lookup_singleton_Some in Hk' as [_ [= <- <-]]. split_and!; [exact P|lia|]. unfold BSIZE in *. lia.
Qed.

(** A host file that can be read, and the bytes in it. *)
Definition host_ok (f : host_file) : Prop :=
  take 9 f.1 = out_user /\ slash ∉ drop 9 f.1 /\ f.2 <> None.
Definition contents (f : host_file) : list Z := concat (default [] f.2).
Definition file_blocks (f : host_file) : Z := blocks_of (Z.of_nat (length (contents f))).
Lemma runs_mkfs_file f ds es fs fb s :
  built ds es fs fb fb s -> ds !! 1%nat = Some (root_dinode (length es)) -> (2 <= length ds)%nat ->
  Z.of_nat (length es) < count -> Z.of_nat (length ds) < count -> host_ok f ->
  fb + file_blocks f <= FSSIZE ->
  runs (mkfs_file ROOTINO f) (fun _ s' =>
    built (<[1%nat := root_dinode (S (length es))]> ds ++ [file_dinode fb (contents f) (file_blocks f)])
      (es ++ [entry_of (Z.of_nat (length ds)) (base_name f.1)]) (fs ++ [(fb, contents f)])
      (fb + file_blocks f) (fb + file_blocks f) s') s.
Proof.
  destruct f as [path [pieces|]]; intros B Hr H2 He Hd (Hpath & Hslash & Hopen) Hb; [|done].
  pose proof (blocks_of_bound (Z.of_nat (length (contents (path, Some pieces)))) ltac:(lia)) as Hblk.
  fold (file_blocks (path, Some pieces)) in Hblk. simpl in Hpath, Hslash.
  unfold contents in *. cbn [from_option id snd fst] in *. set (bs := concat pieces) in *.
  pose proof (bu_room _ _ _ _ _ _ B) as Hroom.
  assert (0 <= fb) as Hfb by places.
  assert (Z.of_nat (length bs) < 2 ^ 32) as Hsz by (unfold FSSIZE, BSIZE in *; lia).
  unfold mkfs_file. apply runs_bind, runs_assert; [by apply bool_decide_eq_true_2|].
  apply runs_bind, runs_assert; [by rewrite bool_decide_eq_false_2|].
  eapply runs_seq; [apply runs_ialloc_built; try done|]. intros i s1 [-> B1].
  eapply runs_seq; [apply (runs_add_entry _ _ _ _ _ _ _ _ B1)|].
  { by rewrite lookup_app_l by lia. }
  { done. }
  { lia. }
  intros [] s2 B2. cbv beta in B2. rewrite insert_app_l in B2 by lia.
  set (ds2 := <[1%nat:=root_dinode (S (length es))]> ds) in *.
  assert (length ds2 = length ds) as Hl2 by apply length_insert. rewrite <-Hl2 in *.
  apply runs_bind. eapply runs_rinode_built; [exact B2|by apply list_lookup_middle|].
  apply runs_bind, runs_gets. rewrite (bu_block _ _ _ _ _ _ B2).
  rewrite (xint_small fb) by (unfold FSSIZE in *; places).
  change (set_start fb (new_dinode T_FILE)) with (file_dinode fb [] 0).
  assert (forall d d', <[length ds2 := d']> (ds2 ++ [d]) = ds2 ++ [d']) as Hins.
  { intros d d'. rewrite insert_app_r_alt, Nat.sub_diag by done. done. }
  eapply runs_seq; [apply (runs_winode_built _ _ _ _ _ _ _ _ B2)|].
  { rewrite length_app. simpl. lia. }
  { apply one_extent_ok; try done; unfold FSSIZE in *; places. }
  intros [] s3 [B3 _]. rewrite Hins in B3.
  eapply runs_seq; [apply (runs_append_all _ pieces [] _ _ _ _ _ _ B3)|].
  { by apply list_lookup_middle. }
  { done. }
  { simpl. fold bs. unfold FSSIZE, BSIZE in *. lia. }
  intros [] s4 [B4 P4]. simpl in P4. rewrite Hins in B4. simpl in B4. fold bs in B4, P4.
  apply runs_bind. eapply runs_rinode_built; [exact B4|by apply list_lookup_middle|].
  cbn [file_dinode one_extent di_size]. rewrite !(xint_small (Z.of_nat (length bs))) by lia.
  change (_ + (if _ =? 0 then 0 else 1)) with (file_blocks (path, Some pieces)).
  rewrite !(xint_small (file_blocks (path, Some pieces))) by lia.
  apply runs_bind, runs_modify.
  pose proof (built_take bs (file_blocks (path, Some pieces)) _ _ _ _ _ B4 P4 ltac:(lia) Hb ltac:(lia)) as B5.
  eapply runs_mono; [apply (runs_winode_built _ _ _ _ _ _ _ _ B5)|].
  { rewrite length_app. simpl. lia. }
  { apply (one_extent_ok T_FILE (Z.of_nat (length bs)) fb); unfold FSSIZE in *; try done; lia. }
  intros [] s' [B' _]. rewrite Hins in B'. exact B'.
Qed.

(** * All files *)

(** Where the files go from block [fb] on, their inodes and their entries in the root. *)
Fixpoint place (fb : Z) (fs : list host_file) : list (Z * list Z) :=
  match fs with [] => [] | f :: fs => (fb, contents f) :: place (fb + file_blocks f) fs end.
Fixpoint place_end (fb : Z) (fs : list host_file) : Z :=
  match fs with [] => fb | f :: fs => place_end (fb + file_blocks f) fs end.
Definition placed_dinode (x : Z * list Z) : dinode :=
  file_dinode x.1 x.2 (blocks_of (Z.of_nat (length x.2))).
Fixpoint file_entries (inum : Z) (fs : list host_file) : list dirent :=
  match fs with [] => [] | f :: fs => entry_of inum (base_name f.1) :: file_entries (inum + 1) fs end.
Lemma file_blocks_nonneg f : 0 <= file_blocks f.
Proof. unfold file_blocks. apply blocks_of_bound. lia. Qed.
Lemma place_end_le fb fs : fb <= place_end fb fs.
Proof.
  revert fb. induction fs as [|f fs IH]; intros fb; simpl; [lia|].
  pose proof (file_blocks_nonneg f). specialize (IH (fb + file_blocks f)). lia.
Qed.
Lemma runs_mkfs_files fs ds es fd fb s :
  built ds es fd fb fb s -> ds !! 1%nat = Some (root_dinode (length es)) -> length ds = length es ->
  Z.of_nat (length ds + length fs) <= count -> Forall host_ok fs -> place_end fb fs <= FSSIZE ->
  runs (mkfs_files ROOTINO fs) (fun _ s' =>
    built (<[1%nat := root_dinode (length es + length fs)]> ds ++ (placed_dinode <$> place fb fs))
      (es ++ file_entries (Z.of_nat (length ds)) fs) (fd ++ place fb fs)
      (place_end fb fs) (place_end fb fs) s') s.
Proof.
  revert ds es fd fb s. induction fs as [|f fs IH]; intros ds es fd fb s B Hr Hl Hc Hok Hb; cbn [mkfs_files].
  - apply runs_ret. simpl. rewrite !app_nil_r, Nat.add_0_r, list_insert_id by done. done.
  - apply Forall_cons_1 in Hok as [Hf Hok]. simpl in Hb, Hc. pose proof (place_end_le (fb + file_blocks f) fs).
    pose proof (lookup_lt_Some _ _ _ Hr) as Hlt.
    eapply runs_seq; [apply (runs_mkfs_file f _ _ _ _ _ B); try done; lia|]. intros [] s1 B1. cbv beta in B1.
    set (ds1 := <[1%nat:=root_dinode (S (length es))]> ds ++ [_]) in *.
    assert (length ds1 = S (length ds)) as Hl1.
    { unfold ds1. rewrite length_app, length_insert. simpl. lia. }
    eapply runs_mono; [apply (IH _ _ _ _ _ B1); try done|].
    + unfold ds1. rewrite length_app. simpl. rewrite lookup_app_l by (by rewrite length_insert).
      rewrite list_lookup_insert_eq by done. by rewrite Nat.add_1_r.
    + rewrite Hl1, length_app. simpl. lia.
    + rewrite Hl1. lia.
    + intros [] s' B'. simpl. rewrite Hl1 in B'.
      assert (<[1%nat := root_dinode (length (es ++ [entry_of (Z.of_nat (length ds)) (base_name f.1)]) + length fs)]> ds1 =
        <[1%nat := root_dinode (length es + S (length fs))]> ds ++ [placed_dinode (fb, contents f)]) as E.
      { unfold ds1. rewrite insert_app_l by (by rewrite length_insert). rewrite list_insert_insert_eq, length_app.
        simpl. do 3 f_equal. lia. }
      rewrite E, <-!app_assoc, Nat2Z.inj_succ in B'. exact B'.
Qed.
End Layout.

(** * The bitmap *)

Definition bit (img : gmap Z (list Z)) (b : Z) : bool :=
  Z.testbit (byte_at img (2 * BSIZE + b / 8)) (b mod 8).
Lemma length_set_bits n i buf : length (set_bits n i buf) = length buf.
Proof. revert i buf. induction n as [|n IH]; intros i buf; cbn [set_bits]; [done|]. by rewrite IH, length_alter. Qed.
Lemma set_bits_bit n i buf k :
  (k < 8 * length buf)%nat ->
  Z.testbit (default 0 (set_bits n i buf !! (k / 8)%nat)) (Z.of_nat (k mod 8)) =
    bool_decide (i <= k < i + n)%nat || Z.testbit (default 0 (buf !! (k / 8)%nat)) (Z.of_nat (k mod 8)).
Proof.
  revert i buf. induction n as [|n IH]; intros i buf Hk; cbn [set_bits].
  - by rewrite bool_decide_eq_false_2 by lia.
  - rewrite IH by (by rewrite length_alter). destruct (lookup_lt_is_Some_2 buf (k / 8)%nat) as [b Hb].
    { apply Nat.Div0.div_lt_upper_bound. lia. }
    destruct (decide (i / 8 = k / 8)%nat) as [E|E].
    + rewrite E, list_lookup_alter_eq, Hb. cbn [fmap option_fmap option_map from_option id]. rewrite Z.lor_spec, Z.shiftl_spec by lia.
      pose proof (Nat.div_mod_eq i 8). pose proof (Nat.div_mod_eq k 8). rewrite E in *.
      destruct (decide (i = k)) as [->|Hne].
      * rewrite Z.sub_diag. change (Z.testbit 1 0) with true. rewrite orb_true_r, (bool_decide_eq_true_2 (k <= k < _)%nat) by lia. by rewrite orb_true_r.
      * rewrite (bool_decide_ext (S i <= k < S i + n)%nat (i <= k < i + S n)%nat) by lia.
        replace (Z.testbit 1 (Z.of_nat (k mod 8) - Z.of_nat (i mod 8))) with false; [by rewrite orb_false_r|].
        symmetry. destruct (Z.ltb_spec (Z.of_nat (k mod 8) - Z.of_nat (i mod 8)) 0); [by apply Z.testbit_neg_r|].
        apply Z.bits_above_log2; [done|]. change (Z.log2 1) with 0. lia.
    + rewrite list_lookup_alter_ne by done.
      rewrite (bool_decide_ext (S i <= k < S i + n)%nat (i <= k < i + S n)%nat); [done|].
      destruct (decide (i = k)) as [->|]; [done|lia].
Qed.
Lemma runs_wsect_block b src s :
  full (image s) -> 0 <= b < FSSIZE -> length src = Z.to_nat BSIZE ->
  runs (wsect b src) (fun _ s' => wrote (b * BSIZE) src s s') s.
Proof.
  intros F Hb Hl. destruct (F b Hb) as (old & Ho & Hlo).
  rewrite <-(Z.add_0_r (b * BSIZE)). change 0 with (Z.of_nat 0) at 1.
  eapply runs_wsect; [done|done|exact Ho| |lia].
  unfold splice. rewrite drop_ge by lia. by rewrite app_nil_r.
Qed.
(** The bits of a bitmap block. *)
Definition bits_per_block : Z := BSIZE * 8.
Lemma bit_in_block nbuf src s s' b :
  0 <= nbuf -> length src = Z.to_nat BSIZE -> wrote ((2 + nbuf) * BSIZE) src s s' -> 0 <= b ->
  bit (image s') b =
    if decide (nbuf * bits_per_block <= b < (nbuf + 1) * bits_per_block)
    then let k := Z.to_nat (b - nbuf * bits_per_block) in
         Z.testbit (default 0 (src !! (k / 8)%nat)) (Z.of_nat (k mod 8))
    else bit (image s) b.
Proof.
  intros Hn Hl W Hb. unfold bit. unfold bits_per_block, BSIZE in *.
  assert (0 <= b / 8) by (apply Z.div_pos; lia).
  rewrite (pa_byte _ _ _ _ (wr_image _ _ _ _ W)), Hl by lia.
  pose proof (Z.div_mod b 8 ltac:(lia)). pose proof (Z.mod_pos_bound b 8 ltac:(lia)).
  destruct (decide (nbuf * (512 * 8) <= b < (nbuf + 1) * (512 * 8))) as [D|D].
  - rewrite decide_True by lia. cbv zeta. f_equal.
    + do 2 f_equal. apply Nat2Z.inj. rewrite Nat2Z.inj_div, !Z2Nat.id by lia.
      replace (b - nbuf * (512 * 8)) with (b + - (nbuf * 512) * 8) by lia. rewrite Z.div_add by lia. lia.
    + rewrite Nat2Z.inj_mod, Z2Nat.id by lia.
      replace (b - nbuf * (512 * 8)) with (b + - (nbuf * 512) * 8) by lia. by rewrite Z.mod_add.
  - rewrite decide_False by lia. done.
Qed.
Lemma runs_balloc_loop fuel nbuf rem s :
  ready s -> 0 <= nbuf -> nbuf * bits_per_block + rem <= nbitmap * bits_per_block ->
  (0 < fuel)%nat -> rem <= bits_per_block * (Z.of_nat fuel - 1) ->
  (forall b, nbuf * bits_per_block <= b < nbitmap * bits_per_block -> bit (image s) b = false) ->
  runs (balloc_loop fuel nbuf rem) (fun _ s' =>
    (forall x, 0 <= x < 2 * BSIZE \/ nmeta * BSIZE <= x -> byte_at (image s') x = byte_at (image s) x) /\
    (forall b, 0 <= b < nbitmap * bits_per_block ->
       bit (image s') b = if b <? nbuf * bits_per_block then bit (image s) b else b <? nbuf * bits_per_block + rem)) s.
Proof.
  revert nbuf rem s. induction fuel as [|fuel IH]; intros nbuf rem s R Hn Hb H0 Hf Hz; [lia|].
  cbn [balloc_loop]. destruct (Z.ltb_spec 0 rem) as [Hr|Hr].
  2:{ apply runs_ret. split; [done|]. intros b Hb'. destruct (Z.ltb_spec b (nbuf * bits_per_block)); [done|].
      rewrite Hz by lia. symmetry. apply Z.ltb_ge. lia. }
  apply runs_bind, runs_gets. rewrite (rd_bmap _ R).
  assert (nbuf < nbitmap) as Hnb by (unfold bits_per_block, BSIZE in *; lia).
  change nbitmap with 25 in Hnb. rewrite u32_small by lia.
  set (src := set_bits _ 0 _). assert (length src = Z.to_nat BSIZE) as Hl.
  { unfold src. by rewrite length_set_bits, length_replicate. }
  eapply runs_seq; [apply runs_wsect_block; [apply R|unfold FSSIZE; lia|done]|].
  intros [] s1 W. cbv beta in W.
  assert (forall b, 0 <= b < nbitmap * bits_per_block -> bit (image s1) b =
    if decide (nbuf * bits_per_block <= b < (nbuf + 1) * bits_per_block)
    then b <? nbuf * bits_per_block + rem else bit (image s) b) as Hbit.
  { intros b Hb'. rewrite (bit_in_block nbuf src s s1 b Hn Hl W) by lia. case_decide; [|done]. cbv zeta.
    unfold src. unfold bits_per_block in *. rewrite set_bits_bit by (rewrite length_replicate; unfold BSIZE in *; lia).
    rewrite lookup_replicate_2.
    2:{ apply Nat.Div0.div_lt_upper_bound. unfold BSIZE in *. lia. }
    cbn [from_option id]. rewrite Z.testbit_0_l, orb_false_r.
    destruct (Z.ltb_spec b (nbuf * (BSIZE * 8) + rem)).
    - apply bool_decide_eq_true_2. unfold BSIZE in *. lia.
    - apply bool_decide_eq_false_2. unfold BSIZE in *. lia. }
  change (BSIZE * 8) with bits_per_block. eapply runs_mono; [apply (IH (nbuf + 1))|].
  - by eapply wrote_ready.
  - lia.
  - lia.
  - unfold bits_per_block, BSIZE in *. destruct fuel; lia.
  - lia.
  - intros b Hb'. rewrite Hbit by (unfold bits_per_block, BSIZE in *; lia).
    rewrite decide_False by (unfold bits_per_block, BSIZE in *; lia). apply Hz. unfold bits_per_block, BSIZE in *. lia.
  - intros [] s' [H1 H2]. split.
    + intros x Hx. rewrite H1 by done. rewrite (pa_byte _ _ _ _ (wr_image _ _ _ _ W)), decide_False; [done| |].
      all: unfold nmeta, BSIZE in *; change nbitmap with 25 in *; lia.
    + intros b Hb'. rewrite H2, Hbit by done. unfold bits_per_block, BSIZE in *.
      destruct (Z.ltb_spec b ((nbuf + 1) * (512 * 8))); try case_decide; zcase; try lia; try done.
Qed.

(** * From an empty file *)

Lemma zero_sectors_run n i s :
  0 <= i -> i + Z.of_nat n <= FSSIZE ->
  exists img, zero_sectors n i s = Ok tt (s <| image := img |>) /\
    forall b, img !! b = if decide (i <= b < i + Z.of_nat n) then Some (replicate (Z.to_nat BSIZE) 0)
                         else image s !! b.
Proof.
  revert i s. induction n as [|n IH]; intros i s Hi Hn; cbn [zero_sectors].
  - exists (image s). split; [by destruct s|]. intros b. by rewrite decide_False by lia.
  - unfold wsect. rewrite bind_modify. rewrite sector by lia. set (s1 := set image _ s).
    destruct (IH (i + 1) s1) as (img & H1 & H2); [lia|lia|]. exists img. split; [exact H1|]. intros b. rewrite H2.
    unfold s1. simpl. repeat case_decide; try lia; try done.
    + by replace b with i by lia; rewrite lookup_insert_eq.
    + by rewrite lookup_insert_ne by lia.
Qed.
Lemma byte_at_zero img x b :
  img !! (x / BSIZE) = Some (replicate (Z.to_nat BSIZE) b) -> byte_at img x = b.
Proof.
  intros H. unfold byte_at. rewrite H. cbn [from_option id]. rewrite lookup_replicate_2; [done|].
  pose proof (Z.mod_pos_bound x BSIZE eq_refl). lia.
Qed.
Lemma runs_superblock (Q : unit -> mkfs -> Prop) :
  (forall s, ready s -> freeinode s = 0 -> freeblock s = nmeta ->
     img_bytes (image s) BSIZE 16 = superblock_bytes (mkSb FSSIZE (FSSIZE - nmeta) 2 nmeta) ->
     (forall x, 2 * BSIZE <= x < nmeta * BSIZE -> byte_at (image s) x = 0) -> Q tt s) ->
  runs mkfs_superblock Q mkfs_bss.
Proof.
  intros H. unfold mkfs_superblock. apply runs_bind, runs_modify, runs_bind, runs_modify.
  set (s0 := mkfs_bss <| sb := _ |> <| freeblock := _ |>).
  destruct (zero_sectors_run (Z.to_nat FSSIZE) 0 s0) as (img & H1 & H2); [done|by rewrite Z2Nat.id|].
  rewrite Z2Nat.id in H2 by done. set (s2 := s0 <| image := img |>) in *.
  eapply runs_seq with (Q := fun _ s => s = s2); [unfold runs; by rewrite H1|]. intros [] s ->.
  apply runs_bind, runs_gets.
  assert (full (image s2)) as F.
  { intros b Hb. exists (replicate (Z.to_nat BSIZE) 0). rewrite length_replicate. split; [|done].
    change (image s2) with img. by rewrite H2, decide_True by lia. }
  assert (sb s2 = mkSb FSSIZE (FSSIZE - nmeta) 2 nmeta) as Hsb by reflexivity. rewrite Hsb.
  set (b1 := superblock_bytes _). assert (length b1 = 16%nat) as Hl1 by reflexivity.
  eapply runs_mono; [apply (runs_wsect 1 _ (replicate (Z.to_nat BSIZE) 0) 0 b1); [exact F|split; reflexivity || lia| |reflexivity|]|].
  - change (image s2) with img. rewrite H2, decide_True; [reflexivity|unfold FSSIZE; lia].
  - rewrite Hl1. unfold BSIZE. lia.
  - intros [] s' W. cbv beta in W. apply H.
    + destruct W as [P ->]. split; [apply P|done|done].
    + by rewrite (wr_rest _ _ _ _ W).
    + by rewrite (wr_rest _ _ _ _ W).
    + rewrite <-Hl1. eapply peek_here; [|exact (wr_image _ _ _ _ W)]. unfold BSIZE. lia.
    + intros x Hx. rewrite (pa_byte _ _ _ _ (wr_image _ _ _ _ W)), decide_False.
      * apply byte_at_zero. change (image s2) with img. rewrite H2. rewrite decide_True; [done|].
        unfold nmeta, FSSIZE, BSIZE in *. change nbitmap with 25 in *. Z.to_euclidean_division_equations. lia.
      * rewrite Hl1. unfold BSIZE in *. lia.
      * unfold BSIZE in *. lia.
Qed.

(** * The whole program *)

Definition inode_blocks (count : Z) : Z :=
  let b := count / IPB in
  if (b =? 0) || negb ((count * sizeof_dinode) mod BSIZE =? 0) then b + 1 else b.
Lemma inode_blocks_room count :
  0 <= count -> 0 <= inode_blocks count <= count + 1 /\ sizeof_dinode * count <= inode_blocks count * BSIZE.
Proof.
  intros H. unfold inode_blocks, IPB, sizeof_dinode, BSIZE. change (512 / 64) with 8.
  destruct (Z.eqb_spec (count / 8) 0), (Z.eqb_spec ((count * 64) mod 512) 0); simpl;
    Z.to_euclidean_division_equations; lia.
Qed.
Lemma dir_blocks_room argc :
  0 <= argc -> 0 <= dir_blocks argc <= argc + 1 /\ sizeof_dirent * (argc + 1) <= dir_blocks argc * BSIZE.
Proof.
  intros H. unfold dir_blocks, dir_size, sizeof_dirent, BSIZE.
  destruct (Z.eqb_spec (((argc + 1) * 16) mod 512) 0); Z.to_euclidean_division_equations; lia.
Qed.

Section Main.
Context (fs : list host_file).
Definition argc : Z := Z.of_nat (length fs) + 2.
Definition ib : Z := inode_blocks (argc + 1).
Definition db : Z := dir_blocks argc.
Definition inodefile_dinode : dinode := one_extent T_FILE ((argc + 1) * sizeof_dinode) nmeta ib.
Definition console_dinode : dinode := mkDinode T_DEV CONSOLE_DEV 0 (replicate EXTENT_N extent_zero).
Definition first_entries : list dirent := [entry_of 1 str_dot; entry_of 1 str_dotdot; entry_of 2 str_console].
Local Notation built := (built ib db (argc + 1)).
Local Notation start := (data_start ib db).
Context (Hargc : argc + 1 < 2 ^ 16) (Hroom : start <= FSSIZE).

Lemma built_cur n ds es fd fb cur s :
  built ds es fd fb cur s -> 0 <= n -> 0 <= cur -> cur + n < 2 ^ 32 ->
  built ds es fd fb (cur + n) (s <| freeblock := u32 (freeblock s + n) |>).
Proof.
  intros [B1 B2 B3 B4 B5 B6 B7 B8 B9 B10 B11] Hn Hc H. split; try done.
  - by destruct B1.
  - simpl. rewrite B3. apply u32_small. lia.
Qed.
Lemma argc_ge : 2 <= argc.
Proof. unfold argc. lia. Qed.
Lemma sizes : layout_ok ib db (argc + 1).
Proof.
  pose proof argc_ge. destruct (inode_blocks_room (argc + 1) ltac:(lia)). destruct (dir_blocks_room argc ltac:(lia)).
  split; unfold ib, db; lia.
Qed.

Lemma runs_inodefile s :
  built [] [] [] start nmeta s ->
  runs (mkfs_inodefile (argc + 1)) (fun _ s' => built [inodefile_dinode] [] [] start (nmeta + ib) s') s.
Proof.
  intros B. pose proof sizes as [_ _ S3 S4 _]. pose proof argc_ge. unfold mkfs_inodefile.
  eapply runs_seq; [apply (runs_ialloc_built _ _ _ sizes _ _ _ _ _ _ _ B); [simpl; lia|done]|].
  intros i s1 [-> B1]. apply runs_bind, runs_assert; [done|].
  apply runs_bind. eapply (runs_rinode_built _ _ _ sizes); [exact B1|done|].
  apply runs_bind, runs_gets. rewrite (rd_start _ (bu_ready _ _ _ _ _ _ _ _ _ B1)).
  change (if (_ =? 0) || _ then _ else _) with ib. rewrite !xint_small by (unfold sizeof_dinode; lia).
  eapply runs_seq; [apply (runs_winode_built _ _ _ sizes 0 _ _ _ _ _ _ _ B1); [simpl; lia|]|].
  { apply one_extent_ok; try done; unfold sizeof_dinode; lia. }
  intros [] s2 [B2 _]. apply runs_modify.
  eapply built_cur; [exact B2|lia|done|]. change nmeta with 27. lia.
Qed.
Lemma start_eq : start = nmeta + ib + db.
Proof. done. Qed.
Local Ltac small := pose proof sizes as [_ _ ? ? ?]; pose proof argc_ge; pose proof start_eq;
  unfold FSSIZE, sizeof_dirent, dir_start in *; change nmeta with 27 in *; lia.
Lemma runs_root s :
  built [inodefile_dinode] [] [] start (nmeta + ib) s ->
  runs (mkfs_root argc) (fun r s' => r = ROOTINO /\
    built [inodefile_dinode; root_dinode ib db 2] (take 2 first_entries) [] start start s') s.
Proof.
  intros B. unfold mkfs_root.
  eapply runs_seq; [apply (runs_ialloc_built _ _ _ sizes _ _ _ _ _ _ _ B); [simpl; small|done]|].
  intros i s1 [-> B1]. apply runs_bind, runs_assert; [done|]. apply runs_bind, runs_gets.
  rewrite (bu_block _ _ _ _ _ _ _ _ _ B1). change (dir_blocks argc) with db. rewrite !s32_small by small.
  unfold iallocblocks. eapply runs_seq; [apply runs_bind; eapply (runs_rinode_built _ _ _ sizes); [exact B1|done|]|].
  { rewrite !xint_small by small.
    apply (runs_winode_built _ _ _ sizes 1 _ _ _ _ _ _ _ B1); [simpl; lia|]. apply (one_extent_ok T_DIR 0 (nmeta + ib) db); try done; small. }
  intros [] s2 [B2 _]. apply runs_bind, runs_modify.
  assert (built [inodefile_dinode; root_dinode ib db 0] [] [] start (nmeta + ib + db)
    (s2 <| freeblock := u32 (freeblock s2 + db) |>)) as B3.
  { eapply built_cur; [exact B2|small..]. }
  eapply runs_seq; [apply (runs_add_entry _ _ _ sizes 1 str_dot _ _ _ _ _ _ B3); [done|simpl; small|done]|].
  intros [] s4 B4. cbv beta in B4.
  eapply runs_seq; [apply (runs_add_entry _ _ _ sizes 1 str_dotdot _ _ _ _ _ _ B4); [done|simpl; small|done]|].
  intros [] s5 B5. apply runs_ret. split; [done|exact B5].
Qed.
Lemma runs_console s :
  built [inodefile_dinode; root_dinode ib db 2] (take 2 first_entries) [] start start s ->
  runs (mkfs_console ROOTINO) (fun _ s' =>
    built [inodefile_dinode; root_dinode ib db 3; console_dinode] first_entries [] start start s') s.
Proof.
  intros B. unfold mkfs_console.
  eapply runs_seq; [apply (runs_ialloc_built _ _ _ sizes _ _ _ _ _ _ _ B); [simpl; small|done]|].
  intros i s1 [-> B1]. apply runs_bind. eapply (runs_rinode_built _ _ _ sizes); [exact B1|done|].
  eapply runs_seq; [apply (runs_winode_built _ _ _ sizes 2 _ _ _ _ _ _ _ B1); [simpl; lia|]|].
  { split; simpl; try done. by repeat constructor. }
  intros [] s2 [B2 _]. eapply runs_mono; [apply (runs_add_entry _ _ _ sizes 2 str_console _ _ _ _ _ _ B2); [done|simpl; small|done]|].
  intros [] s3 B3. exact B3.
Qed.

(** What mkfs leaves on the disk. *)
Definition all_dinodes : list dinode :=
  [inodefile_dinode; root_dinode ib db (3 + length fs); console_dinode] ++ (placed_dinode <$> place start fs).
Definition all_entries : list dirent := first_entries ++ file_entries 3 fs.
Lemma runs_mkfs_main (Q : unit -> mkfs -> Prop) :
  Forall host_ok fs -> place_end start fs <= FSSIZE ->
  (forall s, built all_dinodes all_entries (place start fs) (place_end start fs) (place_end start fs) s ->
     runs (b <- gets freeblock; balloc (s32 b)) Q s) ->
  runs (mkfs_main fs) Q mkfs_bss.
Proof.
  intros Hok Hend HQ. unfold mkfs_main. cbv zeta. change (Z.of_nat (length fs) + 2) with argc.
  apply runs_bind, runs_superblock. intros s R Hi Hb Hsup Hbm.
  assert (built [] [] [] start nmeta s) as B.
  { split; try done; simpl; small. }
  eapply runs_seq; [by apply runs_inodefile|]. intros [] s1 B1. cbv beta in B1.
  eapply runs_seq; [by apply runs_root|]. intros r s2 [-> B2].
  eapply runs_seq; [by apply runs_console|]. intros [] s3 B3. cbv beta in B3.
  eapply runs_seq; [apply (runs_mkfs_files _ _ _ sizes fs _ _ _ _ _ B3); try done; unfold argc; simpl; lia|].
  intros [] s4 B4.
  change (built all_dinodes all_entries (place start fs) (place_end start fs) (place_end start fs) s4) in B4.
  apply runs_bind. eapply (runs_rinode_built _ _ _ sizes 1); [exact B4|done|].
  eapply runs_seq; [apply (runs_winode_built _ _ _ sizes 1 _ _ _ _ _ _ _ B4); [simpl; lia|]|].
  - rewrite xint_small by (unfold dir_size; small). apply (one_extent_ok T_DIR (dir_size argc) (dir_start ib) db); try done; unfold dir_size; small.
  - intros [] s' [B' _]. rewrite xint_small in B' by (unfold dir_size; small).
    rewrite list_insert_id in B'; [by apply HQ|]. simpl. f_equal. unfold root_dinode, one_extent, set. simpl. f_equal.
    unfold dir_size, argc, sizeof_dirent. lia.
Qed.
End Main.

Definition dirent_ok (e : dirent) : Prop := 0 <= de_inum e < 2 ^ 16 /\ length (de_name e) = DIRSIZ.
Lemma dirent_of_bytes e : dirent_ok e -> dirent_of (dirent_bytes e) = e.
Proof.
  intros [H1 H2]. unfold dirent_of, dirent_bytes, field_at. rewrite slice_app_take by apply length_le.
  rewrite slice_app_skip by (by rewrite length_le). rewrite length_le, Nat.sub_diag, slice_all by done.
  rewrite of_le_le. change (256 ^ Z.of_nat 2) with (2 ^ 16). rewrite Z.mod_small by done. by destruct e.
Qed.
Lemma entry_of_ok inum name : 0 <= inum < 2 ^ 16 -> dirent_ok (entry_of inum name).
Proof. intros H. split; [done|apply length_strncpy]. Qed.
Lemma file_entries_ok inum fs :
  0 <= inum -> inum + Z.of_nat (length fs) < 2 ^ 16 -> Forall dirent_ok (file_entries inum fs).
Proof.
  revert inum. induction fs as [|f fs IH]; intros inum H1 H2; simpl in *; constructor.
  - apply entry_of_ok. lia.
  - apply IH; lia.
Qed.
Lemma all_entries_ok fs : argc fs + 1 < 2 ^ 16 -> Forall dirent_ok (all_entries fs).
Proof.
  unfold argc. intros H. apply Forall_app. split; [by repeat constructor|]. apply file_entries_ok; lia.
Qed.

(** The image as the kernel reads it: the superblock, the inodes at their places in the inode
    file, the entries of the root directory, the bytes of the files behind one another, and in
    the bitmap exactly the blocks up to the last file. *)
Record image_ok (fs : list host_file) (img : gmap Z (list Z)) : Prop := {
  io_super : superblock_of (img_bytes img BSIZE 16) = mkSb FSSIZE (FSSIZE - nmeta) 2 nmeta;
  io_dinode i d : all_dinodes fs !! i = Some d ->
    dinode_of (img_bytes img (nmeta * BSIZE + INODEOFF (Z.of_nat i)) 64) = d;
  io_entry j e : all_entries fs !! j = Some e ->
    dirent_of (img_bytes img (dir_start (ib fs) * BSIZE + sizeof_dirent * Z.of_nat j) 16) = e;
  io_file k st bs : place (data_start (ib fs) (db fs)) fs !! k = Some (st, bs) ->
    img_bytes img (st * BSIZE) (length bs) = bs;
  io_bitmap b : 0 <= b < nbitmap * bits_per_block ->
    bit img b = (b <? place_end (data_start (ib fs) (db fs)) fs) }.

Lemma peek_same img img' a n :
  (forall x, a <= x < a + Z.of_nat n -> byte_at img' x = byte_at img x) -> img_bytes img' a n = img_bytes img a n.
Proof. intros H. apply peek_ext. intros i Hi. apply H. lia. Qed.
Lemma built_image fs s img :
  argc fs + 1 < 2 ^ 16 ->
  built (ib fs) (db fs) (argc fs + 1) (all_dinodes fs) (all_entries fs) (place (data_start (ib fs) (db fs)) fs)
    (place_end (data_start (ib fs) (db fs)) fs) (place_end (data_start (ib fs) (db fs)) fs) s ->
  (forall x, 0 <= x < 2 * BSIZE \/ nmeta * BSIZE <= x -> byte_at img x = byte_at (image s) x) ->
  (forall b, 0 <= b < nbitmap * bits_per_block -> bit img b = (b <? place_end (data_start (ib fs) (db fs)) fs)) ->
  image_ok fs img.
Proof.
  intros Hargc B Hx Hb. pose proof (sizes fs Hargc) as [_ _ _ ? ?].
  assert (forall a n, nmeta * BSIZE <= a -> img_bytes img a n = img_bytes (image s) a n) as Hp.
  { intros a n Ha. apply peek_same. intros x Hx'. apply Hx. lia. }
  split; [| | | |done].
  - rewrite (peek_same (image s)), (bu_super _ _ _ _ _ _ _ _ _ B); [reflexivity|].
    intros x H1. apply Hx. unfold BSIZE in *. lia.
  - intros i d Hd. destruct (bu_dinode _ _ _ _ _ _ _ _ _ B i d Hd) as [H1 H2]. unfold INODEOFF. rewrite Z.mul_comm.
    rewrite Hp by (unfold sizeof_dinode; lia). rewrite (Z.mul_comm BSIZE), (Z.mul_comm (Z.of_nat i)).
    unfold inode_is, iaddr in H1. rewrite H1.
    rewrite <-(app_nil_r (dinode_bytes d)). by apply dinode_of_bytes.
  - intros j e He. rewrite Hp by (unfold dir_start, sizeof_dirent, BSIZE; lia).
    pose proof (bu_entry _ _ _ _ _ _ _ _ _ B j e He) as H1. unfold eaddr in H1. rewrite H1.
    apply dirent_of_bytes. exact (Forall_lookup_1 _ _ _ _ (all_entries_ok fs Hargc) He).
  - intros k st bs Hk. destruct (bu_file _ _ _ _ _ _ _ _ _ B k st bs Hk) as (H1 & H2 & _).
    rewrite Hp; [done|]. unfold data_start, BSIZE in *. lia.
Qed.

(** C5: mkfs, given files that can be read and that fit on the disk, builds a file system that
    the kernel's readers understand: the superblock describes the layout; inode 0 is the inode
    file, inode 1 the root directory, inode 2 the console and the inodes from 3 on are the files,
    each with its size and one extent; the root directory names them all; the blocks of every
    extent hold the bytes of its file, in whatever pieces the host delivered them; and the bitmap
    marks exactly the blocks in use. *)
Theorem mkfs_builds_image (fs : list host_file) :
  Forall host_ok fs -> Z.of_nat (length fs) + 3 < 2 ^ 16 ->
  place_end (data_start (ib fs) (db fs)) fs <= FSSIZE ->
  exists s', mkfs_main fs mkfs_bss = Ok tt s' /\ image_ok fs (image s').
Proof.
  intros Hok Hlen Hend. assert (argc fs + 1 < 2 ^ 16) as Hargc by (unfold argc; lia).
  assert (data_start (ib fs) (db fs) <= FSSIZE) as Hroom.
  { pose proof (place_end_le (data_start (ib fs) (db fs)) fs). lia. }
  cut (runs (mkfs_main fs) (fun _ s' => image_ok fs (image s')) mkfs_bss).
  { unfold runs. destruct (mkfs_main fs mkfs_bss) as [[] s'| | | |]; try done. intros H. by exists s'. }
  apply runs_mkfs_main; try done. intros s B. apply runs_bind, runs_gets.
  rewrite (bu_block _ _ _ _ _ _ _ _ _ B). pose proof (bu_room _ _ _ _ _ _ _ _ _ B) as Hr.
  set (used := place_end (data_start (ib fs) (db fs)) fs) in *.
  assert (0 <= used) as Hu.
  { pose proof (sizes fs Hargc) as [_ _ _ ? ?]. unfold data_start in Hr. change nmeta with 27 in Hr. lia. }
  rewrite s32_small by (unfold FSSIZE in *; lia). unfold balloc. change (BSIZE * 8) with bits_per_block.
  eapply runs_mono; [apply runs_balloc_loop; [apply B|lia| |lia| |]|].
  - change (nbitmap * bits_per_block) with 102400. unfold FSSIZE in *. lia.
  - unfold bits_per_block, BSIZE. pose proof (Z.div_mod used (512 * 8) ltac:(lia)).
    pose proof (Z.mod_pos_bound used (512 * 8) ltac:(lia)). pose proof (Z.div_pos used (512 * 8) ltac:(lia)). lia.
  - intros b Hb. unfold bit. rewrite (bu_bitmap _ _ _ _ _ _ _ _ _ B); [apply Z.testbit_0_l|].
    unfold bits_per_block, nmeta, BSIZE in *. change nbitmap with 25 in *. Z.to_euclidean_division_equations. lia.
  - intros [] s' [H1 H2]. eapply built_image; [done|exact B|exact H1|]. intros b Hb. rewrite H2 by done.
    by rewrite (proj2 (Z.ltb_ge _ _)) by lia.
Qed.

(** Two small files, one of them in two pieces and with a name that loses its underscore. *)
Definition two_files : list host_file :=
  [(out_user ++ [95; 97], Some [[1; 2]; [3]]); (out_user ++ [98], Some [])].
Lemma mkfs_builds_image_witness :
  exists s', mkfs_main two_files mkfs_bss = Ok tt s' /\ image_ok two_files (image s').
Proof.
  apply mkfs_builds_image.
  - apply Forall_cons; split; [|apply Forall_cons; split; [|apply Forall_nil_2]];
      (split; [reflexivity|split; [refine (bool_decide_unpack _ _); vm_compute; exact I|discriminate]]).
  - simpl. lia.
  - vm_compute. congruence.
Defined.
