(* ===== verification/Paging.v ===== *)
(** Page tables, kernel/x86_64vm.c: the four-level tables the kernel builds, and what the
    processor makes of them. *)
From S2P Require Import Prelude Kstate Locks Kalloc Bytes.

(** * The code *)

Definition PTE_P : Z := 1.
Definition PTE_W : Z := 2.
Definition PTE_U : Z := 4.
(** BITMASK64(51, 12): PDPT_ADDR, PDE_ADDR and PTE_ADDR are this mask. *)
Definition PTE_ADDR (e : Z) : Z := Z.land e 0xFFFFFFFFFF000.
Definition PTE (pa flags : Z) : Z := Z.lor pa flags.
Definition PTRS : nat := 512.
Definition PML4_INDEX (va : Z) : nat := Z.to_nat (Z.land (Z.shiftr va 39) 511).
Definition PDPT_INDEX (va : Z) : nat := Z.to_nat (Z.land (Z.shiftr va 30) 511).
Definition PD_INDEX (va : Z) : nat := Z.to_nat (Z.land (Z.shiftr va 21) 511).
Definition PT_INDEX (va : Z) : nat := Z.to_nat (Z.land (Z.shiftr va PT_SHIFT) 511).
Definition PGADDR (l4 l3 d t o : Z) : Z :=
  u64 (Z.lor (Z.lor (Z.lor (Z.lor (Z.shiftl l4 39) (Z.shiftl l3 30)) (Z.shiftl d 21))
    (Z.shiftl t PT_SHIFT)) o).

(** A page read as a table of 512 words. *)
Definition words (bs : list Z) : list Z := (fun i => field_at (8 * i) 8 bs) <$> seq 0 PTRS.
Definition table_of (p : page) : option (list Z) :=
  match p with PTable es => Some es | PBytes bs => Some (words bs) | PVpi _ => None end.
(** The table at a kernel address, its entries. *)
Definition table_at (s : kstate) (a : Z) : option (list Z) :=
  k_pages s !! PGNUM (V2P a) ≫= table_of.
Definition tbl_get (a : Z) (i : nat) : K Z :=
  o <- gets (fun s => table_at s a ≫= (.!! i)); deref o.
Definition tbl_set (a : Z) (i : nat) (e : Z) : K unit :=
  o <- gets (fun s => table_at s a); es <- deref o;
  modify (fun s => s <| k_pages ::= <[PGNUM (V2P a) := PTable (<[i := e]> es)]> |>).

(** One level of [walkpml4]: the table below entry [i], made if it is missing; 0 if it is not
    to be or cannot be made. *)
Definition walk_level (t : Z) (i : nat) (alloc : bool) : K Z :=
  e <- tbl_get t i;
  if flag e PTE_P then ret (P2V (PTE_ADDR e)) else
  if negb alloc then ret 0 else
  p <- kalloc;
  if p =? 0 then ret 0 else
  page_memset p 0;;
  tbl_set t i (Z.lor (Z.lor (Z.lor (V2P p) PTE_P) PTE_W) PTE_U);;
  ret p.
(** A pte_t *: the table and the index in it. *)
Definition walkpml4 (pml4 va : Z) (alloc : bool) : K (option (Z * nat)) :=
  pdpt <- walk_level pml4 (PML4_INDEX va) alloc;
  if pdpt =? 0 then ret None else
  pgdir <- walk_level pdpt (PDPT_INDEX va) alloc;
  if pgdir =? 0 then ret None else
  pgtab <- walk_level pgdir (PD_INDEX va) alloc;
  if pgtab =? 0 then ret None else
  ret (Some (pgtab, PT_INDEX va)).

Fixpoint mappages (num_page : nat) (pml4 virt_pn phy_pn perm : Z) (kern : bool) : K Z :=
  match num_page with
  | O => ret 0
  | S num_page =>
      o <- walkpml4 pml4 (u64 (Z.shiftl virt_pn PT_SHIFT)) true;
      match o with
      | None => panic "not enough memory"
      | Some (t, i) =>
          e <- tbl_get t i;
          if flag e PTE_P then panic "remap" else
          tbl_set t i (PTE (u64 (Z.shiftl phy_pn PT_SHIFT)) perm);;
          when (negb kern)
            (mark_user_mem (u64 (Z.shiftl phy_pn PT_SHIFT)) (u64 (Z.shiftl virt_pn PT_SHIFT)));;
          mappages num_page pml4 (u64 (virt_pn + 1)) (u64 (phy_pn + 1)) perm kern
      end
  end.

Definition EXTMEM : Z := 0x100000.
Definition DEVSPACE : Z := 0xFFFFFFFFFE000000.
Definition KERNLINK : Z := KERNBASE + EXTMEM.
Record kmap := mkKmap { km_virt : Z; km_start : Z; km_end : Z; km_perm : Z }.
Definition kmap_table (data n : Z) : list kmap :=
  [mkKmap KERNBASE 0 EXTMEM PTE_W;
   mkKmap KERNLINK (V2P KERNLINK) (V2P data) 0;
   mkKmap data (V2P data) (n * PGSIZE) PTE_W;
   mkKmap DEVSPACE 0xFE000000 0x100000000 PTE_W].
Fixpoint setupkvm_loop (ks : list kmap) (pml4 : Z) : K Z :=
  match ks with
  | [] => ret pml4
  | k :: ks =>
      r <- mappages (Z.to_nat (s32 (Z.shiftr (u64 (km_end k - km_start k)) PT_SHIFT))) pml4
        (Z.shiftr (km_virt k) PT_SHIFT) (Z.shiftr (km_start k) PT_SHIFT)
        (Z.lor (km_perm k) PTE_P) true;
      if r <? 0 then ret 0 else setupkvm_loop ks pml4
  end.
Definition setupkvm : K Z :=
  pml4 <- kalloc;
  if pml4 =? 0 then ret 0 else
  page_memset pml4 0;;
  s <- get;
  setupkvm_loop (kmap_table (k_data s) (npages (k_kmem s))) pml4.

Definition find_next_possible_page (pml4 va : Z) : K Z :=
  let i4 := Z.of_nat (PML4_INDEX va) in
  let i3 := Z.of_nat (PDPT_INDEX va) in
  let i2 := Z.of_nat (PD_INDEX va) in
  e <- tbl_get pml4 (PML4_INDEX va);
  if negb (flag e PTE_P) then ret (u64 (PGADDR (i4 + 1) 0 0 0 0 - PGSIZE)) else
  let pdpt := P2V (PTE_ADDR e) in
  e <- tbl_get pdpt (PDPT_INDEX va);
  if negb (flag e PTE_P) then ret (u64 (PGADDR i4 (i3 + 1) 0 0 0 - PGSIZE)) else
  let pgdir := P2V (PTE_ADDR e) in
  e <- tbl_get pgdir (PD_INDEX va);
  if negb (flag e PTE_P) then ret (u64 (PGADDR i4 i3 (i2 + 1) 0 0 - PGSIZE)) else
  panic "level is not missing".

Fixpoint deallocuvm_loop (fuel : nat) (pml4 a stop : Z) : K unit :=
  match fuel with
  | O => hang
  | S fuel =>
      if a <? stop then
        o <- walkpml4 pml4 a false;
        match o with
        | None =>
            a <- find_next_possible_page pml4 a; deallocuvm_loop fuel pml4 (u64 (a + PGSIZE)) stop
        | Some (t, i) =>
            e <- tbl_get t i;
            if flag e PTE_P then
              if PTE_ADDR e =? 0 then panic "kfree" else
              kfree (P2V (PTE_ADDR e));;
              tbl_set t i 0;;
              deallocuvm_loop fuel pml4 (u64 (a + PGSIZE)) stop
            else deallocuvm_loop fuel pml4 (u64 (a + PGSIZE)) stop
        end
      else ret tt
  end.
(** Every turn goes up by a page at least. *)
Definition deallocuvm (pml4 start oldsz newsz : Z) : K Z :=
  if oldsz <=? newsz then ret (s32 oldsz) else
  deallocuvm_loop (S (Z.to_nat (oldsz / PGSIZE + 1))) pml4 (PGROUNDUP (u64 (start + newsz)))
    (u64 (start + oldsz));;
  ret (s32 newsz).

(** The loops over the entries of a table, from index [i] on. *)
Fixpoint freevm_pgdir_loop (n i : nat) (pgdir : Z) : K unit :=
  match n with
  | O => ret tt
  | S n =>
      e <- tbl_get pgdir i;
      when (flag e PTE_P) (kfree (P2V (PTE_ADDR e)));;
      freevm_pgdir_loop n (S i) pgdir
  end.
Definition freevm_pgdir (pgdir : Z) : K unit := freevm_pgdir_loop PTRS 0 pgdir;; kfree pgdir.
Fixpoint freevm_pdpt_loop (n i : nat) (pdpt : Z) : K unit :=
  match n with
  | O => ret tt
  | S n =>
      e <- tbl_get pdpt i;
      when (flag e PTE_P) (freevm_pgdir (P2V (PTE_ADDR e)));;
      freevm_pdpt_loop n (S i) pdpt
  end.
Definition freevm_pdpt (pdpt : Z) : K unit := freevm_pdpt_loop PTRS 0 pdpt;; kfree pdpt.
Fixpoint freevm_loop (n i : nat) (pml4 : Z) : K unit :=
  match n with
  | O => ret tt
  | S n =>
      e <- tbl_get pml4 i;
      when (flag e PTE_P) (freevm_pdpt (P2V (PTE_ADDR e)));;
      freevm_loop n (S i) pml4
  end.
Definition freevm (pml4 : Z) : K unit :=
  if pml4 =? 0 then panic "freevm: no pml4" else
  deallocuvm pml4 0 SZ_4G 0;;
  freevm_loop PTRS 0 pml4;;
  kfree pml4.

(** * What the processor does

    The translation of an address through the tables at a physical page, with the permission
    bits that hold at every level. *)
Definition hw_entry (s : kstate) (t : Z) (i : nat) : option (Z * Z) :=
  es ← k_pages s !! t ≫= table_of;
  e ← es !! i;
  if flag e PTE_P then Some (PTE_ADDR e / PGSIZE, Z.land e (Z.lor PTE_W PTE_U)) else None.
Definition hw_translate (s : kstate) (cr3 va : Z) : option (Z * Z) :=
  '(p3, f4) ← hw_entry s (cr3 / PGSIZE) (PML4_INDEX va);
  '(p2, f3) ← hw_entry s p3 (PDPT_INDEX va);
  '(p1, f2) ← hw_entry s p2 (PD_INDEX va);
  '(frame, f1) ← hw_entry s p1 (PT_INDEX va);
  Some (frame * PGSIZE + va mod PGSIZE, Z.land (Z.land (Z.land f4 f3) f2) f1).
