(* ===== verification/PagingProofs.v ===== *)
(** Correctness of the page tables of Paging.v: walkpml4 and mappages against the translation
    the processor does. *)
From S2P Require Import Prelude Kstate Locks Kalloc Bytes Paging.

(** * Entries *)

Lemma land_high a k n : 0 <= k -> 0 <= n -> Z.land a (Z.shiftl (Z.ones n) k) = 2^k * (a / 2^k mod 2^n).
Proof.
  intros Hk Hn. rewrite <-Z.shiftr_div_pow2, <-Z.land_ones, (Z.mul_comm (2^k)), <-Z.shiftl_mul_pow2 by lia.
  apply Z.bits_inj'. intros b Hb. rewrite Z.land_spec, !Z.shiftl_spec by lia.
  destruct (Z.lt_ge_cases b k).
  - rewrite !(Z.testbit_neg_r _ (b - k)) by lia. by rewrite andb_false_r.
  - rewrite Z.land_spec, Z.shiftr_spec by lia. by replace (b - k + k) with b by lia.
Qed.
Lemma PTE_ADDR_eq e : PTE_ADDR e = PGSIZE * (e / PGSIZE mod 2^40).
Proof. unfold PTE_ADDR. apply (land_high e 12 40); lia. Qed.
(** An aligned address and flags below it do not interfere. *)
Lemma land_low a f : 0 <= f < PGSIZE -> Z.land (PGSIZE * a) f = 0.
Proof.
  intros Hf. unfold PGSIZE in *. rewrite <-(Z.mod_small f (2^12)), <-Z.land_ones by lia.
  rewrite (Z.land_comm f), Z.land_assoc, Z.land_ones by lia.
  replace (4096 * a) with (a * 2^12) by lia. by rewrite Z.mod_mul, Z.land_0_l by lia.
Qed.
Lemma lor_low a f : 0 <= f < PGSIZE -> Z.lor (PGSIZE * a) f = PGSIZE * a + f.
Proof. intros Hf. rewrite <-Z.add_lor_land, land_low by done. lia. Qed.
Lemma land_flags a f g : 0 <= f < PGSIZE -> 0 <= g < PGSIZE -> Z.land (PGSIZE * a + f) g = Z.land f g.
Proof. intros Hf Hg. rewrite <-lor_low, Z.land_lor_distr_l, land_low by done. apply Z.lor_0_l. Qed.
Lemma entry_addr n f : 0 <= n < PAGES_MAX -> 0 <= f < PGSIZE -> PTE_ADDR (PGSIZE * n + f) = PGSIZE * n.
Proof.
  intros Hn Hf. rewrite PTE_ADDR_eq. unfold PGSIZE, PAGES_MAX in *.
  rewrite (Z.mul_comm 4096 n), Z.div_add_l, (Z.div_small f) by lia.
  rewrite Z.mod_small by lia. lia.
Qed.
Lemma P2V_pa n : 0 <= n < PAGES_MAX -> P2V (PGSIZE * n) = kva n.
Proof.
  intros H. unfold P2V, kva, u64, PGSIZE, KERNBASE, PAGES_MAX in *. rewrite Z.mod_small; lia.
Qed.

(** * The tree of tables *)

Definition tabs (s : kstate) (n : Z) : option (list Z) := k_pages s !! n ≫= table_of.
Lemma table_at_kva s n : 0 <= n < PAGES_MAX -> table_at s (kva n) = tabs s n.
Proof. intros H. unfold table_at, tabs. by rewrite PGNUM_V2P_kva. Qed.

(** A node is a level and the part of the page number above it: the table that translates the
    pages [pre * 512 ^ (l + 1) + ...].  [T] gives the physical page of every node. *)
Abbreviation node := (nat * Z)%type.
Record tables (s : kstate) (root : Z) (T : gmap node Z) : Prop := {
  tb_root : T !! (3%nat, 0) = Some root;
  tb_level l pre t : T !! (l, pre) = Some t -> (l <= 3)%nat /\ 0 <= pre;
  tb_page a t : T !! a = Some t ->
    0 <= t < PAGES_MAX /\ exists es, tabs s t = Some es /\ length es = PTRS;
  tb_child l pre t es i e :
    T !! (S l, pre) = Some t -> tabs s t = Some es -> es !! i = Some e ->
    if flag e PTE_P
    then exists c, T !! (l, pre * 512 + Z.of_nat i) = Some c /\
      e = PGSIZE * c + Z.lor (Z.lor PTE_P PTE_W) PTE_U
    else T !! (l, pre * 512 + Z.of_nat i) = None;
  tb_parent l pre t : T !! (l, pre) = Some t -> l <> 3%nat ->
    exists t', T !! (S l, pre / 512) = Some t';
  tb_inj a b t : T !! a = Some t -> T !! b = Some t -> a = b;
  tb_alloc a t : T !! a = Some t ->
    exists r, core_map (k_kmem s) !! Z.to_nat t = Some r /\ available r = 0 }.

(** The leaf entry of a virtual page; 0 where a table is missing. *)
Definition pte_of (s : kstate) (T : gmap node Z) (v : Z) : Z :=
  default 0 (t ← T !! (0%nat, v / 512); es ← tabs s t; es !! Z.to_nat (v mod 512)).

(** The allocator can be used. *)
Record alloc_ok (s : kstate) : Prop := {
  ao_wf : kmem_wf (k_kmem s);
  ao_use : use_lock (k_kmem s) = true;
  ao_lock : can_lock LkKmem s }.
(** Only the allocator, the pages and the interrupt state of the cpu differ. *)
Definition mframe (s s' : kstate) : Prop :=
  s' <| k_kmem := k_kmem s |> <| k_pages := k_pages s |> <| k_cpu := k_cpu s |> = s.
(** A page in use that is none of the tables. *)
Definition data_page (s : kstate) (T : gmap node Z) (x : nat) : Prop :=
  (exists r, core_map (k_kmem s) !! x = Some r /\ available r = 0) /\
  forall a, T !! a <> Some (Z.of_nat x).
Definition kept (s : kstate) (T : gmap node Z) (s' : kstate) (T' : gmap node Z) : Prop :=
  forall x, data_page s T x ->
    data_page s' T' x /\ k_pages s' !! Z.of_nat x = k_pages s !! Z.of_nat x.
(** [s'] is [s] with more tables, for the same mapping. *)
Record grown (root : Z) (s : kstate) (T : gmap node Z) (n : Z) (s' : kstate) (T' : gmap node Z) :
    Prop := {
  gr_tables : tables s' root T';
  gr_alloc : alloc_ok s';
  gr_more : T ⊆ T';
  gr_pte v : pte_of s' T' v = pte_of s T v;
  gr_free : free_pages (k_kmem s) - n <= free_pages (k_kmem s');
  gr_npages : npages (k_kmem s') = npages (k_kmem s);
  gr_kept : kept s T s' T';
  gr_frame : mframe s s' }.

Lemma mframe_refl s : mframe s s.
Proof. unfold mframe. by destruct s. Qed.
Lemma mframe_trans s1 s2 s3 : mframe s1 s2 -> mframe s2 s3 -> mframe s1 s3.
Proof. unfold mframe. intros <- <-. by destruct s3. Qed.
Lemma kept_trans s1 T1 s2 T2 s3 T3 : kept s1 T1 s2 T2 -> kept s2 T2 s3 T3 -> kept s1 T1 s3 T3.
Proof.
  intros H1 H2 x Hx. destruct (H1 x Hx) as [H3 E1]. destruct (H2 x H3) as [H4 E2].
  split; [done|congruence].
Qed.
Lemma grown_refl root s T : tables s root T -> alloc_ok s -> grown root s T 0 s T.
Proof. intros. split; [done|done|done|done|lia|done|done|apply mframe_refl]. Qed.
Lemma grown_trans root s1 T1 n s2 T2 m s3 T3 :
  grown root s1 T1 n s2 T2 -> grown root s2 T2 m s3 T3 -> grown root s1 T1 (n + m) s3 T3.
Proof.
  intros [] []. split; [done|done|by etrans|intros v; congruence|lia|congruence| |].
  - by eapply kept_trans.
  - by eapply mframe_trans.
Qed.
Lemma grown_mono root s T n m s' T' : grown root s T n s' T' -> n <= m -> grown root s T m s' T'.
Proof. intros [] H. split; try done. lia. Qed.

Lemma of_le_zero bs : Forall (eq 0) bs -> of_le bs = 0.
Proof. induction 1 as [|b bs <- _ IH]; simpl; [done|]. by rewrite IH. Qed.
Lemma zero_page : table_of (page_fill 0) = Some (replicate PTRS 0).
Proof. reflexivity. Qed.

(** * Making a table *)

Section NewTable.
Context (s : kstate) (root : Z) (T : gmap node Z) (W : tables s root T) (O : alloc_ok s).
Context (l : nat) (pre t : Z) (es : list Z) (i : nat).
Context (Ht : T !! (S l, pre) = Some t) (Hes : tabs s t = Some es) (Hi : (i < PTRS)%nat).
Context (absent : T !! (l, pre * 512 + Z.of_nat i) = None).
Context (c : nat) (r : core_map_entry).
Context (Hc : core_map (k_kmem s) !! c = Some r) (Hfree : available r = 1).

Definition entry_of (c : nat) : Z := PGSIZE * Z.of_nat c + Z.lor (Z.lor PTE_P PTE_W) PTE_U.
Definition with_table : kstate :=
  s <| k_kmem := snd (kalloc_km (k_kmem s)) |> <| k_cpu ::= touch |>
    <| k_pages ::= <[Z.of_nat c := page_fill 0]> |>
    <| k_pages ::= <[t := PTable (<[i := entry_of c]> es)]> |>.
Definition new_node : node := (l, pre * 512 + Z.of_nat i).
Definition with_node : gmap node Z := <[new_node := Z.of_nat c]> T.

Lemma c_bound : Z.of_nat c < PAGES_MAX.
Proof.
  pose proof (ao_wf _ O) as [H1 H2 _ _ _]. apply lookup_lt_Some in Hc. lia.
Qed.
Lemma c_fresh a : T !! a <> Some (Z.of_nat c).
Proof.
  intros H. destruct (tb_alloc _ _ _ W _ _ H) as (r' & Hr' & Ha). rewrite Nat2Z.id in Hr'.
  rewrite Hc in Hr'. injection Hr' as <-. lia.
Qed.
Lemma t_ne_c : t <> Z.of_nat c.
Proof. intros E. apply (c_fresh (S l, pre)). by rewrite <-E. Qed.
Lemma tabs_t : tabs with_table t = Some (<[i := entry_of c]> es).
Proof. unfold tabs, with_table. simpl. by rewrite lookup_insert_eq. Qed.
Lemma tabs_c : tabs with_table (Z.of_nat c) = Some (replicate PTRS 0).
Proof.
  unfold tabs, with_table. simpl. rewrite lookup_insert_ne, lookup_insert_eq by apply t_ne_c.
  apply zero_page.
Qed.
Lemma tabs_other t' : t' <> t -> t' <> Z.of_nat c -> tabs with_table t' = tabs s t'.
Proof. intros H1 H2. unfold tabs, with_table. simpl. by rewrite !lookup_insert_ne by congruence. Qed.
Lemma flag_zero : flag 0 PTE_P = false.
Proof. reflexivity. Qed.
Lemma flag_entry n : flag (entry_of n) PTE_P = true.
Proof.
  unfold flag, entry_of. rewrite land_flags by (by vm_compute). reflexivity.
Qed.
Lemma es_length : length es = PTRS.
Proof. destruct (tb_page _ _ _ W _ _ Ht) as (_ & es' & H1 & H2). congruence. Qed.
Lemma pre_nonneg : 0 <= pre.
Proof. by apply (tb_level _ _ _ W _ _ _ Ht). Qed.

(** The new node is below the node of [t]. *)
Lemma node_index pre' j :
  (j < PTRS)%nat -> pre' * 512 + Z.of_nat j = pre * 512 + Z.of_nat i -> pre' = pre /\ j = i.
Proof. pose proof Hi as Hi'. unfold PTRS in Hi' |- *. lia. Qed.
Lemma below_new l' j :
  S l' = l -> (j < PTRS)%nat -> T !! (l', (pre * 512 + Z.of_nat i) * 512 + Z.of_nat j) = None.
Proof.
  intros Hl' Hj. destruct (T !! (l', _)) as [x|] eqn:E; [|done].
  pose proof (tb_level _ _ _ W _ _ _ Ht) as [Hl _].
  destruct (tb_parent _ _ _ W _ _ _ E) as [x' Hx]; [lia|].
  rewrite Z.div_add_l, Z.div_small, Z.add_0_r in Hx by (unfold PTRS in *; lia).
  rewrite Hl' in Hx. congruence.
Qed.
Lemma with_node_other a : a <> new_node -> with_node !! a = T !! a.
Proof. intros H. unfold with_node. by rewrite lookup_insert_ne by congruence. Qed.
Lemma with_node_new : with_node !! new_node = Some (Z.of_nat c).
Proof. apply lookup_insert_eq. Qed.
Lemma with_node_inv a x :
  with_node !! a = Some x -> (a = new_node /\ x = Z.of_nat c) \/ (a <> new_node /\ T !! a = Some x).
Proof.
  destruct (decide (a = new_node)) as [->|Hne].
  - rewrite with_node_new. intros [= <-]. by left.
  - rewrite with_node_other by done. by right.
Qed.
(** The tables of the other nodes. *)
Lemma tabs_node a x :
  T !! a = Some x -> a <> (S l, pre) -> tabs with_table x = tabs s x.
Proof.
  intros H Hne. apply tabs_other.
  - intros ->. apply Hne. by eapply (tb_inj _ _ _ W).
  - intros ->. by apply (c_fresh a).
Qed.

Lemma with_child l0 pre0 t0 es0 j e :
  with_node !! (S l0, pre0) = Some t0 -> tabs with_table t0 = Some es0 -> es0 !! j = Some e ->
  if flag e PTE_P
  then exists c0, with_node !! (l0, pre0 * 512 + Z.of_nat j) = Some c0 /\
    e = PGSIZE * c0 + Z.lor (Z.lor PTE_P PTE_W) PTE_U
  else with_node !! (l0, pre0 * 512 + Z.of_nat j) = None.
Proof.
  intros H1 H2 H3. pose proof (lookup_lt_Some _ _ _ H3) as Hj.
  apply with_node_inv in H1 as [[Hn ->]|[Hn H1]].
  - injection Hn as Hl ->. rewrite tabs_c in H2.
    assert (es0 = replicate PTRS 0) as -> by congruence. rewrite length_replicate in Hj.
    rewrite lookup_replicate_2 in H3 by done. assert (e = 0) as -> by congruence. rewrite flag_zero.
    rewrite with_node_other; [by apply below_new|]. unfold new_node. intros [= ? _]. lia.
  - destruct (decide ((S l0, pre0) = (S l, pre))) as [[= -> ->]|Hne].
    + assert (t0 = t) as -> by congruence. rewrite tabs_t in H2. injection H2 as <-.
      rewrite length_insert, es_length in Hj. destruct (decide (j = i)) as [->|Hji].
      * rewrite list_lookup_insert_eq in H3 by (by rewrite es_length). injection H3 as <-.
        rewrite flag_entry. exists (Z.of_nat c). split; [apply with_node_new|done].
      * rewrite list_lookup_insert_ne in H3 by done.
        pose proof (tb_child _ _ _ W _ _ _ _ _ _ Ht Hes H3) as Hch.
        rewrite with_node_other; [done|]. unfold new_node. intros [= ?]. lia.
    + rewrite (tabs_node _ _ H1 Hne) in H2.
      pose proof (tb_child _ _ _ W _ _ _ _ _ _ H1 H2 H3) as Hch.
      destruct (tb_page _ _ _ W _ _ H1) as (_ & es1 & E1 & E2).
      assert (es1 = es0) as -> by congruence. rewrite E2 in Hj.
      rewrite with_node_other; [done|]. unfold new_node. intros [= -> Hp].
      apply node_index in Hp as [-> ->]; done.
Qed.
Lemma kalloc_here : fst (kalloc_km (k_kmem s)) = kva (Z.of_nat c) ->
  core_map (snd (kalloc_km (k_kmem s))) =
    alter (fun r => r <| available := 0 |> <| ref_count := 1 |>) c (core_map (k_kmem s)) /\
  free_pages (snd (kalloc_km (k_kmem s))) = free_pages (k_kmem s) - 1 /\
  npages (snd (kalloc_km (k_kmem s))) = npages (k_kmem s) /\
  use_lock (snd (kalloc_km (k_kmem s))) = use_lock (k_kmem s).
Proof.
  unfold kalloc_km. destruct (first_free _) as [j|]; cbn [fst snd].
  - intros H%kva_inj. assert (j = c) as -> by lia. done.
  - intros H. exfalso. unfold kva, KERNBASE, PGSIZE in H. lia.
Qed.
Context (chosen : fst (kalloc_km (k_kmem s)) = kva (Z.of_nat c)).
Lemma with_alloc a x :
  with_node !! a = Some x ->
  exists r, core_map (k_kmem with_table) !! Z.to_nat x = Some r /\ available r = 0.
Proof.
  intros H. destruct (kalloc_here chosen) as (Hm & _). unfold with_table. simpl. rewrite Hm.
  destruct (decide (Z.to_nat x = c)) as [Hx|Hx].
  - rewrite Hx, list_lookup_alter_eq, Hc. by eexists.
  - rewrite list_lookup_alter_ne by done.
    apply with_node_inv in H as [[_ ->]|[_ H]]; [by rewrite Nat2Z.id in Hx|].
    by eapply (tb_alloc _ _ _ W).
Qed.
Lemma zeros_default n k : default 0 (replicate n 0 !! k) = 0.
Proof. destruct (replicate n 0 !! k) as [x|] eqn:E; [|done]. by apply lookup_replicate in E as [-> _]. Qed.
Lemma with_pte v : pte_of with_table with_node v = pte_of s T v.
Proof.
  unfold pte_of. destruct (decide ((0%nat, v / 512) = new_node)) as [Hn|Hn].
  - rewrite Hn, with_node_new. assert (T !! new_node = None) as -> by exact absent.
    cbn [mbind option_bind default]. rewrite tabs_c.
    apply zeros_default.
  - rewrite with_node_other by done. destruct (T !! (0%nat, v / 512)) as [x|] eqn:E; [|done]. simpl.
    rewrite (tabs_node _ _ E); done.
Qed.
Lemma with_table_grown : grown root s T 1 with_table with_node.
Proof.
  destruct (kalloc_here chosen) as (Hm & Hfr & Hnp & Hus). pose proof c_bound as Hcb.
  pose proof (tb_level _ _ _ W _ _ _ Ht) as [Hl Hpre]. split.
  - split.
    + rewrite with_node_other; [apply (tb_root _ _ _ W)|]. unfold new_node. intros [= ? _]. lia.
    + intros l0 pre0 t0 [[[= -> ->] _]|[_ H]]%with_node_inv; [lia|]. by eapply (tb_level _ _ _ W).
    + intros a x [[-> ->]|[Hn H]]%with_node_inv.
      * split; [lia|]. exists (replicate PTRS 0). split; [apply tabs_c|]. by rewrite length_replicate.
      * destruct (tb_page _ _ _ W _ _ H) as (Hb & es1 & E1 & E2). split; [done|].
        destruct (decide (a = (S l, pre))) as [->|Hne].
        -- assert (x = t) as -> by congruence. eexists. split; [apply tabs_t|].
           by rewrite length_insert, es_length.
        -- exists es1. by rewrite (tabs_node _ _ H Hne).
    + apply with_child.
    + intros l0 pre0 t0 [[[= -> ->] _]|[_ H]]%with_node_inv Hne.
      * exists t. rewrite Z.div_add_l, Z.div_small, Z.add_0_r by (unfold PTRS in *; lia).
        rewrite with_node_other; [done|]. unfold new_node. intros [= ? _]. lia.
      * destruct (tb_parent _ _ _ W _ _ _ H Hne) as [t1 H1].
        destruct (decide ((S l0, pre0 / 512) = new_node)) as [Hn|Hn].
        -- exists (Z.of_nat c). rewrite Hn. apply with_node_new.
        -- exists t1. by rewrite with_node_other.
    + intros a b x [[-> ->]|[Ha H1]]%with_node_inv [[-> Hx]|[Hb H2]]%with_node_inv.
      * done.
      * by apply c_fresh in H2.
      * subst x. by apply c_fresh in H1.
      * by eapply (tb_inj _ _ _ W).
    + apply with_alloc.
  - destruct O as [O1 O2 O3]. split.
    + unfold with_table. simpl. by apply kalloc_km_wf.
    + unfold with_table. simpl. by rewrite Hus.
    + exact O3.
  - unfold with_node. by apply insert_subseteq.
  - apply with_pte.
  - unfold with_table. simpl. lia.
  - done.
  - intros x [(r' & Hr' & Ha') Hx]. assert (x <> c) as Hxc by (intros ->; congruence || lia).
    assert (Z.of_nat x <> t) as Hxt by (intros E; apply (Hx (S l, pre)); by rewrite E).
    split; [split|].
    + exists r'. unfold with_table. simpl. rewrite Hm, list_lookup_alter_ne by done. done.
    + intros a [[_ E]|[_ H]]%with_node_inv; [lia|]. by apply (Hx a).
    + unfold with_table. simpl. by rewrite !lookup_insert_ne by lia.
  - unfold mframe. kext.
Qed.
End NewTable.

(** * One level of the walk *)

Section Walk.
Context (s : kstate) (root : Z) (T : gmap node Z) (W : tables s root T).
Context (l : nat) (pre t : Z) (i : nat).
Context (Ht : T !! (S l, pre) = Some t) (Hi : (i < PTRS)%nat).

Lemma entry_there : exists es e,
  tabs s t = Some es /\ es !! i = Some e /\ tbl_get (kva t) i s = Ok e s.
Proof.
  destruct (tb_page _ _ _ W _ _ Ht) as (Hb & es & E1 & E2).
  destruct (lookup_lt_is_Some_2 es i) as [e He]; [lia|]. exists es, e. split; [done|]. split; [done|].
  unfold tbl_get. mrun. rewrite table_at_kva by done. rewrite E1. simpl. by rewrite He.
Qed.
Lemma walk_present alloc c :
  T !! (l, pre * 512 + Z.of_nat i) = Some c -> walk_level (kva t) i alloc s = Ok (kva c) s.
Proof.
  intros Hc. destruct entry_there as (es & e & E1 & E2 & E3). unfold walk_level. step E3.
  pose proof (tb_child _ _ _ W _ _ _ _ _ _ Ht E1 E2) as Hch.
  destruct (flag e PTE_P); [|congruence]. destruct Hch as (c' & Hc' & ->).
  assert (c' = c) as -> by congruence. destruct (tb_page _ _ _ W _ _ Hc) as [Hb _].
  rewrite entry_addr, P2V_pa by (done || by vm_compute). done.
Qed.
Lemma walk_absent :
  T !! (l, pre * 512 + Z.of_nat i) = None -> walk_level (kva t) i false s = Ok 0 s.
Proof.
  intros Hc. destruct entry_there as (es & e & E1 & E2 & E3). unfold walk_level. step E3.
  pose proof (tb_child _ _ _ W _ _ _ _ _ _ Ht E1 E2) as Hch.
  destruct (flag e PTE_P); [|done]. destruct Hch as (c' & Hc' & _). congruence.
Qed.
Lemma walk_alloc :
  alloc_ok s -> 1 <= free_pages (k_kmem s) ->
  exists s' T' c, walk_level (kva t) i true s = Ok (kva c) s' /\
    T' !! (l, pre * 512 + Z.of_nat i) = Some c /\ grown root s T 1 s' T'.
Proof.
  intros O Hf. destruct (T !! (l, pre * 512 + Z.of_nat i)) as [c|] eqn:Hc.
  { exists s, T, c. split; [by apply walk_present|]. split; [done|].
    eapply grown_mono; [by apply grown_refl|lia]. }
  destruct entry_there as (es & e & E1 & E2 & E3). unfold walk_level. step E3.
  pose proof (tb_child _ _ _ W _ _ _ _ _ _ Ht E1 E2) as Hch.
  destruct (flag e PTE_P); [destruct Hch as (c' & Hc' & _); congruence|]. cbn [negb].
  pose proof O as [O1 O2 O3]. step (kalloc_run s O1 O2 O3).
  destruct (first_free (core_map (k_kmem s))) as [c|] eqn:Ef.
  2:{ apply first_free_None in Ef. rewrite <-(wf_free _ O1) in Ef. lia. }
  assert (fst (kalloc_km (k_kmem s)) = kva (Z.of_nat c)) as Hch' by (unfold kalloc_km; by rewrite Ef).
  apply first_free_spec in Ef as [(r & Hr & Ha) _]. rewrite Hch'.
  pose proof (with_table_grown s root T W O l pre t es i Ht E1 Hi Hc c r Hr Ha Hch') as G.
  assert (Z.of_nat c < PAGES_MAX) as Hcb.
  { pose proof (wf_len _ O1). pose proof (wf_npages _ O1). apply lookup_lt_Some in Hr. lia. }
  assert (t <> Z.of_nat c) as Htc.
  { intros ->. destruct (tb_alloc _ _ _ W _ _ Ht) as (r' & Hr' & Ha'). rewrite Nat2Z.id in Hr'.
    assert (r' = r) as -> by congruence. lia. }
  destruct (Z.eqb_spec (kva (Z.of_nat c)) 0) as [E|_]; [unfold kva, KERNBASE, PGSIZE in E; lia|].
  exists (with_table s t es i c), (with_node T l pre i c), (Z.of_nat c).
  split; [|split; [apply with_node_new|done]].
  destruct (tb_page _ _ _ W _ _ Ht) as [Hb _].
  unfold page_memset, tbl_set. mrun. unfold table_at. simpl.
  rewrite !PGNUM_V2P_kva by lia. rewrite lookup_insert_ne by done.
  change (k_pages s !! t ≫= table_of) with (tabs s t). rewrite E1. simpl. f_equal. unfold with_table.
  rewrite V2P_kva by lia. unfold entry_of.
  rewrite <-lor_low, !Z.lor_assoc by (by vm_compute). done.
Qed.
Lemma walk_full :
  alloc_ok s -> free_pages (k_kmem s) = 0 -> T !! (l, pre * 512 + Z.of_nat i) = None ->
  walk_level (kva t) i true s = Ok 0 (s <| k_cpu ::= touch |>).
Proof.
  intros [O1 O2 O3] Hf Hc. destruct entry_there as (es & e & E1 & E2 & E3). unfold walk_level. step E3.
  pose proof (tb_child _ _ _ W _ _ _ _ _ _ Ht E1 E2) as Hch.
  destruct (flag e PTE_P); [destruct Hch as (c' & Hc' & _); congruence|]. cbn [negb].
  step (kalloc_run s O1 O2 O3). unfold kalloc_km.
  rewrite (wf_free _ O1) in Hf. apply first_free_None in Hf. rewrite Hf. cbn [fst snd Z.eqb].
  f_equal.
Qed.
End Walk.

(** * The whole walk *)

(** The page number the tables translate: 36 of the bits of an address. *)
Definition vpn (va : Z) : Z := (va / PGSIZE) mod 2^36.
Lemma index_shift va k : 0 <= k -> Z.land (Z.shiftr va k) 511 = (va / 2^k) mod 512.
Proof. intros H. rewrite Z.shiftr_div_pow2 by lia. change 511 with (Z.ones 9). by rewrite Z.land_ones. Qed.
Lemma Zmod_div_512 q m : 0 < m -> q mod (512 * m) = (q / 512) mod m * 512 + q mod 512.
Proof. intros H. rewrite Z.rem_mul_r by lia. lia. Qed.
Lemma indices va :
  (PML4_INDEX va < PTRS)%nat /\ (PDPT_INDEX va < PTRS)%nat /\ (PD_INDEX va < PTRS)%nat /\
  (PT_INDEX va < PTRS)%nat /\
  ((0 * 512 + Z.of_nat (PML4_INDEX va)) * 512 + Z.of_nat (PDPT_INDEX va)) * 512 +
    Z.of_nat (PD_INDEX va) = vpn va / 512 /\ PT_INDEX va = Z.to_nat (vpn va mod 512).
Proof.
  unfold PML4_INDEX, PDPT_INDEX, PD_INDEX, PT_INDEX, vpn, PGSIZE, PTRS, PT_SHIFT.
  rewrite !index_shift by lia. change 4096 with (2^12).
  assert (va / 2^39 = va / 2^12 / 512 / 512 / 512) as ->
    by (rewrite !Z.div_div by lia; reflexivity).
  assert (va / 2^30 = va / 2^12 / 512 / 512) as -> by (rewrite !Z.div_div by lia; reflexivity).
  assert (va / 2^21 = va / 2^12 / 512) as -> by (rewrite !Z.div_div by lia; reflexivity).
  generalize (va / 2^12). intros q.
  replace (q mod 2^36) with
    ((((q / 512 / 512 / 512) mod 512 * 512 + (q / 512 / 512) mod 512) * 512 + (q / 512) mod 512)
       * 512 + q mod 512) by (change (2^36) with (512 * (512 * (512 * 512)));
       rewrite !Zmod_div_512 by lia; lia).
  pose proof (Z.mod_pos_bound q 512). pose proof (Z.mod_pos_bound (q / 512) 512).
  pose proof (Z.mod_pos_bound (q / 512 / 512) 512).
  pose proof (Z.mod_pos_bound (q / 512 / 512 / 512) 512).
  rewrite Z.div_add_l, (Z.div_small (q mod 512)) by lia.
  rewrite (Z.add_comm _ (q mod 512)), Z.mod_add, Z.mod_mod by lia. repeat split; lia.
Qed.
Lemma kva_neq_0 n : 0 <= n -> (kva n =? 0) = false.
Proof. intros H. apply Z.eqb_neq. unfold kva, KERNBASE, PGSIZE. lia. Qed.
Lemma node_kva s root T a t : tables s root T -> T !! a = Some t -> (kva t =? 0) = false.
Proof. intros W H. apply kva_neq_0. apply (tb_page _ _ _ W) in H as [? _]. lia. Qed.

Lemma walkpml4_alloc s root T va :
  tables s root T -> alloc_ok s -> 3 <= free_pages (k_kmem s) ->
  exists s' T' t, walkpml4 (kva root) va true s = Ok (Some (kva t, PT_INDEX va)) s' /\
    T' !! (0%nat, vpn va / 512) = Some t /\ grown root s T 3 s' T'.
Proof.
  intros W O Hf. destruct (indices va) as (I4 & I3 & I2 & _ & Hv & _). unfold walkpml4.
  destruct (walk_alloc s root T W 2 0 root (PML4_INDEX va) (tb_root _ _ _ W) I4 O)
    as (s1 & T1 & t1 & R1 & E1 & G1); [lia|].
  step R1. rewrite (node_kva _ _ _ _ _ (gr_tables _ _ _ _ _ _ G1) E1).
  destruct (walk_alloc s1 root T1 (gr_tables _ _ _ _ _ _ G1) 1 _ t1 (PDPT_INDEX va) E1 I3
    (gr_alloc _ _ _ _ _ _ G1)) as (s2 & T2 & t2 & R2 & E2 & G2);
    [pose proof (gr_free _ _ _ _ _ _ G1); lia|].
  step R2. rewrite (node_kva _ _ _ _ _ (gr_tables _ _ _ _ _ _ G2) E2).
  destruct (walk_alloc s2 root T2 (gr_tables _ _ _ _ _ _ G2) 0 _ t2 (PD_INDEX va) E2 I2
    (gr_alloc _ _ _ _ _ _ G2)) as (s3 & T3 & t3 & R3 & E3 & G3);
    [pose proof (gr_free _ _ _ _ _ _ G1); pose proof (gr_free _ _ _ _ _ _ G2); lia|].
  step R3. rewrite (node_kva _ _ _ _ _ (gr_tables _ _ _ _ _ _ G3) E3).
  exists s3, T3, t3. split; [done|]. split; [by rewrite <-Hv|].
  eapply grown_mono; [by eapply grown_trans; [|eapply grown_trans]|lia].
Qed.

(** Without allocation the walk only looks. *)
Lemma parent_down s root T l pre (i : nat) :
  tables s root T -> (i < PTRS)%nat -> (l < 3)%nat ->
  T !! (S l, pre) = None -> T !! (l, pre * 512 + Z.of_nat i) = None.
Proof.
  intros W Hi Hl H. destruct (T !! (l, _)) as [x|] eqn:E; [|done].
  destruct (tb_parent _ _ _ W _ _ _ E) as [x' Hx]; [lia|].
  rewrite Z.div_add_l, Z.div_small, Z.add_0_r in Hx by (unfold PTRS in *; lia). congruence.
Qed.
Lemma walkpml4_look s root T va :
  tables s root T ->
  walkpml4 (kva root) va false s =
    Ok ((fun t => (kva t, PT_INDEX va)) <$> T !! (0%nat, vpn va / 512)) s.
Proof.
  intros W. destruct (indices va) as (I4 & I3 & I2 & _ & Hv & _). rewrite <-Hv. unfold walkpml4.
  destruct (T !! (2%nat, 0 * 512 + Z.of_nat (PML4_INDEX va))) as [t1|] eqn:E1.
  2:{ step (walk_absent s root T W 2 0 root _ (tb_root _ _ _ W) I4 E1). simpl.
      apply (parent_down _ _ _ 1 _ _ W I3 ltac:(lia)), (parent_down _ _ _ 0 _ _ W I2 ltac:(lia)) in E1.
      by rewrite E1. }
  step (walk_present s root T W 2 0 root _ (tb_root _ _ _ W) I4 false t1 E1).
  rewrite (node_kva _ _ _ _ _ W E1).
  destruct (T !! (1%nat, (0 * 512 + Z.of_nat (PML4_INDEX va)) * 512 + Z.of_nat (PDPT_INDEX va)))
    as [t2|] eqn:E2.
  2:{ step (walk_absent s root T W 1 _ t1 _ E1 I3 E2). simpl.
      apply (parent_down _ _ _ 0 _ _ W I2 ltac:(lia)) in E2. by rewrite E2. }
  step (walk_present s root T W 1 _ t1 _ E1 I3 false t2 E2).
  rewrite (node_kva _ _ _ _ _ W E2).
  destruct (T !! (0%nat, _)) as [t3|] eqn:E3.
  2:{ by step (walk_absent s root T W 0 _ t2 _ E2 I2 E3). }
  step (walk_present s root T W 0 _ t2 _ E2 I2 false t3 E3).
  by rewrite (node_kva _ _ _ _ _ W E3).
Qed.

(** With no page to make tables from, the walk finds the tables there are. *)
Lemma walkpml4_full s root T va :
  tables s root T -> alloc_ok s -> free_pages (k_kmem s) = 0 ->
  exists s', walkpml4 (kva root) va true s =
    Ok ((fun t => (kva t, PT_INDEX va)) <$> T !! (0%nat, vpn va / 512)) s'.
Proof.
  intros W O Hf. destruct (indices va) as (I4 & I3 & I2 & _ & Hv & _). rewrite <-Hv. unfold walkpml4.
  destruct (T !! (2%nat, 0 * 512 + Z.of_nat (PML4_INDEX va))) as [t1|] eqn:E1.
  2:{ step (walk_full s root T W 2 0 root _ (tb_root _ _ _ W) I4 O Hf E1).
      apply (parent_down _ _ _ 1 _ _ W I3 ltac:(lia)), (parent_down _ _ _ 0 _ _ W I2 ltac:(lia)) in E1.
      rewrite E1. by eexists. }
  step (walk_present s root T W 2 0 root _ (tb_root _ _ _ W) I4 true t1 E1).
  rewrite (node_kva _ _ _ _ _ W E1).
  destruct (T !! (1%nat, (0 * 512 + Z.of_nat (PML4_INDEX va)) * 512 + Z.of_nat (PDPT_INDEX va)))
    as [t2|] eqn:E2.
  2:{ step (walk_full s root T W 1 _ t1 _ E1 I3 O Hf E2).
      apply (parent_down _ _ _ 0 _ _ W I2 ltac:(lia)) in E2. rewrite E2. by eexists. }
  step (walk_present s root T W 1 _ t1 _ E1 I3 true t2 E2).
  rewrite (node_kva _ _ _ _ _ W E2).
  destruct (T !! (0%nat, _)) as [t3|] eqn:E3.
  2:{ step (walk_full s root T W 0 _ t2 _ E2 I2 O Hf E3). by eexists. }
  step (walk_present s root T W 0 _ t2 _ E2 I2 true t3 E3).
  rewrite (node_kva _ _ _ _ _ W E3). by eexists.
Qed.
Lemma walkpml4_there s root T va t :
  tables s root T -> T !! (0%nat, vpn va / 512) = Some t ->
  walkpml4 (kva root) va true s = Ok (Some (kva t, PT_INDEX va)) s.
Proof.
  intros W H. destruct (indices va) as (I4 & I3 & I2 & _ & Hv & _). rewrite <-Hv in H. unfold walkpml4.
  destruct (T !! (2%nat, 0 * 512 + Z.of_nat (PML4_INDEX va))) as [t1|] eqn:E1.
  2:{ apply (parent_down _ _ _ 1 _ _ W I3 ltac:(lia)), (parent_down _ _ _ 0 _ _ W I2 ltac:(lia)) in E1.
      congruence. }
  step (walk_present s root T W 2 0 root _ (tb_root _ _ _ W) I4 true t1 E1).
  rewrite (node_kva _ _ _ _ _ W E1).
  destruct (T !! (1%nat, (0 * 512 + Z.of_nat (PML4_INDEX va)) * 512 + Z.of_nat (PDPT_INDEX va)))
    as [t2|] eqn:E2.
  2:{ apply (parent_down _ _ _ 0 _ _ W I2 ltac:(lia)) in E2. congruence. }
  step (walk_present s root T W 1 _ t1 _ E1 I3 true t2 E2).
  rewrite (node_kva _ _ _ _ _ W E2).
  step (walk_present s root T W 0 _ t2 _ E2 I2 true t H).
  by rewrite (node_kva _ _ _ _ _ W H).
Qed.

(** * The processor *)

Lemma hw_node s root T l pre t (i : nat) :
  tables s root T -> T !! (S l, pre) = Some t -> (i < PTRS)%nat ->
  hw_entry s t i =
    (fun c => (c, Z.lor PTE_W PTE_U)) <$> T !! (l, pre * 512 + Z.of_nat i).
Proof.
  intros W Ht Hi. destruct (entry_there s root T W l pre t i Ht Hi) as (es & e & E1 & E2 & _).
  unfold hw_entry. change (k_pages s !! t ≫= table_of) with (tabs s t). rewrite E1. simpl.
  rewrite E2. simpl. pose proof (tb_child _ _ _ W _ _ _ _ _ _ Ht E1 E2) as Hch.
  destruct (flag e PTE_P); [|by rewrite Hch]. destruct Hch as (c & Hc & ->). rewrite Hc. simpl.
  destruct (tb_page _ _ _ W _ _ Hc) as [Hb _]. rewrite entry_addr by (done || by vm_compute).
  rewrite land_flags by (by vm_compute). unfold PGSIZE. by rewrite Z.mul_comm, Z.div_mul by lia.
Qed.
(** The processor uses the leaf entry of the page. *)
Lemma hw_translate_pte s root T va :
  tables s root T ->
  hw_translate s (PGSIZE * root) va =
    let e := pte_of s T (vpn va) in
    if flag e PTE_P
    then Some (PTE_ADDR e + va mod PGSIZE, Z.land e (Z.lor PTE_W PTE_U)) else None.
Proof.
  intros W. destruct (indices va) as (I4 & I3 & I2 & I1 & Hv & Hp). unfold hw_translate, pte_of.
  rewrite Z.mul_comm, Z.div_mul by (by vm_compute). rewrite <-Hp, <-Hv.
  rewrite (hw_node s root T 2 0 root _ W (tb_root _ _ _ W) I4).
  destruct (T !! (2%nat, 0 * 512 + Z.of_nat (PML4_INDEX va))) as [t1|] eqn:E1.
  2:{ apply (parent_down _ _ _ 1 _ _ W I3 ltac:(lia)), (parent_down _ _ _ 0 _ _ W I2 ltac:(lia)) in E1.
      by rewrite E1. }
  cbn [fmap option_fmap option_map mbind option_bind].
  rewrite (hw_node s root T 1 _ t1 _ W E1 I3).
  destruct (T !! (1%nat, (0 * 512 + Z.of_nat (PML4_INDEX va)) * 512 + Z.of_nat (PDPT_INDEX va)))
    as [t2|] eqn:E2.
  2:{ apply (parent_down _ _ _ 0 _ _ W I2 ltac:(lia)) in E2. by rewrite E2. }
  cbn [fmap option_fmap option_map mbind option_bind].
  rewrite (hw_node s root T 0 _ t2 _ W E2 I2).
  destruct (T !! (0%nat, _)) as [t3|] eqn:E3; [|done].
  cbn [fmap option_fmap option_map mbind option_bind].
  destruct (tb_page _ _ _ W _ _ E3) as (_ & es & Et & Hl). unfold hw_entry.
  change (k_pages s !! t3 ≫= table_of) with (tabs s t3). rewrite Et. simpl.
  destruct (lookup_lt_is_Some_2 es (PT_INDEX va)) as [e He]; [lia|]. rewrite He. simpl.
  destruct (flag e PTE_P); [|done]. simpl. f_equal. f_equal.
  - f_equal. rewrite PTE_ADDR_eq. unfold PGSIZE. rewrite (Z.mul_comm 4096), Z.div_mul by lia. done.
  - rewrite !(Z.land_comm _ (Z.land e _)), <-!Z.land_assoc. by f_equal.
Qed.

(** * Writing a leaf *)

Section Leaf.
Context (s : kstate) (root : Z) (T : gmap node Z) (W : tables s root T).
Context (v t : Z) (es : list Z) (e : Z).
Context (Ht : T !! (0%nat, v / 512) = Some t) (Hes : tabs s t = Some es).
Definition with_leaf : kstate :=
  s <| k_pages ::= <[t := PTable (<[Z.to_nat (v mod 512) := e]> es)]> |>.

Lemma tabs_leaf : tabs with_leaf t = Some (<[Z.to_nat (v mod 512) := e]> es).
Proof. unfold tabs, with_leaf. simpl. by rewrite lookup_insert_eq. Qed.
Lemma tabs_no_leaf a t' : T !! a = Some t' -> a <> (0%nat, v / 512) -> tabs with_leaf t' = tabs s t'.
Proof.
  intros H Hne. unfold tabs, with_leaf. simpl. rewrite lookup_insert_ne; [done|]. intros ->.
  apply Hne. by eapply (tb_inj _ _ _ W).
Qed.
Lemma leaf_length : length es = PTRS.
Proof. destruct (tb_page _ _ _ W _ _ Ht) as (_ & es' & H1 & H2). congruence. Qed.
Lemma with_leaf_tables : tables with_leaf root T.
Proof.
  destruct W. split; try done.
  - intros a t' H. destruct (tb_page0 a t' H) as (Hb & es' & E1 & E2). split; [done|].
    destruct (decide (a = (0%nat, v / 512))) as [->|Hne].
    + assert (t' = t) as -> by congruence. eexists. split; [apply tabs_leaf|].
      by rewrite length_insert, leaf_length.
    + exists es'. by rewrite (tabs_no_leaf a).
  - intros l pre t' es' j e' H1 H2 H3. rewrite (tabs_no_leaf (S l, pre)) in H2 by done.
    by eapply tb_child0.
Qed.
Lemma with_leaf_pte w : pte_of with_leaf T w = if decide (w = v) then e else pte_of s T w.
Proof.
  unfold pte_of. pose proof leaf_length as Hl. unfold PTRS in Hl.
  pose proof (Z.mod_pos_bound v 512). pose proof (Z.mod_pos_bound w 512).
  destruct (decide (w = v)) as [->|Hwv].
  - rewrite Ht. simpl. rewrite tabs_leaf. simpl. by rewrite list_lookup_insert_eq by lia.
  - destruct (T !! (0%nat, w / 512)) as [t'|] eqn:E; [|done]. simpl.
    destruct (decide (w / 512 = v / 512)) as [Hq|Hq].
    + rewrite Hq in E. assert (t' = t) as -> by congruence. rewrite tabs_leaf, Hes. simpl.
      rewrite list_lookup_insert_ne; [done|]. intros Hm. apply Hwv.
      rewrite (Z.div_mod w 512), (Z.div_mod v 512) by lia. lia.
    + rewrite (tabs_no_leaf (0%nat, w / 512)); [done..|]. intros [=]. done.
Qed.
Lemma leaf_get : exists e0, es !! Z.to_nat (v mod 512) = Some e0 /\
  tbl_get (kva t) (Z.to_nat (v mod 512)) s = Ok e0 s /\ pte_of s T v = e0.
Proof.
  pose proof leaf_length as Hl. unfold PTRS in Hl. pose proof (Z.mod_pos_bound v 512).
  destruct (lookup_lt_is_Some_2 es (Z.to_nat (v mod 512))) as [e0 He]; [lia|]. exists e0.
  destruct (tb_page _ _ _ W _ _ Ht) as [Hb _]. split; [done|]. split.
  - unfold tbl_get. mrun. rewrite table_at_kva, Hes by done. simpl. by rewrite He.
  - unfold pte_of. rewrite Ht. simpl. rewrite Hes. simpl. by rewrite He.
Qed.
Lemma leaf_set : tbl_set (kva t) (Z.to_nat (v mod 512)) e s = Ok tt with_leaf.
Proof.
  destruct (tb_page _ _ _ W _ _ Ht) as [Hb _]. unfold tbl_set. mrun.
  rewrite table_at_kva, Hes by done. simpl. by rewrite PGNUM_V2P_kva.
Qed.
End Leaf.

(** Marking a page as a user's leaves the allocator and the tables as they are. *)
Definition with_user (s : kstate) (p va : Z) : kstate :=
  s <| k_kmem ::= fun k => k <| core_map ::=
         upd_at (Z.to_nat p) (fun r => r <| cme_user := 1 |> <| cme_va := va |>) |> |>.
Lemma mark_user_mem_run s p va :
  0 <= npages (k_kmem s) < PAGES_MAX -> 0 <= p < npages (k_kmem s) ->
  mark_user_mem (PGSIZE * p) va s = Ok tt (with_user s p va).
Proof.
  intros Hn Hp. unfold mark_user_mem, pa2page. mrun. rewrite PGNUM_pa by lia.
  unfold u64. rewrite Z.mod_small by (unfold PAGES_MAX in *; lia).
  destruct (Z.leb_spec (npages (k_kmem s)) p); [lia|]. done.
Qed.
Lemma with_user_entry s p va x r :
  core_map (k_kmem s) !! x = Some r ->
  exists r', core_map (k_kmem (with_user s p va)) !! x = Some r' /\ available r' = available r.
Proof.
  intros H. unfold with_user. simpl. destruct (decide (Z.to_nat p = x)) as [<-|Hne].
  - rewrite list_lookup_alter_eq, H. by eexists.
  - rewrite list_lookup_alter_ne by done. by eexists.
Qed.
Lemma with_user_tables s root T p va : tables s root T -> tables (with_user s p va) root T.
Proof.
  intros []. split; try done. intros a t H. destruct (tb_alloc0 a t H) as (r & H1 & H2).
  destruct (with_user_entry s p va _ _ H1) as (r' & H3 & H4). exists r'. by rewrite H4.
Qed.
Lemma cnt_alter_same {A} (P : A -> bool) f i (l : list A) :
  (forall x, P (f x) = P x) -> cnt P l = cnt P (alter f i l).
Proof.
  intros Hf. revert i. induction l as [|x l IH]; intros [|i]; simpl; [done..|by rewrite Hf|].
  by rewrite (IH i).
Qed.
Lemma with_user_alloc s p va : alloc_ok s -> alloc_ok (with_user s p va).
Proof.
  intros [[W1 W2 W3 W4 W5] O2 O3]. split; [|done..]. unfold with_user. split; simpl.
  - done.
  - by rewrite length_alter.
  - apply upd_at_Forall; [done|]. intros x _ Hx. exact Hx.
  - rewrite W4. apply cnt_alter_same. done.
  - rewrite W5. apply cnt_alter_same. done.
Qed.

(** * mappages *)

Definition mapped_to (e : Z) : option (Z * Z) :=
  if flag e PTE_P then Some (PTE_ADDR e, Z.land e (Z.lor PTE_W PTE_U)) else None.
(** Page [w] is the [k]th of [n] pages from [v], of the 2^36 the tables tell apart. *)
Definition offset_in (v w : Z) : Z := (w - v) mod 2^36.

Lemma vpn_shift v : 0 <= v < 2^52 -> vpn (u64 (Z.shiftl v PT_SHIFT)) = v mod 2^36.
Proof.
  intros H. unfold vpn, u64, PT_SHIFT, PGSIZE. rewrite Z.shiftl_mul_pow2 by lia.
  rewrite (Z.mod_small (v * 2^12)) by lia. by rewrite Z.div_mul by lia.
Qed.
Lemma shift_pa p : 0 <= p < 2^40 -> u64 (Z.shiftl p PT_SHIFT) = PGSIZE * p.
Proof.
  intros H. unfold u64, PT_SHIFT, PGSIZE. rewrite Z.shiftl_mul_pow2 by lia.
  rewrite Z.mod_small; lia.
Qed.

(** One turn of the loop. *)
Lemma map_one s root T v p perm kern :
  tables s root T -> alloc_ok s -> 3 <= free_pages (k_kmem s) ->
  0 <= v < 2^52 -> 0 <= p < 2^40 -> (kern = false -> p < npages (k_kmem s)) ->
  flag (pte_of s T (v mod 2^36)) PTE_P = false ->
  exists s' T', tables s' root T' /\ alloc_ok s' /\
    free_pages (k_kmem s) - 3 <= free_pages (k_kmem s') /\ npages (k_kmem s') = npages (k_kmem s) /\
    (forall w, pte_of s' T' w =
       if decide (w = v mod 2^36) then PTE (PGSIZE * p) perm else pte_of s T w) /\
    kept s T s' T' /\ mframe s s' /\
    forall n, mappages (S n) (kva root) v p perm kern s =
      mappages n (kva root) (u64 (v + 1)) (u64 (p + 1)) perm kern s'.
Proof.
  intros W O Hf Hv Hp Hk He.
  destruct (walkpml4_alloc s root T (u64 (Z.shiftl v PT_SHIFT)) W O Hf) as (s1 & T1 & t & R & Ht & G).
  destruct (indices (u64 (Z.shiftl v PT_SHIFT))) as (_ & _ & _ & _ & _ & Hpt).
  rewrite vpn_shift in Ht, Hpt by done. rewrite Hpt in R. clear Hpt.
  pose proof (gr_tables _ _ _ _ _ _ G) as W1.
  destruct (tb_page _ _ _ W1 _ _ Ht) as (Hb & es & Hes & _).
  destruct (leaf_get s1 root T1 W1 _ t es Ht Hes) as (e0 & He0 & Rg & Hpte).
  rewrite (gr_pte _ _ _ _ _ _ G) in Hpte. rewrite Hpte in He.
  set (s2 := with_leaf s1 (v mod 2^36) t es (PTE (PGSIZE * p) perm)).
  pose proof (with_leaf_tables s1 root T1 W1 _ t es (PTE (PGSIZE * p) perm) Ht Hes) as W2.
  pose proof (leaf_set s1 root T1 W1 _ t es (PTE (PGSIZE * p) perm) Ht Hes) as Rs.
  fold s2 in W2, Rs.
  assert (alloc_ok s2) as O2 by (destruct (gr_alloc _ _ _ _ _ _ G); by split).
  assert (kept s T s2 T1) as K2.
  { eapply kept_trans; [apply G|]. intros x [Hx1 Hx2]. split; [done|]. unfold s2, with_leaf. simpl.
    rewrite lookup_insert_ne; [done|]. intros E. apply (Hx2 (0%nat, v mod 2 ^ 36 / 512)).
    by rewrite <-E. }
  assert (mframe s s2) as F2 by (eapply mframe_trans; [apply G|]; unfold s2, with_leaf, mframe; kext).
  set (s3 := if kern then s2 else with_user s2 p (u64 (Z.shiftl v PT_SHIFT))).
  exists s3, T1. split; [unfold s3; destruct kern; [done|by apply with_user_tables]|].
  split; [unfold s3; destruct kern; [done|by apply with_user_alloc]|].
  split; [pose proof (gr_free _ _ _ _ _ _ G); unfold s3; destruct kern; exact H|].
  split; [pose proof (gr_npages _ _ _ _ _ _ G); unfold s3; destruct kern; exact H|].
  split.
  { intros w. rewrite <-(gr_pte _ _ _ _ _ _ G w).
    rewrite <-(with_leaf_pte s1 root T1 W1 _ t es _ Ht Hes). unfold s3. by destruct kern. }
  split.
  { unfold s3. destruct kern; [done|]. eapply kept_trans; [exact K2|]. intros x [(r & H1 & H2) Hx].
    split; [|done]. split; [|done]. destruct (with_user_entry s2 p (u64 (Z.shiftl v PT_SHIFT)) _ _ H1)
      as (r' & H3 & H4). exists r'. by rewrite H4. }
  split.
  { unfold s3. destruct kern; [done|]. eapply mframe_trans; [exact F2|].
    unfold mframe, with_user. kext. }
  intros n. cbn [mappages]. step R. step Rg. rewrite He. rewrite shift_pa by done. step Rs.
  destruct kern; [done|]. cbn [negb when].
  step (mark_user_mem_run s2 p (u64 (Z.shiftl v PT_SHIFT)) (wf_npages _ (ao_wf _ O2))
    ltac:(change (npages (k_kmem s2)) with (npages (k_kmem s1));
          rewrite (gr_npages _ _ _ _ _ _ G); split; [lia|by apply Hk])).
  done.
Qed.
Lemma offset_step v w :
  0 <= w < 2^36 ->
  (w = v mod 2^36 -> offset_in v w = 0) /\
  (w <> v mod 2^36 -> offset_in v w = offset_in (v + 1) w + 1 /\ offset_in (v + 1) w < 2^36 - 1).
Proof.
  intros Hw. unfold offset_in. change (2^36) with 68719476736 in *. split.
  - intros ->. rewrite Zminus_mod_idemp_l, Z.sub_diag. done.
  - intros H. pose proof (Z.div_mod (w - v) 68719476736). pose proof (Z.div_mod v 68719476736).
    pose proof (Z.mod_pos_bound (w - v) 68719476736). pose proof (Z.mod_pos_bound v 68719476736).
    assert ((w - v) mod 68719476736 <> 0).
    { intros E. apply H. assert (w - v = 68719476736 * ((w - v) / 68719476736)) by lia.
      assert ((w - v) / 68719476736 = - (v / 68719476736)) by lia. lia. }
    assert ((w - (v + 1)) mod 68719476736 = (w - v) mod 68719476736 - 1) as ->; [|lia].
    symmetry. apply (Z.mod_unique _ _ ((w - v) / 68719476736)); lia.
Qed.
Lemma mappages_run n root perm kern : forall s T v p,
  tables s root T -> alloc_ok s -> 3 * Z.of_nat n <= free_pages (k_kmem s) ->
  0 <= v -> v + Z.of_nat n <= 2^52 -> 0 <= p -> p + Z.of_nat n <= 2^40 -> Z.of_nat n <= 2^36 ->
  (kern = false -> p + Z.of_nat n <= npages (k_kmem s)) ->
  (forall k, 0 <= k < Z.of_nat n -> flag (pte_of s T ((v + k) mod 2^36)) PTE_P = false) ->
  exists s' T', mappages n (kva root) v p perm kern s = Ok 0 s' /\
    tables s' root T' /\ alloc_ok s' /\
    (forall w, 0 <= w < 2^36 -> pte_of s' T' w =
       if offset_in v w <? Z.of_nat n then PTE (PGSIZE * (p + offset_in v w)) perm
       else pte_of s T w) /\
    kept s T s' T' /\ mframe s s'.
Proof.
  induction n as [|n IH]; intros s T v p W O Hf Hv0 Hv Hp0 Hp Hn Hk He.
  { exists s, T. split; [done|]. split; [done|]. split; [done|]. split; [|by split; [|apply mframe_refl]].
    intros w Hw. destruct (Z.ltb_spec (offset_in v w) (Z.of_nat 0)) as [H|]; [|done].
    pose proof (Z.mod_pos_bound (w - v) (2^36)). unfold offset_in in H. lia. }
  destruct (map_one s root T v p perm kern) as (s1 & T1 & W1 & O1 & Hf1 & Hn1 & Hp1 & K1 & F1 & R);
    [done|done|lia|lia|lia|intros E; specialize (Hk E); lia|
     by rewrite <-(Z.add_0_r v); apply He; lia|].
  destruct (IH s1 T1 (v + 1) (p + 1)) as (s2 & T2 & R2 & W2 & O2 & Hp2 & K2 & F2);
    [done|done|lia..|intros E; specialize (Hk E); lia| |].
  { intros k Hk'. rewrite Hp1. destruct (decide _) as [E|_].
    - exfalso. destruct (offset_step v (v mod 2^36)) as [H1 _]; [apply Z.mod_pos_bound; lia|].
      assert ((1 + k) mod 2^36 = 0) as Hm.
      { replace (1 + k) with (v + 1 + k - v) by lia. by rewrite <-Zminus_mod_idemp_l, E, Zminus_mod_idemp_l, Z.sub_diag. }
      rewrite Z.mod_small in Hm by lia. lia.
    - replace (v + 1 + k) with (v + (1 + k)) by lia. apply He. lia. }
  exists s2, T2. split.
  { rewrite R. unfold u64. rewrite !Z.mod_small by lia. exact R2. }
  split; [done|]. split; [done|]. split; [|split; [by eapply kept_trans|by eapply mframe_trans]].
  intros w Hw. rewrite Hp2, Hp1 by done. destruct (offset_step v w Hw) as [S1 S2].
  destruct (decide (w = v mod 2^36)) as [E|E].
  - rewrite (S1 E). destruct (Z.ltb_spec 0 (Z.of_nat (S n))); [|lia].
    destruct (Z.ltb_spec (offset_in (v + 1) w) (Z.of_nat n)) as [H1|H1]; [|by rewrite Z.add_0_r].
    exfalso. unfold offset_in in H1.
    assert ((w - (v + 1)) mod 2^36 = 2^36 - 1) as E1; [|lia].
    rewrite E. replace (v mod 2^36 - (v + 1)) with (v mod 2^36 - v + -1) by lia.
    rewrite <-Zplus_mod_idemp_l, Zminus_mod_idemp_l, Z.sub_diag. done.
  - destruct (S2 E) as [-> _]. destruct (Z.ltb_spec (offset_in (v + 1) w) (Z.of_nat n));
      destruct (Z.ltb_spec (offset_in (v + 1) w + 1) (Z.of_nat (S n))); try lia; try done.
    do 2 f_equal. lia.
Qed.

(** * Properties *)

Definition paging_ok (s : kstate) (root : Z) : Prop := exists T, tables s root T.
(** A page in use that is no table of the tree at [root]. *)
Definition safe_page (s : kstate) (root : Z) (x : nat) : Prop :=
  forall T, tables s root T -> data_page s T x.

Lemma PTE_flags p perm :
  0 <= p < 2^40 -> 0 <= perm < PGSIZE ->
  PTE_ADDR (PTE (PGSIZE * p) perm) = PGSIZE * p /\
  forall f, 0 <= f < PGSIZE -> Z.land (PTE (PGSIZE * p) perm) f = Z.land perm f.
Proof.
  intros Hp Hm. unfold PTE. rewrite lor_low by done. split.
  - rewrite PTE_ADDR_eq. unfold PGSIZE in *. rewrite (Z.mul_comm 4096 p), Z.div_add_l by lia.
    rewrite (Z.div_small perm), Z.add_0_r, Z.mod_small by lia. lia.
  - intros f Hf. by apply land_flags.
Qed.

(** A machine of eight pages whose page 1 is an empty top table. *)
Definition small_machine : kstate :=
  bss <| k_end := KERNBASE |>
      <| k_kmem := mkKmem 8 (mkCme 0 0 0 1 :: mkCme 0 0 0 1 :: replicate 6 (mkCme 1 0 0 0)) 2 0 6 true 1 |>
      <| k_pages := {[ 1 := PTable (replicate PTRS 0) ]} |>.
Lemma small_machine_tables : tables small_machine 1 {[ (3%nat, 0) := 1 ]}.
Proof.
  assert (tabs small_machine 1 = Some (replicate PTRS 0)) as Ht by reflexivity.
  assert (forall a t, ({[ (3%nat, 0) := 1 ]} : gmap node Z) !! a = Some t -> a = (3%nat, 0) /\ t = 1)
    as Hs by (by intros a t [<- <-]%lookup_singleton_Some).
  split.
  - reflexivity.
  - intros l pre t [[= -> ->] _]%Hs. lia.
  - intros a t [-> ->]%Hs. split; [by vm_compute|]. exists (replicate PTRS 0).
    by rewrite Ht, length_replicate.
  - intros l pre t es i e [[= -> ->] ->]%Hs H2 H3. assert (es = replicate PTRS 0) as -> by congruence.
    apply lookup_replicate in H3 as [-> _]. rewrite flag_zero. apply lookup_singleton_ne. congruence.
  - intros l pre t [[= -> ->] _]%Hs. done.
  - by intros a b t [-> _]%Hs [-> _]%Hs.
  - intros a t [-> ->]%Hs. by exists (mkCme 0 0 0 1).
Qed.
Lemma small_machine_alloc : alloc_ok small_machine.
Proof.
  split; [|reflexivity|split; [reflexivity|split; simpl; lia]].
  split; try reflexivity; [by vm_compute|]. repeat constructor; simpl; lia.
Qed.

(** C17: mappages, given free pages for the tables, maps the [n] pages from [v] to the frames from
    [p] with the permissions asked for, as the processor sees it: every address of the range is
    translated to its frame, every other address as before; no page in use but the tables is
    written, and nothing else of the kernel changes. *)
Theorem mappages_correct s root n v p perm kern :
  paging_ok s root -> alloc_ok s -> 3 * Z.of_nat n <= free_pages (k_kmem s) ->
  0 <= v -> v + Z.of_nat n <= 2^52 -> 0 <= p -> p + Z.of_nat n <= 2^40 -> Z.of_nat n <= 2^36 ->
  0 <= perm < PGSIZE -> flag perm PTE_P = true ->
  (kern = false -> p + Z.of_nat n <= npages (k_kmem s)) ->
  (forall k, 0 <= k < Z.of_nat n -> hw_translate s (PGSIZE * root) (PGSIZE * (v + k)) = None) ->
  exists s', mappages n (kva root) v p perm kern s = Ok 0 s' /\
    paging_ok s' root /\ alloc_ok s' /\
    (forall va, hw_translate s' (PGSIZE * root) va =
       let k := offset_in v (vpn va) in
       if k <? Z.of_nat n
       then Some (PGSIZE * (p + k) + va mod PGSIZE, Z.land perm (Z.lor PTE_W PTE_U))
       else hw_translate s (PGSIZE * root) va) /\
    (forall x, safe_page s root x -> k_pages s' !! Z.of_nat x = k_pages s !! Z.of_nat x) /\
    mframe s s'.
Proof.
  intros [T W] O Hf Hv0 Hv Hp0 Hp Hn Hm HP Hk He.
  destruct (mappages_run n root perm kern s T v p) as (s' & T' & R & W' & O' & Hpte & K & F);
    [done|done|lia..|done| |].
  { intros k Hk'. specialize (He k Hk'). rewrite (hw_translate_pte s root T) in He by done.
    unfold vpn in He. rewrite (Z.mul_comm PGSIZE), Z.div_mul in He by (by vm_compute).
    cbv zeta in He. revert He. destruct (flag (pte_of s T ((v + k) mod 2^36)) PTE_P); [discriminate|done]. }
  exists s'. split; [done|]. split; [by exists T'|]. split; [done|]. split; [|split; [|done]].
  - intros va. rewrite !(hw_translate_pte _ root _ _ W'), (hw_translate_pte _ root _ _ W).
    cbv zeta. assert (0 <= vpn va < 2^36) as Hr by (apply Z.mod_pos_bound; lia).
    rewrite Hpte by done. destruct (Z.ltb_spec (offset_in v (vpn va)) (Z.of_nat n)) as [Hlt|]; [|done].
    assert (0 <= offset_in v (vpn va)) by (apply Z.mod_pos_bound; lia).
    destruct (PTE_flags (p + offset_in v (vpn va)) perm) as [-> HF]; [lia|done|].
    unfold flag in *. rewrite !HF by (by vm_compute). by rewrite HP.
  - intros x Hx. by apply K, Hx.
Qed.

(** C18: mappages panics, and writes no entry, when the first page of the range is mapped already;
    and when no page is free for a table that is missing. *)
Theorem mappages_panics s root n v p perm kern :
  paging_ok s root -> 0 <= v < 2^52 ->
  (hw_translate s (PGSIZE * root) (PGSIZE * v) <> None ->
     mappages (S n) (kva root) v p perm kern s = Panic "remap") /\
  (alloc_ok s -> free_pages (k_kmem s) = 0 ->
   walkpml4 (kva root) (PGSIZE * v) false s = Ok None s ->
     mappages (S n) (kva root) v p perm kern s = Panic "not enough memory").
Proof.
  intros [T W] Hv. rewrite (hw_translate_pte s root T) by done. cbv zeta.
  rewrite (walkpml4_look s root T) by done.
  assert (PGSIZE * v = u64 (Z.shiftl v PT_SHIFT)) as ->.
  { unfold u64, PGSIZE, PT_SHIFT. rewrite Z.shiftl_mul_pow2, Z.mod_small by lia. lia. }
  cbn [mappages]. split.
  - intros H. destruct (T !! (0%nat, vpn (u64 (Z.shiftl v PT_SHIFT)) / 512)) as [t|] eqn:Ht.
    2:{ unfold pte_of in H. by rewrite Ht in H. }
    step (walkpml4_there s root T _ t W Ht).
    destruct (tb_page _ _ _ W _ _ Ht) as (_ & es & Hes & _).
    destruct (leaf_get s root T W _ t es Ht Hes) as (e0 & _ & Rg & Hpte).
    destruct (indices (u64 (Z.shiftl v PT_SHIFT))) as (_ & _ & _ & _ & _ & ->). step Rg.
    rewrite Hpte in H. by destruct (flag e0 PTE_P).
  - intros O Hf H. destruct (T !! (0%nat, vpn (u64 (Z.shiftl v PT_SHIFT)) / 512)) as [t|] eqn:Ht;
      [done|]. destruct (walkpml4_full s root T (u64 (Z.shiftl v PT_SHIFT)) W O Hf) as [s' R].
    rewrite Ht in R. by step R.
Qed.

Lemma mappages_correct_witness :
  exists s', mappages 2 (kva 1) 5 6 7 false small_machine = Ok 0 s' /\
    hw_translate s' (PGSIZE * 1) (PGSIZE * 6 + 123) = Some (PGSIZE * 7 + 123, 6) /\
    hw_translate s' (PGSIZE * 1) (PGSIZE * 7 + 123) = None.
Proof.
  destruct (mappages_correct small_machine 1 2 5 6 7 false) as (s' & R & _ & _ & H & _).
  - exists {[ (3%nat, 0) := 1 ]}. apply small_machine_tables.
  - apply small_machine_alloc.
  - by vm_compute.
  - by vm_compute.
  - by vm_compute.
  - by vm_compute.
  - by vm_compute.
  - by vm_compute.
  - by vm_compute.
  - reflexivity.
  - by vm_compute.
  - intros k Hk. assert (k = 0 \/ k = 1) as [-> | ->] by lia;
      rewrite (hw_translate_pte small_machine 1 _ _ small_machine_tables); reflexivity.
  - exists s'. split; [exact R|]. rewrite !H. split; [reflexivity|].
    rewrite (hw_translate_pte small_machine 1 _ _ small_machine_tables). reflexivity.
Defined.
Lemma mappages_panics_witness :
  mappages 1 (kva 1) 0 6 7 true (small_machine <| k_kmem := mkKmem 2 (replicate 2 (mkCme 0 0 0 1)) 2 0 0 true 1 |>)
    = Panic "not enough memory".
Proof.
  set (s := small_machine <| k_kmem := _ |>).
  assert (tables s 1 {[ (3%nat, 0) := 1 ]}) as W.
  { destruct small_machine_tables. split; try done. intros a t H.
    apply lookup_singleton_Some in H as [_ <-]. by exists (mkCme 0 0 0 1). }
  apply (mappages_panics s 1 0 0 6 7 true); [by exists {[ (3%nat, 0) := 1 ]}|lia| |done|].
  - split; [|reflexivity|split; [reflexivity|split; simpl; lia]].
    split; try reflexivity; [by vm_compute|]. repeat constructor; simpl; lia.
  - rewrite (walkpml4_look s 1 _ _ W). reflexivity.
Defined.
