(* ===== verification/Vspace.v ===== *)
(** Virtual address spaces, kernel/vspace.c: regions, the lists of page descriptors behind them,
    and the page tables rebuilt from them.

    A region or an address space that the code changes through a pointer is passed and returned;
    its owner stores it back.  A struct vpage_info * is the address of its vpi_page and its
    index there. *)
From S2P Require Import Prelude Kstate Locks Kalloc Sched Bytes Bio Fs Paging.

Definition VPI_PRESENT : Z := 1.
Definition VPI_WRITABLE : Z := 1.
Definition VRTOP (r : vregion) : Z :=
  match vr_dir r with VRDIR_UP => u64 (va_base r + vr_size r) | VRDIR_DOWN => va_base r end.
Definition VRBOT (r : vregion) : Z :=
  match vr_dir r with VRDIR_UP => va_base r | VRDIR_DOWN => u64 (va_base r - vr_size r) end.

Definition va2vpi_idx (r : vregion) (va : Z) : Z :=
  match vr_dir r with
  | VRDIR_UP => s32 (Z.shiftr (u64 (va - va_base r)) PT_SHIFT)
  | VRDIR_DOWN => s32 (Z.shiftr (u64 (va_base r - 1 - va)) PT_SHIFT)
  end.
Definition x86perms (v : vpage_info) : Z :=
  let perms := PTE_U in
  let perms := if negb (vpi_present v =? 0) then Z.lor perms PTE_P else perms in
  if negb (vpi_writable v =? 0) then Z.lor perms PTE_W else perms.

(** * Page descriptors *)

(** A page read as a struct vpi_page. *)
Definition vpi_of_bytes (i : nat) (bs : list Z) : vpage_info :=
  mkVpi (s16 (field_at (24 * i) 2 bs)) (field_at (24 * i + 8) 8 bs)
    (s16 (field_at (24 * i + 16) 2 bs)) (s16 (field_at (24 * i + 18) 2 bs))
    (negb (field_at (24 * i + 20) 1 bs =? 0)).
Definition vpi_page_of (p : page) : option vpi_page :=
  match p with
  | PVpi v => Some v
  | PBytes bs =>
      Some (mkVpiPage ((fun i => vpi_of_bytes i bs) <$> seq 0 (Z.to_nat VPIPPAGE))
              (field_at (24 * Z.to_nat VPIPPAGE) 8 bs))
  | PTable _ => None
  end.
Definition vpi_page_at (a : Z) : K vpi_page :=
  o <- gets (fun s => k_pages s !! PGNUM (V2P a) ≫= vpi_page_of); deref o.
Definition vpi_page_mod (a : Z) (f : vpi_page -> vpi_page) : K unit :=
  v <- vpi_page_at a;
  modify (fun s => s <| k_pages ::= <[PGNUM (V2P a) := PVpi (f v)]> |>).
Definition vpi_get (q : Z * nat) : K vpage_info :=
  v <- vpi_page_at (fst q); deref (infos v !! snd q).
Definition vpi_mod (q : Z * nat) (f : vpage_info -> vpage_info) : K unit :=
  vpi_page_mod (fst q) (fun v => v <| infos ::= upd_at (snd q) f |>).

(** The loop of [va2vpage_info]: along the list, longer by a page where it ends.  The index is
    an int, compared with an unsigned number. *)
Fixpoint vpi_walk (fuel : nat) (info idx : Z) : K (option (Z * nat)) :=
  match fuel with
  | O => hang
  | S fuel =>
      if VPIPPAGE <=? u64 idx then
        if info =? 0 then panic "idx was out of bounds" else
        v <- vpi_page_at info;
        if vpi_next v =? 0 then
          p <- kalloc;
          vpi_page_mod info (fun v => v <| vpi_next := p |>);;
          if p =? 0 then ret None else
          page_memset p 0;;
          vpi_walk fuel p (s32 (u64 idx - VPIPPAGE))
        else vpi_walk fuel (vpi_next v) (s32 (u64 idx - VPIPPAGE))
      else ret (Some (info, Z.to_nat idx))
  end.
(** Every page of a list is a page of memory: a list is shorter than npages. *)
Definition va2vpage_info (vr : vregion) (va : Z) : K (vregion * option (Z * nat)) :=
  vr <- (if vr_pages vr =? 0
         then p <- kalloc;
              if p =? 0 then fault else page_memset p 0;; ret (vr <| vr_pages := p |>)
         else ret vr);
  n <- gets (fun s => npages (k_kmem s));
  o <- vpi_walk (S (S (Z.to_nat n))) (vr_pages vr) (va2vpi_idx vr va);
  ret (vr, o).

(** * Mapping pages into a region *)

(** The rollback of [vregionaddmap], from [a] down to the first page. *)
Fixpoint addmap_failure (fuel : nat) (vr : vregion) (a from : Z) : K (vregion * Z) :=
  match fuel with
  | O => hang
  | S fuel =>
      if PGROUNDUP from <=? a then
        '(vr, o) <- va2vpage_info vr a;
        match o with
        | None => panic "vpi info missing"
        | Some q =>
            v <- vpi_get q;
            kfree (P2V (u64 (Z.shiftl (vpi_ppn v) PT_SHIFT)));;
            vpi_mod q (fun v => v <| vpi_used := 0 |> <| vpi_present := 0 |>
                                  <| vpi_writable := 0 |> <| vpi_ppn := 0 |>);;
            addmap_failure fuel vr (u64 (a - PGSIZE)) from
        end
      else ret (vr, -1)
  end.
Fixpoint addmap_loop (fuel : nat) (vr : vregion) (a from sz present writable : Z) :
    K (vregion * Z) :=
  match fuel with
  | O => hang
  | S fuel' =>
      if a <? u64 (from + sz) then
        '(vr, o) <- va2vpage_info vr a;
        match o with
        | None => addmap_failure (S (S (Z.to_nat (a / PGSIZE)))) vr (u64 (a - PGSIZE)) from
        | Some q =>
            mem <- kalloc;
            if mem =? 0
            then addmap_failure (S (S (Z.to_nat (a / PGSIZE)))) vr (u64 (a - PGSIZE)) from
            else
            page_memset mem 0;;
            vpi_mod q (fun v => v <| vpi_used := 1 |> <| vpi_present := present |>
                                  <| vpi_writable := writable |> <| vpi_ppn := PGNUM (V2P mem) |>);;
            addmap_loop fuel' vr (u64 (a + PGSIZE)) from sz present writable
        end
      else ret (vr, s32 sz)
  end.
Definition vregionaddmap (vr : vregion) (from sz present writable : Z) : K (vregion * Z) :=
  if KERNBASE <=? u64 (sz + from) then ret (vr, -1) else
  if sz <=? 0 then ret (vr, 0) else
  addmap_loop (S (S (Z.to_nat (sz / PGSIZE)))) vr (PGROUNDUP from) from sz present writable.

(** memmove of bytes into the page of a descriptor. *)
Definition page_put (pn o : Z) (src : list Z) : K unit :=
  p <- gets (fun s => k_pages s !! pn);
  match p with
  | Some (PBytes bs) =>
      if (Z.to_nat o + length src <=? length bs)%nat
      then modify (fun s => s <| k_pages ::= <[pn := PBytes (splice (Z.to_nat o) src bs)]> |>)
      else fault
  | _ => fault
  end.
Definition ppn_page (v : vpage_info) : Z := PGNUM (V2P (P2V (u64 (Z.shiftl (vpi_ppn v) PT_SHIFT)))).

Fixpoint vradddata_loop (fuel : nat) (r : vregion) (va i sz : Z) (data : list Z) : K (vregion * Z) :=
  match fuel with
  | O => hang
  | S fuel =>
      if i <? u64 sz then
        '(r, o) <- va2vpage_info r (u64 (va + i));
        q <- deref o;
        v <- vpi_get q;
        assert_ (negb (vpi_used v =? 0));;
        let n := Z.min (u64 sz - i) PGSIZE in
        page_put (ppn_page v) 0 (slice (Z.to_nat i) (Z.to_nat n) data);;
        vradddata_loop fuel r va (i + PGSIZE) sz data
      else ret (r, 0)
  end.
Definition vradddata (r : vregion) (va : Z) (data : list Z) (sz present writable : Z) :
    K (vregion * Z) :=
  '(r, x) <- vregionaddmap r va (u64 sz) present writable;
  if x <? 0 then ret (r, x) else
  vradddata_loop (S (S (Z.to_nat (u64 sz / PGSIZE)))) r va 0 sz data.

(** * Address spaces *)

Definition region (vs : vspace) (i : nat) : K vregion := deref (vs_regions vs !! i).
Definition with_region (vs : vspace) (i : nat) (r : vregion) : vspace :=
  vs <| vs_regions ::= <[i := r]> |>.

Definition vspacebootinit : K unit :=
  p <- setupkvm;
  modify (fun s => s <| k_kpml4 := p |>);;
  vspaceinstallkern.

Definition vspaceinit (vs : vspace) : K (vspace * Z) :=
  p <- setupkvm;
  if p =? 0 then ret (vs <| vs_pgtbl := p |>, -1) else
  ret (mkVspace [vregion_zero; vregion_zero; vregion_zero <| vr_dir := VRDIR_DOWN |>] p, 0).

(** PML4_INDEX(SZ_4G) is 0: only the first entry of the top table is a user's. *)
Definition free_user_entry (pml4 : Z) (i : nat) : K unit :=
  e <- tbl_get pml4 i;
  when (flag e PTE_P) (freevm_pdpt (P2V (PTE_ADDR e));; tbl_set pml4 i 0).
Fixpoint free_user_entries (n i : nat) (pml4 : Z) : K unit :=
  match n with O => ret tt | S n => free_user_entry pml4 i;; free_user_entries n (S i) pml4 end.
Fixpoint invalidate_pages (fuel : nat) (pml4 : Z) (vr : vregion) (start stop : Z) : K vregion :=
  match fuel with
  | O => hang
  | S fuel =>
      if start <? stop then
        '(vr, o) <- va2vpage_info vr start;
        q <- deref o;
        v <- vpi_get q;
        mappages 1 pml4 (Z.shiftr start PT_SHIFT) (vpi_ppn v) (x86perms v) false;;
        invalidate_pages fuel pml4 vr (u64 (start + PGSIZE)) stop
      else ret vr
  end.
Fixpoint invalidate_regions (n i : nat) (vs : vspace) : K vspace :=
  match n with
  | O => ret vs
  | S n =>
      vr <- region vs i;
      assert_ (VRBOT vr mod PGSIZE =? 0);;
      vr <- invalidate_pages (S (S (Z.to_nat (vr_size vr / PGSIZE)))) (vs_pgtbl vs) vr
              (VRBOT vr) (VRTOP vr);
      invalidate_regions n (S i) (with_region vs i vr)
  end.
Definition vspaceinvalidate (vs : vspace) : K vspace :=
  free_user_entries (S (PML4_INDEX SZ_4G)) 0 (vs_pgtbl vs);;
  invalidate_regions NREGIONS 0 vs.

Definition vspaceinitcode (vs : vspace) (init : list Z) (size : Z) : K vspace :=
  r <- region vs VR_CODE;
  let r := r <| va_base := 0 |> <| vr_size := PGROUNDUP size |> in
  '(r, x) <- vradddata r 0 init (s32 size) VPI_PRESENT VPI_WRITABLE;
  if negb (x =? 0) then panic "failed to allocate init code data" else
  let vs := with_region vs VR_CODE r in
  let stack := u64 (PGROUNDUP size + Z.shiftl 2 PT_SHIFT) in
  r <- region vs VR_USTACK;
  let r := r <| va_base := stack |> <| vr_size := PGSIZE |> in
  '(r, x) <- vregionaddmap r (u64 (stack - PGSIZE)) PGSIZE VPI_PRESENT VPI_WRITABLE;
  assert_ (0 <=? x);;
  vspaceinvalidate (with_region vs VR_USTACK r).

(** The first region the address is in. *)
Definition in_region (va : Z) (r : vregion) : bool :=
  match vr_dir r with
  | VRDIR_UP => (va_base r <=? va) && (va <? u64 (va_base r + vr_size r))
  | VRDIR_DOWN => (u64 (va_base r - vr_size r) <=? va) && (va <? va_base r)
  end.
Definition va2vregion (vs : vspace) (va : Z) : option nat :=
  fst <$> list_find (fun r => in_region va r = true) (take NREGIONS (vs_regions vs)).
Definition vregioncontains (r : vregion) (va size : Z) : bool :=
  if (size =? 0) && (va =? VRTOP r) then false else
  (VRBOT r <=? va) && (u64 (va + size) <=? VRTOP r).
Definition vspacecontains (vs : vspace) (va size : Z) : Z :=
  match va2vregion vs va ≫= (vs_regions vs !!.) with
  | None => -1
  | Some r => Z.b2z (vregioncontains r va size)
  end.

Definition vspacemarknotpresent (vs : vspace) (user_va : Z) : K vspace :=
  assert_ (user_va mod PGSIZE =? 0);;
  match va2vregion vs user_va with
  | None => panic "assertion failed"
  | Some i =>
      vr <- region vs i;
      '(vr, o) <- va2vpage_info vr user_va;
      match o with
      | None => panic "assertion failed"
      | Some q =>
          v <- vpi_get q;
          if negb (vpi_present v =? 0) then panic "Passed user_va had present vpi." else
          pte <- walkpml4 (vs_pgtbl vs) user_va false;
          match pte with Some (t, k) => tbl_set t k 0 | None => ret tt end;;
          ret (with_region vs i vr)
      end
  end.

(** The recursion frees the end of the list first. *)
Fixpoint free_page_desc_list (fuel : nat) (page : Z) : K unit :=
  match fuel with
  | O => hang
  | S fuel =>
      assert_ (page mod PGSIZE =? 0);;
      if page =? 0 then ret tt else
      v <- vpi_page_at page;
      free_page_desc_list fuel (vpi_next v);;
      kfree page
  end.
Fixpoint vspacefree_regions (n i : nat) (vs : vspace) : K vspace :=
  match n with
  | O => ret vs
  | S n =>
      vr <- region vs i;
      m <- gets (fun s => npages (k_kmem s));
      free_page_desc_list (S (S (Z.to_nat m))) (vr_pages vr);;
      vspacefree_regions n (S i) (with_region vs i vregion_zero)
  end.
Definition vspacefree (vs : vspace) : K vspace :=
  vs <- vspacefree_regions NREGIONS 0 vs;
  freevm (vs_pgtbl vs);;
  ret vs.

(** * Copying for fork: the pages are shared and become copy-on-write *)

Definition share_vpi (v : vpage_info) : vpage_info := v <| vpi_cow := true |> <| vpi_writable := 0 |>.
(** The loop over the descriptors of a page, from [i] on. *)
Fixpoint copy_infos (n i : nat) (dst src : Z) : K unit :=
  match n with
  | O => ret tt
  | S n =>
      v <- vpi_get (src, i);
      when (negb (vpi_used v =? 0))
        (vpi_mod (dst, i) (fun d => d <| vpi_used := vpi_used v |> <| vpi_present := vpi_present v |>);;
         vpi_mod (dst, i) share_vpi;;
         vpi_mod (src, i) share_vpi;;
         vpi_mod (dst, i) (fun d => d <| vpi_ppn := vpi_ppn v |>);;
         e <- pa2page (u64 (Z.shiftl (vpi_ppn v) PT_SHIFT));
         acquire_core_map_lock;;
         cme_mod e (fun r => r <| ref_count := ref_count r + 1 |>);;
         release_core_map_lock);;
      copy_infos n (S i) dst src
  end.
(** The return value, and what is stored through the first argument. *)
Fixpoint copy_vpi_page (fuel : nat) (src : Z) : K (Z * Z) :=
  match fuel with
  | O => hang
  | S fuel =>
      if src =? 0 then ret (0, 0) else
      dst <- kalloc;
      if dst =? 0 then ret (-1, 0) else
      modify (fun s => s <| k_pages ::= <[PGNUM (V2P dst) := PVpi vpi_page_zero]> |>);;
      copy_infos (Z.to_nat VPIPPAGE) 0 dst src;;
      v <- vpi_page_at src;
      '(x, next) <- copy_vpi_page fuel (vpi_next v);
      vpi_page_mod dst (fun d => d <| vpi_next := next |>);;
      ret (x, dst)
  end.
Fixpoint vspacecopy_regions (n i : nat) (dst : vspace) : K (vspace * Z) :=
  match n with
  | O => ret (dst, 0)
  | S n =>
      vr <- region dst i;
      m <- gets (fun s => npages (k_kmem s));
      '(x, p) <- copy_vpi_page (S (S (Z.to_nat m))) (vr_pages vr);
      let dst := with_region dst i (vr <| vr_pages := p |>) in
      if x <? 0 then ret (dst, -1) else vspacecopy_regions n (S i) dst
  end.
(** The copy, the source and the return value. *)
Definition vspacecopy (dst src : vspace) : K (vspace * vspace * Z) :=
  '(dst, x) <- vspacecopy_regions NREGIONS 0 (dst <| vs_regions := vs_regions src |>);
  if x <? 0 then ret (dst, src, -1) else
  dst <- vspaceinvalidate dst;
  src <- vspaceinvalidate src;
  ret (dst, src, 0).

(** * The user stack *)

Definition vspaceinitstack (vs : vspace) (start : Z) : K (vspace * Z) :=
  vr <- region vs VR_USTACK;
  let vr := vr <| va_base := start |> <| vr_size := PGSIZE |> in
  '(vr, x) <- vregionaddmap vr (u64 (start - PGSIZE)) PGSIZE VPI_PRESENT VPI_WRITABLE;
  let vs := with_region vs VR_USTACK vr in
  if x <? 0 then ret (vs, -1) else
  vs <- vspaceinvalidate vs;
  ret (vs, 0).

Fixpoint writetova_loop (fuel : nat) (vs : vspace) (va stop : Z) (data : list Z) (sz : Z) :
    K (vspace * Z) :=
  match fuel with
  | O => hang
  | S fuel =>
      if va <? stop then
        let wsz := u64 (Z.min (s32 (PGROUNDUP va - va)) sz) in
        match va2vregion vs va with
        | None => ret (vs, -1)
        | Some i =>
            vr <- region vs i;
            '(vr, o) <- va2vpage_info vr va;
            let vs := with_region vs i vr in
            q <- deref o;
            v <- vpi_get q;
            assert_ (negb (vpi_used v =? 0));;
            if vpi_writable v =? 0 then ret (vs, -1) else
            if (length data <? Z.to_nat wsz)%nat then fault else
            page_put (ppn_page v) (va mod PGSIZE) (take (Z.to_nat wsz) data);;
            writetova_loop fuel vs (u64 (va + wsz)) stop (drop (Z.to_nat wsz) data) (s32 (sz - wsz))
        end
      else ret (vs, 0)
  end.
Definition vspacewritetova (vs : vspace) (va : Z) (data : list Z) (sz : Z) : K (vspace * Z) :=
  if sz <=? 0 then panic "sz less than or equal to 0" else
  if KERNBASE <=? u64 (va + sz) then panic "went over kernel vm base" else
  writetova_loop (S (Z.to_nat sz)) vs va (u64 (va + sz)) data sz.

(** * Loading a program *)

Definition ELF_MAGIC : Z := 0x464C457F.
Definition ELF_PROG_LOAD : Z := 1.
Record elfhdr := mkElf { e_magic : Z; e_entry : Z; e_phoff : Z; e_phnum : Z }.
Definition sizeof_elfhdr : Z := 64.
Definition elfhdr_of (bs : list Z) : elfhdr :=
  mkElf (field_at 0 4 bs) (field_at 24 8 bs) (field_at 32 8 bs) (field_at 56 2 bs).
Record proghdr := mkProghdr { ph_type : Z; ph_off : Z; ph_vaddr : Z; ph_filesz : Z; ph_memsz : Z }.
Definition sizeof_proghdr : Z := 56.
Definition proghdr_of (bs : list Z) : proghdr :=
  mkProghdr (field_at 0 4 bs) (field_at 8 8 bs) (field_at 16 8 bs) (field_at 32 8 bs)
    (field_at 40 8 bs).

Section Load.
Context {D : Driver} {V : Devsw}.

Fixpoint vrloaddata_loop (fuel : nat) (r : vregion) (va : Z) (ip : iptr) (offset sz i : Z) :
    K (vregion * Z) :=
  match fuel with
  | O => hang
  | S fuel =>
      if i <? sz then
        '(r, o) <- va2vpage_info r (u64 (va + i));
        q <- deref o;
        v <- vpi_get q;
        if vpi_used v =? 0 then panic "page must be allocated" else
        let n := Z.min (u32 (sz - i)) PGSIZE in
        '(x, bs) <- readi ip (u32 (offset + i)) n;
        page_put (ppn_page v) 0 bs;;
        if negb (u32 x =? n) then ret (r, -1) else
        vrloaddata_loop fuel r va ip offset sz (u32 (i + PGSIZE))
      else ret (r, 0)
  end.
Definition vrloaddata (r : vregion) (va : Z) (ip : iptr) (offset sz : Z) : K (vregion * Z) :=
  if negb (va mod PGSIZE =? 0) then panic "va must be page aligned" else
  vrloaddata_loop (S (S (Z.to_nat (sz / PGSIZE)))) r va ip offset sz 0.

(** The loop over the program headers: the code region, whether it got to the end, and the
    size, which the code leaves unset until a segment is loaded. *)
Fixpoint load_segments (n : nat) (r : vregion) (ip : iptr) (off va : Z) (sz : option Z) :
    K (vregion * bool * option Z) :=
  match n with
  | O => ret (r, true, sz)
  | S n =>
      '(x, bs) <- readi ip (u32 off) sizeof_proghdr;
      if negb (u64 x =? sizeof_proghdr) then ret (r, false, sz) else
      let ph := proghdr_of bs in
      let off' := s32 (off + sizeof_proghdr) in
      if negb (ph_type ph =? ELF_PROG_LOAD) then load_segments n r ip off' va sz else
      if ph_memsz ph <? ph_filesz ph then ret (r, false, sz) else
      if u64 (ph_vaddr ph + ph_memsz ph) <? ph_vaddr ph then ret (r, false, sz) else
      '(r, x) <- vregionaddmap r va (u64 (ph_vaddr ph + ph_memsz ph)) VPI_PRESENT VPI_WRITABLE;
      if x <? 0 then ret (r, false, Some x) else
      if negb (ph_vaddr ph mod PGSIZE =? 0) then ret (r, false, Some x) else
      '(r, y) <- vrloaddata r (ph_vaddr ph) ip (u32 (ph_off ph)) (u32 (ph_filesz ph));
      if y <? 0 then ret (r, false, Some x) else
      load_segments n r ip off' (u64 (va + x)) (Some x)
  end.
Definition elf_failure (vs : vspace) (ip : iptr) : K (vspace * Z * Z) :=
  unlocki ip;; irelease ip;; ret (vs, 0, 0).
(** The address space, the entry point and the size; size 0 on failure. *)
Definition vspaceloadcode (vs : vspace) (path : list Z) : K (vspace * Z * Z) :=
  o <- namei path;
  match o with
  | None => ret (vs, 0, 0)
  | Some ip =>
      locki ip;;
      '(x, bs) <- readi ip 0 sizeof_elfhdr;
      if negb (u64 x =? sizeof_elfhdr) then elf_failure vs ip else
      let elf := elfhdr_of bs in
      if negb (e_magic elf =? ELF_MAGIC) then elf_failure vs ip else
      r <- region vs VR_CODE;
      '(r, fine, sz) <- load_segments (Z.to_nat (e_phnum elf)) (r <| va_base := 0 |>) ip
                          (s32 (e_phoff elf)) 0 None;
      let vs := with_region vs VR_CODE r in
      if negb fine then elf_failure vs ip else
      sz <- deref sz;
      h <- region vs VR_HEAP;
      let vs := with_region vs VR_CODE (r <| vr_size := PGROUNDUP sz |>) in
      let vs := with_region vs VR_HEAP (h <| va_base := PGROUNDUP sz |> <| vr_size := 0 |>) in
      unlocki ip;;
      irelease ip;;
      ret (vs, e_entry elf, sz)
  end.
End Load.
