(* ===== verification/VspaceProofs.v ===== *)
(** Correctness of the page descriptors of kernel/vspace.c: a region's list of descriptor pages
    as one array, pages mapped into a region, and pages shared for copy-on-write. *)
From S2P Require Import Prelude Kstate Locks Kalloc Sched Bytes Bio Fs Paging PagingProofs Vspace.

(** * Allocation *)

Definition in_use_at (s : kstate) (x : nat) : Prop :=
  exists r, core_map (k_kmem s) !! x = Some r /\ available r = 0.
Definition free_at (s : kstate) (x : nat) : Prop :=
  exists r, core_map (k_kmem s) !! x = Some r /\ available r = 1.
(** [s'] is [s] with [k] more pages in use; pages in use in [s] but those of [ns] are untouched,
    and so are the reference counts. *)
Record extended (s : kstate) (ns : list nat) (k : Z) (s' : kstate) : Prop := {
  ex_alloc : alloc_ok s';
  ex_free : free_pages (k_kmem s') = free_pages (k_kmem s) - k;
  ex_npages : npages (k_kmem s') = npages (k_kmem s);
  ex_use x r : core_map (k_kmem s) !! x = Some r -> available r = 0 ->
    core_map (k_kmem s') !! x = Some r;
  ex_pages x : in_use_at s x -> x ∉ ns -> k_pages s' !! Z.of_nat x = k_pages s !! Z.of_nat x;
  ex_was x : free_at s' x -> free_at s x;
  ex_frame : mframe s s' }.
Lemma extended_refl s ns : alloc_ok s -> extended s ns 0 s.
Proof. intros H. split; try done; [lia|apply mframe_refl]. Qed.
Lemma extended_use s ns k s' x : extended s ns k s' -> in_use_at s x -> in_use_at s' x.
Proof. intros E (r & H1 & H2). exists r. split; [by apply (ex_use _ _ _ _ E)|done]. Qed.
Lemma extended_trans s1 ns1 k1 s2 ns2 k2 s3 ns :
  extended s1 ns1 k1 s2 -> extended s2 ns2 k2 s3 ->
  (forall x, x ∈ ns1 -> x ∈ ns) -> (forall x, x ∈ ns2 -> in_use_at s1 x -> x ∈ ns) ->
  extended s1 ns (k1 + k2) s3.
Proof.
  intros E1 E2 H1 H2. split.
  - apply E2.
  - rewrite (ex_free _ _ _ _ E2), (ex_free _ _ _ _ E1). lia.
  - rewrite (ex_npages _ _ _ _ E2). apply E1.
  - intros x r Hx Ha. apply (ex_use _ _ _ _ E2); [|done]. by apply (ex_use _ _ _ _ E1).
  - intros x Hx Hn. rewrite (ex_pages _ _ _ _ E2), (ex_pages _ _ _ _ E1); auto.
    by eapply extended_use.
  - intros x Hx. by apply (ex_was _ _ _ _ E1), (ex_was _ _ _ _ E2).
  - eapply mframe_trans; [apply E1|apply E2].
Qed.

Lemma kalloc_fresh s :
  alloc_ok s -> 1 <= free_pages (k_kmem s) ->
  exists c s', kalloc s = Ok (kva (Z.of_nat c)) s' /\ free_at s c /\ in_use_at s' c /\
    Z.of_nat c < PAGES_MAX /\ k_pages s' = k_pages s /\ extended s [] 1 s' /\
    exists r, core_map (k_kmem s') !! c = Some r /\ ref_count r = 1.
Proof.
  intros [O1 O2 O3] Hf. rewrite (kalloc_run s O1 O2 O3). pose proof (kalloc_km_wf _ O1) as W.
  revert W. unfold kalloc_km. destruct (first_free (core_map (k_kmem s))) as [c|] eqn:Ef.
  2:{ apply first_free_None in Ef. rewrite <-(wf_free _ O1) in Ef. lia. }
  cbn [fst snd]. intros W. apply first_free_spec in Ef as [(r & Hr & Ha) _].
  assert (Z.of_nat c < PAGES_MAX) as Hb.
  { pose proof (wf_len _ O1). pose proof (wf_npages _ O1). apply lookup_lt_Some in Hr. lia. }
  exists c. eexists. split; [done|]. split; [by exists r|].
  split; [eexists; simpl; rewrite list_lookup_alter_eq, Hr; done|].
  split; [done|]. split; [done|]. split; [|eexists; simpl; rewrite list_lookup_alter_eq, Hr; done].
  split; try done.
  - intros x r' Hx Hx0. simpl. rewrite list_lookup_alter_ne; [done|]. intros ->.
    assert (r' = r) as -> by congruence. lia.
  - intros x (r' & Hx & Hx1). simpl in Hx. destruct (decide (x = c)) as [->|Hne]; [by exists r|].
    rewrite list_lookup_alter_ne in Hx by done. by exists r'.
  - unfold mframe. kext.
Qed.

(** * Descriptor pages *)

Definition vpage_at (s : kstate) (x : nat) : option vpi_page := k_pages s !! Z.of_nat x ≫= vpi_page_of.
Notation NVPI := 169%nat.

Lemma field_zero o n m : field_at o n (replicate m 0) = 0.
Proof.
  unfold field_at, slice. apply of_le_zero. apply Forall_take, Forall_drop, Forall_replicate. done.
Qed.
Lemma vpi_page_zeroed : vpi_page_of (page_fill 0) = Some vpi_page_zero.
Proof.
  unfold page_fill. cbn [vpi_page_of]. unfold vpi_page_zero. rewrite field_zero.
  apply (f_equal (fun l => Some (mkVpiPage l 0))).
  apply list_eq. intros i. rewrite list_lookup_fmap. destruct (decide (i < Z.to_nat VPIPPAGE)%nat).
  - rewrite lookup_seq_lt, lookup_replicate_2 by done.
    cbn [fmap option_fmap option_map]. unfold vpi_of_bytes. by rewrite !field_zero.
  - rewrite lookup_seq_ge by lia. symmetry. apply lookup_replicate_None. lia.
Qed.
Lemma vpi_page_at_run s x v :
  Z.of_nat x < PAGES_MAX -> vpage_at s x = Some v -> vpi_page_at (kva (Z.of_nat x)) s = Ok v s.
Proof. intros Hx Hv. unfold vpi_page_at. mrun. rewrite PGNUM_V2P_kva by lia. unfold vpage_at in Hv. by rewrite Hv. Qed.
(** The state with one page of descriptors replaced. *)
Definition put_vpage (x : nat) (v : vpi_page) (s : kstate) : kstate :=
  s <| k_pages ::= <[Z.of_nat x := PVpi v]> |>.
Lemma vpi_page_mod_run s x v f :
  Z.of_nat x < PAGES_MAX -> vpage_at s x = Some v ->
  vpi_page_mod (kva (Z.of_nat x)) f s = Ok tt (put_vpage x (f v) s).
Proof.
  intros Hx Hv. unfold vpi_page_mod. step (vpi_page_at_run s x v Hx Hv). unfold modify, put_vpage.
  by rewrite PGNUM_V2P_kva by lia.
Qed.
Lemma vpage_put_eq x v s : vpage_at (put_vpage x v s) x = Some v.
Proof. unfold vpage_at, put_vpage. simpl. by rewrite lookup_insert_eq. Qed.
Lemma vpage_put_ne x y v s : x <> y -> vpage_at (put_vpage x v s) y = vpage_at s y.
Proof. intros H. unfold vpage_at, put_vpage. simpl. by rewrite lookup_insert_ne by lia. Qed.
Lemma extended_put s ns x v : alloc_ok s -> x ∈ ns -> extended s ns 0 (put_vpage x v s).
Proof.
  intros O Hx. split; simpl; try done; [by destruct O|lia| |unfold mframe, put_vpage; kext].
  intros y _ Hy. rewrite lookup_insert_ne; [done|]. intros E. apply Hy. by assert (y = x) as -> by lia.
Qed.

(** The pages [ns], linked from address [a]. *)
Fixpoint vlist (s : kstate) (a : Z) (ns : list nat) : Prop :=
  match ns with
  | [] => a = 0
  | x :: ns =>
      a = kva (Z.of_nat x) /\ Z.of_nat x < PAGES_MAX /\ in_use_at s x /\
      exists v, vpage_at s x = Some v /\ length (infos v) = NVPI /\ vlist s (vpi_next v) ns
  end.
(** The descriptors of the list as one array. *)
Definition slots (s : kstate) (ns : list nat) : list vpage_info :=
  concat ((fun x => default [] (infos <$> vpage_at s x)) <$> ns).

Lemma vlist_ext s s' ns : forall a,
  (forall x, x ∈ ns -> vpage_at s' x = vpage_at s x) ->
  (forall x, x ∈ ns -> in_use_at s x -> in_use_at s' x) ->
  vlist s a ns -> vlist s' a ns.
Proof.
  induction ns as [|x ns IH]; [done|]. intros a Hv Hu (Ha & Hx & Hi & v & H1 & H2 & H3).
  split; [done|]. split; [done|]. split; [apply Hu; set_solver|]. exists v.
  rewrite Hv by set_solver. split; [done|]. split; [done|]. apply IH; set_solver.
Qed.
Lemma slots_ext s s' ns : (forall x, x ∈ ns -> vpage_at s' x = vpage_at s x) -> slots s' ns = slots s ns.
Proof.
  unfold slots. induction ns as [|x ns IH]; intros H; [done|]. rewrite !fmap_cons. cbn [concat].
  rewrite H by set_solver. f_equal. apply IH. set_solver.
Qed.
Lemma slots_app s l1 l2 : slots s (l1 ++ l2) = slots s l1 ++ slots s l2.
Proof. unfold slots. by rewrite fmap_app, concat_app. Qed.
Lemma slots_cons s x l v : vpage_at s x = Some v -> slots s (x :: l) = infos v ++ slots s l.
Proof. intros H. unfold slots. rewrite fmap_cons, H. done. Qed.
Lemma length_slots s ns : forall a, vlist s a ns -> length (slots s ns) = (NVPI * length ns)%nat.
Proof.
  induction ns as [|x ns IH]; intros a; [done|]. intros (_ & _ & _ & v & H1 & H2 & H3).
  rewrite (slots_cons _ _ _ v H1), length_app, H2, (IH _ H3). cbn [length]. lia.
Qed.
Lemma vlist_in_use s ns x : forall a, vlist s a ns -> x ∈ ns -> in_use_at s x.
Proof.
  induction ns as [|y ns IH]; intros a; [set_solver|]. intros (_ & _ & H & v & _ & _ & H3) Hx.
  apply elem_of_cons in Hx as [->|Hx]; [done|]. by eapply IH.
Qed.

(** * Walking the list *)

Lemma idx_down idx : (NVPI <= idx)%nat ->
  (idx / NVPI = S ((idx - NVPI) / NVPI))%nat /\ (idx mod NVPI = (idx - NVPI) mod NVPI)%nat.
Proof.
  intros H. assert (idx = (idx - NVPI) + 1 * NVPI)%nat as E by lia. split.
  - rewrite E at 1. rewrite Nat.div_add by done. lia.
  - rewrite E at 1. by rewrite Nat.Div0.mod_add.
Qed.
Lemma idx_first idx : (idx / NVPI = 0)%nat <-> (idx < NVPI)%nat.
Proof. apply Nat.div_small_iff. done. Qed.
Lemma walk_there s ns : forall a idx fuel,
  vlist s a ns -> (idx < NVPI * length ns)%nat -> Z.of_nat idx < 2^31 -> (length ns <= fuel)%nat ->
  exists x, ns !! (idx / NVPI)%nat = Some x /\
    vpi_walk fuel a (Z.of_nat idx) s = Ok (Some (kva (Z.of_nat x), (idx mod NVPI)%nat)) s.
Proof.
  induction ns as [|x ns IH]; intros a idx fuel L Hi Hb Hf; [cbn [length] in Hi; lia|].
  destruct L as (-> & Hx & _ & v & Hv & _ & L). destruct fuel as [|fuel]; [cbn [length] in Hf; lia|].
  cbn [vpi_walk]. rewrite (u64_small (Z.of_nat idx)) by lia.
  destruct (decide (idx < NVPI)%nat) as [Hlt|Hge].
  - rewrite Nat.div_small, Nat.mod_small by done. exists x. split; [done|].
    rewrite (proj2 (Z.leb_gt _ _)) by (unfold VPIPPAGE in *; lia). by rewrite Nat2Z.id.
  - rewrite (proj2 (Z.leb_le _ _)) by (unfold VPIPPAGE in *; lia).
    rewrite kva_neq_0 by lia. step (vpi_page_at_run s x v Hx Hv). cbv beta.
    replace (Z.of_nat idx) with (Z.of_nat (idx - NVPI) + VPIPPAGE) by (unfold VPIPPAGE in *; lia).
    destruct ns as [|y ns]; [cbn [length] in Hi; lia|].
    destruct (IH (vpi_next v) (idx - NVPI)%nat fuel L) as (z & Hz & Hr); [cbn [length] in *; lia|lia|cbn [length] in *; lia|].
    destruct (idx_down idx) as [-> ->]; [lia|].
    exists z. split; [done|]. destruct L as (Hn & _). rewrite Hn, kva_neq_0, <-Hn by lia.
    rewrite Z.add_simpl_r, s32_small by lia. apply Hr.
Qed.

(** What a walk to descriptor [idx] does to the list [ns]: it reaches page [y] of a list longer
    by the fresh, zeroed pages [cs]. *)
Record walked (s : kstate) (a : Z) (ns : list nat) (idx y : nat) (cs : list nat) (s' : kstate) :
    Prop := {
  wk_length : length cs = (idx / NVPI + 1 - length ns)%nat;
  wk_at : (ns ++ cs) !! (idx / NVPI)%nat = Some y;
  wk_list : vlist s' a (ns ++ cs);
  wk_slots : slots s' (ns ++ cs) = slots s ns ++ replicate (NVPI * length cs) vpi_zero;
  wk_ext : extended s ns (Z.of_nat (length cs)) s';
  wk_free x : x ∈ cs -> free_at s x;
  wk_nodup : NoDup (ns ++ cs) }.

Lemma free_not_use s x : free_at s x -> in_use_at s x -> False.
Proof. intros (r & H1 & H2) (r' & H3 & H4). rewrite H1 in H3. injection H3 as <-. lia. Qed.
(** The last page of a list gets a successor. *)
Lemma append_page s x v :
  alloc_ok s -> 1 <= free_pages (k_kmem s) -> Z.of_nat x < PAGES_MAX -> in_use_at s x ->
  vpage_at s x = Some v -> length (infos v) = NVPI ->
  exists c s1, kalloc s = Ok (kva (Z.of_nat c)) s1 /\
    let s' := put_vpage x (v <| vpi_next := kva (Z.of_nat c) |>) s1
                <| k_pages ::= <[Z.of_nat c := page_fill 0]> |> in
    vpage_at s1 x = Some v /\ free_at s c /\ extended s [x] 1 s' /\
    vlist s' (kva (Z.of_nat x)) [x; c] /\ slots s' [x; c] = infos v ++ replicate NVPI vpi_zero.
Proof.
  intros O Hf Hx Hu Hv Hl. destruct (kalloc_fresh s O Hf) as (c & s1 & Hk & Hfree & Huse & Hc & Hpg & E & _).
  exists c, s1. split; [done|]. intros s'.
  assert (x <> c) as Hne by (intros ->; by eapply free_not_use).
  assert (vpage_at s' x = Some (v <| vpi_next := kva (Z.of_nat c) |>)) as H1.
  { unfold vpage_at, s'. simpl. rewrite lookup_insert_ne, lookup_insert_eq by lia. done. }
  assert (vpage_at s' c = Some vpi_page_zero) as H2.
  { unfold vpage_at, s'. simpl k_pages. rewrite lookup_insert_eq. apply vpi_page_zeroed. }
  split; [unfold vpage_at; by rewrite Hpg|]. split; [done|]. split; [|split].
  - destruct E as [E1 E2 E3 E4 E5 E6]. unfold s'. split; simpl; try done.
    + by destruct E1.
    + intros y Hy Hn. rewrite !lookup_insert_ne; [by rewrite Hpg| |].
      * intros ?. assert (y = x) as -> by lia. set_solver.
      * intros ?. assert (y = c) as -> by lia. by eapply free_not_use.
  - cbn [vlist]. split; [done|]. split; [done|]. split.
    { destruct (extended_use _ _ _ _ x E Hu) as (r & ? & ?). by exists r. }
    eexists. split; [done|]. split; [done|]. cbn [vpi_next]. split; [done|]. split; [done|].
    split; [by destruct Huse as (r & ? & ?); exists r|]. eexists. split; [done|]. done.
  - rewrite (slots_cons _ _ _ _ H1), (slots_cons _ _ _ _ H2).
    change (slots s' []) with (@nil vpage_info). by rewrite app_nil_r.
Qed.

Lemma vpage_extended s ns k s' x :
  extended s ns k s' -> in_use_at s x -> x ∉ ns -> vpage_at s' x = vpage_at s x.
Proof. intros E Hu Hn. unfold vpage_at. by rewrite (ex_pages _ _ _ _ E). Qed.
(** From the walk behind the first page to the walk from it. *)
Lemma walked_down s a x v ns idx y cs s' :
  vlist s a (x :: ns) -> NoDup (x :: ns) -> vpage_at s x = Some v -> (NVPI <= idx)%nat ->
  walked s (vpi_next v) ns (idx - NVPI) y cs s' -> walked s a (x :: ns) idx y cs s'.
Proof.
  intros (-> & Hx & Hu & v' & Hv' & Hl & L) [Hn Hnd]%NoDup_cons Hv Hi W.
  rewrite Hv in Hv'. injection Hv' as <-. destruct (idx_down idx Hi) as [Hd _].
  pose proof (vpage_extended _ _ _ _ x (wk_ext _ _ _ _ _ _ _ W) Hu Hn) as Hp. rewrite Hv in Hp. split.
  - rewrite (wk_length _ _ _ _ _ _ _ W), Hd. cbn [length]. lia.
  - rewrite Hd. apply (wk_at _ _ _ _ _ _ _ W).
  - cbn [app vlist]. split; [done|]. split; [done|].
    split; [by eapply extended_use; [apply W|]|]. exists v. split; [done|]. split; [done|]. apply W.
  - cbn [app]. rewrite (slots_cons _ _ _ _ Hp), (slots_cons _ _ _ _ Hv), (wk_slots _ _ _ _ _ _ _ W).
    by rewrite app_assoc.
  - rewrite <-(Z.add_0_r (Z.of_nat _)). eapply extended_trans; [apply W|apply extended_refl, W| |].
    + intros z Hz. by apply list_elem_of_further.
    + intros z Hz. by apply elem_of_nil in Hz.
  - apply W.
  - cbn [app]. apply NoDup_cons. split; [|apply W]. rewrite elem_of_app. intros [Hz|Hz]; [done|].
    eapply free_not_use; [by apply (wk_free _ _ _ _ _ _ _ W)|done].
Qed.
(** The list grew by [c] first. *)
Lemma walked_trans s a ns c s1 idx y cs s' :
  extended s ns 1 s1 -> free_at s c -> slots s1 (ns ++ [c]) = slots s ns ++ replicate NVPI vpi_zero ->
  (length ns <= idx / NVPI)%nat ->
  walked s1 a (ns ++ [c]) idx y cs s' -> walked s a ns idx y (c :: cs) s'.
Proof.
  intros E Hc Hs Hi W. pose proof (app_assoc ns [c] cs) as Happ. cbn [app] in Happ. split.
  - cbn [length]. rewrite (wk_length _ _ _ _ _ _ _ W), length_app. cbn [length]. lia.
  - rewrite Happ. apply W.
  - rewrite Happ. apply W.
  - rewrite Happ, (wk_slots _ _ _ _ _ _ _ W), Hs, <-app_assoc.
    f_equal. rewrite <-replicate_add. f_equal. cbn [length]. lia.
  - replace (Z.of_nat (length (c :: cs))) with (1 + Z.of_nat (length cs)) by (cbn [length]; lia).
    eapply extended_trans; [apply E|apply W|done|]. intros z Hz Hu.
    apply elem_of_app in Hz as [Hz|Hz]; [done|]. apply list_elem_of_singleton in Hz as ->.
    exfalso. by eapply free_not_use.
  - intros z [->|Hz]%elem_of_cons; [done|]. apply (ex_was _ _ _ _ E).
    by apply (wk_free _ _ _ _ _ _ _ W).
  - rewrite Happ. apply W.
Qed.
Lemma walked_here s a ns idx y :
  alloc_ok s -> vlist s a ns -> NoDup ns -> ns !! (idx / NVPI)%nat = Some y -> walked s a ns idx y [] s.
Proof.
  intros O L Hnd Hy. split; rewrite ?app_nil_r; try done.
  - apply lookup_lt_Some in Hy. cbn [length]. lia.
  - by apply extended_refl.
  - intros z Hz. by apply elem_of_nil in Hz.
Qed.
Lemma elem_free_ne s (x c : nat) : in_use_at s x -> free_at s c -> x <> c.
Proof. intros H1 H2 ->. by eapply free_not_use. Qed.
Lemma walk_end k : forall x s idx fuel,
  alloc_ok s -> vlist s (kva (Z.of_nat x)) [x] -> (idx / NVPI = k)%nat -> Z.of_nat idx < 2^31 ->
  Z.of_nat k <= free_pages (k_kmem s) -> (k < fuel)%nat ->
  exists y cs s', vpi_walk fuel (kva (Z.of_nat x)) (Z.of_nat idx) s =
      Ok (Some (kva (Z.of_nat y), (idx mod NVPI)%nat)) s' /\
    walked s (kva (Z.of_nat x)) [x] idx y cs s'.
Proof.
  induction k as [|k IH]; intros x s idx fuel O L Hk Hb Hf Hfuel.
  - apply idx_first in Hk as Hi.
    destruct (walk_there s [x] _ idx fuel L) as (y & Hy & Hr); [cbn [length]; lia|done|simpl; lia|].
    exists y, [], s. split; [done|]. apply walked_here; auto. repeat constructor; set_solver.
  - destruct L as (_ & Hx & Hu & v & Hv & Hl & Hnx). cbn [vlist] in Hnx.
    assert (~ (idx < NVPI)%nat) as Hge by (rewrite <-idx_first; lia).
    destruct fuel as [|fuel]; [lia|]. cbn [vpi_walk]. rewrite (u64_small (Z.of_nat idx)) by lia.
    rewrite (proj2 (Z.leb_le _ _)) by (unfold VPIPPAGE; lia).
    rewrite kva_neq_0 by lia. step (vpi_page_at_run s x v Hx Hv). cbv beta. rewrite Hnx.
    destruct (append_page s x v) as (c & s1 & Hka & Hv1 & Hc & E & L & Hs); auto; [lia|].
    cbn [Z.eqb]. step Hka. cbv beta. step (vpi_page_mod_run s1 x v (fun v => v <| vpi_next := kva (Z.of_nat c) |>) Hx Hv1).
    pose proof L as (_ & _ & _ & v2 & Hv2 & _ & (Hnx2 & Hcb & _)).
    rewrite kva_neq_0 by lia. unfold page_memset. mrun. rewrite PGNUM_V2P_kva by lia.
    set (s2 := put_vpage _ _ _ <| k_pages ::= _ |>) in *.
    assert (x <> c) as Hne by (by eapply elem_free_ne).
    assert (vlist s2 (kva (Z.of_nat c)) [c]) as Lc.
    { destruct L as (_ & _ & _ & v3 & _ & _ & Lc). pose proof Lc as (<- & _). done. }
    destruct (IH c s2 (idx - NVPI)%nat fuel) as (y & cs & s' & Hr & W); try done.
    + apply E.
    + destruct (idx_down idx); lia.
    + lia.
    + rewrite (ex_free _ _ _ _ E). lia.
    + lia.
    + exists y, (c :: cs), s'. destruct (idx_down idx) as [_ Hm]; [lia|]. split.
      * rewrite s32_small by (unfold VPIPPAGE; lia). rewrite Hm, <-Hr.
        replace (Z.of_nat idx - VPIPPAGE) with (Z.of_nat (idx - NVPI)) by (unfold VPIPPAGE; lia). done.
      * eapply walked_trans; [done|done| |cbn [length]; lia|]. { cbn [app]. by rewrite Hs, (slots_cons _ _ _ _ Hv), app_nil_r. }
        eapply walked_down; [done| |done|lia|by rewrite Hnx2].
        repeat constructor; set_solver.
Qed.

Lemma walk_run s : alloc_ok s -> forall ns a idx fuel,
  vlist s a ns -> ns <> [] -> NoDup ns -> Z.of_nat idx < 2^31 ->
  Z.of_nat (idx / NVPI + 1 - length ns) <= free_pages (k_kmem s) -> (idx / NVPI < fuel)%nat ->
  exists y cs s', vpi_walk fuel a (Z.of_nat idx) s =
      Ok (Some (kva (Z.of_nat y), (idx mod NVPI)%nat)) s' /\ walked s a ns idx y cs s'.
Proof.
  intros O. induction ns as [|x ns IH]; intros a idx fuel L Hne Hnd Hb Hf Hfuel; [done|].
  destruct ns as [|z ns].
  { pose proof L as (-> & _). cbn [length] in Hf. apply (walk_end (idx / NVPI)%nat); auto. lia. }
  pose proof L as (-> & Hx & Hu & v & Hv & Hl & L'). pose proof L' as (Hnx & _).
  destruct fuel as [|fuel]; [lia|]. cbn [vpi_walk]. rewrite (u64_small (Z.of_nat idx)) by lia.
  destruct (decide (idx < NVPI)%nat) as [Hlt|Hge].
  - rewrite (proj2 (Z.leb_gt _ _)), Nat2Z.id by (unfold VPIPPAGE; lia).
    exists x, [], s. rewrite Nat.mod_small by done. split; [done|]. apply walked_here; auto.
    by rewrite Nat.div_small.
  - destruct (idx_down idx) as [Hd ->]; [lia|].
    rewrite (proj2 (Z.leb_le _ _)), kva_neq_0 by (unfold VPIPPAGE; lia).
    step (vpi_page_at_run s x v Hx Hv). cbv beta. rewrite Hnx, kva_neq_0, <-Hnx by lia.
    replace (s32 (Z.of_nat idx - VPIPPAGE)) with (Z.of_nat (idx - NVPI))
      by (rewrite s32_small; unfold VPIPPAGE; lia).
    pose proof Hnd as [_ Hnd']%NoDup_cons.
    destruct (IH (vpi_next v) (idx - NVPI)%nat fuel L') as (y & cs & s' & Hr & W); auto; try lia.
    { cbn [length] in *. lia. }
    exists y, cs, s'. split; [done|]. eapply walked_down; [done..|lia|done].
Qed.

(** A list and the free pages fit into memory together. *)
Lemma cnt_outside {A} (P : A -> bool) (l : list A) (ns : list nat) :
  NoDup ns -> (forall x, x ∈ ns -> exists r, l !! x = Some r /\ P r = false) ->
  Z.of_nat (length ns) + cnt P l <= Z.of_nat (length l).
Proof.
  revert ns. induction l as [|r l IH] using rev_ind; intros ns Hnd Hns.
  - destruct ns as [|x ns]; [simpl; lia|]. destruct (Hns x) as (? & ? & _); [set_solver|done].
  - rewrite cnt_app, length_app. cbn [cnt length].
    assert (length ns <= length (filter (fun x => x <> length l) ns) + Z.to_nat (1 - Z.b2z (P r)))%nat as Hlen.
    { destruct (P r) eqn:Hr; cbn [Z.b2z].
      - enough (ns ⊆+ filter (fun x => x <> length l) ns) as H by (apply submseteq_length in H; lia).
        apply NoDup_submseteq; [done|]. intros x Hx. apply list_elem_of_filter. split; [|done]. intros ->.
        destruct (Hns _ Hx) as (r' & H1 & H2). rewrite list_lookup_middle in H1 by done. congruence.
      - assert (ns ⊆+ length l :: filter (fun x => x <> length l) ns) as H.
        { apply NoDup_submseteq; [done|]. intros x Hx. rewrite elem_of_cons, list_elem_of_filter.
          destruct (decide (x = length l)); auto. }
        apply submseteq_length in H. simpl in *. lia. }
    specialize (IH (filter (fun x => x <> length l) ns)). destruct (P r); cbn [Z.b2z] in *.
    all: enough (Z.of_nat (length (filter (fun x => x <> length l) ns)) + cnt P l <= Z.of_nat (length l)) by lia.
    all: apply IH; [by apply NoDup_filter|]; intros x [Hx Hin]%list_elem_of_filter.
    all: destruct (Hns x Hin) as (r' & H1 & H2); exists r'; split; [|done].
    all: rewrite lookup_app_l in H1; [done|]; apply lookup_lt_Some in H1; rewrite length_app in H1; simpl in H1; lia.
Qed.
Lemma list_and_free s ns :
  kmem_wf (k_kmem s) -> NoDup ns -> (forall x, x ∈ ns -> in_use_at s x) ->
  Z.of_nat (length ns) + free_pages (k_kmem s) <= npages (k_kmem s).
Proof.
  intros W Hnd Hu. rewrite (wf_free _ W), <-(wf_len _ W). apply cnt_outside; [done|].
  intros x Hx. destruct (Hu x Hx) as (r & H1 & H2). exists r. split; [done|]. unfold is_free. by rewrite H2.
Qed.

(** * Regions *)

(** The descriptors of region [vr] are in the pages [ns]. *)
Record region_ok (s : kstate) (vr : vregion) (ns : list nat) : Prop := {
  ro_list : vlist s (vr_pages vr) ns;
  ro_nodup : NoDup ns }.
(** Descriptor [i] of the region: zeros behind the end of the list. *)
Definition slot (s : kstate) (ns : list nat) (i : nat) : vpage_info := default vpi_zero (slots s ns !! i).
Lemma slot_grown s s' ns ns' n :
  slots s' ns' = slots s ns ++ replicate n vpi_zero -> forall i, slot s' ns' i = slot s ns i.
Proof.
  intros H i. unfold slot. rewrite H. destruct (decide (i < length (slots s ns))%nat).
  - by rewrite lookup_app_l.
  - rewrite lookup_app_r, (lookup_ge_None_2 (slots s ns)) by lia. simpl.
    destruct (replicate n vpi_zero !! _) as [v|] eqn:E; [|done]. by apply lookup_replicate in E as [-> _].
Qed.

Lemma new_page s :
  alloc_ok s -> 1 <= free_pages (k_kmem s) ->
  exists c s1, kalloc s = Ok (kva (Z.of_nat c)) s1 /\ Z.of_nat c < PAGES_MAX /\ free_at s c /\
    let s' := s1 <| k_pages ::= <[Z.of_nat c := page_fill 0]> |> in
    page_memset (kva (Z.of_nat c)) 0 s1 = Ok tt s' /\ extended s [] 1 s' /\
    (exists r, core_map (k_kmem s') !! c = Some r /\ available r = 0 /\ ref_count r = 1) /\
    k_pages s' = <[Z.of_nat c := page_fill 0]> (k_pages s).
Proof.
  intros O Hf. destruct (kalloc_fresh s O Hf) as (c & s1 & Hk & Hfree & Huse & Hc & Hpg & E & r & Hr & Hc1).
  exists c, s1. split; [done|]. split; [done|]. split; [done|]. intros s'. split; [|split; [|split]].
  - unfold page_memset, modify. by rewrite PGNUM_V2P_kva by lia.
  - destruct E as [E1 E2 E3 E4 E5 E6 E7]. unfold s'. split; simpl; try done; [by destruct E1|].
    intros x Hx _. rewrite Hpg, lookup_insert_ne; [done|]. intros ?. assert (x = c) as -> by lia.
    by eapply free_not_use.
  - exists r. split; [done|]. split; [|done]. destruct Huse as (r' & H1 & H2). congruence.
  - unfold s'. simpl. by rewrite Hpg.
Qed.

Section at_region.
Context (s : kstate) (vr : vregion) (ns : list nat) (O : alloc_ok s) (R : region_ok s vr ns).

Lemma va2vpage_info_run va idx :
  va2vpi_idx vr va = Z.of_nat idx -> Z.of_nat idx < 2^31 ->
  Z.of_nat (idx / NVPI + 1 - length ns) <= free_pages (k_kmem s) ->
  exists p y cs s', walked s p ns idx y cs s' /\
    va2vpage_info vr va s =
      Ok (vr <| vr_pages := p |>, Some (kva (Z.of_nat y), (idx mod NVPI)%nat)) s'.
Proof.
  intros Hi Hb Hf. destruct R as [L Hnd]. unfold va2vpage_info.
  pose proof (list_and_free s ns (ao_wf _ O) Hnd (fun x Hx => vlist_in_use _ _ _ _ L Hx)) as Hfit.
  destruct ns as [|x l] eqn:Hns.
  - cbn [vlist] in L. rewrite L. cbn [Z.eqb length] in *.
    destruct (new_page s O) as (c & s1 & Hk & Hc & Hfree & Hm & E & (r & Hr & Hr0 & _) & Hpg); [lia|].
    set (s2 := s1 <| k_pages ::= _ |>) in *.
    assert ((p <- kalloc; if p =? 0 then fault else page_memset p 0;; ret (vr <| vr_pages := p |>)) s
      = Ok (vr <| vr_pages := kva (Z.of_nat c) |>) s2) as Hinit.
    { step Hk. cbv beta. rewrite kva_neq_0 by lia. by step Hm. }
    step Hinit. cbv beta. mrun. cbn [vr_pages]. rewrite (ex_npages _ _ _ _ E).
    assert (vpage_at s2 c = Some vpi_page_zero) as Hz.
    { unfold vpage_at. rewrite Hpg, lookup_insert_eq. apply vpi_page_zeroed. }
    destruct (walk_run s2 (ex_alloc _ _ _ _ E) [c] (kva (Z.of_nat c)) idx (S (S (Z.to_nat (npages (k_kmem s))))))
      as (y & cs & s' & Hr1 & W); [| |repeat constructor; set_solver|done| | |].
    + split; [done|]. split; [done|]. split; [by exists r|]. exists vpi_page_zero. done.
    + done.
    + rewrite (ex_free _ _ _ _ E). cbn [length]. lia.
    + lia.
    + exists (kva (Z.of_nat c)), y, (c :: cs), s'. split.
      * eapply (walked_trans _ _ []); [done|done| |cbn [length]; lia|done].
        cbn [app]. by rewrite (slots_cons _ _ _ _ Hz).
      * change (va2vpi_idx (vr <| vr_pages := kva (Z.of_nat c) |>) va) with (va2vpi_idx vr va).
        rewrite Hi. by step Hr1.
  - pose proof L as (Ha & _). rewrite Ha, kva_neq_0 by lia. mrun. rewrite Hi.
    destruct (walk_run s O (x :: l) (vr_pages vr) idx (S (S (Z.to_nat (npages (k_kmem s))))))
      as (y & cs & s' & Hr1 & W); try done; [cbn [length] in *; lia|].
    exists (vr_pages vr), y, cs, s'. split; [done|]. step Hr1. by destruct vr.
Qed.
Lemma va2vpage_info_there va idx y :
  va2vpi_idx vr va = Z.of_nat idx -> Z.of_nat idx < 2^31 -> ns !! (idx / NVPI)%nat = Some y ->
  va2vpage_info vr va s = Ok (vr, Some (kva (Z.of_nat y), (idx mod NVPI)%nat)) s.
Proof.
  intros Hi Hb Hy. destruct R as [L Hnd]. unfold va2vpage_info.
  pose proof (list_and_free s ns (ao_wf _ O) Hnd (fun x Hx => vlist_in_use _ _ _ _ L Hx)) as Hfit.
  pose proof (wf_free _ (ao_wf _ O)). pose proof (cnt_nonneg is_free (core_map (k_kmem s))).
  pose proof (lookup_lt_Some _ _ _ Hy) as Hlt.
  pose proof (Nat.div_mod_eq idx NVPI). pose proof (Nat.mod_upper_bound idx NVPI).
  destruct (walk_there s ns (vr_pages vr) idx (S (S (Z.to_nat (npages (k_kmem s)))))) as (z & Hz & Hr);
    [done|lia|done|lia|].
  assert (vr_pages vr =? 0 = false) as ->.
  { destruct ns as [|x l]; [done|]. destruct L as (-> & _). apply kva_neq_0. lia. }
  mrun. rewrite Hi. step Hr. rewrite Hy in Hz. by injection Hz as <-.
Qed.
End at_region.

Lemma vlist_at s ns k y : forall a, vlist s a ns -> ns !! k = Some y ->
  Z.of_nat y < PAGES_MAX /\ exists v, vpage_at s y = Some v /\ length (infos v) = NVPI.
Proof.
  revert k. induction ns as [|x ns IH]; intros k a L Hy; [done|].
  destruct L as (_ & Hx & _ & v & Hv & Hl & L). destruct k as [|k]; [|by eapply IH].
  injection Hy as ->. eauto.
Qed.
Lemma slots_lookup s ns idx y v : forall a, vlist s a ns -> ns !! (idx / NVPI)%nat = Some y ->
  vpage_at s y = Some v -> slots s ns !! idx = infos v !! (idx mod NVPI)%nat.
Proof.
  revert idx. induction ns as [|x ns IH]; intros idx a L Hy Hv; [done|].
  destruct L as (_ & Hx & _ & w & Hw & Hl & L). rewrite (slots_cons _ _ _ _ Hw).
  destruct (decide (idx < NVPI)%nat) as [Hlt|Hge].
  - rewrite lookup_app_l, Nat.mod_small by lia. rewrite Nat.div_small in Hy by done.
    injection Hy as ->. congruence.
  - destruct (idx_down idx) as [Hd ->]; [lia|]. rewrite Hd in Hy.
    rewrite lookup_app_r, Hl by lia. by eapply IH.
Qed.
Lemma vlist_put s ns a y v v' :
  vlist s a ns -> NoDup ns -> vpage_at s y = Some v -> vpi_next v' = vpi_next v ->
  length (infos v') = NVPI -> vlist (put_vpage y v' s) a ns.
Proof.
  revert a. induction ns as [|x ns IH]; intros a L Hnd Hv Hn Hl; [done|].
  apply NoDup_cons in Hnd as [Hx Hnd]. destruct L as (Ha & Hb & Hu & w & Hw & Hlw & L). split; [done|]. split; [done|]. split; [done|].
  destruct (decide (x = y)) as [->|Hne].
  - exists v'. rewrite vpage_put_eq. split; [done|]. split; [done|]. rewrite Hn.
    assert (w = v) as -> by congruence. apply (vlist_ext s); [|intros z _ Hz; exact Hz|done].
    intros z Hz. apply vpage_put_ne. by intros ->.
  - exists w. rewrite vpage_put_ne by done. split; [done|]. split; [done|]. by apply IH.
Qed.
Lemma slots_put s ns a idx y v f :
  vlist s a ns -> NoDup ns -> ns !! (idx / NVPI)%nat = Some y -> vpage_at s y = Some v ->
  slots (put_vpage y (v <| infos ::= upd_at (idx mod NVPI)%nat f |>) s) ns = alter f idx (slots s ns).
Proof.
  revert a idx. induction ns as [|x ns IH]; intros a idx L Hnd Hy Hv; [done|].
  apply NoDup_cons in Hnd as [Hx Hnd]. destruct L as (_ & Hb & _ & w & Hw & Hl & L).
  rewrite (slots_cons s _ _ _ Hw). destruct (decide (idx < NVPI)%nat) as [Hlt|Hge].
  - rewrite Nat.div_small in Hy by done. injection Hy as ->.
    rewrite (slots_cons _ _ _ _ (vpage_put_eq _ _ _)), Nat.mod_small by done.
    assert (w = v) as -> by congruence. rewrite alter_app_l by lia. cbn [infos]. f_equal.
    apply slots_ext. intros z Hz. apply vpage_put_ne. by intros ->.
  - destruct (idx_down idx) as [Hd ->]; [lia|]. rewrite Hd in Hy. cbn [lookup list_lookup] in Hy.
    assert (x <> y) by (intros ->; apply Hx; by eapply list_elem_of_lookup_2).
    rewrite (slots_cons _ _ _ w) by (by rewrite vpage_put_ne).
    replace idx with (length (infos w) + (idx - NVPI))%nat at 2 by lia. rewrite alter_app_r. f_equal.
    by eapply IH.
Qed.

Lemma vpi_mod_run s vr ns idx y f :
  alloc_ok s -> region_ok s vr ns -> ns !! (idx / NVPI)%nat = Some y ->
  exists s', vpi_mod (kva (Z.of_nat y), (idx mod NVPI)%nat) f s = Ok tt s' /\ region_ok s' vr ns /\
    (forall j, slot s' ns j = if decide (j = idx) then f (slot s ns j) else slot s ns j) /\
    extended s ns 0 s' /\ k_kmem s' = k_kmem s.
Proof.
  intros O [L Hnd] Hy. destruct (vlist_at _ _ _ _ _ L Hy) as (Hb & v & Hv & Hl).
  exists (put_vpage y (v <| infos ::= upd_at (idx mod NVPI)%nat f |>) s). split; [|split; [|split; [|split]]].
  - unfold vpi_mod. cbn [fst snd]. by rewrite (vpi_page_mod_run s y v).
  - split; [|done]. eapply vlist_put; [done|done|done|done|].
    change (length (alter f (idx mod NVPI)%nat (infos v)) = NVPI). by rewrite length_alter.
  - intros j. unfold slot. rewrite (slots_put _ _ _ _ _ _ _ L Hnd Hy Hv).
    destruct (decide (j = idx)) as [->|Hj]; [|by rewrite list_lookup_alter_ne].
    rewrite list_lookup_alter_eq, (slots_lookup _ _ _ _ _ _ L Hy Hv).
    destruct (lookup_lt_is_Some_2 (infos v) (idx mod NVPI)) as [x ->]; [|done].
    rewrite Hl. by apply Nat.mod_upper_bound.
  - apply extended_put; [done|]. by eapply list_elem_of_lookup_2.
  - done.
Qed.
Lemma vpi_get_run s vr ns idx y :
  region_ok s vr ns -> ns !! (idx / NVPI)%nat = Some y ->
  vpi_get (kva (Z.of_nat y), (idx mod NVPI)%nat) s = Ok (slot s ns idx) s.
Proof.
  intros [L Hnd] Hy. destruct (vlist_at _ _ _ _ _ L Hy) as (Hb & v & Hv & Hl).
  unfold vpi_get. cbn [fst snd]. step (vpi_page_at_run s y v Hb Hv). cbv beta.
  unfold slot. rewrite (slots_lookup _ _ _ _ _ _ L Hy Hv).
  destruct (lookup_lt_is_Some_2 (infos v) (idx mod NVPI)) as [x ->]; [|done].
  rewrite Hl. by apply Nat.mod_upper_bound.
Qed.

(** * Adding pages to a region *)

Definition fill (present writable : Z) (f : nat) (v : vpage_info) : vpage_info :=
  v <| vpi_used := 1 |> <| vpi_present := present |> <| vpi_writable := writable |>
    <| vpi_ppn := Z.of_nat f |>.
(** Descriptors [j] of region [vr] now describe the fresh pages [m !! j], full of zeros; the other
    descriptors, and the pages in use, are as they were. *)
Record added (present writable : Z) (s : kstate) (vr : vregion) (ns : list nat) (m : gmap nat nat)
    (s' : kstate) (vr' : vregion) (ns' : list nat) : Prop := {
  ad_region : region_ok s' vr' ns';
  ad_vr : vr' = vr <| vr_pages := vr_pages vr' |>;
  ad_longer : ns `prefix_of` ns';
  ad_slots j : slot s' ns' j = match m !! j with
                               | Some f => fill present writable f (slot s ns j)
                               | None => slot s ns j
                               end;
  ad_frames j f : m !! j = Some f ->
    free_at s f /\ f ∉ ns' /\ k_pages s' !! Z.of_nat f = Some (page_fill 0) /\
    exists r, core_map (k_kmem s') !! f = Some r /\ available r = 0 /\ ref_count r = 1;
  ad_inj j1 j2 f : m !! j1 = Some f -> m !! j2 = Some f -> j1 = j2;
  ad_fresh x : x ∈ ns' -> x ∈ ns \/ free_at s x;
  ad_ext : extended s ns (Z.of_nat (size m) + Z.of_nat (length ns') - Z.of_nat (length ns)) s' }.
Lemma added_refl present writable s vr ns :
  alloc_ok s -> region_ok s vr ns -> added present writable s vr ns ∅ s vr ns.
Proof.
  intros O R. split; try done; auto.
  - by destruct vr.
  - rewrite map_size_empty. replace (_ + _ - _) with 0 by lia. by apply extended_refl.
Qed.
Lemma region_in_use s vr ns x : region_ok s vr ns -> x ∈ ns -> in_use_at s x.
Proof. intros R. eapply vlist_in_use, R. Qed.
Lemma added_trans present writable s1 vr1 ns1 m1 s2 vr2 ns2 m2 s3 vr3 ns3 :
  region_ok s1 vr1 ns1 -> m1 ##ₘ m2 ->
  added present writable s1 vr1 ns1 m1 s2 vr2 ns2 -> added present writable s2 vr2 ns2 m2 s3 vr3 ns3 ->
  added present writable s1 vr1 ns1 (m1 ∪ m2) s3 vr3 ns3.
Proof.
  intros R1 Hd A1 A2. pose proof (ad_ext _ _ _ _ _ _ _ _ _ A1) as E1. pose proof (ad_ext _ _ _ _ _ _ _ _ _ A2) as E2.
  assert (forall j f, m1 !! j = Some f -> in_use_at s2 f) as Hu.
  { intros j f Hj. destruct (ad_frames _ _ _ _ _ _ _ _ _ A1 j f Hj) as (_ & _ & _ & r & Hr & Ha & _). by exists r. }
  split.
  - apply A2.
  - rewrite (ad_vr _ _ _ _ _ _ _ _ _ A2), (ad_vr _ _ _ _ _ _ _ _ _ A1). done.
  - etrans; [apply A1|apply A2].
  - intros j. rewrite (ad_slots _ _ _ _ _ _ _ _ _ A2), (ad_slots _ _ _ _ _ _ _ _ _ A1), lookup_union.
    specialize (Hd j). by destruct (m1 !! j), (m2 !! j).
  - intros j f Hj. apply lookup_union_Some in Hj as [Hj|Hj]; [| |done].
    + destruct (ad_frames _ _ _ _ _ _ _ _ _ A1 j f Hj) as (H1 & H2 & H3 & r & Hr & Ha & Hc).
      split; [done|]. split; [|split].
      * intros [Hin|Hin]%(ad_fresh _ _ _ _ _ _ _ _ _ A2); [done|].
        eapply free_not_use; [done|by eapply Hu].
      * rewrite (ex_pages _ _ _ _ E2); [done|by eapply Hu|done].
      * exists r. split; [by apply (ex_use _ _ _ _ E2)|done].
    + destruct (ad_frames _ _ _ _ _ _ _ _ _ A2 j f Hj) as (H1 & H2 & H3). split; [|done].
      by apply (ex_was _ _ _ _ E1).
  - intros j1 j2 f H1 H2. apply lookup_union_Some in H1 as [H1|H1], H2 as [H2|H2]; try done.
    + by eapply (ad_inj _ _ _ _ _ _ _ _ _ A1).
    + destruct (ad_frames _ _ _ _ _ _ _ _ _ A2 j2 f H2) as (Hf & _). exfalso.
      eapply free_not_use; [done|by eapply Hu].
    + destruct (ad_frames _ _ _ _ _ _ _ _ _ A2 j1 f H1) as (Hf & _). exfalso.
      eapply free_not_use; [done|by eapply Hu].
    + by eapply (ad_inj _ _ _ _ _ _ _ _ _ A2).
  - intros x [Hx|Hx]%(ad_fresh _ _ _ _ _ _ _ _ _ A2).
    + by apply (ad_fresh _ _ _ _ _ _ _ _ _ A1).
    + right. by apply (ex_was _ _ _ _ E1).
  - rewrite map_size_disj_union by done.
    replace (_ + _ - _) with ((Z.of_nat (size m1) + Z.of_nat (length ns2) - Z.of_nat (length ns1))
      + (Z.of_nat (size m2) + Z.of_nat (length ns3) - Z.of_nat (length ns2))) by lia.
    eapply extended_trans; [apply E1|apply E2|done|].
    intros x [Hx|Hx]%(ad_fresh _ _ _ _ _ _ _ _ _ A1) Hi; [done|]. exfalso. by eapply free_not_use.
Qed.

Section adding.
Context (present writable : Z).

Lemma add_one s vr ns a idx :
  alloc_ok s -> region_ok s vr ns -> va2vpi_idx vr a = Z.of_nat idx -> Z.of_nat idx < 2^31 ->
  Z.of_nat (idx / NVPI + 1 - length ns) + 1 <= free_pages (k_kmem s) ->
  exists q f s1 s2 s3 s4 vr' ns',
    va2vpage_info vr a s = Ok (vr', Some q) s1 /\ kalloc s1 = Ok (kva (Z.of_nat f)) s2 /\
    Z.of_nat f < PAGES_MAX /\ page_memset (kva (Z.of_nat f)) 0 s2 = Ok tt s3 /\
    vpi_mod q (fill present writable f) s3 = Ok tt s4 /\
    added present writable s vr ns {[idx := f]} s4 vr' ns' /\
    length ns' = (length ns + (idx / NVPI + 1 - length ns))%nat.
Proof.
  intros O R Hi Hb Hf.
  destruct (va2vpage_info_run s vr ns O R a idx Hi Hb) as (p & y & cs & s1 & W & Hr); [lia|].
  pose proof (wk_ext _ _ _ _ _ _ _ W) as E1. pose proof (wk_length _ _ _ _ _ _ _ W) as Hcs.
  destruct (new_page s1 (ex_alloc _ _ _ _ E1)) as (f & s2 & Hk & Hfb & Hfree & Hm & E2 & (r & Hcm & Ha & Hc) & Hpg).
  { rewrite (ex_free _ _ _ _ E1). lia. }
  set (s3 := s2 <| k_pages ::= _ |>) in *. set (vr' := vr <| vr_pages := p |>). set (ns' := ns ++ cs) in *.
  assert (region_ok s1 vr' ns') as R1 by (split; apply W).
  assert (forall x, x ∈ ns' -> vpage_at s3 x = vpage_at s1 x) as Hsame.
  { intros x Hx. apply (vpage_extended _ _ _ _ _ E2); [|set_solver]. by eapply region_in_use. }
  assert (region_ok s3 vr' ns') as R3.
  { split; [|apply R1]. eapply vlist_ext; [done| |apply R1]. intros x _. by apply (extended_use _ _ _ _ _ E2). }
  destruct (vpi_mod_run s3 vr' ns' idx y (fill present writable f) (ex_alloc _ _ _ _ E2) R3 (wk_at _ _ _ _ _ _ _ W))
    as (s4 & Hmod & R4 & Hslot & E3 & Hkm).
  assert (f ∉ ns') as Hfn by (intros Hx; eapply free_not_use; [done|by eapply region_in_use]).
  eexists _, f, s1, s2, s3, s4, vr', ns'. split; [exact Hr|]. split; [done|]. split; [done|].
  split; [done|]. split; [done|]. split; [|unfold ns'; rewrite length_app; lia]. split.
  - done.
  - done.
  - by exists cs.
  - intros j. rewrite Hslot. replace (slot s3 ns' j) with (slot s ns j).
    2:{ unfold slot at 2. rewrite (slots_ext s1 s3) by done. symmetry.
        by apply (slot_grown s s1 ns ns' _ (wk_slots _ _ _ _ _ _ _ W)). }
    destruct (decide (j = idx)) as [->|Hj]; [by rewrite lookup_singleton_eq|by rewrite lookup_singleton_ne].
  - intros j g [<- <-]%lookup_singleton_Some. split; [by apply (ex_was _ _ _ _ E1)|]. split; [done|]. split.
    + rewrite (ex_pages _ _ _ _ E3); [by rewrite Hpg, lookup_insert_eq|by exists r|done].
    + exists r. by rewrite Hkm.
  - intros j1 j2 g [<- _]%lookup_singleton_Some [<- _]%lookup_singleton_Some. done.
  - intros x [Hx|Hx]%elem_of_app; [by left|right]. by apply (wk_free _ _ _ _ _ _ _ W).
  - rewrite map_size_singleton. unfold ns' at 1. rewrite length_app.
    replace (_ + _ - _) with (Z.of_nat (length cs) + (1 + 0)) by lia.
    eapply extended_trans; [apply E1| |done|].
    { apply (extended_trans _ _ _ _ _ _ _ ns' E2 E3); [set_solver|done]. }
    intros x [Hx|Hx]%elem_of_app Hu; [done|]. exfalso.
    eapply free_not_use; [by apply (wk_free _ _ _ _ _ _ _ W)|done].
Qed.

Lemma addmap_run from sz e M n : forall g s vr ns a fuel,
  alloc_ok s -> region_ok s vr ns -> u64 (from + sz) = e -> 0 <= a ->
  (forall i : nat, (i < n)%nat -> a + Z.of_nat i * PGSIZE < e) -> e <= a + Z.of_nat n * PGSIZE < 2^64 ->
  (forall i : nat, (i < n)%nat -> va2vpi_idx vr (a + Z.of_nat i * PGSIZE) = Z.of_nat (g i) /\ (g i <= M)%nat) ->
  Z.of_nat M < 2^31 -> (forall i j : nat, (i < n)%nat -> (j < n)%nat -> g i = g j -> i = j) ->
  Z.of_nat n + Z.of_nat (M / NVPI + 1 - length ns) <= free_pages (k_kmem s) -> (n < fuel)%nat ->
  exists m s' vr' ns', addmap_loop fuel vr a from sz present writable s = Ok (vr', s32 sz) s' /\
    added present writable s vr ns m s' vr' ns' /\
    forall j, is_Some (m !! j) <-> exists i, (i < n)%nat /\ j = g i.
Proof.
  induction n as [|n IH]; intros g s vr ns a fuel O R He Ha Hin Hend Hg HM Hinj Hf Hfuel;
    (destruct fuel as [|fuel]; [lia|]); cbn [addmap_loop]; rewrite He.
  - rewrite (proj2 (Z.ltb_ge _ _)) by lia. exists ∅, s, vr, ns. split; [done|]. split; [by apply added_refl|].
    intros j. rewrite lookup_empty. split; [intros [? ?]; done|intros (i & ? & _); lia].
  - rewrite (proj2 (Z.ltb_lt _ _)) by (specialize (Hin 0%nat); lia).
    destruct (Hg 0%nat) as [Hi Hi0]; [lia|]. rewrite Z.add_0_r in Hi.
    pose proof (Nat.Div0.div_le_mono (g 0%nat) M NVPI Hi0) as Hdiv.
    destruct (add_one s vr ns a (g 0%nat) O R Hi) as (q & f & s1 & s2 & s3 & s4 & vr' & ns' & H1 & H2 & Hfb & H3 & H4 & A & Hlen);
      [lia|lia|].
    step H1. cbv beta iota. step H2. cbv beta. rewrite kva_neq_0 by lia. step H3.
    rewrite PGNUM_V2P_kva by lia. fold (fill present writable f). step H4.
    rewrite u64_small by (unfold PGSIZE in *; lia). pose proof (ad_ext _ _ _ _ _ _ _ _ _ A) as E.
    assert (forall i : nat, a + PGSIZE + Z.of_nat i * PGSIZE = a + Z.of_nat (S i) * PGSIZE) as Hnext by lia.
    destruct (IH (fun i => g (S i)) s4 vr' ns' (a + PGSIZE) fuel) as (m & s' & vr2 & ns2 & Hr & A2 & Hm); auto.
    + apply E.
    + apply A.
    + unfold PGSIZE. lia.
    + intros i Hi'. rewrite Hnext. apply Hin. lia.
    + rewrite Hnext. done.
    + intros i Hi'. rewrite Hnext, (ad_vr _ _ _ _ _ _ _ _ _ A).
      change (va2vpi_idx (vr <| vr_pages := _ |>)) with (va2vpi_idx vr). apply Hg. lia.
    + intros i j Hi' Hj' Heq. apply Hinj in Heq; lia.
    + rewrite (ex_free _ _ _ _ E), map_size_singleton. lia.
    + lia.
    + assert (({[g 0%nat := f]} : gmap nat nat) ##ₘ m) as Hd.
      { apply map_disjoint_singleton_l. destruct (m !! g 0%nat) eqn:Hm0; [|done].
        destruct (proj1 (Hm (g 0%nat))) as (i & Hi' & Heq); [by eexists|]. apply Hinj in Heq; lia. }
      exists ({[g 0%nat := f]} ∪ m), s', vr2, ns2. split; [done|]. split; [by eapply added_trans|].
      intros j. rewrite lookup_union_is_Some, Hm, lookup_singleton_is_Some. split.
      * intros [<-|(i & Hi' & ->)]; [exists 0%nat|exists (S i)]; (split; [lia|done]).
      * intros ([|i] & Hi' & ->); [by left|right]. exists i. split; [lia|done].
Qed.
End adding.

(** The descriptor of address [va] of a region, and the addresses it can have. *)
Definition page_index (vr : vregion) (va : Z) : nat :=
  match vr_dir vr with
  | VRDIR_UP => Z.to_nat ((va - va_base vr) / PGSIZE)
  | VRDIR_DOWN => Z.to_nat ((va_base vr - 1 - va) / PGSIZE)
  end.
(** The [n] pages from [a] on are in the region, none of them behind descriptor [M]. *)
Definition reaches (vr : vregion) (a : Z) (n M : nat) : Prop :=
  Z.of_nat M < 2^31 /\ 0 <= va_base vr < 2^64 /\
  match vr_dir vr with
  | VRDIR_UP => va_base vr <= a /\ a + Z.of_nat n * PGSIZE <= va_base vr + (Z.of_nat M + 1) * PGSIZE
  | VRDIR_DOWN => a + Z.of_nat n * PGSIZE <= va_base vr <= a + (Z.of_nat M + 1) * PGSIZE
  end.
Definition page_count (from sz : Z) : nat :=
  Z.to_nat ((from + sz - PGROUNDUP from + PGSIZE - 1) / PGSIZE).

Lemma div_page_step c i : (c + i * PGSIZE) / PGSIZE = c / PGSIZE + i.
Proof. apply Z.div_add. done. Qed.
Lemma idx_of_va vr va :
  0 <= va < 2^64 -> 0 <= va_base vr < 2^64 ->
  match vr_dir vr with VRDIR_UP => va_base vr <= va | VRDIR_DOWN => va < va_base vr end ->
  Z.of_nat (page_index vr va) < 2^31 -> va2vpi_idx vr va = Z.of_nat (page_index vr va).
Proof.
  intros Hv Hb Hin. unfold va2vpi_idx, page_index, PGSIZE, PT_SHIFT.
  destruct (vr_dir vr); rewrite Z.shiftr_div_pow2, u64_small by lia; change (2 ^ 12) with 4096;
    (rewrite Z2Nat.id by (apply Z.div_pos; lia)); intros H; apply s32_small.
  all: split; [|done]; apply (Z.le_trans _ 0); [done|apply Z.div_pos; lia].
Qed.
Lemma reaches_index vr a n M i :
  reaches vr a n M -> 0 <= a -> a + Z.of_nat n * PGSIZE < 2^64 -> (i < n)%nat ->
  va2vpi_idx vr (a + Z.of_nat i * PGSIZE) = Z.of_nat (page_index vr (a + Z.of_nat i * PGSIZE)) /\
  (page_index vr (a + Z.of_nat i * PGSIZE) <= M)%nat.
Proof.
  intros (HM & Hb & Hr) Ha He Hi.
  assert (page_index vr (a + Z.of_nat i * PGSIZE) <= M)%nat as Hle.
  { unfold page_index, PGSIZE in *. destruct (vr_dir vr).
    - enough ((a + Z.of_nat i * 4096 - va_base vr) / 4096 < Z.of_nat M + 1) by lia.
      apply Z.div_lt_upper_bound; lia.
    - enough ((va_base vr - 1 - (a + Z.of_nat i * 4096)) / 4096 < Z.of_nat M + 1) by lia.
      apply Z.div_lt_upper_bound; lia. }
  split; [|done]. apply idx_of_va; [unfold PGSIZE in *; lia|done| |lia].
  unfold PGSIZE in *. destruct (vr_dir vr); lia.
Qed.
Lemma page_index_inj vr a n M i j :
  reaches vr a n M -> (i < n)%nat -> (j < n)%nat ->
  page_index vr (a + Z.of_nat i * PGSIZE) = page_index vr (a + Z.of_nat j * PGSIZE) -> i = j.
Proof.
  intros (HM & Hb & Hr) Hi Hj. unfold page_index. destruct (vr_dir vr).
  - rewrite !(Z.add_sub_swap a). rewrite !div_page_step.
    pose proof (Z.div_pos (a - va_base vr) PGSIZE). unfold PGSIZE in *. lia.
  - assert (forall k, va_base vr - 1 - (a + Z.of_nat k * PGSIZE) = (va_base vr - 1 - a) + - Z.of_nat k * PGSIZE) as E by lia.
    rewrite !E, !div_page_step.
    assert (Z.of_nat n <= (va_base vr - 1 - a) / PGSIZE + 1).
    { enough (Z.of_nat n - 1 <= (va_base vr - 1 - a) / PGSIZE) by lia.
      apply Z.div_le_lower_bound; unfold PGSIZE in *; lia. }
    lia.
Qed.
Lemma PGROUNDUP_bounds v : 0 <= v < 2^63 -> v <= PGROUNDUP v < v + PGSIZE.
Proof.
  intros H. rewrite PGROUNDUP_eq, u64_small by (unfold PGSIZE; lia).
  pose proof (Z.div_mod (v + PGSIZE - 1) PGSIZE). pose proof (Z.mod_pos_bound (v + PGSIZE - 1) PGSIZE).
  unfold PGSIZE in *. lia.
Qed.
Lemma page_count_bounds from sz :
  0 <= from -> 0 < sz -> from + sz < 2^63 ->
  (forall i : nat, (i < page_count from sz)%nat -> PGROUNDUP from + Z.of_nat i * PGSIZE < from + sz) /\
  from + sz <= PGROUNDUP from + Z.of_nat (page_count from sz) * PGSIZE < from + sz + PGSIZE /\
  Z.of_nat (page_count from sz) <= sz / PGSIZE + 1.
Proof.
  intros Hf Hs Hb. pose proof (PGROUNDUP_bounds from ltac:(lia)) as Hr. unfold page_count.
  set (t := from + sz - PGROUNDUP from + PGSIZE - 1).
  pose proof (Z.div_mod t PGSIZE). pose proof (Z.mod_pos_bound t PGSIZE).
  pose proof (Z.div_mod sz PGSIZE). pose proof (Z.mod_pos_bound sz PGSIZE).
  assert (0 <= t / PGSIZE) by (apply Z.div_pos; unfold t, PGSIZE in *; lia).
  rewrite Z2Nat.id by done. unfold t, PGSIZE in *. split; [intros i Hi; lia|]. lia.
Qed.

(** * Giving pages back *)

(** No page of the kernel image is on the free list. *)
Definition free_above (s : kstate) : Prop := forall x, free_at s x -> k_end s <= kva (Z.of_nat x).
Definition clear (v : vpage_info) : vpage_info :=
  v <| vpi_used := 0 |> <| vpi_present := 0 |> <| vpi_writable := 0 |> <| vpi_ppn := 0 |>.

Lemma mframe_end s s' : mframe s s' -> k_end s' = k_end s.
Proof. intros H. unfold mframe in H. by rewrite <-H. Qed.
(** A page taken since [s] goes back. *)
Lemma kfree_last s ns k s1 f r :
  extended s ns k s1 -> free_above s -> free_at s f ->
  core_map (k_kmem s1) !! f = Some r -> ref_count r = 1 -> available r = 0 ->
  exists s2, kfree (kva (Z.of_nat f)) s1 = Ok tt s2 /\ extended s ns (k - 1) s2 /\
    (forall x, x <> f -> core_map (k_kmem s2) !! x = core_map (k_kmem s1) !! x /\
                         k_pages s2 !! Z.of_nat x = k_pages s1 !! Z.of_nat x).
Proof.
  intros E Hab Hfree Hr Hc Ha. pose proof (ex_alloc _ _ _ _ E) as [O1 O2 O3].
  pose proof (kfree_km_wf (k_kmem s1) f r O1 Hr ltac:(lia)) as W.
  pose proof (Hab _ Hfree) as Hend. rewrite <-(mframe_end _ _ (ex_frame _ _ _ _ E)) in Hend.
  rewrite (kfree_run s1 f r); [|apply O1|apply O1|done|lia|done].
  eexists. split; [done|]. rewrite O2. unfold kfree_st, kfree_km in *. rewrite Hc in *. split.
  - split; simpl; try done.
    + rewrite (ex_free _ _ _ _ E). lia.
    + apply (ex_npages _ _ _ _ E).
    + intros x r' Hx Hx0. rewrite list_lookup_alter_ne; [by apply (ex_use _ _ _ _ E)|].
      intros ->. eapply free_not_use; [done|by exists r'].
    + intros x Hx Hn. rewrite lookup_insert_ne; [by apply (ex_pages _ _ _ _ E)|].
      intros ?. assert (x = f) as -> by lia. by eapply free_not_use.
    + intros x (r' & Hx & Hx1). simpl in Hx. destruct (decide (x = f)) as [->|Hne]; [done|].
      rewrite list_lookup_alter_ne in Hx by done. apply (ex_was _ _ _ _ E). by exists r'.
    + eapply mframe_trans; [apply E|]. unfold mframe. kext.
  - intros x Hx. simpl. rewrite list_lookup_alter_ne, lookup_insert_ne by lia. done.
Qed.
Section undo.
Context (present writable : Z) (s : kstate) (vr : vregion) (ns : list nat)
  (R : region_ok s vr ns) (above : free_above s).

Lemma undo_one m s1 vr1 a j f :
  added present writable s vr ns m s1 vr1 ns -> m !! j = Some f -> slot s ns j = vpi_zero ->
  va2vpi_idx vr a = Z.of_nat j -> Z.of_nat j < 2^31 -> (j / NVPI < length ns)%nat ->
  exists q v s2 s3, va2vpage_info vr1 a s1 = Ok (vr1, Some q) s1 /\ vpi_get q s1 = Ok v s1 /\
    kfree (P2V (u64 (Z.shiftl (vpi_ppn v) PT_SHIFT))) s1 = Ok tt s2 /\ vpi_mod q clear s2 = Ok tt s3 /\
    added present writable s vr ns (delete j m) s3 vr1 ns.
Proof.
  intros A Hf Hz Hi Hb Hlen. pose proof (ad_ext _ _ _ _ _ _ _ _ _ A) as E.
  pose proof (ad_region _ _ _ _ _ _ _ _ _ A) as R1.
  destruct (lookup_lt_is_Some_2 ns (j / NVPI)) as [y Hy]; [done|].
  destruct (ad_frames _ _ _ _ _ _ _ _ _ A j f Hf) as (Hfree & Hfn & Hpg & r & Hr & Hr0 & Hr1).
  assert (Z.of_nat f < PAGES_MAX) as Hfb.
  { destruct (ao_wf _ (ex_alloc _ _ _ _ E)) as [W1 W2 _ _ _]. apply lookup_lt_Some in Hr. lia. }
  assert (va2vpi_idx vr1 a = Z.of_nat j) as Hi1 by (rewrite <-Hi, (ad_vr _ _ _ _ _ _ _ _ _ A); done).
  eexists (kva (Z.of_nat y), (j mod NVPI)%nat), (slot s1 ns j).
  rewrite (va2vpage_info_there s1 vr1 ns (ex_alloc _ _ _ _ E) R1 a j y Hi1 Hb Hy), (vpi_get_run s1 vr1 ns j y R1 Hy).
  rewrite (ad_slots _ _ _ _ _ _ _ _ _ A j), Hf, Hz.
  change (vpi_ppn (fill present writable f vpi_zero)) with (Z.of_nat f).
  rewrite shift_pa, P2V_pa by (unfold PAGES_MAX in *; lia).
  destruct (kfree_last _ _ _ s1 f r E above Hfree Hr Hr1 Hr0) as (s2 & Hk & E2 & Hsame).
  assert (forall x, x ∈ ns -> x <> f) as Hnf by (intros x Hx ->; done).
  assert (forall x, x ∈ ns -> vpage_at s2 x = vpage_at s1 x) as Hv.
  { intros x Hx. unfold vpage_at. by rewrite (proj2 (Hsame x (Hnf x Hx))). }
  assert (region_ok s2 vr1 ns) as R2.
  { split; [|apply R1]. eapply vlist_ext; [done| |apply R1]. intros x Hx (r' & H1 & H2). exists r'.
    by rewrite (proj1 (Hsame x (Hnf x Hx))). }
  destruct (vpi_mod_run s2 vr1 ns j y clear (ex_alloc _ _ _ _ E2) R2 Hy) as (s3 & Hm & R3 & Hslot & E3 & Hkm).
  exists s2, s3. split; [done|]. split; [done|]. split; [done|]. split; [done|].
  assert (forall x g, delete j m !! x = Some g -> g <> f) as Hother.
  { intros x g [Hx Hg]%lookup_delete_Some ->. apply Hx. by eapply (ad_inj _ _ _ _ _ _ _ _ _ A). }
  split; try done.
  - apply A.
  - intros i. rewrite Hslot. unfold slot at 1 2. rewrite (slots_ext s1 s2) by done. fold (slot s1 ns i).
    rewrite (ad_slots _ _ _ _ _ _ _ _ _ A i). destruct (decide (i = j)) as [->|Hij].
    + by rewrite Hf, lookup_delete_eq, Hz.
    + by rewrite lookup_delete_ne.
  - intros x g Hg. pose proof (Hother _ _ Hg) as Hgf. apply lookup_delete_Some in Hg as [_ Hg].
    destruct (ad_frames _ _ _ _ _ _ _ _ _ A x g Hg) as (G1 & G2 & G3 & r' & G4 & G5 & G6).
    split; [done|]. split; [done|]. split.
    + rewrite (ex_pages _ _ _ _ E3); [by rewrite (proj2 (Hsame g Hgf))| |done].
      exists r'. by rewrite (proj1 (Hsame g Hgf)).
    + exists r'. by rewrite Hkm, (proj1 (Hsame g Hgf)).
  - intros x1 x2 g [_ H1]%lookup_delete_Some [_ H2]%lookup_delete_Some. by eapply (ad_inj _ _ _ _ _ _ _ _ _ A).
  - auto.
  - rewrite map_size_delete_Some by (by exists f).
    assert (size m <> 0)%nat by (rewrite map_size_non_empty_iff; by intros ->).
    replace (_ + _ - _) with (Z.of_nat (size m) + Z.of_nat (length ns) - Z.of_nat (length ns) - 1 + 0) by lia.
    eapply extended_trans; [apply E2|apply E3|done|done].
Qed.

Context (from sz : Z) (M N : nat) (g : nat -> nat).
Notation base := (PGROUNDUP from).
Notation va i := (base + Z.of_nat i * PGSIZE).
Context (base_pos : PGSIZE <= base) (inside : u64 (from + sz) < 2^63)
  (asked : forall i : nat, (i < N)%nat -> va i < u64 (from + sz))
  (index : forall i : nat, (i < N)%nat -> va2vpi_idx vr (va i) = Z.of_nat (g i) /\ (g i <= M)%nat)
  (index_inj : forall i j : nat, (i < N)%nat -> (j < N)%nat -> g i = g j -> i = j)
  (bound : Z.of_nat M < 2^31) (there : (M / NVPI < length ns)%nat)
  (unused : forall i : nat, (i < N)%nat -> slot s ns (g i) = vpi_zero).

(** The first [n] pages are mapped. *)
Definition first_mapped (m : gmap nat nat) (n : nat) : Prop :=
  forall j, is_Some (m !! j) <-> exists i, (i < n)%nat /\ j = g i.
Lemma va_u64 i : (i < N)%nat -> 0 <= va i < 2^63.
Proof. intros Hi. specialize (asked i Hi). unfold PGSIZE in *. lia. Qed.

Lemma undo_run n : forall m s1 vr1 fuel,
  (n <= N)%nat -> first_mapped m n -> added present writable s vr ns m s1 vr1 ns -> (n < fuel)%nat ->
  exists s2, addmap_failure fuel vr1 (base + (Z.of_nat n - 1) * PGSIZE) from s1 = Ok (vr1, -1) s2 /\
    added present writable s vr ns ∅ s2 vr1 ns.
Proof.
  induction n as [|n IH]; intros m s1 vr1 fuel Hn Hm A Hfuel; (destruct fuel as [|fuel]; [lia|]); cbn [addmap_failure].
  - rewrite (proj2 (Z.leb_gt _ _)) by (unfold PGSIZE in *; lia). exists s1. split; [done|].
    enough (m = ∅) as <- by done. apply map_empty. intros j. apply eq_None_not_Some. rewrite (Hm j).
    intros (i & ? & _). lia.
  - replace (base + (Z.of_nat (S n) - 1) * PGSIZE) with (va n) by lia.
    rewrite (proj2 (Z.leb_le _ _)) by (unfold PGSIZE in *; lia).
    destruct (index n) as [Hi Hle]; [lia|]. destruct (proj2 (Hm (g n))) as [f Hf]; [exists n; split; [lia|done]|].
    pose proof (Nat.Div0.div_le_mono (g n) M NVPI Hle) as Hdiv.
    destruct (undo_one m s1 vr1 (va n) (g n) f) as (q & v & s2 & s3 & H1 & H2 & H3 & H4 & A3); auto; [lia..|].
    step H1. cbv beta iota. step H2. cbv beta. step H3. fold clear. step H4.
    pose proof (va_u64 n ltac:(lia)). rewrite u64_small by (unfold PGSIZE in *; lia).
    replace (va n - PGSIZE) with (base + (Z.of_nat n - 1) * PGSIZE) by lia.
    apply (IH (delete (g n) m)); [lia| |done|lia].
    intros j. rewrite lookup_delete_is_Some, (Hm j). split.
    + intros (Hne & i & Hi' & ->). exists i. split; [|done]. destruct (decide (i = n)) as [->|]; [done|lia].
    + intros (i & Hi' & ->). split; [|exists i; split; [lia|done]]. intros Heq. apply index_inj in Heq; lia.
Qed.

Lemma kalloc_none s1 vr1 m :
  added present writable s vr ns m s1 vr1 ns -> free_pages (k_kmem s1) = 0 ->
  exists s2, kalloc s1 = Ok 0 s2 /\ added present writable s vr ns m s2 vr1 ns.
Proof.
  intros A Hf. pose proof (ad_ext _ _ _ _ _ _ _ _ _ A) as E. destruct (ex_alloc _ _ _ _ E) as [O1 O2 O3].
  rewrite (kalloc_run s1 O1 O2 O3). unfold kalloc_km.
  destruct (first_free (core_map (k_kmem s1))) as [c|] eqn:Ef.
  { apply first_free_spec in Ef as [(r & Hr & Ha) _]. rewrite (wf_free _ O1) in Hf.
    assert (0 < cnt is_free (core_map (k_kmem s1))); [|lia]. apply cnt_pos. exists c, r. split; [done|].
    unfold is_free. by rewrite Ha. }
  eexists. split; [done|]. cbn [snd]. destruct A as [[A1 A1'] A2 A3 A4 A5 A6 A7 [B1 B2 B3 B4 B5 B6 B7]].
  split; try done.
  - split; [|done]. eapply vlist_ext; [| |exact A1]; done.
Qed.
Lemma addmap_stops k : forall n m s1 vr1 fuel,
  (n + k < N)%nat -> first_mapped m n -> added present writable s vr ns m s1 vr1 ns ->
  free_pages (k_kmem s1) = Z.of_nat k -> (k < fuel)%nat ->
  exists s2 vr2, addmap_loop fuel vr1 (va n) from sz present writable s1 = Ok (vr2, -1) s2 /\
    added present writable s vr ns ∅ s2 vr2 ns.
Proof.
  induction k as [|k IH]; intros n m s1 vr1 fuel Hn Hm A Hf Hfuel;
    (destruct fuel as [|fuel]; [lia|]); cbn [addmap_loop];
    rewrite (proj2 (Z.ltb_lt _ _)) by (apply asked; lia);
    destruct (index n) as [Hi Hle]; try lia; pose proof (Nat.Div0.div_le_mono (g n) M NVPI Hle) as Hdiv;
    pose proof (ad_ext _ _ _ _ _ _ _ _ _ A) as E; pose proof (ad_region _ _ _ _ _ _ _ _ _ A) as R1;
    assert (va2vpi_idx vr1 (va n) = Z.of_nat (g n)) as Hi1 by (rewrite <-Hi, (ad_vr _ _ _ _ _ _ _ _ _ A); done);
    pose proof (va_u64 n ltac:(lia)) as Hva.
  - destruct (lookup_lt_is_Some_2 ns (g n / NVPI)) as [y Hy]; [lia|].
    step (va2vpage_info_there s1 vr1 ns (ex_alloc _ _ _ _ E) R1 (va n) (g n) y Hi1 ltac:(lia) Hy).
    cbv beta iota. destruct (kalloc_none s1 vr1 m A Hf) as (s2 & Hk & A2). step Hk. cbv beta. cbn [Z.eqb].
    rewrite u64_small by (unfold PGSIZE in *; lia).
    replace (va n - PGSIZE) with (base + (Z.of_nat n - 1) * PGSIZE) by lia.
    destruct (undo_run n m s2 vr1 (S (S (Z.to_nat (va n / PGSIZE))))) as (s3 & Hr & A3); [lia|done|done| |by exists s3, vr1].
    enough (Z.of_nat n <= va n / PGSIZE) by lia. apply Z.div_le_lower_bound; unfold PGSIZE in *; lia.
  - destruct (add_one present writable s1 vr1 ns (va n) (g n) (ex_alloc _ _ _ _ E) R1 Hi1)
      as (q & f & s2 & s3 & s4 & s5 & vr' & ns' & H1 & H2 & Hfb & H3 & H4 & A5 & Hlen); [lia|lia|].
    assert (ns' = ns) as ->.
    { destruct (ad_longer _ _ _ _ _ _ _ _ _ A5) as [l ->]. rewrite length_app in Hlen.
      assert (length l = 0%nat) by lia. destruct l; [by rewrite app_nil_r|done]. }
    step H1. cbv beta iota. step H2. cbv beta. rewrite kva_neq_0 by lia. step H3.
    rewrite PGNUM_V2P_kva by lia. fold (fill present writable f). step H4.
    rewrite u64_small by (unfold PGSIZE in *; lia). replace (va n + PGSIZE) with (va (S n)) by lia.
    assert (m !! g n = None) as Hnone.
    { apply eq_None_not_Some. rewrite (Hm (g n)). intros (i & Hi' & Heq). apply index_inj in Heq; lia. }
    apply (IH (S n) (m ∪ {[g n := f]})).
    + lia.
    + intros j. rewrite lookup_union_is_Some, (Hm j), lookup_singleton_is_Some. split.
      * intros [(i & Hi' & ->)|<-]; [exists i|exists n]; (split; [lia|done]).
      * intros (i & Hi' & ->). destruct (decide (i = n)) as [->|]; [by right|left; exists i; split; [lia|done]].
    + eapply added_trans; [done| |done|done]. by apply map_disjoint_singleton_r.
    + rewrite (ex_free _ _ _ _ (ad_ext _ _ _ _ _ _ _ _ _ A5)), map_size_singleton. lia.
    + lia.
Qed.
End undo.

(** C19: vregionaddmap maps the pages of a range into a region.  With memory enough it returns the
    size; every page of the range has its descriptor in the region's list, used and with the
    permissions asked for, naming a page of its own, just allocated, referenced once and full of
    zeros.  The list grows by zeroed pages as needed; every other descriptor of the region and
    every page in use before is unchanged. *)
Theorem vregionaddmap_correct s vr ns from sz M present writable :
  alloc_ok s -> region_ok s vr ns -> 0 <= from -> 0 < sz -> from + sz < 2^63 ->
  reaches vr (PGROUNDUP from) (page_count from sz) M ->
  Z.of_nat (page_count from sz) + Z.of_nat (M / NVPI + 1 - length ns) <= free_pages (k_kmem s) ->
  exists m s' vr' ns',
    vregionaddmap vr from sz present writable s = Ok (vr', s32 sz) s' /\
    added present writable s vr ns m s' vr' ns' /\
    forall j, is_Some (m !! j) <->
      exists i, (i < page_count from sz)%nat /\ j = page_index vr (PGROUNDUP from + Z.of_nat i * PGSIZE).
Proof.
  intros O R Hf Hs Hb HR Hfree. pose proof (page_count_bounds from sz Hf Hs Hb) as (Hin & Hend & Hn).
  pose proof (PGROUNDUP_bounds from ltac:(lia)) as Hr. unfold vregionaddmap.
  rewrite (u64_small (sz + from)) by lia. rewrite (proj2 (Z.leb_gt KERNBASE _)) by (unfold KERNBASE; lia).
  rewrite (proj2 (Z.leb_gt sz 0)) by done.
  apply (addmap_run present writable from sz (from + sz) M (page_count from sz)
    (fun i => page_index vr (PGROUNDUP from + Z.of_nat i * PGSIZE))); auto.
  - apply u64_small. lia.
  - lia.
  - unfold PGSIZE in *. lia.
  - intros i Hi. apply (reaches_index _ _ _ _ _ HR); [lia|unfold PGSIZE in *; lia|done].
  - apply HR.
  - intros i j. by apply (page_index_inj _ _ _ _ _ _ HR).
  - lia.
Qed.


(** * A machine with a page of descriptors and two free pages *)

Definition small_memory : kstate :=
  bss <| k_end := KERNBASE |>
      <| k_kmem := mkKmem 3 [mkCme 0 0 0 1; mkCme 1 0 0 0; mkCme 1 0 0 0] 1 0 2 true 1 |>
      <| k_pages := {[0 := PVpi vpi_page_zero]} |>.
Definition small_region : vregion := mkVregion VRDIR_UP 4096 0 (kva 0).
Lemma small_memory_ok : alloc_ok small_memory.
Proof.
  split; [split; try reflexivity|reflexivity|split; [reflexivity|split; simpl; lia]].
  - vm_compute. split; congruence.
  - repeat constructor; simpl; lia.
Qed.
Lemma small_region_ok : region_ok small_memory small_region [0%nat].
Proof.
  split; [|repeat constructor; set_solver]. split; [reflexivity|]. split; [reflexivity|].
  split; [by eexists|]. exists vpi_page_zero. split; [reflexivity|]. split; reflexivity.
Qed.
Lemma small_memory_above : free_above small_memory.
Proof. intros x _. unfold kva. change (k_end small_memory) with KERNBASE. unfold PGSIZE. lia. Qed.
Lemma small_slot i : slot small_memory [0%nat] i = vpi_zero.
Proof.
  unfold slot. change (slots small_memory [0%nat]) with (replicate NVPI vpi_zero ++ []). rewrite app_nil_r.
  destruct (replicate NVPI vpi_zero !! i) as [v|] eqn:E; [|done]. by apply lookup_replicate in E as [-> _].
Qed.

Lemma vregionaddmap_correct_witness :
  exists m s' vr' ns',
    vregionaddmap small_region 4096 8192 1 1 small_memory = Ok (vr', 8192) s' /\
    added 1 1 small_memory small_region [0%nat] m s' vr' ns' /\ is_Some (m !! 0%nat) /\ is_Some (m !! 1%nat).
Proof.
  destruct (vregionaddmap_correct small_memory small_region [0%nat] 4096 8192 1 1 1
    small_memory_ok small_region_ok) as (m & s' & vr' & ns' & H1 & H2 & H3);
    [lia|lia|lia|vm_compute; intuition congruence|vm_compute; congruence|].
  exists m, s', vr', ns'. split; [exact H1|]. split; [exact H2|].
  split; apply H3; [exists 0%nat|exists 1%nat]; (split; [vm_compute; lia|reflexivity]).
Defined.

(** * Writing at a page boundary *)

Lemma PGROUNDUP_aligned a : 0 <= a < 2 ^ 64 - PGSIZE -> a mod PGSIZE = 0 -> PGROUNDUP a = a.
Proof.
  intros H Ha. rewrite PGROUNDUP_eq, u64_small by (unfold PGSIZE in *; lia).
  unfold PGSIZE in *. pose proof (Z.div_mod a 4096). rewrite Ha in *.
  replace (a + 4096 - 1) with ((a / 4096) * 4096 + 4095) by lia.
  rewrite Z.div_add_l by lia. change (4095 / 4096) with 0. lia.
Qed.
(** vspacewritetova never gets past the start of a page: it writes no byte there, and goes on at
    the same address, whatever number of turns it has. *)
Lemma writetova_aligned_hangs fuel s vs vr va stop data sz i q v bs :
  0 <= va < 2 ^ 64 - PGSIZE -> va mod PGSIZE = 0 -> va < stop -> 0 < sz < 2 ^ 31 ->
  va2vregion vs va = Some i -> vs_regions vs !! i = Some vr ->
  va2vpage_info vr va s = Ok (vr, Some q) s -> vpi_get q s = Ok v s ->
  vpi_used v <> 0 -> vpi_writable v <> 0 -> k_pages s !! ppn_page v = Some (PBytes bs) ->
  writetova_loop fuel vs va stop data sz s = Hang.
Proof.
  intros Hva Ha Hs Hsz Hi Hvr Hq Hv Hu Hw Hp. induction fuel as [|fuel IH]; [done|].
  cbn [writetova_loop]. rewrite (proj2 (Z.ltb_lt _ _)) by done. rewrite (PGROUNDUP_aligned va), Z.sub_diag by done.
  rewrite Hi. unfold region. rewrite Hvr. change (s32 0) with 0. rewrite Z.min_l by lia.
  change (u64 0) with 0. mrun. step Hq. mrun. step Hv.
  rewrite (proj2 (Z.eqb_neq _ _)) by done. unfold assert_. mrun. rewrite (proj2 (Z.eqb_neq _ _)) by done.
  cbn [negb]. unfold page_put. change (Z.to_nat 0) with 0%nat. rewrite Ha. change (Z.to_nat 0) with 0%nat.
  rewrite take_0, drop_0. mrun.
  change (length data <? 0)%nat with false. cbv iota. mrun. rewrite Hp. cbn [length Nat.add Nat.leb]. mrun.
  change (splice 0 [] bs) with (take 0 bs ++ drop 0 bs). rewrite take_drop.
  rewrite Z.add_0_r, Z.sub_0_r, u64_small, s32_small by (unfold PGSIZE in *; lia).
  replace (with_region vs i vr) with vs; [replace (set k_pages _ s) with s; [exact IH|]|].
  - kext. symmetry. by apply insert_id.
  - destruct vs. unfold with_region, set. simpl. by rewrite list_insert_id.
Qed.
