(* ===== verification/File.v ===== *)
(** Open files and pipes, kernel/file.c.

    What the code stores through a user's buffer is returned, what it reads from one is an
    argument.  The messages of cprintf are not modelled. *)
From S2P Require Import Prelude Kstate Locks Kalloc Sched Bytes Bio Fs.

Definition file_at (g : nat) : K file_info := o <- gets (fun s => k_ftable s !! g); deref o.
Definition file_mod (g : nat) (f : file_info -> file_info) : K unit :=
  modify (fun s => s <| k_ftable ::= upd_at g f |>).
Definition pipe_mod (g : nat) (f : pipe -> pipe) : K unit :=
  file_mod g (fun x => x <| f_pipe ::= f |>).
(** [myproc()->pftable[fd]]. *)
Definition pftable_at (fd : Z) : K (option nat) :=
  i <- myproc;
  p <- proc_at i;
  if fd <? 0 then fault else deref (p_pftable p !! Z.to_nat fd).
Definition pftable_set (fd : nat) (o : option nat) : K unit :=
  i <- myproc; proc_mod i (fun p => p <| p_pftable ::= <[fd := o]> |>).
Definition killed : K bool := i <- myproc; p <- proc_at i; ret (p_killed p).

(** The first index of a list with a property. *)
Definition index_of {A} (P : A -> bool) (l : list A) : option nat :=
  fst <$> list_find (fun x => P x = true) l.
Definition is_free_fd (o : option nat) : bool := bool_decide (o = None).
Definition is_free_file (f : file_info) : bool := f_ref f =? 0.

Section File.
Context {D : Driver} {V : Devsw}.

Definition filecreate (path : list Z) : K iptr := concurrent_createi path.

Definition fileopen (path : list Z) (mode : Z) : K Z :=
  o <- namei path;
  match o with
  | None => ret (-1)
  | Some ip =>
      concurrent_stati ip;;
      if mode =? T_DEV then ret (-1) else
      i <- myproc;
      p <- proc_at i;
      match index_of is_free_fd (p_pftable p) with
      | None => ret (-1)
      | Some pfd =>
          t <- gets k_ftable;
          match index_of is_free_file t with
          | None => ret tt
          | Some gfd =>
              acquire LkFtable;;
              file_mod gfd (fun f => f <| f_ref := 1 |> <| f_iptr := Some ip |>
                                       <| f_access := mode |> <| f_path := Some path |>);;
              pftable_set pfd (Some gfd);;
              release LkFtable
          end;;
          ret (Z.of_nat pfd)
      end
  end.

(** The return value and the struct stat filled in. *)
Definition filestat (fd : Z) : K (Z * option stat) :=
  o <- pftable_at fd;
  match o with
  | None => ret (-1, None)
  | Some g =>
      f <- file_at g;
      if negb (f_isPipe f) && bool_decide (f_iptr f = None) then ret (-1, None) else
      match f_iptr f with
      | None => panic "locki"
      | Some ip => st <- concurrent_stati ip; ret (0, Some st)
      end
  end.

(** The file's entry is cleared when its last reference goes; isPipe and the pipe are not. *)
Definition fileclose (fd : Z) : K Z :=
  o <- pftable_at fd;
  match o with
  | None => ret (-1)
  | Some g =>
      f <- file_at g;
      if negb (f_isPipe f) && bool_decide (f_iptr f = None) then ret (-1) else
      acquire LkFtable;;
      f <- file_at g;
      (if 1 <? f_ref f then file_mod g (fun f => f <| f_ref := f_ref f - 1 |>)
       else
         when (negb (f_isPipe f)) (ip <- deref (f_iptr f); irelease ip);;
         file_mod g (fun f => f <| f_iptr := None |> <| f_ref := 0 |> <| f_path := None |>
                                <| f_access := 0 |> <| f_offset := 0 |>));;
      release LkFtable;;
      pftable_set (Z.to_nat fd) None;;
      ret 0
  end.

(** * Pipes

    The byte counters are ints; the position in the buffer is the C remainder. *)
Definition pipe_pos (n : Z) : Z := Z.rem n PIPESIZE.
Definition pipe_get (p : pipe) (n : Z) : option Z :=
  if pipe_pos n <? 0 then None else pi_buf p !! Z.to_nat (pipe_pos n).

(** The copy loop of a read, with [n] bytes to go: None where the process has been killed, and
    the lock is kept then. *)
Fixpoint piperead_loop (n g : nat) (acc : list Z) : K (option (list Z)) :=
  match n with
  | O => ret (Some acc)
  | S n =>
      k <- killed;
      if k : bool then ret None else
      f <- file_at g;
      if pi_head (f_pipe f) =? pi_tail (f_pipe f) then ret (Some acc) else
      c <- deref (pipe_get (f_pipe f) (pi_head (f_pipe f)));
      pipe_mod g (fun p => p <| pi_head := s32 (pi_head p + 1) |>);;
      piperead_loop n g (acc ++ [c])
  end.
(** From the test for an empty pipe on, with the lock held: also where a reader that slept
    goes on. *)
Definition piperead_wait (g : nat) (n : Z) : K (Z * list Z) :=
  f <- file_at g;
  if pi_head (f_pipe f) =? pi_tail (f_pipe f) then
    k <- killed;
    if k : bool then release (LkPipe g);; ret (-1, []) else
    if f_ref f =? 1 then release (LkPipe g);; ret (0, []) else
    wakeup (CPipeWrite g);;
    sleep (CPipeRead g) (LkPipe g)
  else
    o <- piperead_loop (Z.to_nat n) g [];
    match o with
    | None => ret (-1, [])
    | Some bs =>
        wakeup (CPipeWrite g);;
        release (LkPipe g);;
        ret (Z.of_nat (length bs), bs)
    end.
Definition piperead_resume (g : nat) (n : Z) : K (Z * list Z) :=
  sleep_resume (LkPipe g);; piperead_wait g n.

(** The loop of a write: [bs] are the bytes of the buffer from index [i] on, [n] the number of
    them to write.  A writer that slept goes on at the test of the inner loop. *)
Fixpoint pipewrite_loop (n g : nat) (i : Z) (bs : list Z) : K Z :=
  match n with
  | O =>
      wakeup (CPipeRead g);;
      release (LkPipe g);;
      ret i
  | S n =>
      f <- file_at g;
      if s32 (pi_tail (f_pipe f) - pi_head (f_pipe f)) =? PIPESIZE then
        wakeup (CPipeRead g);;
        sleep (CPipeWrite g) (LkPipe g)
      else
      if f_ref f =? 1 then release (LkPipe g);; ret (-1) else
      c <- deref (head bs);
      if pipe_pos (pi_tail (f_pipe f)) <? 0 then fault else
      pipe_mod g (fun p => p <| pi_buf ::= <[Z.to_nat (pipe_pos (pi_tail p)) := c]> |>
                             <| pi_tail := s32 (pi_tail p + 1) |>);;
      pipewrite_loop n g (i + 1) (tail bs)
  end.
Definition pipewrite_resume (n g : nat) (i : Z) (bs : list Z) : K Z :=
  sleep_resume (LkPipe g);; pipewrite_loop n g i bs.

(** * Reading and writing *)

(** [offset] is a global of file.c that only this function uses, set and read at once. *)
Definition fileread (fd n : Z) : K (Z * list Z) :=
  o <- pftable_at fd;
  match o with
  | None => ret (-1, [])
  | Some g =>
      f <- file_at g;
      if negb (f_isPipe f) then
        match f_iptr f with
        | None => ret (-1, [])
        | Some ip =>
            if f_access f =? O_WRONLY then ret (-1, []) else
            '(offset, bs) <- concurrent_readi ip (u32 (f_offset f)) (u32 n);
            acquire LkFtable;;
            o <- pftable_at fd;
            g <- deref o;
            file_mod g (fun f => f <| f_offset := s32 (f_offset f + offset) |>);;
            release LkFtable;;
            ret (offset, bs)
        end
      else
        if negb (read_fd (f_pipe f) =? fd) then ret (-1, []) else
        acquire (LkPipe g);;
        piperead_wait g n
  end.

Definition filewrite (fd : Z) (buf : list Z) (n : Z) : K Z :=
  o <- pftable_at fd;
  match o with
  | None => ret (-1)
  | Some g =>
      f <- file_at g;
      if negb (f_isPipe f) then
        match f_iptr f with
        | None => ret (-1)
        | Some ip =>
            if f_access f =? O_RDONLY then ret (-1) else
            concurrent_writei ip buf (u32 (f_offset f)) (u32 n)
        end
      else
        acquire (LkPipe g);;
        pipewrite_loop (Z.to_nat n) g 0 buf
  end.

Definition filedup (fd : Z) : K Z :=
  o <- pftable_at fd;
  match o with
  | None => ret (-1)
  | Some g =>
      f <- file_at g;
      if negb (f_isPipe f) && bool_decide (f_iptr f = None) then ret (-1) else
      i <- myproc;
      p <- proc_at i;
      match index_of is_free_fd (p_pftable p) with
      | None => ret (-1)
      | Some j =>
          acquire LkFtable;;
          pftable_set j (Some g);;
          file_mod g (fun f => f <| f_ref := f_ref f + 1 |>);;
          release LkFtable;;
          ret (Z.of_nat j)
      end
  end.

(** The copy loop over the [n] slots from [i] on, from process [parent] to [child]. *)
Fixpoint filecopy_loop (n i : nat) (parent child : nat) : K unit :=
  match n with
  | O => ret tt
  | S n =>
      p <- proc_at parent;
      o <- deref (p_pftable p !! i);
      match o with
      | None => ret tt
      | Some g =>
          acquire LkFtable;;
          proc_mod child (fun p => p <| p_pftable ::= <[i := Some g]> |>);;
          file_mod g (fun f => f <| f_ref := f_ref f + 1 |>);;
          release LkFtable
      end;;
      filecopy_loop n (S i) parent child
  end.
Definition filecopy (parent child : nat) : K unit := filecopy_loop NOFILE 0 parent child.

(** The loop of [pipe] over the process's table: the descriptors taken. *)
Fixpoint pipe_fds (n j : nat) (g : nat) (fds : list nat) : K (list nat) :=
  match n with
  | O => ret fds
  | S n =>
      o <- pftable_at (Z.of_nat j);
      if is_free_fd o && (length fds <? 2)%nat then
        pftable_set j (Some g);;
        file_mod g (fun f => f <| f_ref := f_ref f + 1 |>);;
        pipe_fds n (S j) g (fds ++ [j])
      else pipe_fds n (S j) g fds
  end.
(** On failure kfree is given an address inside ftable, which lies below _end: it panics. *)
Definition pipe_ : K (Z * list nat) :=
  t <- gets k_ftable;
  match index_of is_free_file t with
  | None => ret (-1, [])
  | Some g =>
      file_mod g (fun f => f <| f_isPipe := true |> <| f_access := O_RDWR |>);;
      fds <- pipe_fds NOFILE 0 g [];
      match fds with
      | [r; w] =>
          pipe_mod g (fun p => p <| read_fd := Z.of_nat r |> <| write_fd := Z.of_nat w |>
                                 <| pi_head := 0 |> <| pi_tail := 0 |>
                                 <| pi_full := false |> <| pi_empty := true |>);;
          ret (0, fds)
      | _ => file_mod g (fun f => f <| f_ref := 0 |>);; panic "kfree"
      end
  end.
End File.
