(* ===== verification/Frame.v ===== *)
(** What kernel code leaves alone.  [keeps f m]: running [m], to its end or to where it gives up
    the processor, does not change the part [f] of the state.  Every function below the file
    layer keeps the open files. *)
From S2P Require Import Prelude Kstate Locks Kalloc Sched Bytes Bio Fs.

Definition keeps {A X} (f : kstate -> X) (m : K A) : Prop :=
  forall s, match m s with Ok _ s' | Sleep s' => f s' = f s | _ => True end.

Create HintDb keeps.

Section rules.
Context {X : Type} (f : kstate -> X).
Lemma keeps_ret {A} (a : A) : keeps f (ret a).
Proof. by intros s. Qed.
Lemma keeps_bind {A B} (m : K A) (k : A -> K B) :
  keeps f m -> (forall a, keeps f (k a)) -> keeps f (bind m k).
Proof.
  intros Hm Hk s. unfold bind. specialize (Hm s). destruct (m s) as [a s'| |s'| |]; try done.
  specialize (Hk a s'). destruct (k a s'); try done; congruence.
Qed.
Lemma keeps_get : keeps f get.
Proof. by intros s. Qed.
Lemma keeps_gets {A} (g : kstate -> A) : keeps f (gets g).
Proof. by intros s. Qed.
Lemma keeps_modify g : (forall s, f (g s) = f s) -> keeps f (modify g).
Proof. intros H s. apply H. Qed.
Lemma keeps_panic {A} msg : keeps (A:=A) f (panic msg).
Proof. by intros s. Qed.
Lemma keeps_fault {A} : keeps (A:=A) f fault.
Proof. by intros s. Qed.
Lemma keeps_hang {A} : keeps (A:=A) f hang.
Proof. by intros s. Qed.
Lemma keeps_assert b : keeps f (assert_ b).
Proof. by destruct b. Qed.
Lemma keeps_deref {A} (o : option A) : keeps f (deref o).
Proof. by destruct o. Qed.
Lemma keeps_when b m : keeps f m -> keeps f (when b m).
Proof. intros H. by destruct b. Qed.
Lemma keeps_stop {A} : keeps (A:=A) f (fun s => Sleep s).
Proof. by intros s. Qed.
End rules.
#[export] Hint Resolve keeps_ret keeps_get keeps_gets keeps_panic keeps_fault keeps_hang
  keeps_assert keeps_deref keeps_stop : keeps.

(** Follow the code: every statement is known to keep [f] or is a change of another field. *)
Ltac keeps :=
  repeat match goal with
  | |- forall _, _ => intros ?
  | |- keeps _ (bind _ _) => apply keeps_bind; [|intros ?]
  | |- keeps _ (when _ _) => apply keeps_when
  | |- keeps _ _ => solve [eauto with keeps]
  | |- keeps _ (modify _) => apply keeps_modify; intros ?; reflexivity
  | |- keeps _ (if ?b then _ else _) => destruct b
  | |- keeps _ (match ?x with _ => _ end) => destruct x eqn:?
  end.

(** * Open files *)

(** A process without what the scheduler's side of the kernel changes. *)
Definition still (p : proc) : proc :=
  p <| p_state := UNUSED |> <| p_context := CtxNone |> <| p_chan := None |>.
(** The file table, the processes with their descriptors, and which process runs. *)
Definition files (s : kstate) : list file_info * list proc * option nat * (option nat * Z) :=
  (k_ftable s, still <$> k_ptable s, k_cur s, (k_initproc s, k_nextpid s)).

Lemma files_inv s s' :
  files s' = files s ->
  k_ftable s' = k_ftable s /\ p_pftable <$> k_ptable s' = p_pftable <$> k_ptable s /\
  k_cur s' = k_cur s.
Proof.
  unfold files. intros [= H1 H2 H3 _]. split_and!; try done.
  apply (f_equal (fmap p_pftable)) in H2. by rewrite <-!list_fmap_compose in H2.
Qed.

Lemma keeps_proc_mod i g : (forall p, still (g p) = still p) -> keeps files (proc_mod i g).
Proof.
  intros Hg. apply keeps_modify. intros s. unfold files. simpl. do 3 f_equal.
  apply list_eq. intros j. rewrite !list_lookup_fmap. destruct (decide (i = j)) as [<-|Hne].
  - rewrite list_lookup_alter_eq. destruct (k_ptable s !! i); simpl; [by rewrite Hg|done].
  - by rewrite list_lookup_alter_ne.
Qed.
Lemma keeps_wakeup1 c : keeps files (wakeup1 c).
Proof.
  apply keeps_modify. intros s. unfold files. simpl. do 3 f_equal. rewrite <-list_fmap_compose.
  apply list_fmap_ext. intros k p _. unfold wake_proc. simpl. by case_decide.
Qed.
#[export] Hint Resolve keeps_proc_mod keeps_wakeup1 : keeps.
#[export] Hint Extern 1 (still _ = still _) => reflexivity : keeps.
#[export] Hint Extern 2 (keeps _ (modify _)) => (apply keeps_modify; intros ?; reflexivity) : keeps.

Section below.
Lemma keeps_pushcli : keeps files pushcli.
Proof. unfold pushcli, cli. keeps. Qed.
Lemma keeps_popcli : keeps files popcli.
Proof. unfold popcli, sti. keeps. Qed.
Hint Resolve keeps_pushcli keeps_popcli : keeps.
Lemma keeps_acquire l : keeps files (acquire l).
Proof. unfold acquire, holding. keeps. Qed.
Lemma keeps_release l : keeps files (release l).
Proof. unfold release, holding. keeps. Qed.
Lemma keeps_initlock l : keeps files (initlock l).
Proof. unfold initlock. keeps. Qed.
Hint Resolve keeps_initlock : keeps.
Lemma keeps_initsleeplock l : keeps files (initsleeplock l).
Proof. unfold initsleeplock. keeps. Qed.
Hint Resolve keeps_acquire keeps_release : keeps.
Lemma keeps_myproc : keeps files myproc.
Proof. unfold myproc. keeps. Qed.
Lemma keeps_proc_at i : keeps files (proc_at i).
Proof. unfold proc_at. keeps. Qed.
Hint Resolve keeps_myproc keeps_proc_at : keeps.
Lemma keeps_sched {A} : keeps files (sched (A:=A)).
Proof. unfold sched, holding. keeps. Qed.
Hint Resolve keeps_sched : keeps.
Lemma keeps_sleep {A} c lk : keeps files (sleep (A:=A) c lk).
Proof. unfold sleep. keeps. Qed.
Lemma keeps_sleep_resume lk : keeps files (sleep_resume lk).
Proof. unfold sleep_resume. keeps. Qed.
Lemma keeps_wakeup c : keeps files (wakeup c).
Proof. unfold wakeup. keeps. Qed.
Hint Resolve keeps_sleep keeps_wakeup : keeps.
Lemma keeps_acquiresleep l : keeps files (acquiresleep l).
Proof. unfold acquiresleep, acquiresleep_loop. keeps. Qed.
Lemma keeps_releasesleep l : keeps files (releasesleep l).
Proof. unfold releasesleep. keeps. Qed.
Lemma keeps_holdingsleep l : keeps files (holdingsleep l).
Proof. unfold holdingsleep. keeps. Qed.
End below.
#[export] Hint Resolve keeps_acquire keeps_release keeps_initlock keeps_initsleeplock keeps_myproc keeps_proc_at
  keeps_sched keeps_sleep keeps_sleep_resume keeps_wakeup keeps_acquiresleep keeps_releasesleep
  keeps_holdingsleep : keeps.

(** A driver that leaves the files alone, as both of the kernel's do. *)
Class DriverKeeps (D : Driver) := iderw_keeps : forall i, keeps files (iderw i).
Class DevswKeeps (V : Devsw) := {
  dev_read_keeps d f : dev_read d = Some f -> forall ip n, keeps files (f ip n);
  dev_write_keeps d f : dev_write d = Some f -> forall ip bs n, keeps files (f ip bs n) }.

Section fs.
Context {D : Driver} {V : Devsw} {DK : DriverKeeps D} {VK : DevswKeeps V}.

Lemma keeps_iderw i : keeps files (iderw i).
Proof. apply DK. Qed.
Hint Resolve keeps_iderw : keeps.
Lemma keeps_buf_at i : keeps files (buf_at i).
Proof. unfold buf_at. keeps. Qed.
Lemma keeps_buf_mod i f : keeps files (buf_mod i f).
Proof. unfold buf_mod. keeps. Qed.
Hint Resolve keeps_buf_at keeps_buf_mod : keeps.
Lemma keeps_get_next p : keeps files (get_next p).
Proof. unfold get_next. keeps. Qed.
Lemma keeps_get_prev p : keeps files (get_prev p).
Proof. unfold get_prev. keeps. Qed.
Lemma keeps_set_next p q : keeps files (set_next p q).
Proof. unfold set_next. keeps. Qed.
Lemma keeps_set_prev p q : keeps files (set_prev p q).
Proof. unfold set_prev. keeps. Qed.
Hint Resolve keeps_get_next keeps_get_prev keeps_set_next keeps_set_prev : keeps.
Lemma keeps_scan step test fuel p : (forall q, keeps files (step q)) -> keeps files (scan step test fuel p).
Proof. intros H. revert p. induction fuel as [|fuel IH]; intros p; simpl; keeps. Qed.
Hint Resolve keeps_scan : keeps.
Lemma keeps_bget dev n : keeps files (bget dev n).
Proof. unfold bget. keeps. Qed.
Hint Resolve keeps_bget : keeps.
Lemma keeps_bread dev n : keeps files (bread dev n).
Proof. unfold bread. keeps. Qed.
Lemma keeps_bwrite i : keeps files (bwrite i).
Proof. unfold bwrite, reboot. keeps. Qed.
Lemma keeps_brelse i : keeps files (brelse i).
Proof. unfold brelse, unlink, push_front, push_front_head. keeps. Qed.
Hint Resolve keeps_bread keeps_bwrite keeps_brelse : keeps.

Lemma keeps_ip_get ip : keeps files (ip_get ip).
Proof. unfold ip_get. keeps. Qed.
Lemma keeps_ip_mod ip f : keeps files (ip_mod ip f).
Proof. unfold ip_mod. keeps. Qed.
Hint Resolve keeps_ip_get keeps_ip_mod : keeps.
Lemma keeps_idup ip : keeps files (idup ip).
Proof. unfold idup. keeps. Qed.
Lemma keeps_irelease ip : keeps files (irelease ip).
Proof. unfold irelease. keeps. Qed.
Lemma keeps_unlocki ip : keeps files (unlocki ip).
Proof. unfold unlocki. keeps. Qed.
Lemma keeps_stati ip : keeps files (stati ip).
Proof. unfold stati. keeps. Qed.
Hint Resolve keeps_idup keeps_irelease keeps_unlocki keeps_stati : keeps.
Lemma keeps_seek_extent fuel es k size off : keeps files (seek_extent fuel es k size off).
Proof. revert k size. induction fuel as [|fuel IH]; intros k size; simpl; keeps. Qed.
Lemma keeps_readi_loop fuel I n tot off size k acc : keeps files (readi_loop fuel I n tot off size k acc).
Proof.
  revert tot off size k acc. induction fuel as [|fuel IH]; intros tot off size k acc; cbn [readi_loop]; keeps.
Qed.
Hint Resolve keeps_seek_extent keeps_readi_loop : keeps.
Lemma keeps_readi ip off n : keeps files (readi ip off n).
Proof.
  unfold readi. keeps. by eapply dev_read_keeps.
Qed.
Hint Resolve keeps_readi : keeps.
Lemma keeps_getfree_loop fuel dev i : keeps files (getfree_loop fuel dev i).
Proof. revert i. induction fuel as [|fuel IH]; intros i; cbn [getfree_loop]; keeps. Qed.
Hint Resolve keeps_getfree_loop : keeps.
Lemma keeps_getfreestartblkno dev : keeps files (getfreestartblkno dev).
Proof. unfold getfreestartblkno. keeps. Qed.
Lemma keeps_put_block dev n o src m : keeps files (put_block dev n o src m).
Proof. unfold put_block. keeps. Qed.
Lemma keeps_ext_mod ip k f : keeps files (ext_mod ip k f).
Proof. unfold ext_mod. keeps. Qed.
Lemma keeps_skip_used fuel es k : keeps files (skip_used fuel es k).
Proof. revert k. induction fuel as [|fuel IH]; intros k; simpl; keeps. Qed.
Hint Resolve keeps_getfreestartblkno keeps_put_block keeps_ext_mod keeps_skip_used : keeps.
Lemma keeps_appendi_loop fuel ip src append tot size k :
  keeps files (appendi_loop fuel ip src append tot size k).
Proof.
  revert src tot size k. induction fuel as [|fuel IH]; intros src tot size k; cbn [appendi_loop]; keeps.
Qed.
Lemma keeps_writei_loop fuel I n tot off size k src : keeps files (writei_loop fuel I n tot off size k src).
Proof.
  revert tot off size k src. induction fuel as [|fuel IH]; intros tot off size k src;
    cbn [writei_loop]; keeps.
Qed.
Hint Resolve keeps_appendi_loop keeps_writei_loop : keeps.
Lemma keeps_appendi ip src append : keeps files (appendi ip src append).
Proof. unfold appendi. keeps. Qed.
Hint Resolve keeps_appendi : keeps.
Lemma keeps_writei ip src off n : keeps files (writei ip src off n).
Proof.
  unfold writei. keeps. by eapply dev_write_keeps.
Qed.
Hint Resolve keeps_writei : keeps.
Lemma keeps_read_dinode_with l n : (forall ip, keeps files (l ip)) -> keeps files (read_dinode_with l n).
Proof. intros H. unfold read_dinode_with. keeps. Qed.
Lemma keeps_locki_f fuel ip : keeps files (locki_f fuel ip).
Proof.
  revert ip. induction fuel as [|fuel IH]; intros ip; cbn [locki_f]; keeps.
  by apply keeps_read_dinode_with.
Qed.
Lemma keeps_locki ip : keeps files (locki ip).
Proof. apply keeps_locki_f. Qed.
Lemma keeps_read_dinode n : keeps files (read_dinode n).
Proof. apply keeps_read_dinode_with, keeps_locki. Qed.
Hint Resolve keeps_locki keeps_read_dinode : keeps.
Lemma keeps_concurrent_stati ip : keeps files (concurrent_stati ip).
Proof. unfold concurrent_stati. keeps. Qed.
Lemma keeps_concurrent_readi ip off n : keeps files (concurrent_readi ip off n).
Proof. unfold concurrent_readi. keeps. Qed.
Lemma keeps_concurrent_writei ip src off n : keeps files (concurrent_writei ip src off n).
Proof. unfold concurrent_writei. keeps. Qed.
Lemma keeps_iget dev n : keeps files (iget dev n).
Proof. unfold iget. keeps. Qed.
Hint Resolve keeps_concurrent_stati keeps_concurrent_readi keeps_concurrent_writei keeps_iget : keeps.
Lemma keeps_dirlookup_loop fuel dp name off : keeps files (dirlookup_loop fuel dp name off).
Proof. revert off. induction fuel as [|fuel IH]; intros off; cbn [dirlookup_loop]; keeps. Qed.
Hint Resolve keeps_dirlookup_loop : keeps.
Lemma keeps_dirlookup dp name : keeps files (dirlookup dp name).
Proof. unfold dirlookup. keeps. Qed.
Hint Resolve keeps_dirlookup : keeps.
Lemma keeps_namex_loop fuel ip path parent name : keeps files (namex_loop fuel ip path parent name).
Proof.
  revert ip path name. induction fuel as [|fuel IH]; intros ip path name; cbn [namex_loop]; keeps.
Qed.
Hint Resolve keeps_namex_loop : keeps.
Lemma keeps_namex path parent name : keeps files (namex path parent name).
Proof. unfold namex, namex_abs. keeps. Qed.
Hint Resolve keeps_namex : keeps.
Lemma keeps_namei path : keeps files (namei path).
Proof. unfold namei. keeps. Qed.
Lemma keeps_nameiparent path : keeps files (nameiparent path).
Proof. apply keeps_namex. Qed.
Lemma keeps_update_dinode ip : keeps files (update_dinode ip).
Proof. unfold update_dinode. keeps. Qed.
Lemma keeps_createi_scan fuel ip off de : keeps files (createi_scan fuel ip off de).
Proof. revert off de. induction fuel as [|fuel IH]; intros off de; cbn [createi_scan]; keeps. Qed.
Hint Resolve keeps_nameiparent keeps_update_dinode keeps_createi_scan : keeps.
Lemma keeps_createi ip path : keeps files (createi ip path).
Proof. unfold createi. keeps. Qed.
Hint Resolve keeps_createi : keeps.
Lemma keeps_concurrent_createi path : keeps files (concurrent_createi path).
Proof. unfold concurrent_createi. keeps. Qed.
Lemma keeps_readsb dev : keeps files (readsb dev).
Proof. unfold readsb. keeps. Qed.
Lemma keeps_init_inodefile dev : keeps files (init_inodefile dev).
Proof. unfold init_inodefile. keeps. Qed.
Lemma keeps_iinit_locks n i : keeps files (iinit_locks n i).
Proof. revert i. induction n as [|n IH]; intros i; cbn [iinit_locks]; keeps. Qed.
Hint Resolve keeps_readsb keeps_init_inodefile keeps_iinit_locks : keeps.
Lemma keeps_iinit dev : keeps files (iinit dev).
Proof. unfold iinit. keeps. Qed.
End fs.
#[export] Hint Resolve keeps_irelease keeps_unlocki keeps_locki keeps_readi keeps_concurrent_stati
  keeps_concurrent_readi keeps_concurrent_writei keeps_namei keeps_concurrent_createi keeps_iinit
  : keeps.
