(* ===== verification/FileProofs.v ===== *)
(** Correctness of kernel/file.c: reference counts of open files, and pipes as queues. *)
From S2P Require Import Prelude Kstate Locks Kalloc Sched Bytes Bio Ide Fs Frame File.

(** * A postcondition for kernel code

    [wp m Q R s]: if [m] returns it does with [Q], if it gives up the processor it does in [R]. *)
Definition wp {A} (m : K A) (Q : A -> kstate -> Prop) (R : kstate -> Prop) (s : kstate) : Prop :=
  match m s with Ok a s' => Q a s' | Sleep s' => R s' | _ => True end.
Lemma wp_bind {A B} (m : K A) (k : A -> K B) Q R s :
  wp m (fun a => wp (k a) Q R) R s -> wp (bind m k) Q R s.
Proof. unfold wp, bind. by destruct (m s). Qed.
Lemma wp_mono {A} (m : K A) (Q Q' : A -> kstate -> Prop) (R R' : kstate -> Prop) s :
  wp m Q R s -> (forall a s', Q a s' -> Q' a s') -> (forall s', R s' -> R' s') -> wp m Q' R' s.
Proof. unfold wp. destruct (m s); auto. Qed.

(** Code that never gives up the processor. *)
Definition awake {A} (m : K A) : Prop := forall s s', m s <> Sleep s'.
Create HintDb awake.
Section awake.
Lemma awake_bind {A B} (m : K A) (k : A -> K B) : awake m -> (forall a, awake (k a)) -> awake (bind m k).
Proof. 
  intros Hm Hk s s'. unfold bind. specialize (Hm s).
  destruct (m s) as [a s1| |s1| |]; [apply Hk|done|by destruct (Hm s1)|done|done].
Qed.
Lemma awake_when b m : awake m -> awake (when b m).
Proof. by destruct b. Qed.
Lemma awake_deref {A} (o : option A) : awake (deref o).
Proof. by destruct o. Qed.
End awake.
Ltac awake :=
  repeat match goal with
  | |- awake (bind _ _) => apply awake_bind; [|intros ?]
  | |- awake (when _ _) => apply awake_when
  | |- awake (deref _) => apply awake_deref
  | |- awake (if ?b then _ else _) => destruct b
  | |- awake _ => solve [eauto with awake]
  | |- awake _ => intros ? ? ?; discriminate
  end.
Lemma awake_acquire l : awake (acquire l).
Proof. unfold acquire, pushcli, cli, holding. awake. Qed.
Lemma awake_release l : awake (release l).
Proof. unfold release, popcli, sti, holding. awake. Qed.
#[export] Hint Resolve awake_acquire awake_release : awake.
Lemma awake_wakeup c : awake (wakeup c).
Proof. unfold wakeup, wakeup1. awake. Qed.
#[export] Hint Resolve awake_wakeup : awake.
Lemma awake_irelease ip : awake (irelease ip).
Proof. unfold irelease, ip_get, ip_mod. awake; destruct ip; awake. Qed.
#[export] Hint Resolve awake_irelease : awake.

Lemma wp_keeps {A X} (f : kstate -> X) (m : K A) (Q : A -> kstate -> Prop) (R : kstate -> Prop) s :
  keeps f m -> (forall a s', f s' = f s -> Q a s') -> (forall s', f s' = f s -> R s') -> wp m Q R s.
Proof. intros H HQ HR. unfold wp. specialize (H s). destruct (m s); auto. Qed.
Lemma wp_quiet {A X} (f : kstate -> X) (m : K A) (Q : A -> kstate -> Prop) (R : kstate -> Prop) s :
  keeps f m -> awake m -> (forall a s', f s' = f s -> Q a s') -> wp m Q R s.
Proof.
  intros H Ha HQ. unfold wp. specialize (H s). specialize (Ha s). destruct (m s); auto. by destruct (Ha s0).
Qed.

(** * Reference counts *)

Definition is_ref (g : nat) (o : option nat) : bool := bool_decide (o = Some g).
(** The descriptors, over all processes, that stand for entry [g] of the file table. *)
Definition holders (g : nat) (T : list (list (option nat))) : Z :=
  foldr (fun row n => cnt (is_ref g) row + n) 0 T.

Lemma cnt_insert {A} (P : A -> bool) i x y (l : list A) :
  l !! i = Some x -> cnt P (<[i := y]> l) = cnt P l - Z.b2z (P x) + Z.b2z (P y).
Proof.
  intros H. rewrite <-(cnt_alter P (fun _ => y) i l x H). f_equal.
  apply list_eq. intros j. destruct (decide (i = j)) as [<-|Hne].
  - rewrite list_lookup_alter_eq, H. simpl. apply list_lookup_insert_eq. by eapply lookup_lt_Some.
  - by rewrite list_lookup_alter_ne, list_lookup_insert_ne.
Qed.
Lemma holders_set g T i row fd o0 o :
  T !! i = Some row -> row !! fd = Some o0 ->
  holders g (alter (<[fd := o]>) i T) = holders g T - Z.b2z (is_ref g o0) + Z.b2z (is_ref g o).
Proof.
  intros Hi Hfd. revert i Hi. induction T as [|r T IH]; intros [|i] Hi; try done.
  - injection Hi as ->. change (cnt (is_ref g) (<[fd := o]> row) + holders g T =
      cnt (is_ref g) row + holders g T - Z.b2z (is_ref g o0) + Z.b2z (is_ref g o)).
    rewrite (cnt_insert _ fd o0) by done. lia.
  - change (cnt (is_ref g) r + holders g (alter (<[fd := o]>) i T) =
      cnt (is_ref g) r + holders g T - Z.b2z (is_ref g o0) + Z.b2z (is_ref g o)).
    rewrite (IH i Hi). lia.
Qed.

(** Every entry counts the descriptors that stand for it. *)
Definition refs_ok (s : kstate) : Prop :=
  forall g f, k_ftable s !! g = Some f -> f_ref f = holders g (p_pftable <$> k_ptable s).
Lemma refs_ok_files s s' : files s' = files s -> refs_ok s -> refs_ok s'.
Proof. intros (E1 & E2 & _)%files_inv. unfold refs_ok. by rewrite E1, E2. Qed.

(** The state after [pftable_set] and [file_mod]. *)
Definition with_desc (fd : nat) (o : option nat) (i : nat) (s : kstate) : kstate :=
  s <| k_ptable ::= upd_at i (fun p => p <| p_pftable ::= <[fd := o]> |>) |>.
Definition with_entry (g : nat) (f : file_info -> file_info) (s : kstate) : kstate :=
  s <| k_ftable ::= upd_at g f |>.
Lemma pftable_set_run fd o s i : k_cur s = Some i -> pftable_set fd o s = Ok tt (with_desc fd o i s).
Proof. intros H. unfold pftable_set, myproc, proc_mod. mrun. by rewrite H. Qed.
Lemma rows_alter (i : nat) fd o (l : list proc) :
  p_pftable <$> alter (fun p => p <| p_pftable ::= <[fd := o]> |>) i l =
  alter (<[fd := o]>) i (p_pftable <$> l).
Proof.
  apply list_eq. intros j. rewrite list_lookup_fmap. destruct (decide (i = j)) as [<-|Hne].
  - rewrite !list_lookup_alter_eq, list_lookup_fmap. by destruct (l !! i).
  - by rewrite !list_lookup_alter_ne, list_lookup_fmap.
Qed.

(** Moving one descriptor from [o0] to [o], with the counts of the entries adjusted. *)
Lemma refs_ok_move s s' i row fd o0 o :
  refs_ok s -> (p_pftable <$> k_ptable s) !! i = Some row -> row !! fd = Some o0 ->
  p_pftable <$> k_ptable s' = alter (<[fd := o]>) i (p_pftable <$> k_ptable s) ->
  (forall g f', k_ftable s' !! g = Some f' -> exists f, k_ftable s !! g = Some f /\
     f_ref f' = f_ref f - Z.b2z (is_ref g o0) + Z.b2z (is_ref g o)) ->
  refs_ok s'.
Proof.
  intros W Hi Hfd HT HF g f' Hg. destruct (HF g f' Hg) as (f & Hf & ->).
  rewrite HT, (holders_set g _ i row fd o0 o) by done. by rewrite (W g f Hf).
Qed.
Lemma is_ref_ne g g' : g <> g' -> is_ref g (Some g') = false.
Proof. intros H. unfold is_ref. rewrite bool_decide_false by congruence. done. Qed.
Lemma is_ref_eq g : is_ref g (Some g) = true.
Proof. unfold is_ref. by rewrite bool_decide_true. Qed.

(** The counts after one entry changed. *)
Lemma entry_counts g h (t : list file_info) (d : nat -> Z) :
  (forall f, t !! g = Some f -> f_ref (h f) = f_ref f + d g) -> (forall g', g' <> g -> d g' = 0) ->
  forall g' f', alter h g t !! g' = Some f' ->
    exists f, t !! g' = Some f /\ f_ref f' = f_ref f + d g'.
Proof.
  intros H1 H2 g' f'. destruct (decide (g' = g)) as [->|Hne].
  - rewrite list_lookup_alter_eq. intros (f & Hf & ->)%fmap_Some. exists f. by rewrite (H1 f Hf).
  - rewrite list_lookup_alter_ne by done. intros Hf. exists f'. rewrite (H2 g' Hne). split; [done|lia].
Qed.

(** One descriptor and one entry changed together. *)
Lemma refs_ok_step s i row fd o0 o g h :
  refs_ok s -> (p_pftable <$> k_ptable s) !! i = Some row -> row !! fd = Some o0 ->
  (forall g', g' <> g -> is_ref g' o0 = false /\ is_ref g' o = false) ->
  (forall f, k_ftable s !! g = Some f ->
     f_ref (h f) = f_ref f - Z.b2z (is_ref g o0) + Z.b2z (is_ref g o)) ->
  refs_ok (with_entry g h (with_desc fd o i s)).
Proof.
  intros W Hi Hfd Hne Hh. eapply (refs_ok_move s _ i row fd o0 o W Hi Hfd); [apply rows_alter|].
  intros g' f' Hf'.
  destruct (entry_counts g h (k_ftable s)
    (fun g => - Z.b2z (is_ref g o0) + Z.b2z (is_ref g o))) with g' f' as (f & Hf & E);
    [intros f Hf; rewrite (Hh f Hf); lia|intros g1 H1; by destruct (Hne g1 H1) as [-> ->]|done|].
  exists f. split; [done|lia].
Qed.
Lemma holders_nonneg g T : 0 <= holders g T.
Proof.
  unfold holders. induction T as [|r T IH]; simpl; [lia|]. pose proof (cnt_nonneg (is_ref g) r). lia.
Qed.
Lemma holders_pos g T i row fd :
  T !! i = Some row -> row !! fd = Some (Some g) -> 1 <= holders g T.
Proof.
  intros Hi Hfd. revert i Hi. induction T as [|r T IH]; intros i Hi; [done|].
  pose proof (holders_nonneg g T) as Hp.
  change (holders g (r :: T)) with (cnt (is_ref g) r + holders g T).
  destruct i as [|i].
  - injection Hi as ->. assert (0 < cnt (is_ref g) row); [|lia].
    apply cnt_pos. exists fd, (Some g). split; [done|apply is_ref_eq].
  - specialize (IH i Hi). pose proof (cnt_nonneg (is_ref g) r). lia.
Qed.

(** * Rules for the primitives of file.c *)

Lemma wp_pftable_at fd (Q : option nat -> kstate -> Prop) R s :
  (forall i p o, k_cur s = Some i -> k_ptable s !! i = Some p -> 0 <= fd ->
     p_pftable p !! Z.to_nat fd = Some o -> Q o s) -> wp (pftable_at fd) Q R s.
Proof.
  intros H. unfold wp, pftable_at, myproc, proc_at. mred. destruct (k_cur s) as [i|] eqn:Hc; [|done].
  destruct (k_ptable s !! i) as [p|] eqn:Hp; [|done]. destruct (Z.ltb_spec fd 0); [done|].
  destruct (p_pftable p !! Z.to_nat fd) as [o|] eqn:Ho; [|done]. by eapply H.
Qed.
Lemma wp_file_at g (Q : file_info -> kstate -> Prop) R s :
  (forall f, k_ftable s !! g = Some f -> Q f s) -> wp (file_at g) Q R s.
Proof. intros H. unfold wp, file_at. mred. destruct (k_ftable s !! g); auto. Qed.
Lemma wp_myproc (Q : nat -> kstate -> Prop) R s :
  (forall i, k_cur s = Some i -> Q i s) -> wp myproc Q R s.
Proof. intros H. unfold wp, myproc. mred. destruct (k_cur s); auto. Qed.
Lemma wp_proc_at i (Q : proc -> kstate -> Prop) R s :
  (forall p, k_ptable s !! i = Some p -> Q p s) -> wp (proc_at i) Q R s.
Proof. intros H. unfold wp, proc_at. mred. destruct (k_ptable s !! i); auto. Qed.
Lemma wp_pftable_set fd o (Q : unit -> kstate -> Prop) R s :
  (forall i, k_cur s = Some i -> Q tt (with_desc fd o i s)) -> wp (pftable_set fd o) Q R s.
Proof.
  intros H. unfold wp, pftable_set, myproc, proc_mod. mred. destruct (k_cur s) as [i|]; [|done]. by apply H.
Qed.
Lemma wp_file_mod g h (Q : unit -> kstate -> Prop) R s :
  Q tt (with_entry g h s) -> wp (file_mod g h) Q R s.
Proof. done. Qed.
Lemma wp_ret {A} (a : A) (Q : A -> kstate -> Prop) R s : Q a s -> wp (ret a) Q R s.
Proof. done. Qed.
Lemma wp_gets {A} (f : kstate -> A) (Q : A -> kstate -> Prop) R s : Q (f s) s -> wp (gets f) Q R s.
Proof. done. Qed.

Lemma index_of_Some {A} (P : A -> bool) l i :
  index_of P l = Some i -> exists x, l !! i = Some x /\ P x = true.
Proof.
  unfold index_of. intros ([j x] & H & ->)%fmap_Some. apply list_find_Some in H as (H1 & H2 & _).
  by exists x.
Qed.
Lemma free_fd_Some l j : index_of is_free_fd l = Some j -> l !! j = Some None.
Proof. intros (o & H & E)%index_of_Some. by apply bool_decide_eq_true_1 in E as ->. Qed.

(** The counts alone decide [refs_ok]. *)
Definition counts (s : kstate) : list Z * list (list (option nat)) :=
  (f_ref <$> k_ftable s, p_pftable <$> k_ptable s).
Lemma refs_ok_counts s s' : counts s' = counts s -> refs_ok s -> refs_ok s'.
Proof.
  unfold counts, refs_ok. intros [= Hf Ht] W g f' Hg. rewrite Ht.
  assert ((f_ref <$> k_ftable s') !! g = Some (f_ref f')) as H by (by rewrite list_lookup_fmap, Hg).
  rewrite Hf, list_lookup_fmap in H. apply fmap_Some in H as (f & Hf' & ->). by apply W.
Qed.
Lemma counts_files s s' : files s' = files s -> counts s' = counts s.
Proof. intros (E1 & E2 & _)%files_inv. unfold counts. by rewrite E1, E2. Qed.
Lemma keeps_counts {A} (m : K A) : keeps files m -> keeps counts m.
Proof. intros H s. specialize (H s). destruct (m s); auto using counts_files. Qed.
Lemma counts_entry g h s :
  (forall f, f_ref (h f) = f_ref f) -> counts (with_entry g h s) = counts s.
Proof.
  intros Hh. unfold counts. simpl. f_equal.
  apply list_eq. intros j. rewrite !list_lookup_fmap. destruct (decide (g = j)) as [<-|Hne].
  - rewrite list_lookup_alter_eq. destruct (k_ftable s !! g); simpl; [by rewrite Hh|done].
  - by rewrite list_lookup_alter_ne.
Qed.
Lemma keeps_file_mod g h : (forall f, f_ref (h f) = f_ref f) -> keeps counts (file_mod g h).
Proof. intros Hh. apply keeps_modify. intros s. by apply counts_entry. Qed.
#[export] Hint Resolve keeps_counts | 5 : keeps.
#[export] Hint Resolve keeps_file_mod : keeps.
#[export] Hint Extern 1 (f_ref _ = f_ref _) => reflexivity : keeps.

Definition preserved {A} (m : K A) : Prop :=
  forall s, refs_ok s -> wp m (fun _ s' => refs_ok s') refs_ok s.
Lemma preserved_counts {A} (m : K A) : keeps counts m -> preserved m.
Proof. intros H s W. eapply wp_keeps; [exact H|..]; intros; by eapply refs_ok_counts. Qed.

Lemma files_same s s1 i p :
  files s1 = files s -> k_cur s = Some i -> k_ptable s !! i = Some p ->
  (p_pftable <$> k_ptable s1) !! i = Some (p_pftable p) /\ k_cur s1 = Some i /\
  k_ftable s1 = k_ftable s.
Proof.
  intros (H1 & H2 & H3)%files_inv Hc Hp. rewrite H2, list_lookup_fmap, Hp. split; [done|].
  split; congruence.
Qed.
Ltac quietly := eapply (wp_quiet files); [eauto with keeps|eauto with awake|].

Section Preserve.
Context {D : Driver} {V : Devsw} {DK : DriverKeeps D} {VK : DevswKeeps V}.

Lemma filedup_preserved fd : preserved (filedup fd).
Proof.
  intros s W. unfold filedup. apply wp_bind, wp_pftable_at. intros i p [g|] Hc Hp _ _; [|done].
  apply wp_bind, wp_file_at. intros f Hf. destruct (negb (f_isPipe f) && _); [done|].
  apply wp_bind, wp_myproc. intros i' Hi. apply wp_bind, wp_proc_at. intros p' Hp'.
  destruct (index_of _ _) as [j|] eqn:Ej; [|done]. apply free_fd_Some in Ej.
  apply wp_bind. quietly. intros _ s1 E1. destruct (files_same s s1 i' p' E1 Hi Hp') as (Hr & Hc1 & Hf1).
  apply wp_bind, wp_pftable_set. intros i1 Hi1. assert (i1 = i') as -> by congruence.
  apply wp_bind, wp_file_mod, wp_bind. quietly. intros _ s2 E2. apply (refs_ok_files _ _ E2).
  eapply (refs_ok_step s1 i' _ j None (Some g) g _); [by eapply refs_ok_files|done|done| |].
  - intros g' Hne. by rewrite is_ref_ne.
  - intros f' _. rewrite is_ref_eq. simpl. lia.
Qed.

Lemma fileclose_preserved fd : preserved (fileclose fd).
Proof.
  intros s W. unfold fileclose. apply wp_bind, wp_pftable_at. intros i p [g|] Hc Hp Hfd Ho; [|done].
  apply wp_bind, wp_file_at. intros f Hf. destruct (negb (f_isPipe f) && _); [done|].
  apply wp_bind. quietly. intros _ s1 E1. destruct (files_same s s1 i p E1 Hc Hp) as (Hr & Hc1 & Hf1).
  apply wp_bind, wp_file_at. intros f1 Hf1'.
  assert (refs_ok s1) as W1 by (by eapply refs_ok_files).
  (* the entry of the file has lost one reference when the descriptor is cleared *)
  assert (forall h, (forall f, k_ftable s1 !! g = Some f -> f_ref (h f) = f_ref f - 1) ->
      forall s2, files s2 = files s1 ->
      wp (release LkFtable;; pftable_set (Z.to_nat fd) None;; ret 0)
        (fun _ s' => refs_ok s') refs_ok (with_entry g h s2)) as Hend.
  { intros h Hh s2 E2. apply wp_bind. quietly. intros _ s3 E3.
    apply files_inv in E2 as (F1 & F2 & F3). apply files_inv in E3 as (G1 & G2 & G3). simpl in G1, G2, G3.
    apply wp_bind, wp_pftable_set. intros i3 Hi3. assert (i3 = i) as -> by congruence. apply wp_ret.
    apply (refs_ok_counts (with_entry g h (with_desc (Z.to_nat fd) None i s1))).
    - unfold counts, with_desc, with_entry. simpl. rewrite !rows_alter, G1, G2, F1, F2. done.
    - eapply (refs_ok_step s1 i _ (Z.to_nat fd) (Some g) None g _); [done|done|done| |].
      + intros g' Hne. by rewrite is_ref_ne.
      + intros f' Hf'. rewrite (Hh f' Hf'), is_ref_eq. simpl. lia. }
  assert (1 <= f_ref f1) as Hpos.
  { rewrite (W1 g f1 Hf1'). eapply holders_pos; [exact Hr|exact Ho]. }
  destruct (Z.ltb_spec 1 (f_ref f1)).
  - apply wp_bind, wp_file_mod. apply Hend; [|done]. intros f' Hf'. simpl. lia.
  - apply wp_bind, wp_bind. eapply (wp_quiet files).
    { apply keeps_when. keeps. }
    { apply awake_when, awake_bind; [apply awake_deref|]. eauto with awake. }
    intros _ s2 E2. apply wp_file_mod.
    apply Hend; [|done]. intros f' Hf'. assert (f' = f1) as -> by congruence. simpl. lia.
Qed.

Lemma fileopen_preserved path mode : preserved (fileopen path mode).
Proof.
  intros s W. unfold fileopen. apply wp_bind.
  eapply (wp_keeps files); [eauto with keeps| |intros s1 E1; by eapply refs_ok_files].
  intros [ip|] s1 E1; [|by eapply refs_ok_files]. apply wp_bind.
  eapply (wp_keeps files); [eauto with keeps| |intros s2 E2; eapply refs_ok_files; [|exact W]; congruence].
  intros _ s2 E2. assert (refs_ok s2) as W2 by (eapply refs_ok_files; [|exact W]; congruence).
  destruct (mode =? T_DEV); [done|].
  apply wp_bind, wp_myproc. intros i Hi. apply wp_bind, wp_proc_at. intros p Hp.
  destruct (index_of is_free_fd _) as [j|] eqn:Ej; [|done]. apply free_fd_Some in Ej.
  apply wp_bind, wp_gets. destruct (index_of is_free_file _) as [g|] eqn:Eg; [|done].
  apply index_of_Some in Eg as (f & Hf & Hf0). apply Z.eqb_eq in Hf0.
  apply wp_bind, wp_bind. quietly. intros _ s3 E3.
  destruct (files_same s2 s3 i p E3 Hi Hp) as (Hr & Hc3 & Hf3).
  apply wp_bind, wp_file_mod, wp_bind, wp_pftable_set. intros i3 Hi3.
  assert (i3 = i) as -> by (simpl in Hi3; congruence). quietly. intros _ s4 E4. apply wp_ret.
  apply (refs_ok_files _ _ E4).
  eapply (refs_ok_step s3 i _ j None (Some g) g _); [by eapply refs_ok_files|done|done| |].
  - intros g' Hne. by rewrite is_ref_ne.
  - intros f' Hf'. rewrite is_ref_eq. simpl. assert (f' = f) as -> by congruence. lia.
Qed.

(** The loop of [pipe] in a state where the entry counts the descriptors taken so far. *)
Lemma pipe_fds_preserved n j g fds s :
  refs_ok s -> wp (pipe_fds n j g fds) (fun _ s' => refs_ok s') refs_ok s.
Proof.
  revert j fds s. induction n as [|n IH]; intros j fds s W; [done|]. cbn [pipe_fds].
  apply wp_bind, wp_pftable_at. intros i p o Hc Hp _ Ho. rewrite Nat2Z.id in Ho.
  destruct (is_free_fd o && _) eqn:E; [|by apply IH].
  apply andb_prop in E as [E _]. apply bool_decide_eq_true_1 in E as ->.
  apply wp_bind, wp_pftable_set. intros i' Hi'. assert (i' = i) as -> by congruence.
  apply wp_bind, wp_file_mod, IH.
  eapply (refs_ok_step s i (p_pftable p) j None (Some g) g _); [done| |done| |].
  - by rewrite list_lookup_fmap, Hp.
  - intros g' Hne. by rewrite is_ref_ne.
  - intros f' _. rewrite is_ref_eq. simpl. lia.
Qed.
Lemma pipe_preserved : preserved pipe_.
Proof.
  intros s W. unfold pipe_. apply wp_bind, wp_gets.
  destruct (index_of _ _) as [g|]; [|done]. apply wp_bind, wp_file_mod, wp_bind.
  eapply wp_mono; [apply pipe_fds_preserved|..]; [|intros fds s1 W1|done].
  - eapply refs_ok_counts; [|exact W]. by apply counts_entry.
  - cbv beta in W1. destruct fds as [|r [|w [|]]]; try (apply wp_bind, wp_file_mod; done).
    apply wp_bind, wp_file_mod, wp_ret. eapply refs_ok_counts; [|exact W1]. by apply counts_entry.
Qed.

Lemma keeps_killed : keeps files killed.
Proof. unfold killed. keeps. Qed.
Lemma keeps_file_at g : keeps files (file_at g).
Proof. unfold file_at. keeps. Qed.
Lemma keeps_pftable_at fd : keeps files (pftable_at fd).
Proof. unfold pftable_at. keeps. Qed.
Lemma keeps_pipe_mod g h : keeps counts (pipe_mod g h).
Proof. unfold pipe_mod. keeps. Qed.
Hint Resolve keeps_killed keeps_file_at keeps_pftable_at keeps_pipe_mod : keeps.
Lemma keeps_piperead_loop n g acc : keeps counts (piperead_loop n g acc).
Proof. revert acc. induction n as [|n IH]; intros acc; cbn [piperead_loop]; keeps. Qed.
Hint Resolve keeps_piperead_loop : keeps.
Lemma keeps_piperead_wait g n : keeps counts (piperead_wait g n).
Proof. unfold piperead_wait. keeps. Qed.
Lemma keeps_pipewrite_loop n g i bs : keeps counts (pipewrite_loop n g i bs).
Proof. revert i bs. induction n as [|n IH]; intros i bs; cbn [pipewrite_loop]; keeps. Qed.
Hint Resolve keeps_piperead_wait keeps_pipewrite_loop : keeps.
Lemma fileread_preserved fd n : preserved (fileread fd n).
Proof. apply preserved_counts. unfold fileread. keeps. Qed.
Lemma filewrite_preserved fd buf n : preserved (filewrite fd buf n).
Proof. apply preserved_counts. unfold filewrite. keeps. Qed.
Lemma piperead_resume_preserved g n : preserved (piperead_resume g n).
Proof. apply preserved_counts. unfold piperead_resume. keeps. Qed.
Lemma pipewrite_resume_preserved n g i bs : preserved (pipewrite_resume n g i bs).
Proof. apply preserved_counts. unfold pipewrite_resume. keeps. Qed.

(** A process with no descriptor from slot [i] on. *)
Definition no_descs (s : kstate) (child i : nat) : Prop :=
  exists row, (p_pftable <$> k_ptable s) !! child = Some row /\
    forall k o, row !! k = Some o -> (i <= k)%nat -> o = None.
Lemma filecopy_loop_preserved n i parent child s :
  (i + n <= NOFILE)%nat -> no_descs s child i ->
  (forall row, (p_pftable <$> k_ptable s) !! child = Some row -> length row = NOFILE) ->
  refs_ok s -> wp (filecopy_loop n i parent child) (fun _ s' => refs_ok s') refs_ok s.
Proof.
  revert i s. induction n as [|n IH]; intros i s Hn Hd Hl W; [done|]. cbn [filecopy_loop].
  apply wp_bind, wp_proc_at. intros p Hp. apply wp_bind.
  destruct (p_pftable p !! i) as [o|]; [|done]. apply wp_ret, wp_bind.
  destruct o as [g|].
  2:{ apply wp_ret, IH; [lia| |done|done]. destruct Hd as (row & H1 & H2). exists row.
      split; [done|]. intros k o H3 H4. apply (H2 k); [done|lia]. }
  apply wp_bind. quietly. intros _ s1 E1. pose proof (files_inv _ _ E1) as (F1 & F2 & F3).
  apply wp_bind. apply (wp_mono _ (fun _ s2 => s2 = with_desc i (Some g) child s1) _ (fun _ => False));
    [done| |done]. intros _ s2 ->.
  apply wp_bind, wp_file_mod. quietly. intros _ s3 (G1 & G2 & G3)%files_inv.
  simpl in G2. rewrite rows_alter, F2 in G2. destruct Hd as (row & Hr & Hnone).
  assert (length row = NOFILE) as Hlen by by apply Hl.
  destruct (lookup_lt_is_Some_2 row i) as [o Ho]; [lia|].
  assert (o = None) as -> by (by apply (Hnone i)).
  apply IH; [lia| | |].
  - exists (<[i := Some g]> row). rewrite G2, list_lookup_alter_eq, Hr. split; [done|].
    intros k o Hk Hle. rewrite list_lookup_insert_ne in Hk by lia. apply (Hnone k); [done|lia].
  - intros row' Hrow'. rewrite G2, list_lookup_alter_eq, Hr in Hrow'. injection Hrow' as <-.
    by rewrite length_insert.
  - eapply (refs_ok_counts (with_entry g (fun f => f <| f_ref := f_ref f + 1 |>)
      (with_desc i (Some g) child s1))).
    { unfold counts. f_equal; [by rewrite G1|]. simpl. by rewrite rows_alter, F2, G2. }
    eapply (refs_ok_step s1 child row i None (Some g) g _); [|by rewrite F2|done| |].
    + eapply refs_ok_files; [exact E1|exact W].
    + intros g' Hne. by rewrite is_ref_ne.
    + intros f' _. rewrite is_ref_eq. simpl. lia.
Qed.
End Preserve.

(** The calls of the file layer, and the rest of a pipe's read or write after a sleep. *)
Inductive call :=
| COpen (path : list Z) (mode : Z)
| CClose (fd : Z)
| CRead (fd n : Z)
| CReadRest (g : nat) (n : Z)
| CWrite (fd : Z) (buf : list Z) (n : Z)
| CWriteRest (n g : nat) (i : Z) (bs : list Z)
| CDup (fd : Z)
| CPipe
| CCopy (parent child : nat).
Definition run_call {D : Driver} {V : Devsw} (c : call) : K unit :=
  match c with
  | COpen path mode => fileopen path mode;; ret tt
  | CClose fd => fileclose fd;; ret tt
  | CRead fd n => fileread fd n;; ret tt
  | CReadRest g n => piperead_resume g n;; ret tt
  | CWrite fd buf n => filewrite fd buf n;; ret tt
  | CWriteRest n g i bs => pipewrite_resume n g i bs;; ret tt
  | CDup fd => filedup fd;; ret tt
  | CPipe => pipe_;; ret tt
  | CCopy parent child => filecopy parent child
  end.
(** filecopy is for a new process. *)
Definition call_ok (c : call) (s : kstate) : Prop :=
  match c with
  | CCopy _ child => (p_pftable <$> k_ptable s) !! child = Some (replicate NOFILE None)
  | _ => True
  end.

Lemma preserved_unit {A} (m : K A) : preserved m -> preserved (m;; ret tt).
Proof. intros H s W. apply wp_bind. by eapply wp_mono; [apply (H s W)|..]. Qed.

(** C24: the reference count of an open file is the number of descriptors, over all processes,
    that stand for it: every call of the file layer keeps it so, whether it returns or gives up
    the processor, above any driver and devices that leave the tables alone. *)
Theorem file_refs_counted {D : Driver} {V : Devsw} {DK : DriverKeeps D} {VK : DevswKeeps V} c s :
  refs_ok s -> call_ok c s ->
  match run_call c s with Ok _ s' | Sleep s' => refs_ok s' | _ => True end.
Proof.
  intros W Hok. destruct c; cbn [run_call call_ok] in *.
  - exact (preserved_unit _ (fileopen_preserved path mode) s W).
  - exact (preserved_unit _ (fileclose_preserved fd) s W).
  - exact (preserved_unit _ (fileread_preserved fd n) s W).
  - exact (preserved_unit _ (piperead_resume_preserved g n) s W).
  - exact (preserved_unit _ (filewrite_preserved fd buf n) s W).
  - exact (preserved_unit _ (pipewrite_resume_preserved n g i bs) s W).
  - exact (preserved_unit _ (filedup_preserved fd) s W).
  - exact (preserved_unit _ pipe_preserved s W).
  - apply (filecopy_loop_preserved NOFILE 0 parent child s); [lia| | |done].
    + eexists. split; [exact Hok|]. by intros k o [-> _]%lookup_replicate.
    + intros row H. assert (row = replicate NOFILE None) as -> by congruence. apply length_replicate.
Qed.

(** * Both drivers leave the open files alone *)

#[local] Hint Resolve keeps_buf_at keeps_buf_mod : keeps.
#[export] Instance memide_keeps n : DriverKeeps (memide_iderw n).
Proof. intros i. unfold iderw, memide_iderw. keeps. Qed.
#[export] Instance ide_keeps {A : Ata} : DriverKeeps ide_iderw.
Proof. intros i. unfold iderw, ide_iderw, idestart, iderw_loop. keeps. Qed.
#[export] Instance no_devsw : Devsw := {| dev_read := fun _ => None; dev_write := fun _ => None |}.
#[export] Instance no_devsw_keeps : DevswKeeps no_devsw.
Proof. by split. Qed.
