(* ===== verification/PipeProofs.v ===== *)
(** Pipes of kernel/file.c as bounded queues of bytes. *)
From S2P Require Import Prelude Kstate Locks Kalloc Sched Bytes Bio Ide Fs Frame File FileProofs.

(** * The buffer holds a queue *)

Record queue (p : pipe) (q : list Z) : Prop := {
  qu_head : 0 <= pi_head p;
  qu_tail : pi_tail p = pi_head p + Z.of_nat (length q);
  qu_max : pi_tail p < 2^31;
  qu_room : Z.of_nat (length q) <= PIPESIZE;
  qu_len : length (pi_buf p) = Z.to_nat PIPESIZE;
  qu_buf k c : q !! k = Some c ->
    pi_buf p !! Z.to_nat ((pi_head p + Z.of_nat k) mod PIPESIZE) = Some c }.

Definition popped (p : pipe) : pipe := p <| pi_head := s32 (pi_head p + 1) |>.
Definition pushed (c : Z) (p : pipe) : pipe :=
  p <| pi_buf ::= <[Z.to_nat (pipe_pos (pi_tail p)) := c]> |> <| pi_tail := s32 (pi_tail p + 1) |>.

Lemma pipe_pos_eq n : 0 <= n -> pipe_pos n = n mod PIPESIZE /\ 0 <= pipe_pos n < PIPESIZE.
Proof.
  intros H. unfold pipe_pos. rewrite Z.rem_mod_nonneg by (unfold PIPESIZE; lia). split; [done|].
  apply Z.mod_pos_bound. unfold PIPESIZE. lia.
Qed.
Lemma queue_empty p q : queue p q -> (pi_head p =? pi_tail p) = bool_decide (q = []).
Proof.
  intros Q. rewrite (qu_tail _ _ Q). destruct q as [|c q].
  - rewrite bool_decide_true by done. apply Z.eqb_eq. simpl. lia.
  - rewrite bool_decide_false by done. apply Z.eqb_neq. cbn [length]. lia.
Qed.
Lemma queue_full p q :
  queue p q -> (s32 (pi_tail p - pi_head p) =? PIPESIZE) = (Z.of_nat (length q) =? PIPESIZE).
Proof.
  intros Q. rewrite (qu_tail _ _ Q). pose proof (qu_room _ _ Q). unfold PIPESIZE in *.
  rewrite s32_small by lia. f_equal. lia.
Qed.
Lemma queue_pop p c q : queue p (c :: q) -> pipe_get p (pi_head p) = Some c /\ queue (popped p) q.
Proof.
  intros [Q1 Q2 Q3 Q4 Q5 Q6]. cbn [length] in Q2, Q4. destruct (pipe_pos_eq (pi_head p) Q1) as [E B]. split.
  - unfold pipe_get. destruct (Z.ltb_spec (pipe_pos (pi_head p)) 0); [lia|]. rewrite E.
    specialize (Q6 0%nat c eq_refl). by rewrite Z.add_0_r in Q6.
  - assert (s32 (pi_head p + 1) = pi_head p + 1) as E1 by (apply s32_small; lia).
    split; simpl; rewrite ?E1; [lia|lia|lia|lia|done|].
    intros k d Hk. specialize (Q6 (S k) d Hk). rewrite <-Q6. do 3 f_equal. lia.
Qed.
Lemma queue_push p c q :
  queue p q -> Z.of_nat (length q) < PIPESIZE -> pi_tail p + 1 < 2^31 ->
  0 <= pipe_pos (pi_tail p) /\ queue (pushed c p) (q ++ [c]).
Proof.
  intros [Q1 Q2 Q3 Q4 Q5 Q6] Hroom Hmax. unfold PIPESIZE in Hroom.
  destruct (pipe_pos_eq (pi_tail p)) as [E B]; [lia|]. split; [lia|].
  assert (s32 (pi_tail p + 1) = pi_tail p + 1) as E1 by (apply s32_small; lia).
  split; simpl; rewrite ?E1, ?length_app; simpl; [done|lia|lia|unfold PIPESIZE; lia|by rewrite length_insert|].
  intros k d Hk. rewrite E. destruct (decide (k = length q)) as [->|Hne].
  - rewrite lookup_app_r, Nat.sub_diag in Hk by lia. injection Hk as <-. rewrite Q2.
    apply list_lookup_insert_eq. rewrite Q5. apply Z2Nat.inj_lt; [apply Z.mod_pos_bound|done|apply Z.mod_pos_bound];
      done.
  - assert (k < length q)%nat as Hlt.
    { apply lookup_lt_Some in Hk. rewrite length_app in Hk. simpl in Hk. lia. }
    rewrite lookup_app_l in Hk by done. rewrite list_lookup_insert_ne; [by apply Q6|].
    intros Heq. apply Z2Nat.inj in Heq; [|apply Z.mod_pos_bound; done..].
    rewrite Q2 in Heq. unfold PIPESIZE in Heq.
    assert (((pi_head p + Z.of_nat (length q)) - (pi_head p + Z.of_nat k)) mod 2048 = 0) as Hm.
    { by rewrite Zminus_mod, Heq, Z.sub_diag. }
    replace (_ - _) with (Z.of_nat (length q) - Z.of_nat k) in Hm by lia.
    rewrite Z.mod_small in Hm by lia. lia.
Qed.

(** * The loops *)

Definition put_pipe (g : nat) (p : pipe) (s : kstate) : kstate :=
  with_entry g (fun f => f <| f_pipe := p |>) s.
Lemma put_pipe_get g p s f :
  k_ftable s !! g = Some f -> k_ftable (put_pipe g p s) !! g = Some (f <| f_pipe := p |>).
Proof. intros H. unfold put_pipe, with_entry. simpl. by rewrite list_lookup_alter_eq, H. Qed.
Lemma put_pipe_put g p p' s : put_pipe g p' (put_pipe g p s) = put_pipe g p' s.
Proof.
  unfold put_pipe, with_entry. kext. simpl. rewrite list_alter_alter_eq. done.
Qed.
Lemma put_pipe_id g s f : k_ftable s !! g = Some f -> put_pipe g (f_pipe f) s = s.
Proof.
  intros H. unfold put_pipe, with_entry. kext. simpl. apply list_eq. intros j.
  destruct (decide (g = j)) as [<-|Hne].
  - rewrite list_lookup_alter_eq, H. simpl. by destruct f.
  - by rewrite list_lookup_alter_ne.
Qed.
Lemma pipe_mod_run g h s f :
  k_ftable s !! g = Some f -> pipe_mod g h s = Ok tt (put_pipe g (h (f_pipe f)) s).
Proof.
  intros H. unfold pipe_mod, file_mod, modify, put_pipe, with_entry. f_equal. kext. simpl.
  apply list_eq. intros j. destruct (decide (g = j)) as [<-|Hne].
  - by rewrite !list_lookup_alter_eq, H.
  - by rewrite !list_lookup_alter_ne.
Qed.
Lemma file_at_run g s f : k_ftable s !! g = Some f -> file_at g s = Ok f s.
Proof. intros H. unfold file_at. mrun. by rewrite H. Qed.
Lemma killed_run s i p : k_cur s = Some i -> k_ptable s !! i = Some p -> killed s = Ok (p_killed p) s.
Proof. intros H1 H2. unfold killed, myproc, proc_at. mrun. rewrite H1. mrun. by rewrite H2. Qed.

Lemma killed_cases s :
  killed s = Fault \/
  exists i p, k_cur s = Some i /\ k_ptable s !! i = Some p /\ killed s = Ok (p_killed p) s.
Proof.
  unfold killed, myproc, proc_at. mred. destruct (k_cur s) as [i|]; [|by left].
  destruct (k_ptable s !! i) as [p|] eqn:Hp; [|by left]. right. by exists i, p.
Qed.
(** A read takes from the front of the queue. *)
Lemma piperead_loop_run n g i pr : forall acc s f q,
  k_cur s = Some i -> k_ptable s !! i = Some pr -> p_killed pr = false ->
  k_ftable s !! g = Some f -> queue (f_pipe f) q ->
  exists p, piperead_loop n g acc s = Ok (Some (acc ++ take n q)) (put_pipe g p s) /\
    queue p (drop n q) /\ pi_tail p = pi_tail (f_pipe f).
Proof.
  induction n as [|n IH]; intros acc s f q Hc Hp Hk Hf Q.
  { exists (f_pipe f). rewrite app_nil_r, (put_pipe_id _ _ _ Hf). done. }
  cbn [piperead_loop]. step (killed_run s i pr Hc Hp). rewrite Hk. step (file_at_run g s f Hf).
  rewrite (queue_empty _ _ Q). destruct q as [|c q].
  { exists (f_pipe f). rewrite bool_decide_true, app_nil_r, (put_pipe_id _ _ _ Hf) by done. done. }
  rewrite bool_decide_false by done. destruct (queue_pop _ _ _ Q) as [E Q1]. rewrite E. mrun.
  step (pipe_mod_run g (fun p => p <| pi_head := s32 (pi_head p + 1) |>) s f Hf).
  destruct (IH (acc ++ [c]) (put_pipe g (popped (f_pipe f)) s) (f <| f_pipe := popped (f_pipe f) |>) q)
    as (p & R & Q2 & Ht); [done|done|done|by apply put_pipe_get|done|].
  exists p. rewrite put_pipe_put in R. fold (popped (f_pipe f)). rewrite R, <-app_assoc. done.
Qed.
(** A write adds to its end while there is room and a reader. *)
Lemma pipewrite_loop_run k g : forall n i bs s f q,
  k_ftable s !! g = Some f -> queue (f_pipe f) q -> f_ref f <> 1 ->
  (k <= n)%nat -> (k <= length bs)%nat -> Z.of_nat (length q + k) <= PIPESIZE ->
  pi_tail (f_pipe f) + Z.of_nat k < 2^31 ->
  exists p, pipewrite_loop n g i bs s =
      pipewrite_loop (n - k) g (i + Z.of_nat k) (drop k bs) (put_pipe g p s) /\
    queue p (q ++ take k bs) /\ pi_tail p = pi_tail (f_pipe f) + Z.of_nat k.
Proof.
  induction k as [|k IH]; intros n i bs s f q Hf Q Hr Hn Hb Hroom Hmax.
  { exists (f_pipe f). rewrite (put_pipe_id _ _ _ Hf), app_nil_r, Nat.sub_0_r, !Z.add_0_r. done. }
  destruct n as [|n]; [lia|]. destruct bs as [|c bs]; [simpl in Hb; lia|]. cbn [pipewrite_loop].
  step (file_at_run g s f Hf). rewrite (queue_full _ _ Q).
  destruct (Z.eqb_spec (Z.of_nat (length q)) PIPESIZE); [lia|].
  destruct (Z.eqb_spec (f_ref f) 1); [done|]. cbn [head tail]. mrun.
  destruct (queue_push (f_pipe f) c q Q) as [Hpos Q1]; [lia|lia|].
  destruct (Z.ltb_spec (pipe_pos (pi_tail (f_pipe f))) 0); [lia|].
  step (pipe_mod_run g (fun p => p <| pi_buf ::= <[Z.to_nat (pipe_pos (pi_tail p)) := c]> |>
                             <| pi_tail := s32 (pi_tail p + 1) |>) s f Hf).
  fold (pushed c (f_pipe f)).
  assert (pi_tail (pushed c (f_pipe f)) = pi_tail (f_pipe f) + 1) as Et.
  { unfold pushed. simpl. apply s32_small. pose proof (qu_head _ _ Q). pose proof (qu_tail _ _ Q). lia. }
  destruct (IH n (i + 1) bs (put_pipe g (pushed c (f_pipe f)) s) (f <| f_pipe := pushed c (f_pipe f) |>)
    (q ++ [c])) as (p & R & Q2 & Ht);
    [by apply put_pipe_get|done|done|lia|simpl in Hb; lia|rewrite length_app; simpl; lia|
     cbn [f_pipe set]; rewrite Et; lia|].
  exists p. rewrite put_pipe_put in R. rewrite R. split; [|split].
  - f_equal; lia.
  - by rewrite <-app_assoc in Q2.
  - rewrite Ht. cbn [f_pipe set]. rewrite Et. lia.
Qed.

(** * First in, first out *)

(** [w] has been written to the pipe of entry [g] and [r] read from it; the rest is in it. *)
Definition pipe_state (g : nat) (w r : list Z) (s : kstate) : Prop :=
  exists f q, k_ftable s !! g = Some f /\ w = r ++ q /\ queue (f_pipe f) q /\
    pi_tail (f_pipe f) = Z.of_nat (length w).
Definition pipe_tail (g : nat) (s : kstate) : option Z := (fun f => pi_tail (f_pipe f)) <$> k_ftable s !! g.

Lemma pipe_state_files g w r s s' : files s' = files s -> pipe_state g w r s -> pipe_state g w r s'.
Proof. intros (E & _)%files_inv. unfold pipe_state. by rewrite E. Qed.
Lemma pipe_state_tail g w r s : pipe_state g w r s -> pipe_tail g s = Some (Z.of_nat (length w)).
Proof. intros (f & q & Hf & _ & _ & Ht). unfold pipe_tail. rewrite Hf. simpl. by rewrite Ht. Qed.
#[local] Hint Resolve keeps_killed keeps_file_at : keeps.

Lemma wp_killed (Q : bool -> kstate -> Prop) R s :
  (forall i p, k_cur s = Some i -> k_ptable s !! i = Some p -> Q (p_killed p) s) -> wp killed Q R s.
Proof.
  intros H. unfold killed. apply wp_bind, wp_myproc. intros i Hi. apply wp_bind, wp_proc_at. intros p Hp.
  by eapply wp_ret, H.
Qed.
(** [sched] and [sleep] do not return to their caller here: the rest is run by the resumption. *)
Definition leaves {A} (m : K A) : Prop := forall s a s', m s <> Ok a s'.
Lemma leaves_bind {A B} (m : K A) (k : A -> K B) : (forall a, leaves (k a)) -> leaves (bind m k).
Proof. intros H s b s'. unfold bind. destruct (m s); try done. apply H. Qed.
Lemma sleep_leaves {A} c lk : leaves (sleep (A:=A) c lk).
Proof.
  assert (leaves (sched (A:=A))) as Hs.
  { unfold sched. apply leaves_bind. intros h. destruct (negb h); [done|].
    apply leaves_bind. intros x. destruct (negb _); [done|].
    apply leaves_bind. intros i. apply leaves_bind. intros p. destruct (decide _); [done|].
    destruct (eflags_IF x); [done|]. by apply leaves_bind. }
  unfold sleep. apply leaves_bind. intros [i|]; [|done]. by do 3 (apply leaves_bind; intros _).
Qed.
Lemma wp_sleep {A X} (f : kstate -> X) c lk (Q : A -> kstate -> Prop) (R : kstate -> Prop) s :
  keeps f (sleep (A:=A) c lk) -> (forall s', f s' = f s -> R s') -> wp (sleep c lk) Q R s.
Proof.
  intros H HR. unfold wp. specialize (H s). pose proof (sleep_leaves (A:=A) c lk s) as L.
  destruct (sleep c lk s) as [a s'| | | |]; auto. by destruct (L a s').
Qed.

Lemma piperead_wait_wp g n w r s :
  pipe_state g w r s ->
  wp (piperead_wait g n) (fun res => pipe_state g w (r ++ snd res)) (pipe_state g w r) s.
Proof.
  intros P. pose proof P as (f & q & Hf & Hw & Q & Ht).
  assert (forall x : Z, wp (release (LkPipe g);; ret (x, [])) (fun res => pipe_state g w (r ++ snd res))
    (pipe_state g w r) s) as Hrel.
  { intros x. apply wp_bind. quietly. intros _ s1 E1. apply wp_ret. simpl. rewrite app_nil_r.
    by eapply pipe_state_files. }
  unfold piperead_wait. apply wp_bind, wp_file_at. intros f' Hf'. assert (f' = f) as -> by congruence.
  rewrite (queue_empty _ _ Q). destruct (bool_decide (q = [])).
  - apply wp_bind, wp_killed. intros i p _ _. destruct (p_killed p); [apply Hrel|].
    destruct (f_ref f =? 1); [apply Hrel|].
    apply wp_bind. quietly. intros _ s1 E1.
    apply (wp_sleep files); [eauto with keeps|]. intros s2 E2. eapply pipe_state_files; [|exact P].
    congruence.
  - apply wp_bind. destruct (Z.to_nat n) as [|m] eqn:En; [apply wp_ret|].
    { apply wp_bind. quietly. intros _ s1 E1. apply wp_bind. quietly. intros _ s2 E2. apply wp_ret. simpl. rewrite app_nil_r.
      eapply pipe_state_files; [|exact P]. congruence. }
    destruct (killed_cases s) as [Ek|(i & p & Hi & Hp & Ek)].
    { unfold wp. cbn [piperead_loop]. unfold bind at 1. by rewrite Ek. }
    destruct (p_killed p) eqn:Hk.
    { unfold wp. cbn [piperead_loop]. step Ek. simpl. by rewrite app_nil_r. }
    destruct (piperead_loop_run (S m) g i p [] s f q Hi Hp Hk Hf Q) as (p' & R & Q' & Ht').
    unfold wp. rewrite R. cbv beta iota. cbn [app].
    assert (pipe_state g w (r ++ take (S m) q) (put_pipe g p' s)) as P'.
    { eexists _, _. split; [by apply put_pipe_get|]. split; [|split; [exact Q'|]].
      - by rewrite <-app_assoc, take_drop.
      - cbn [f_pipe set]. congruence. }
    apply wp_bind. quietly. intros _ s1 E1. apply wp_bind. quietly. intros _ s2 E2. apply wp_ret.
    cbn [snd]. eapply pipe_state_files; [|exact P']. congruence.
Qed.
Lemma pipewrite_loop_wp g n : forall i bs w r s,
  pipe_state g w r s -> Z.of_nat (length w) + Z.of_nat n < 2^31 ->
  wp (pipewrite_loop n g i bs) (fun _ s' => exists k, pipe_state g (w ++ take k bs) r s')
    (fun s' => exists k, pipe_state g (w ++ take k bs) r s') s.
Proof.
  induction n as [|n IH]; intros i bs w r s P Hmax; cbn [pipewrite_loop];
    (assert (forall s', files s' = files s -> exists k, pipe_state g (w ++ take k bs) r s') as Hsame;
     [intros s' E; exists 0%nat; rewrite app_nil_r; by eapply pipe_state_files|]).
  { apply wp_bind. quietly. intros _ s1 E1. apply wp_bind. quietly. intros _ s2 E2.
    apply wp_ret, Hsame. congruence. }
  pose proof P as (f & q & Hf & Hw & Q & Ht).
  apply wp_bind, wp_file_at. intros f' Hf'. assert (f' = f) as -> by congruence.
  rewrite (queue_full _ _ Q). destruct (Z.eqb_spec (Z.of_nat (length q)) PIPESIZE) as [Hfull|Hfull].
  { apply wp_bind. quietly. intros _ s1 E1. apply (wp_sleep files); [eauto with keeps|].
    intros s2 E2. apply Hsame. congruence. }
  destruct (f_ref f =? 1).
  { apply wp_bind. quietly. intros _ s1 E1. apply wp_ret, Hsame. done. }
  destruct bs as [|c bs]; [done|]. cbn [head tail]. apply wp_bind, wp_ret.
  destruct (Z.ltb_spec (pipe_pos (pi_tail (f_pipe f))) 0); [done|].
  destruct (queue_push (f_pipe f) c q Q) as [_ Q1]; [pose proof (qu_room _ _ Q); lia|lia|].
  apply wp_bind. unfold wp at 1. rewrite (pipe_mod_run g _ s f Hf). fold (pushed c (f_pipe f)).
  assert (pipe_state g (w ++ [c]) r (put_pipe g (pushed c (f_pipe f)) s)) as P1.
  { eexists _, (q ++ [c]). split; [by apply put_pipe_get|]. split; [by rewrite Hw, app_assoc|].
    split; [done|]. cbn [f_pipe set]. rewrite length_app. simpl.
    pose proof (qu_head _ _ Q). pose proof (qu_tail _ _ Q). rewrite s32_small by lia. lia. }
  eapply wp_mono; [apply (IH (i + 1) bs (w ++ [c]) r _ P1); rewrite length_app; simpl; lia|..].
  - intros x s1 (k & P2). exists (S k). by rewrite <-app_assoc in P2.
  - intros s1 (k & P2). exists (S k). by rewrite <-app_assoc in P2.
Qed.

(** Descriptor [fd] of the running process stands for the pipe of entry [g]. *)
Definition fd_pipe (fd : Z) (g : nat) (s : kstate) : Prop :=
  exists i p f, k_cur s = Some i /\ k_ptable s !! i = Some p /\ 0 <= fd /\
    p_pftable p !! Z.to_nat fd = Some (Some g) /\ k_ftable s !! g = Some f /\ f_isPipe f = true.
(** A call that returned [a] or gave up the processor. *)
Definition ended {A} (m : K A) (s : kstate) (a : A) (s' : kstate) : Prop := m s = Ok a s'.
Definition paused {A} (m : K A) (s s' : kstate) : Prop := m s = Sleep s'.

(** The life of the pipe of entry [g]: [piped g s w r] when, up to state [s], the bytes [w] have
    been put in and [r] taken out.  Anything that leaves the entry's pipe alone may happen in
    between. *)
Section life.
Context {D : Driver} {V : Devsw}.
Inductive piped (g : nat) : kstate -> list Z -> list Z -> Prop :=
| piped_new s s' f fds :
    index_of is_free_file (k_ftable s) = Some g -> k_ftable s !! g = Some f ->
    length (pi_buf (f_pipe f)) = Z.to_nat PIPESIZE ->
    ended pipe_ s (0, fds) s' -> piped g s' [] []
| piped_read s s' w r fd n x bs :
    piped g s w r -> fd_pipe fd g s -> ended (fileread fd n) s (x, bs) s' -> piped g s' w (r ++ bs)
| piped_read_pause s s' w r fd n :
    piped g s w r -> fd_pipe fd g s -> paused (fileread fd n) s s' -> piped g s' w r
| piped_read_rest s s' w r n x bs :
    piped g s w r -> ended (piperead_resume g n) s (x, bs) s' -> piped g s' w (r ++ bs)
| piped_read_rest_pause s s' w r n :
    piped g s w r -> paused (piperead_resume g n) s s' -> piped g s' w r
| piped_write s s' w r fd buf n x k :
    piped g s w r -> fd_pipe fd g s -> Z.of_nat (length w) + n < 2^31 ->
    ended (filewrite fd buf n) s x s' \/ paused (filewrite fd buf n) s s' ->
    pipe_tail g s' = Some (Z.of_nat (length w + length (take k buf))) ->
    piped g s' (w ++ take k buf) r
| piped_write_rest s s' w r n i bs x k :
    piped g s w r -> Z.of_nat (length w) + Z.of_nat n < 2^31 ->
    ended (pipewrite_resume n g i bs) s x s' \/ paused (pipewrite_resume n g i bs) s s' ->
    pipe_tail g s' = Some (Z.of_nat (length w + length (take k bs))) ->
    piped g s' (w ++ take k bs) r
| piped_other s s' w r :
    piped g s w r -> f_pipe <$> k_ftable s' !! g = f_pipe <$> k_ftable s !! g -> piped g s' w r.
End life.

Lemma take_by_length (j k : nat) (l : list Z) : length (take j l) = length (take k l) -> take j l = take k l.
Proof.
  rewrite !length_take. intros H. apply list_eq. intros m.
  destruct (decide (m < j `min` length l)%nat).
  - by rewrite !lookup_take_lt by lia.
  - rewrite !lookup_ge_None_2; [done|rewrite length_take; lia..].
Qed.

Definition pipes (s : kstate) : list pipe := f_pipe <$> k_ftable s.
Lemma keeps_pipes_entry g h : (forall f, f_pipe (h f) = f_pipe f) -> keeps pipes (file_mod g h).
Proof.
  intros Hh. apply keeps_modify. intros s. unfold pipes. simpl. apply list_eq. intros j.
  rewrite !list_lookup_fmap. destruct (decide (g = j)) as [<-|Hne].
  - rewrite list_lookup_alter_eq. destruct (k_ftable s !! g); simpl; [by rewrite Hh|done].
  - by rewrite list_lookup_alter_ne.
Qed.
Lemma keeps_pipe_fds n j g fds : keeps pipes (pipe_fds n j g fds).
Proof.
  revert j fds. induction n as [|n IH]; intros j fds; cbn [pipe_fds]; [apply keeps_ret|].
  apply keeps_bind; [unfold pftable_at, myproc, proc_at; keeps|]. intros o. destruct (is_free_fd o && _); [|done].
  apply keeps_bind; [unfold pftable_set, myproc, proc_mod; keeps|]. intros _.
  apply keeps_bind; [by apply keeps_pipes_entry|]. done.
Qed.
Lemma pipes_lookup s s' g : pipes s' = pipes s -> f_pipe <$> k_ftable s' !! g = f_pipe <$> k_ftable s !! g.
Proof. unfold pipes. intros H. by rewrite <-!list_lookup_fmap, H. Qed.
Lemma pipe_state_pipe g w r s s' :
  f_pipe <$> k_ftable s' !! g = f_pipe <$> k_ftable s !! g -> pipe_state g w r s -> pipe_state g w r s'.
Proof.
  intros E (f & q & Hf & H1 & H2 & H3). rewrite Hf in E. apply fmap_Some in E as (f' & Hf' & E).
  exists f', q. by rewrite <-E.
Qed.

Lemma pipe_new s s' g f fds :
  index_of is_free_file (k_ftable s) = Some g -> k_ftable s !! g = Some f ->
  length (pi_buf (f_pipe f)) = Z.to_nat PIPESIZE -> pipe_ s = Ok (0, fds) s' -> pipe_state g [] [] s'.
Proof.
  intros Hg Hf Hl. unfold pipe_. rewrite bind_gets, Hg. intros (u & s1 & H1 & H)%bind_Ok.
  apply bind_Ok in H as (fds' & s2 & H2 & H).
  pose proof (keeps_pipes_entry g (fun f => f <| f_isPipe := true |> <| f_access := O_RDWR |>)
    ltac:(done) s) as K1. rewrite H1 in K1. pose proof (keeps_pipe_fds NOFILE 0 g [] s1) as K2.
  rewrite H2, K1 in K2. apply (pipes_lookup _ _ g) in K2. rewrite Hf in K2.
  apply fmap_Some in K2 as (f2 & Hf2 & E2).
  destruct fds' as [|a [|b [|]]]; try done. apply bind_Ok in H as (u' & s3 & H3 & H).
  rewrite (pipe_mod_run g _ s2 f2 Hf2) in H3. injection H3 as <- <-. injection H as <- <-.
  eexists _, []. split; [by apply put_pipe_get|]. split; [done|]. split; [|done].
  split; simpl; try lia; try done. by rewrite <-E2.
Qed.
Lemma fileread_wp {D : Driver} {V : Devsw} fd g n w r s :
  pipe_state g w r s -> fd_pipe fd g s ->
  wp (fileread fd n) (fun res => pipe_state g w (r ++ snd res)) (pipe_state g w r) s.
Proof.
  intros P (i & p & f & Hi & Hp & Hfd & Hg & Hf & Hpipe). unfold fileread.
  apply wp_bind, wp_pftable_at. intros i' p' o Hi' Hp' _ Ho. assert (o = Some g) as -> by congruence.
  apply wp_bind, wp_file_at. intros f' Hf'. assert (f' = f) as -> by congruence. rewrite Hpipe. simpl.
  destruct (negb _); [apply wp_ret; simpl; by rewrite app_nil_r|].
  apply wp_bind. quietly. intros _ s1 E1. apply piperead_wait_wp. by eapply pipe_state_files.
Qed.
Lemma filewrite_wp {D : Driver} {V : Devsw} fd g buf n w r s :
  pipe_state g w r s -> fd_pipe fd g s -> Z.of_nat (length w) + n < 2^31 ->
  wp (filewrite fd buf n) (fun _ s' => exists k, pipe_state g (w ++ take k buf) r s')
    (fun s' => exists k, pipe_state g (w ++ take k buf) r s') s.
Proof.
  intros P (i & p & f & Hi & Hp & Hfd & Hg & Hf & Hpipe) Hmax. unfold filewrite.
  apply wp_bind, wp_pftable_at. intros i' p' o Hi' Hp' _ Ho. assert (o = Some g) as -> by congruence.
  apply wp_bind, wp_file_at. intros f' Hf'. assert (f' = f) as -> by congruence. rewrite Hpipe. simpl.
  apply wp_bind. quietly. intros _ s1 E1. apply pipewrite_loop_wp; [by eapply pipe_state_files|].
  destruct P as (f1 & q & Hf1 & _ & Q & Ht). pose proof (qu_max _ _ Q). lia.
Qed.
Lemma written g w r (buf : list Z) j k s :
  pipe_state g (w ++ take j buf) r s ->
  pipe_tail g s = Some (Z.of_nat (length w + length (take k buf))) ->
  pipe_state g (w ++ take k buf) r s.
Proof.
  intros P H. pose proof (pipe_state_tail _ _ _ _ P) as Ht. rewrite Ht, length_app in H.
  injection H as H. rewrite <-(take_by_length j k); [done|]. lia.
Qed.

Lemma piperead_resume_wp g n w r s :
  pipe_state g w r s ->
  wp (piperead_resume g n) (fun res => pipe_state g w (r ++ snd res)) (pipe_state g w r) s.
Proof.
  intros P. apply wp_bind. eapply (wp_keeps files); [eauto with keeps| |]; intros.
  - apply piperead_wait_wp. by eapply pipe_state_files.
  - by eapply pipe_state_files.
Qed.
Lemma pipewrite_resume_wp g n i bs w r s :
  pipe_state g w r s -> Z.of_nat (length w) + Z.of_nat n < 2^31 ->
  wp (pipewrite_resume n g i bs) (fun _ s' => exists k, pipe_state g (w ++ take k bs) r s')
    (fun s' => exists k, pipe_state g (w ++ take k bs) r s') s.
Proof.
  intros P Hmax. apply wp_bind. eapply (wp_keeps files); [eauto with keeps| |].
  - intros _ s1 E1. apply pipewrite_loop_wp; [by eapply pipe_state_files|done].
  - intros s1 E1. exists 0%nat. rewrite app_nil_r. by eapply pipe_state_files.
Qed.


(** * What each call does *)

(** The running process [i], with the locks a pipe needs free. *)
Record runs (s : kstate) (i : nat) (p : proc) (g : nat) : Prop := {
  rn_cur : k_cur s = Some i;
  rn_proc : k_ptable s !! i = Some p;
  rn_alive : p_killed p = false;
  rn_ptable : can_lock LkPtable s;
  rn_pipe : can_lock (LkPipe g) s;
  rn_nest : ncli (k_cpu s) = 0 }.

Section calls.
Context {D : Driver} {V : Devsw} (s : kstate) (i : nat) (pr : proc) (g : nat) (f : file_info)
  (fd : Z) (q : list Z).
Context (Rn : runs s i pr g) (Hfd : 0 <= fd) (Hd : p_pftable pr !! Z.to_nat fd = Some (Some g)).
Context (Hf : k_ftable s !! g = Some f) (Hp : f_isPipe f = true) (Q : queue (f_pipe f) q).

(** After a wakeup on [c], the pipe replaced by [p], the lock given back. *)
Definition finished (c : chan) (p : pipe) : kstate :=
  put_pipe g p s <| k_ptable ::= fmap (wake_proc c) |> <| k_cpu ::= touch |>.
(** After a wakeup on [c] and going to sleep on [c']. *)
Definition waiting (c c' : chan) (p : pipe) : kstate :=
  put_pipe g p s <| k_ptable ::= fmap (wake_proc c) |>
    <| k_ptable ::= alter (asleep c' (eflags_IF (k_cpu s))) i |>
    <| k_spins ::= <[LkPtable := mkSpin true true]> |>
    <| k_cpu := mkCpu 1 (eflags_IF (k_cpu s)) false |>.

Lemma pftable_at_run : pftable_at fd s = Ok (Some g) s.
Proof.
  unfold pftable_at, myproc, proc_at. mrun. rewrite (rn_cur _ _ _ _ Rn). mrun.
  rewrite (rn_proc _ _ _ _ Rn). mrun. destruct (Z.ltb_spec fd 0); [lia|]. by rewrite Hd.
Qed.
Lemma locked_put p : put_pipe g p (locked (LkPipe g) s) = locked (LkPipe g) (put_pipe g p s).
Proof. done. Qed.
Lemma wakeup_locked c p :
  wakeup c (put_pipe g p (locked (LkPipe g) s)) =
    Ok tt (put_pipe g p (locked (LkPipe g) s) <| k_ptable ::= fmap (wake_proc c) |>).
Proof.
  apply (wakeup_held (LkPipe g) c s); [done|apply Rn|apply Rn|done|done].
Qed.
Lemma finish_run {A} (a : A) c p :
  (wakeup c;; release (LkPipe g);; ret a) (put_pipe g p (locked (LkPipe g) s)) = Ok a (finished c p).
Proof.
  destruct (rn_pipe _ _ _ _ Rn) as [Hl Hw]. step (wakeup_locked c p). cbv beta.
  erewrite bind_run by (apply (release_locked (LkPipe g) s); done). done.
Qed.
Lemma wait_run {A} c c' p :
  (wakeup c;; sleep (A:=A) c' (LkPipe g)) (put_pipe g p (locked (LkPipe g) s)) = Sleep (waiting c c' p).
Proof.
  destruct (rn_pipe _ _ _ _ Rn) as [Hl Hw]. destruct (rn_ptable _ _ _ _ Rn) as [Hl' _].
  step (wakeup_locked c p).
  rewrite (sleep_run c' (LkPipe g) _ (k_spins s) (eflags_IF (k_cpu s)) i (wake_proc c pr));
    [|done| |done|done|done|apply Rn|].
  - unfold waiting. f_equal. kext. simpl. unfold locked. simpl.
    by rewrite (rn_nest _ _ _ _ Rn).
  - simpl. by rewrite (rn_nest _ _ _ _ Rn).
  - simpl. by rewrite list_lookup_fmap, (rn_proc _ _ _ _ Rn).
Qed.

Lemma fileread_pipe n :
  read_fd (f_pipe f) = fd -> 0 <= n ->
  fileread fd n s = piperead_wait g n (locked (LkPipe g) s).
Proof.
  intros Hrd Hn. unfold fileread. step pftable_at_run. step (file_at_run g s f Hf). rewrite Hp. simpl.
  rewrite Hrd, Z.eqb_refl. simpl. step (acquire_free (LkPipe g) s (proj1 (rn_pipe _ _ _ _ Rn))). done.
Qed.
Lemma read_some n :
  q <> [] -> exists p, queue p (drop (Z.to_nat n) q) /\
    piperead_wait g n (locked (LkPipe g) s) =
      Ok (Z.of_nat (length (take (Z.to_nat n) q)), take (Z.to_nat n) q) (finished (CPipeWrite g) p).
Proof.
  intros Hq. unfold piperead_wait. step (file_at_run g (locked (LkPipe g) s) f Hf).
  rewrite (queue_empty _ _ Q), bool_decide_false by done.
  destruct (piperead_loop_run (Z.to_nat n) g i pr [] (locked (LkPipe g) s) f q) as (p & R & Q' & _);
    [apply Rn|apply Rn|apply Rn|done|done|].
  exists p. split; [done|]. step R. cbn [app]. apply finish_run.
Qed.
Lemma read_none n :
  q = [] -> piperead_wait g n (locked (LkPipe g) s) =
    if f_ref f =? 1 then Ok (0, []) (s <| k_cpu ::= touch |>)
    else Sleep (waiting (CPipeWrite g) (CPipeRead g) (f_pipe f)).
Proof.
  intros Hq. unfold piperead_wait. step (file_at_run g (locked (LkPipe g) s) f Hf).
  rewrite (queue_empty _ _ Q), bool_decide_true by done.
  step (killed_run (locked (LkPipe g) s) i pr (rn_cur _ _ _ _ Rn) (rn_proc _ _ _ _ Rn)).
  rewrite (rn_alive _ _ _ _ Rn). destruct (f_ref f =? 1).
  - destruct (rn_pipe _ _ _ _ Rn) as [Hl Hw].
    erewrite bind_run by (apply (release_locked (LkPipe g) s); done). done.
  - rewrite <-(put_pipe_id g (locked (LkPipe g) s) f Hf) at 1. apply wait_run.
Qed.
Lemma filewrite_pipe buf n :
  filewrite fd buf n s = pipewrite_loop (Z.to_nat n) g 0 buf (locked (LkPipe g) s).
Proof.
  unfold filewrite. step pftable_at_run. step (file_at_run g s f Hf). rewrite Hp. simpl.
  step (acquire_free (LkPipe g) s (proj1 (rn_pipe _ _ _ _ Rn))). done.
Qed.
Lemma write_run buf :
  f_ref f <> 1 -> pi_tail (f_pipe f) + Z.of_nat (length buf) < 2^31 ->
  let k := (Z.to_nat PIPESIZE - length q)%nat in
  exists p, queue p (q ++ take k buf) /\
    pipewrite_loop (length buf) g 0 buf (locked (LkPipe g) s) =
      if (length buf <=? k)%nat then Ok (Z.of_nat (length buf)) (finished (CPipeRead g) p)
      else Sleep (waiting (CPipeRead g) (CPipeWrite g) p).
Proof.
  intros Hr Hmax k. pose proof (qu_room _ _ Q) as Hroom. unfold PIPESIZE in Hroom.
  destruct (pipewrite_loop_run (k `min` length buf) g (length buf) 0 buf (locked (LkPipe g) s) f q)
    as (p & R & Q' & Ht); [done|done|done|lia|lia|unfold k, PIPESIZE in *; lia|lia|].
  assert (take (k `min` length buf) buf = take k buf) as Et.
  { apply take_by_length. rewrite !length_take. lia. }
  exists p. split; [by rewrite <-Et|]. rewrite R. destruct (Nat.leb_spec (length buf) k) as [Hle|Hgt].
  - replace (length buf - k `min` length buf)%nat with 0%nat by lia. cbn [pipewrite_loop].
    rewrite finish_run. f_equal. lia.
  - replace (length buf - k `min` length buf)%nat with (S (length buf - k - 1)) by lia.
    cbn [pipewrite_loop]. step (file_at_run g _ _ (put_pipe_get g p (locked (LkPipe g) s) f Hf)).
    cbn [f_pipe set]. rewrite (queue_full _ _ Q'), Et, length_app, length_take_le by lia.
    unfold k at 1. destruct (Z.eqb_spec (Z.of_nat (length q + (Z.to_nat PIPESIZE - length q))) PIPESIZE) as [_|N].
    + apply wait_run.
    + unfold PIPESIZE in N. lia.
Qed.
End calls.


(** * Witnesses *)

(** One process and one entry of the file table, over the in-memory disk; [machine1] is the same
    with a pipe in the entry, open as 0 and 1. *)
#[local] Instance some_driver : Driver := memide_iderw 100.
Definition machine0 : kstate :=
  bss <| k_cpu := mkCpu 0 false true |>
      <| k_ptable := [proc_zero <| p_state := RUNNING |> <| p_pid := 1 |>] |>
      <| k_cur := Some 0%nat |> <| k_ftable := [file_zero] |>.
Definition proc1 : proc :=
  proc_zero <| p_state := RUNNING |> <| p_pid := 1 |>
    <| p_pftable := Some 0%nat :: Some 0%nat :: replicate 14 None |>.
Definition pipe1 : pipe := mkPipe 0 1 0 0 false true (replicate (Z.to_nat PIPESIZE) 0).
Definition file1 : file_info := mkFile 2 None 0 0 O_RDWR None true pipe1.
Definition machine1 : kstate :=
  machine0 <| k_ptable := [proc1] |> <| k_ftable := [file1] |>.
Lemma machine0_pipe : pipe_ machine0 = Ok (0, [0%nat; 1%nat]) machine1.
Proof. reflexivity. Qed.
Lemma machine1_runs : runs machine1 0 proc1 0.
Proof. split; try reflexivity; (split; [reflexivity|split; [simpl; lia|simpl; lia]]). Qed.
Lemma pipe1_queue : queue pipe1 [].
Proof.
  split; try reflexivity; try (simpl; lia); done.
Qed.

(** Three bytes written, then two of them read. *)
Definition pipe2 (head : Z) : pipe :=
  mkPipe 0 1 head 3 false true ([7; 8; 9] ++ replicate (Z.to_nat PIPESIZE - 3) 0).
Definition machine2 (head : Z) : kstate :=
  machine1 <| k_cpu ::= touch |> <| k_ftable := [file1 <| f_pipe := pipe2 head |>] |>.
Lemma machine1_write : filewrite 1 [7; 8; 9] 3 machine1 = Ok 3 (machine2 0).
Proof. reflexivity. Qed.
Lemma machine2_read : fileread 0 2 (machine2 0) = Ok (2, [7; 8]) (machine2 2).
Proof. reflexivity. Qed.
Lemma machine0_refs : refs_ok machine0.
Proof. intros [|g] f H; [|done]. by injection H as <-. Qed.
Lemma file_refs_counted_witness :
  match run_call CPipe machine0 with Ok _ s' | Sleep s' => refs_ok s' | _ => True end /\
  run_call CPipe machine0 = Ok tt machine1.
Proof.
  split; [|reflexivity].
  apply (file_refs_counted (DK := memide_keeps 100) CPipe machine0); [exact machine0_refs|exact I].
Defined.
