(* ===== verification/MemFrame.v ===== *)
(** The allocator, the page tables and the address spaces leave the open files and the rest of
    the process table alone: an address space is changed where its owner stores it back. *)
From S2P Require Import Prelude Kstate Locks Kalloc Sched Bytes Bio Fs Paging Vspace Frame.

(** * Allocation *)

Section kalloc.
Lemma keeps_pa2page a : keeps files (pa2page a).
Proof. unfold pa2page. keeps. Qed.
Lemma keeps_cme_at i : keeps files (cme_at i).
Proof. unfold cme_at. keeps. Qed.
Lemma keeps_cme_mod i f : keeps files (cme_mod i f).
Proof. unfold cme_mod. keeps. Qed.
Lemma keeps_kmem_mod f : keeps files (kmem_mod f).
Proof. unfold kmem_mod. keeps. Qed.
Lemma keeps_page_memset v c : keeps files (page_memset v c).
Proof. unfold page_memset. keeps. Qed.
Lemma keeps_acquire_core_map_lock : keeps files acquire_core_map_lock.
Proof. unfold acquire_core_map_lock. keeps. Qed.
Lemma keeps_release_core_map_lock : keeps files release_core_map_lock.
Proof. unfold release_core_map_lock. keeps. Qed.
Hint Resolve keeps_pa2page keeps_cme_at keeps_cme_mod keeps_kmem_mod keeps_page_memset : keeps.
Lemma keeps_kfree v : keeps files (kfree v).
Proof. unfold kfree, kfree_body. keeps. Qed.
Lemma keeps_kalloc_scan n i : keeps files (kalloc_scan n i).
Proof. revert i. induction n as [|n IH]; intros i; cbn [kalloc_scan]; keeps. Qed.
Hint Resolve keeps_kfree keeps_kalloc_scan : keeps.
Lemma keeps_kalloc : keeps files kalloc.
Proof. unfold kalloc. keeps. Qed.
Lemma keeps_freerange_loop n p e : keeps files (freerange_loop n p e).
Proof. revert p. induction n as [|n IH]; intros p; cbn [freerange_loop]; keeps. Qed.
Hint Resolve keeps_freerange_loop : keeps.
Lemma keeps_freerange a b : keeps files (freerange a b).
Proof. unfold freerange. keeps. Qed.
Lemma keeps_mark_user_mem a b : keeps files (mark_user_mem a b).
Proof. unfold mark_user_mem. keeps. Qed.
End kalloc.
#[export] Hint Resolve keeps_pa2page keeps_cme_at keeps_cme_mod keeps_page_memset
  keeps_acquire_core_map_lock keeps_release_core_map_lock keeps_kfree keeps_kalloc
  keeps_freerange keeps_mark_user_mem : keeps.

(** * Page tables *)

Section paging.
Lemma keeps_tbl_get a i : keeps files (tbl_get a i).
Proof. unfold tbl_get. keeps. Qed.
Lemma keeps_tbl_set a i e : keeps files (tbl_set a i e).
Proof. unfold tbl_set. keeps. Qed.
Hint Resolve keeps_tbl_get keeps_tbl_set : keeps.
Lemma keeps_walkpml4 p va b : keeps files (walkpml4 p va b).
Proof. unfold walkpml4, walk_level. keeps. Qed.
Hint Resolve keeps_walkpml4 : keeps.
Lemma keeps_mappages n p v f perm kern : keeps files (mappages n p v f perm kern).
Proof. revert v f. induction n as [|n IH]; intros v f; cbn [mappages]; keeps. Qed.
Hint Resolve keeps_mappages : keeps.
Lemma keeps_setupkvm_loop ks p : keeps files (setupkvm_loop ks p).
Proof. induction ks as [|k ks IH]; cbn [setupkvm_loop]; keeps. Qed.
Hint Resolve keeps_setupkvm_loop : keeps.
Lemma keeps_setupkvm : keeps files setupkvm.
Proof. unfold setupkvm. keeps. Qed.
Lemma keeps_find_next_possible_page p va : keeps files (find_next_possible_page p va).
Proof. unfold find_next_possible_page. keeps. Qed.
Hint Resolve keeps_find_next_possible_page : keeps.
Lemma keeps_deallocuvm_loop n p a b : keeps files (deallocuvm_loop n p a b).
Proof. revert a. induction n as [|n IH]; intros a; cbn [deallocuvm_loop]; keeps. Qed.
Hint Resolve keeps_deallocuvm_loop : keeps.
Lemma keeps_deallocuvm p a b c : keeps files (deallocuvm p a b c).
Proof. unfold deallocuvm. keeps. Qed.
Lemma keeps_freevm_pgdir_loop n i p : keeps files (freevm_pgdir_loop n i p).
Proof. revert i. induction n as [|n IH]; intros i; cbn [freevm_pgdir_loop]; keeps. Qed.
Hint Resolve keeps_deallocuvm keeps_freevm_pgdir_loop : keeps.
Lemma keeps_freevm_pdpt_loop n i p : keeps files (freevm_pdpt_loop n i p).
Proof.
  revert i. induction n as [|n IH]; intros i; cbn [freevm_pdpt_loop]; unfold freevm_pgdir; keeps.
Qed.
Hint Resolve keeps_freevm_pdpt_loop : keeps.
Lemma keeps_freevm_pdpt p : keeps files (freevm_pdpt p).
Proof. unfold freevm_pdpt. keeps. Qed.
Hint Resolve keeps_freevm_pdpt : keeps.
Lemma keeps_freevm_loop n i p : keeps files (freevm_loop n i p).
Proof. revert i. induction n as [|n IH]; intros i; cbn [freevm_loop]; keeps. Qed.
Hint Resolve keeps_freevm_loop : keeps.
Lemma keeps_freevm p : keeps files (freevm p).
Proof. unfold freevm. keeps. Qed.
End paging.
#[export] Hint Resolve keeps_tbl_get keeps_tbl_set keeps_walkpml4 keeps_mappages keeps_setupkvm
  keeps_freevm_pdpt keeps_freevm : keeps.

(** * Regions *)

Section vspace.
Lemma keeps_vpi_page_at a : keeps files (vpi_page_at a).
Proof. unfold vpi_page_at. keeps. Qed.
Hint Resolve keeps_vpi_page_at : keeps.
Lemma keeps_vpi_page_mod a f : keeps files (vpi_page_mod a f).
Proof. unfold vpi_page_mod. keeps. Qed.
Hint Resolve keeps_vpi_page_mod : keeps.
Lemma keeps_vpi_get q : keeps files (vpi_get q).
Proof. unfold vpi_get. keeps. Qed.
Lemma keeps_vpi_mod q f : keeps files (vpi_mod q f).
Proof. unfold vpi_mod. keeps. Qed.
Hint Resolve keeps_vpi_get keeps_vpi_mod : keeps.
Lemma keeps_vpi_walk n a i : keeps files (vpi_walk n a i).
Proof. revert a i. induction n as [|n IH]; intros a i; cbn [vpi_walk]; keeps. Qed.
Hint Resolve keeps_vpi_walk : keeps.
Lemma keeps_va2vpage_info r va : keeps files (va2vpage_info r va).
Proof. unfold va2vpage_info. keeps. Qed.
Hint Resolve keeps_va2vpage_info : keeps.
Lemma keeps_addmap_failure n r a f : keeps files (addmap_failure n r a f).
Proof. revert r a. induction n as [|n IH]; intros r a; cbn [addmap_failure]; keeps. Qed.
Hint Resolve keeps_addmap_failure : keeps.
Lemma keeps_addmap_loop n r a f sz p w : keeps files (addmap_loop n r a f sz p w).
Proof. revert r a. induction n as [|n IH]; intros r a; cbn [addmap_loop]; keeps. Qed.
Hint Resolve keeps_addmap_loop : keeps.
Lemma keeps_vregionaddmap r f sz p w : keeps files (vregionaddmap r f sz p w).
Proof. unfold vregionaddmap. keeps. Qed.
Lemma keeps_page_put pn o src : keeps files (page_put pn o src).
Proof. unfold page_put. keeps. Qed.
Hint Resolve keeps_vregionaddmap keeps_page_put : keeps.
Lemma keeps_vradddata_loop n r va i sz d : keeps files (vradddata_loop n r va i sz d).
Proof. revert r i. induction n as [|n IH]; intros r i; cbn [vradddata_loop]; keeps. Qed.
Hint Resolve keeps_vradddata_loop : keeps.
Lemma keeps_vradddata r va d sz p w : keeps files (vradddata r va d sz p w).
Proof. unfold vradddata. keeps. Qed.
Lemma keeps_region vs i : keeps files (region vs i).
Proof. unfold region. keeps. Qed.
Lemma keeps_free_user_entries n i p : keeps files (free_user_entries n i p).
Proof. revert i. induction n as [|n IH]; intros i; cbn [free_user_entries]; unfold free_user_entry; keeps. Qed.
Lemma keeps_invalidate_pages n p vr a b : keeps files (invalidate_pages n p vr a b).
Proof. revert vr a. induction n as [|n IH]; intros vr a; cbn [invalidate_pages]; keeps. Qed.
Lemma keeps_free_page_desc_list n a : keeps files (free_page_desc_list n a).
Proof. revert a. induction n as [|n IH]; intros a; cbn [free_page_desc_list]; keeps. Qed.
Lemma keeps_copy_infos n i d s : keeps files (copy_infos n i d s).
Proof. revert i. induction n as [|n IH]; intros i; cbn [copy_infos]; keeps. Qed.
Hint Resolve keeps_copy_infos : keeps.
Lemma keeps_copy_vpi_page n s : keeps files (copy_vpi_page n s).
Proof. revert s. induction n as [|n IH]; intros s; cbn [copy_vpi_page]; keeps. Qed.
Lemma keeps_vspaceinstall i : keeps files (vspaceinstall i).
Proof. unfold vspaceinstall, pushcli, popcli, cli, sti. keeps. Qed.
Lemma keeps_vspaceinstallkern : keeps files vspaceinstallkern.
Proof. unfold vspaceinstallkern. keeps. Qed.

Context {D : Driver} {V : Devsw} {DK : DriverKeeps D} {VK : DevswKeeps V}.
Lemma keeps_vrloaddata_loop n r va ip o sz i : keeps files (vrloaddata_loop n r va ip o sz i).
Proof. revert r i. induction n as [|n IH]; intros r i; cbn [vrloaddata_loop]; keeps. Qed.
Hint Resolve keeps_vrloaddata_loop : keeps.
Lemma keeps_vrloaddata r va ip o sz : keeps files (vrloaddata r va ip o sz).
Proof. unfold vrloaddata. keeps. Qed.
Hint Resolve keeps_vrloaddata : keeps.
Lemma keeps_load_segments n r ip off va sz : keeps files (load_segments n r ip off va sz).
Proof. revert r off va sz. induction n as [|n IH]; intros r off va sz; cbn [load_segments]; keeps. Qed.
End vspace.
#[export] Hint Resolve keeps_vpi_get keeps_vpi_mod keeps_va2vpage_info keeps_vregionaddmap
  keeps_vradddata keeps_page_put keeps_region keeps_free_user_entries keeps_invalidate_pages
  keeps_free_page_desc_list keeps_copy_vpi_page keeps_vspaceinstall keeps_vspaceinstallkern
  keeps_load_segments : keeps.
