(* ===== verification/Proc.v ===== *)
(** The life of a process, kernel/proc.c: creation, growth, fork, exit and wait.

    A kernel stack is a page whose bytes are not modelled: the context that allocproc builds on
    it is [CtxForkret], and the trap frame is the record [p_tf], meaningful once the caller of
    allocproc has filled it. *)
From S2P Require Import Prelude Kstate Locks Kalloc Sched Bytes Bio Fs Paging Vspace File.

Definition SEG_UCODE : Z := 4.
Definition SEG_UDATA : Z := 5.
Definition DPL_USER : Z := 3.
Definition FLAGS_IF : Z := 2^9.

Definition pinit : K unit := initlock LkPtable.

Definition is_unused (p : proc) : bool := bool_decide (p_state p = UNUSED).
Definition allocproc : K (option nat) :=
  acquire LkPtable;;
  o <- gets (fun s => index_of is_unused (k_ptable s));
  match o with
  | None => release LkPtable;; ret None
  | Some i =>
      proc_mod i (fun p => p <| p_state := EMBRYO |>);;
      pid <- gets k_nextpid;
      proc_mod i (fun p => p <| p_pid := pid |>);;
      modify (fun s => s <| k_nextpid := s32 (pid + 1) |>);;
      proc_mod i (fun p => p <| p_killed := false |>);;
      release LkPtable;;
      k <- kalloc;
      proc_mod i (fun p => p <| p_kstack := k |>);;
      if k =? 0 then proc_mod i (fun p => p <| p_state := UNUSED |>);; ret None else
      proc_mod i (fun p => p <| p_context := CtxForkret |>);;
      ret (Some i)
  end.

(** The address space of process [i], taken out of the table and put back. *)
Definition vspace_of (i : nat) : K vspace := p <- proc_at i; ret (p_vspace p).
Definition vspace_put (i : nat) (vs : vspace) : K unit := proc_mod i (fun p => p <| p_vspace := vs |>).
(** safestrcpy into the name of a process. *)
Definition proc_name (s : list Z) : list Z :=
  let s := take 15 (take_while (fun c => negb (c =? 0)) s) in s ++ [0].
Definition set_name (s : list Z) (p : proc) : proc := p <| p_name ::= splice 0 (proc_name s) |>.
Definition initcode_name : list Z := [105; 110; 105; 116; 99; 111; 100; 101].

(** [init], [size]: the linked-in program of initcode.S. *)
Definition userinit (init : list Z) (size : Z) : K unit :=
  o <- allocproc;
  modify (fun s => s <| k_initproc := o |>);;
  i <- deref o;
  vs <- vspace_of i;
  '(vs, x) <- vspaceinit vs;
  vspace_put i vs;;
  if negb (x =? 0) then panic "error initializing process's virtual address descriptor" else
  vs <- vspaceinitcode vs init size;
  vspace_put i vs;;
  code <- region vs VR_CODE;
  stack <- region vs VR_USTACK;
  proc_mod i (fun p => p <| p_tf := tf_zero <| cs := Z.lor (Z.shiftl SEG_UCODE 3) DPL_USER |>
                                            <| ss := Z.lor (Z.shiftl SEG_UDATA 3) DPL_USER |>
                                            <| rflags := FLAGS_IF |>
                                            <| rip := VRBOT code |>
                                            <| rsp := VRTOP stack |> |>);;
  proc_mod i (set_name initcode_name);;
  acquire LkPtable;;
  proc_mod i (fun p => p <| p_state := RUNNABLE |>);;
  release LkPtable.

(** [heap_field i]: the address of the field va_base of the heap region of process [i]. *)
Section sbrk.
Variable heap_field : nat -> Z.

(** The comparison of the quotients, one a float, is exact: the kernel is built without sse, and
    the x87 holds every int. *)
Definition sbrk (n : Z) : K Z :=
  i <- myproc;
  vs <- vspace_of i;
  vr <- region vs VR_HEAP;
  let old_bound := u64 (va_base vr + vr_size vr) in
  let finish (vr : vregion) : K Z :=
    vs <- vspaceinvalidate (with_region vs VR_HEAP vr);
    vspace_put i vs;;
    ret (s32 old_bound) in
  if 0 <? n then
    '(vr, res) <- vregionaddmap vr old_bound n VPI_PRESENT VPI_WRITABLE;
    vspace_put i (with_region vs VR_HEAP vr);;
    if res <? 0 then ret (-1) else finish (vr <| vr_size := u64 (vr_size vr + n) |>)
  else if n <? 0 then
    let n := s32 (- n) in
    if vr_size vr <? u64 n then ret (s32 old_bound) else
    let npages := if n / PGSIZE * PGSIZE <? n then n / PGSIZE + 1 else n / PGSIZE in
    freerange (u64 (heap_field i + vr_size vr)) (P2V (u64 (s32 (npages * PGSIZE))));;
    finish (vr <| vr_size := u64 (vr_size vr - n) |>)
  else finish vr.
End sbrk.

(** The copy of the descriptors, slot by slot under ptable.lock. *)
Fixpoint fork_files (n j : nat) (child : nat) : K unit :=
  match n with
  | O => ret tt
  | S n =>
      acquire LkPtable;;
      o <- pftable_at (Z.of_nat j);
      match o with
      | None => ret tt
      | Some g =>
          proc_mod child (fun p => p <| p_pftable ::= <[j := Some g]> |>);;
          file_mod g (fun f => f <| f_ref := f_ref f + 1 |>)
      end;;
      release LkPtable;;
      fork_files n (S j) child
  end.
Definition fork : K Z :=
  o <- allocproc;
  match o with
  | None => ret (-1)
  | Some c =>
      vs <- vspace_of c;
      '(vs, x) <- vspaceinit vs;
      vspace_put c vs;;
      if negb (x =? 0) then panic "error initializing process's virtual address descriptor" else
      i <- myproc;
      src <- vspace_of i;
      '(vs, src, _) <- vspacecopy vs src;
      vspace_put c vs;;
      vspace_put i src;;
      p <- proc_at i;
      proc_mod c (fun q => q <| p_tf := p_tf p |>);;
      fork_files NOFILE 0 c;;
      acquire LkPtable;;
      proc_mod c (fun q => q <| p_state := RUNNABLE |>);;
      proc_mod c (fun q => q <| p_tf ::= fun t => t <| rax := 0 |> |>);;
      proc_mod c (fun q => q <| p_parent := Some i |>);;
      release LkPtable;;
      vspaceinstall i;;
      q <- proc_at c;
      ret (p_pid q)
  end.

(** * Exit *)

(** [&((struct proc * )0)->pid]: the pid of a process without parent is read there, in user
    memory, through the installed page table. *)
Definition null_pid_addr : Z := 116.
Definition null_pid : K Z :=
  s <- get;
  match hw_translate s (k_cr3 s) null_pid_addr with
  | Some (pa, _) =>
      match k_pages s !! PGNUM pa with
      | Some (PBytes bs) => ret (s32 (field_at (Z.to_nat (pa mod PGSIZE)) 4 bs))
      | _ => fault
      end
  | None => fault
  end.
Definition parent_pid (j : nat) : K Z :=
  p <- proc_at j;
  match p_parent p with
  | Some k => q <- proc_at k; ret (p_pid q)
  | None => null_pid
  end.
(** wakeup1 of a pointer that can be null. *)
Definition wakeup1_ptr (o : option nat) : K unit :=
  match o with
  | Some j => wakeup1 (CProc j)
  | None =>
      modify (fun s => s <| k_ptable ::= fmap (fun p =>
        if decide (p_state p = SLEEPING /\ p_chan p = None) then p <| p_state := RUNNABLE |> else p) |>)
  end.
Fixpoint reparent (n j : nat) : K unit :=
  match n with
  | O => ret tt
  | S n =>
      a <- parent_pid j;
      i <- myproc;
      p <- proc_at i;
      when (a =? p_pid p)
        (o <- gets k_initproc;
         proc_mod j (fun q => q <| p_parent := o |>);;
         init <- deref o;
         q <- proc_at init;
         when (bool_decide (p_state q = SLEEPING)) (wakeup1 (CProc init)));;
      reparent n (S j)
  end.
Section exit.
Context {D : Driver} {V : Devsw}.
Fixpoint close_files (n j : nat) : K unit :=
  match n with
  | O => ret tt
  | S n =>
      o <- pftable_at (Z.of_nat j);
      when (negb (bool_decide (o = None))) (fileclose (Z.of_nat j);; ret tt);;
      close_files n (S j)
  end.
Definition exit {A} : K A :=
  close_files NOFILE 0;;
  acquire LkPtable;;
  reparent NPROC 0;;
  i <- myproc;
  p <- proc_at i;
  wakeup1_ptr (p_parent p);;
  proc_mod i (fun p => p <| p_state := ZOMBIE |>);;
  sched.

(** [first] of forkret, and where the first run of a process begins. *)
Definition forkret : K unit :=
  release LkPtable;;
  b <- gets k_first;
  when b (modify (fun s => s <| k_first := false |>);; iinit ROOTDEV).
End exit.

(** * Wait *)

Definition is_child (i : nat) (p : proc) : bool := bool_decide (p_parent p = Some i).
Fixpoint count_children (n j : nat) (has : bool) : K bool :=
  match n with
  | O => ret has
  | S n =>
      acquire LkPtable;;
      q <- proc_at j;
      i <- myproc;
      release LkPtable;;
      count_children n (S j) (has || (is_child i q && negb (is_unused q)))
  end.
Definition is_zombie_child (i : nat) (p : proc) : bool :=
  is_child i p && bool_decide (p_state p = ZOMBIE).
(** The loop from the scan on, with ptable.lock held: also where a woken parent goes on. *)
Definition wait_loop : K Z :=
  i <- myproc;
  o <- gets (fun s => index_of (is_zombie_child i) (k_ptable s));
  match o with
  | None => sleep (CProc i) LkPtable
  | Some j =>
      q <- proc_at j;
      let child_pid := p_pid q in
      proc_mod j (fun q => q <| p_state := UNUSED |>);;
      vs <- vspace_of j;
      vs <- vspacefree vs;
      vspace_put j vs;;
      kfree (p_kstack q);;
      proc_mod j (fun q => q <| p_kstack := 0 |>);;
      proc_mod j (fun q => q <| p_parent := None |>);;
      proc_mod j (fun q => q <| p_pid := 0 |>);;
      proc_mod j (fun q => q <| p_killed := false |>);;
      release LkPtable;;
      ret child_pid
  end.
Definition wait : K Z :=
  has <- count_children NPROC 0 false;
  if has : bool then acquire LkPtable;; wait_loop else ret (-1).
Definition wait_resume : K Z := sleep_resume LkPtable;; wait_loop.
