(* ===== verification/ProcProofs.v ===== *)
(** Correctness of the allocation of processes, kernel/proc.c. *)
From S2P Require Import Prelude Kstate Locks Kalloc Sched Bytes Bio Fs Paging PagingProofs Vspace VspaceProofs File Frame FileProofs Proc.

(** The slot after allocproc, with the kernel stack [k], 0 if there was no page for it. *)
Definition new_proc (pid k : Z) (p : proc) : proc :=
  if k =? 0
  then p <| p_state := UNUSED |> <| p_pid := pid |> <| p_killed := false |> <| p_kstack := 0 |>
  else p <| p_state := EMBRYO |> <| p_pid := pid |> <| p_killed := false |> <| p_kstack := k |>
         <| p_context := CtxForkret |>.
Definition allocated (i : nat) (s : kstate) : kstate :=
  let '(k, km) := kalloc_km (k_kmem s) in
  s <| k_ptable ::= alter (new_proc (k_nextpid s) k) i |> <| k_nextpid := s32 (k_nextpid s + 1) |>
    <| k_kmem := km |> <| k_cpu ::= touch |>.

Lemma allocproc_run s :
  can_lock LkPtable s -> alloc_ok s ->
  allocproc s =
    match index_of is_unused (k_ptable s) with
    | None => Ok None (s <| k_cpu ::= touch |>)
    | Some i => Ok (if fst (kalloc_km (k_kmem s)) =? 0 then None else Some i) (allocated i s)
    end.
Proof.
  intros [H1 H2] [O1 O2 O3]. unfold allocproc, proc_mod. step (acquire_free LkPtable s H1). mrun. simpl.
  destruct (index_of is_unused (k_ptable s)) as [i|].
  - mrun. erewrite bind_run; [|by apply (release_locked LkPtable s)].
    erewrite bind_run; [|apply kalloc_run; done].
    unfold allocated. destruct (kalloc_km (k_kmem s)) as [k km] eqn:E. simpl. rewrite E. simpl. mrun.
    unfold new_proc. destruct (k =? 0) eqn:Ek; mrun; f_equal; kext; simpl; rewrite ?touch_idemp; try done;
      rewrite !list_alter_alter_eq; apply list_alter_ext; try done; intros p _; unfold set; simpl.
    apply Z.eqb_eq in Ek. by subst.
  - by erewrite bind_run; [|by apply (release_locked LkPtable s)].
Qed.

(** * Process numbers *)

(** Every number in the table has been given out, and no two slots have the same one but 0, the
    number of a slot that was never used or has been reaped. *)
Record pids_ok (s : kstate) : Prop := {
  po_given i p : k_ptable s !! i = Some p -> 0 <= p_pid p < k_nextpid s;
  po_unique i j p q : i <> j -> k_ptable s !! i = Some p -> k_ptable s !! j = Some q ->
    p_pid p = p_pid q -> p_pid p = 0 }.

Lemma new_proc_pid pid k p : p_pid (new_proc pid k p) = pid.
Proof. unfold new_proc. by destruct (k =? 0). Qed.
Lemma allocated_ptable i s :
  k_ptable (allocated i s) =
    alter (new_proc (k_nextpid s) (fst (kalloc_km (k_kmem s)))) i (k_ptable s) /\
  k_nextpid (allocated i s) = s32 (k_nextpid s + 1) /\
  k_kmem (allocated i s) = snd (kalloc_km (k_kmem s)).
Proof. unfold allocated. by destruct (kalloc_km (k_kmem s)). Qed.
Lemma allocated_pids i p s :
  k_ptable s !! i = Some p -> k_nextpid s < 2 ^ 31 - 1 -> pids_ok s -> pids_ok (allocated i s).
Proof.
  intros Hp Hn [P1 P2]. destruct (allocated_ptable i s) as (E1 & E2 & _).
  pose proof (P1 i p Hp) as Hpos.
  assert (forall j q, k_ptable (allocated i s) !! j = Some q ->
    j = i /\ p_pid q = k_nextpid s \/ j <> i /\ k_ptable s !! j = Some q) as H.
  { intros j q. rewrite E1. destruct (decide (j = i)) as [->|Hne].
    - rewrite list_lookup_alter_eq, Hp. intros [= <-]. left. by rewrite new_proc_pid.
    - rewrite list_lookup_alter_ne by done. by right. }
  rewrite s32_small in E2 by lia. split; rewrite ?E2.
  - intros j q [[_ Hq]|[_ Hq%P1]]%H; lia.
  - intros j j' q q' Hj [[-> Hq]|[Hji Hq]]%H [[-> Hq']|[Hji' Hq']]%H E; [done|..].
    + specialize (P1 _ _ Hq'). lia.
    + specialize (P1 _ _ Hq). lia.
    + by apply (P2 j j' q q').
Qed.
Lemma alter_at {A} (f : A -> A) i (l : list A) x : l !! i = Some x -> alter f i l = <[i := f x]> l.
Proof.
  intros H. apply list_eq. intros j. destruct (decide (i = j)) as [<-|Hne].
  - rewrite list_lookup_alter_eq, H, list_lookup_insert_eq; [done|]. by eapply lookup_lt_Some.
  - by rewrite list_lookup_alter_ne, list_lookup_insert_ne.
Qed.
Lemma index_of_None {A} (P : A -> bool) l i x : index_of P l = None -> l !! i = Some x -> P x = false.
Proof.
  unfold index_of. intros H%fmap_None Hx. rewrite list_find_None in H.
  rewrite Forall_lookup in H. specialize (H i x Hx). by destruct (P x).
Qed.
Lemma index_of_first {A} (P : A -> bool) l i j x :
  index_of P l = Some i -> (j < i)%nat -> l !! j = Some x -> P x = false.
Proof.
  unfold index_of. intros ([k y] & H & ->)%fmap_Some Hj Hx.
  apply list_find_Some in H as (_ & _ & H). specialize (H j x Hx Hj). by destruct (P x).
Qed.
Lemma kalloc_km_cases k :
  kmem_wf k ->
  (fst (kalloc_km k) = 0 /\ free_pages k = 0) \/
  (exists c r, fst (kalloc_km k) = kva (Z.of_nat c) /\ kva (Z.of_nat c) <> 0 /\
     core_map k !! c = Some r /\ available r = 1 /\ free_pages (snd (kalloc_km k)) = free_pages k - 1 /\
     core_map (snd (kalloc_km k)) !! c = Some (r <| available := 0 |> <| ref_count := 1 |>)).
Proof.
  intros W. unfold kalloc_km. destruct (first_free (core_map k)) as [c|] eqn:E; [right|left].
  - apply first_free_spec in E as [(r & Hr & Ha) _]. exists c, r. split_and!; try done.
    + unfold kva, PGSIZE, KERNBASE. lia.
    + simpl. by rewrite list_lookup_alter_eq, Hr.
  - apply first_free_None in E. rewrite <-(wf_free _ W) in E. by split.
Qed.

(** C23: allocproc gives the first unused slot of the process table to a new process, whose
    number was never given out before, on a page for its kernel stack that was free; process
    numbers stay unique until the counter reaches the largest int.  It gives none when the table
    is full, and then nothing changes, nor when no page is free, and then the slot stays unused
    though a number is used up. *)
Theorem allocproc_correct s :
  can_lock LkPtable s -> alloc_ok s -> pids_ok s -> k_nextpid s < 2 ^ 31 - 1 ->
  exists o s', allocproc s = Ok o s' /\ pids_ok s' /\ kmem_wf (k_kmem s') /\
    ((o = None /\ (forall i p, k_ptable s !! i = Some p -> p_state p <> UNUSED) /\
        s' = s <| k_cpu ::= touch |>) \/
     (exists i p, k_ptable s !! i = Some p /\ p_state p = UNUSED /\
        (forall j q, (j < i)%nat -> k_ptable s !! j = Some q -> p_state q <> UNUSED) /\
        k_nextpid s' = k_nextpid s + 1 /\
        ((o = None /\ free_pages (k_kmem s) = 0 /\
            k_ptable s' = <[i := p <| p_pid := k_nextpid s |> <| p_killed := false |> <| p_kstack := 0 |>]> (k_ptable s)) \/
         (exists c, o = Some i /\ free_at s c /\ in_use_at s' c /\
            free_pages (k_kmem s') = free_pages (k_kmem s) - 1 /\
            k_ptable s' = <[i := p <| p_state := EMBRYO |> <| p_pid := k_nextpid s |>
              <| p_killed := false |> <| p_kstack := kva (Z.of_nat c) |> <| p_context := CtxForkret |>]>
              (k_ptable s))))).
Proof.
  intros Hl O P Hn. rewrite (allocproc_run s Hl O). pose proof (ao_wf _ O) as W.
  destruct (index_of is_unused (k_ptable s)) as [i|] eqn:Ei.
  2:{ eexists _, _. split; [done|]. split; [by destruct P|]. split; [done|]. left.
      split; [done|]. split; [|done]. intros i p Hp.
      by apply (index_of_None _ _ _ _ Ei), bool_decide_eq_false in Hp. }
  pose proof (index_of_Some _ _ _ Ei) as (p & Hp & Hu%bool_decide_eq_true_1).
  destruct (allocated_ptable i s) as (E1 & E2 & E3).
  pose proof (po_given _ P i p Hp). rewrite s32_small in E2 by lia.
  eexists _, _. split; [done|]. split; [by eapply allocated_pids|].
  split; [rewrite E3; by apply kalloc_km_wf|]. right. exists i, p. split_and!; try done.
  { intros j q Hj Hq. by apply (index_of_first _ _ _ _ _ Ei Hj), bool_decide_eq_false in Hq. }
  rewrite (alter_at _ _ _ _ Hp) in E1.
  destruct (kalloc_km_cases _ W) as [[K1 K2]|(c & r & K1 & K2 & K3 & K4 & K5 & K6)]; [left|right].
  - rewrite K1 in *. split_and!; try done. rewrite E1. f_equal. unfold new_proc, set. simpl. by rewrite <-Hu.
  - exists c. rewrite K1 in *. rewrite (proj2 (Z.eqb_neq _ _) K2).
    split_and!; try done; [by exists r| |by rewrite E3|].
    + eexists. by rewrite E3.
    + rewrite E1. unfold new_proc. by rewrite (proj2 (Z.eqb_neq _ _) K2).
Qed.

Lemma allocproc_correct_witness :
  exists s' p, allocproc small_memory = Ok (Some 0%nat) s' /\ k_ptable s' !! 0%nat = Some p /\ p_pid p = 1.
Proof.
  destruct (allocproc_correct small_memory) as (o & s' & H1 & _ & _ & H2).
  - split; [reflexivity|split; simpl; lia].
  - apply small_memory_ok.
  - split.
    + intros i p [-> _]%lookup_replicate. simpl. lia.
    + intros i j p q _ [-> _]%lookup_replicate. done.
  - simpl. lia.
  - destruct H2 as [(_ & H & _)|(i & p & Hp & _ & Hf & _ & [(_ & H & _)|(c & -> & _ & _ & _ & Ht)])].
    + by destruct (H 0%nat proc_zero).
    + discriminate H.
    + destruct i as [|i]; [|by destruct (Hf 0%nat proc_zero); [lia|..]].
      exists s'. eexists. split; [exact H1|]. rewrite Ht. split; reflexivity.
Defined.
