(* ===== verification/Fault.v ===== *)
(** Page faults (kernel/trap.c) and the kernel's accesses to user memory.

    The processor's caches of translations are not modelled. *)
From S2P Require Import Prelude Kstate Locks Kalloc Sched Bytes Bio Fs Paging Vspace File Proc.

Definition growuserstack : K Z :=
  i <- myproc;
  vs <- vspace_of i;
  vr <- region vs VR_USTACK;
  let old_bound := u64 (va_base vr - vr_size vr - PGSIZE) in
  if 10 * PGSIZE <=? vr_size vr then ret (-1) else
  '(vr, res) <- vregionaddmap vr old_bound PGSIZE VPI_PRESENT VPI_WRITABLE;
  vspace_put i (with_region vs VR_USTACK vr);;
  if res <? 0 then ret (-1) else
  vs <- vspaceinvalidate (with_region vs VR_USTACK (vr <| vr_size := u64 (vr_size vr + PGSIZE) |>));
  vspace_put i vs;;
  ret (s32 old_bound).

(** memmove of a whole page. *)
Definition page_copy (dst src : Z) : K unit :=
  o <- gets (fun s => k_pages s !! PGNUM (V2P src));
  p <- deref o;
  modify (fun s => s <| k_pages ::= <[PGNUM (V2P dst) := p]> |>).
(** The page behind descriptor [q], of core map entry [e], is shared: the process gets a copy of
    its own.  False when there is no page for it. *)
Definition cow_copy (q : Z * nat) (e : nat) : K bool :=
  data <- kalloc;
  if data =? 0 then ret false else
  page_memset data 0;;
  v <- vpi_get q;
  page_copy data (P2V (u64 (Z.shiftl (vpi_ppn v) PT_SHIFT)));;
  acquire_core_map_lock;;
  cme_mod e (fun r => r <| ref_count := ref_count r - 1 |>);;
  vpi_mod q (fun v => v <| vpi_used := 1 |> <| vpi_writable := VPI_WRITABLE |>
                        <| vpi_present := VPI_PRESENT |> <| vpi_cow := false |>
                        <| vpi_ppn := PGNUM (V2P data) |>);;
  release_core_map_lock;;
  ret true.
(** The process is the last one with the page: it may write it again. *)
Definition cow_last (q : Z * nat) : K unit :=
  acquire_core_map_lock;;
  vpi_mod q (fun v => v <| vpi_writable := VPI_WRITABLE |> <| vpi_cow := false |>);;
  release_core_map_lock.
(** vspaceinvalidate and vspaceinstall of the current process. *)
Definition reload (i : nat) : K unit :=
  vs <- vspace_of i;
  vs <- vspaceinvalidate vs;
  vspace_put i vs;;
  vspaceinstall i.

Definition grow_on_demand (addr : Z) : K bool :=
  if (addr <? SZ_2G) && (SZ_2G - 10 * PGSIZE <=? addr)
  then x <- growuserstack; ret (negb (x =? -1))
  else ret false.
(** The case TRAP_PF: true where the process goes on with the instruction that faulted. *)
Definition page_fault (addr : Z) : K bool :=
  modify (fun s => s <| k_num_page_faults := s32 (k_num_page_faults s + 1) |>);;
  i <- myproc;
  vs <- vspace_of i;
  match va2vregion vs addr with
  | None => grow_on_demand addr
  | Some k =>
      vr <- region vs k;
      '(vr, o) <- va2vpage_info vr addr;
      vspace_put i (with_region vs k vr);;
      match o with
      | None => grow_on_demand addr
      | Some q =>
          v <- vpi_get q;
          e <- pa2page (u64 (Z.shiftl (vpi_ppn v) PT_SHIFT));
          r <- cme_at e;
          if vpi_cow v && (1 <? ref_count r) && (vpi_writable v =? 0) then
            done <- cow_copy q e;
            when done (reload i);;
            ret true
          else if vpi_cow v && (ref_count r =? 1) && (vpi_writable v =? 0) then
            cow_last q;;
            reload i;;
            ret true
          else grow_on_demand addr
      end
  end.

(** * User memory, as the kernel reads and writes it

    The address is translated through the installed page table; write protection holds in the
    kernel too (CR0_WP, entry.S).  A fault that page_fault cannot handle is a panic.  It handles
    at most ten in a row by growing the stack and one by copying; more means that it finds no
    memory for a copy, again and again. *)
Fixpoint user_page (fuel : nat) (write : bool) (a : Z) : K Z :=
  match fuel with
  | O => hang
  | S fuel =>
      s <- get;
      match hw_translate s (k_cr3 s) a with
      | Some (pa, f) =>
          if negb write || flag f PTE_W then ret pa
          else b <- page_fault a; if b : bool then user_page fuel write a else panic "trap"
      | None => b <- page_fault a; if b : bool then user_page fuel write a else panic "trap"
      end
  end.
Definition FAULTS : nat := 16.
Definition user_load (a : Z) : K Z :=
  pa <- user_page FAULTS false a;
  o <- gets (fun s => k_pages s !! PGNUM pa);
  match o with
  | Some (PBytes bs) => deref (bs !! Z.to_nat (pa mod PGSIZE))
  | _ => fault
  end.
Definition user_store (a b : Z) : K unit :=
  pa <- user_page FAULTS true a;
  o <- gets (fun s => k_pages s !! PGNUM pa);
  match o with
  | Some (PBytes bs) =>
      modify (fun s => s <| k_pages ::= <[PGNUM pa := PBytes (<[Z.to_nat (pa mod PGSIZE) := b]> bs)]> |>)
  | _ => fault
  end.
Fixpoint user_loads (a : Z) (n : nat) : K (list Z) :=
  match n with
  | O => ret []
  | S n => b <- user_load a; bs <- user_loads (u64 (a + 1)) n; ret (b :: bs)
  end.
Fixpoint user_stores (a : Z) (bs : list Z) : K unit :=
  match bs with
  | [] => ret tt
  | b :: bs => user_store a b;; user_stores (u64 (a + 1)) bs
  end.
