(* ===== verification/CowProofs.v ===== *)
(** Copy-on-write: what fork shares (kernel/vspace.c) and what a page fault takes apart again
    (kernel/trap.c). *)
From S2P Require Import Prelude Kstate Locks Kalloc Sched Bytes Bio Fs Paging PagingProofs Vspace VspaceProofs File Proc Fault.

Definition is_used (v : vpage_info) : bool := negb (vpi_used v =? 0).
(** The descriptor [v] names page [x]. *)
Definition refers (x : nat) (v : vpage_info) : bool := is_used v && (vpi_ppn v =? Z.of_nat x).
(** What the parent's and the child's descriptors become. *)
Definition kept_vpi (v : vpage_info) : vpage_info := if is_used v then share_vpi v else v.
Definition given_vpi (v : vpage_info) : vpage_info := if is_used v then share_vpi v else vpi_zero.
(** The page a used descriptor names is in memory and has references. *)
Definition names_page (s : kstate) (v : vpage_info) : Prop :=
  is_used v = true -> exists f r, vpi_ppn v = Z.of_nat f /\ core_map (k_kmem s) !! f = Some r /\
    available r = 0 /\ 0 < ref_count r.

Definition more_refs (n : Z) (r : core_map_entry) : core_map_entry := r <| ref_count := ref_count r + n |>.
Lemma more_refs_0 r : more_refs 0 r = r.
Proof. destruct r. unfold more_refs, set. simpl. by rewrite Z.add_0_r. Qed.
Lemma more_refs_add n m r : more_refs n (more_refs m r) = more_refs (m + n) r.
Proof. destruct r. unfold more_refs, set. simpl. by rewrite Z.add_assoc. Qed.

(** References of page [x] counted by [refs x] are added; nothing else of the allocator, and no
    page but those of [ns], changes. *)
Record counted (s : kstate) (ns : list nat) (refs : nat -> Z) (s' : kstate) : Prop := {
  cn_alloc : alloc_ok s';
  cn_free : free_pages (k_kmem s') = free_pages (k_kmem s);
  cn_npages : npages (k_kmem s') = npages (k_kmem s);
  cn_refs x : core_map (k_kmem s') !! x = more_refs (refs x) <$> core_map (k_kmem s) !! x;
  cn_pages x : x ∉ ns -> k_pages s' !! Z.of_nat x = k_pages s !! Z.of_nat x;
  cn_frame : mframe s s' }.
Lemma counted_refl s ns : alloc_ok s -> counted s ns (fun _ => 0) s.
Proof.
  intros O. split; try done; [|apply mframe_refl]. intros x.
  destruct (core_map (k_kmem s) !! x); simpl; by rewrite ?more_refs_0.
Qed.
Lemma counted_ext s ns refs refs' s' : (forall x, refs x = refs' x) -> counted s ns refs s' -> counted s ns refs' s'.
Proof. intros H [C1 C2 C3 C4 C5 C6]. split; try done. intros x. by rewrite C4, H. Qed.
Lemma counted_trans s1 ns r1 s2 r2 s3 :
  counted s1 ns r1 s2 -> counted s2 ns r2 s3 -> counted s1 ns (fun x => r1 x + r2 x) s3.
Proof.
  intros C1 C2. split.
  - apply C2.
  - by rewrite (cn_free _ _ _ _ C2), (cn_free _ _ _ _ C1).
  - by rewrite (cn_npages _ _ _ _ C2), (cn_npages _ _ _ _ C1).
  - intros x. rewrite (cn_refs _ _ _ _ C2), (cn_refs _ _ _ _ C1).
    destruct (core_map (k_kmem s1) !! x); simpl; by rewrite ?more_refs_add.
  - intros x Hx. by rewrite (cn_pages _ _ _ _ C2), (cn_pages _ _ _ _ C1).
  - eapply mframe_trans; [apply C1|apply C2].
Qed.
Lemma counted_put s ns refs s' x v : counted s ns refs s' -> x ∈ ns -> counted s ns refs (put_vpage x v s').
Proof.
  intros [C1 C2 C3 C4 C5 C6] Hx. split; simpl; try done; [by destruct C1|].
  intros y Hy. rewrite lookup_insert_ne; [by apply C5|]. intros E. apply Hy. by assert (y = x) as -> by lia.
Qed.
Lemma counted_use s ns refs s' x : counted s ns refs s' -> in_use_at s x -> in_use_at s' x.
Proof. intros C (r & H1 & H2). eexists. rewrite (cn_refs _ _ _ _ C), H1. done. Qed.
Lemma counted_names s ns refs s' v :
  counted s ns refs s' -> (forall x, 0 <= refs x) -> names_page s v -> names_page s' v.
Proof.
  intros C Hr H Hu. destruct (H Hu) as (f & r & H1 & H2 & H3 & H4). exists f, (more_refs (refs f) r).
  split; [done|]. split; [by rewrite (cn_refs _ _ _ _ C), H2|]. split; [done|]. specialize (Hr f). simpl. lia.
Qed.

(** One more or one less reference, under the lock. *)
Definition ref_state (f : nat) (d : Z) (s : kstate) : kstate :=
  s <| k_kmem ::= fun k => k <| core_map ::= upd_at f (more_refs d) |> |> <| k_cpu ::= touch |>.
Lemma ref_counted s f r d ns :
  alloc_ok s -> core_map (k_kmem s) !! f = Some r -> available r = 0 -> 0 < ref_count r -> 0 < ref_count r + d ->
  counted s ns (fun x => if decide (x = f) then d else 0) (ref_state f d s).
Proof.
  intros [O1 O2 O3] Hr Ha Hpos Hd. split; try done; simpl.
  - split; simpl; [|done|destruct O3; split; [done|by apply cpu_wf_touch]].
    destruct O1 as [W1 W2 W3 W4 W5]. split; simpl; try done.
    + by rewrite length_alter.
    + apply upd_at_Forall; [done|]. intros r' Hr' (_ & _ & _). assert (r' = r) as -> by congruence.
      unfold cme_wf. simpl. lia.
    + rewrite (cnt_alter _ _ _ _ _ Hr), <-W4. unfold is_free. simpl. lia.
    + rewrite (cnt_alter _ _ _ _ _ Hr), <-W5. unfold in_use. simpl.
      rewrite !(proj2 (Z.ltb_lt _ _)) by lia. lia.
  - intros x. destruct (decide (x = f)) as [->|Hne].
    + by rewrite list_lookup_alter_eq, Hr.
    + rewrite list_lookup_alter_ne by done. destruct (core_map (k_kmem s) !! x); simpl; by rewrite ?more_refs_0.
  - unfold mframe. kext.
Qed.
(** The critical section of a change to the core map, and of one to a descriptor with it. *)
Lemma ref_run s f d :
  alloc_ok s -> (acquire_core_map_lock;; cme_mod f (more_refs d);; release_core_map_lock) s = Ok tt (ref_state f d s).
Proof.
  intros [O1 O2 [L1 L2]]. unfold acquire_core_map_lock, release_core_map_lock, cme_mod. mrun. rewrite O2. cbn [when].
  step (acquire_free LkKmem s L1). mrun. cbn [k_kmem set locked use_lock]. rewrite O2. cbn [when].
  rewrite (release_locked LkKmem s) by done. done.
Qed.

(** * Sharing one page of descriptors *)

Lemma alter_twice {A} (f g : A -> A) i (l : list A) : alter f i (alter g i l) = alter (fun a => f (g a)) i l.
Proof. revert i. induction l as [|a l IH]; intros [|i]; [done..|]. cbn. f_equal. apply IH. Qed.
Lemma alter_same {A} (f g : A -> A) i (l : list A) : (forall a, f a = g a) -> alter f i l = alter g i l.
Proof. intros H. revert i. induction l as [|a l IH]; intros [|i]; [done..|cbn; by rewrite H|]. cbn. f_equal. apply IH. Qed.
Lemma vpi_mod_page s x v i f :
  Z.of_nat x < PAGES_MAX -> vpage_at s x = Some v ->
  vpi_mod (kva (Z.of_nat x), i) f s = Ok tt (put_vpage x (v <| infos ::= upd_at i f |>) s).
Proof. intros Hx Hv. unfold vpi_mod. cbn [fst snd]. by rewrite (vpi_page_mod_run s x v). Qed.
Lemma vpi_get_page s x v i w :
  Z.of_nat x < PAGES_MAX -> vpage_at s x = Some v -> infos v !! i = Some w ->
  vpi_get (kva (Z.of_nat x), i) s = Ok w s.
Proof.
  intros Hx Hv Hi. unfold vpi_get. cbn [fst snd]. step (vpi_page_at_run s x v Hx Hv). by rewrite Hi.
Qed.
Lemma pa2page_run s f :
  kmem_wf (k_kmem s) -> (f < length (core_map (k_kmem s)))%nat ->
  pa2page (u64 (Z.shiftl (Z.of_nat f) PT_SHIFT)) s = Ok f s.
Proof.
  intros W Hf. pose proof (wf_len _ W). pose proof (wf_npages _ W). unfold pa2page. mrun.
  rewrite shift_pa, PGNUM_pa by (unfold PAGES_MAX in *; lia).
  rewrite u64_small by (unfold PAGES_MAX in *; lia).
  rewrite (proj2 (Z.leb_gt _ _)) by lia. by rewrite Nat2Z.id.
Qed.

Lemma ref_mod_run {A} s f d x v i g (a : A) :
  alloc_ok s -> Z.of_nat x < PAGES_MAX -> vpage_at s x = Some v ->
  (acquire_core_map_lock;; cme_mod f (more_refs d);; vpi_mod (kva (Z.of_nat x), i) g;;
   release_core_map_lock;; ret a) s =
    Ok a (put_vpage x (v <| infos ::= upd_at i g |>) (ref_state f d s)).
Proof.
  intros [O1 O2 [L1 L2]] Hx Hv. unfold acquire_core_map_lock, release_core_map_lock, cme_mod. mrun.
  rewrite O2. cbn [when]. step (acquire_free LkKmem s L1). mrun.
  erewrite bind_run by (by apply (vpi_mod_page _ x v)). mrun. cbn [k_kmem set locked use_lock put_vpage]. rewrite O2. cbn [when].
  erewrite bind_run by (by apply (release_locked LkKmem s)). done.
Qed.
Lemma mod_run s x v i g :
  alloc_ok s -> Z.of_nat x < PAGES_MAX -> vpage_at s x = Some v ->
  (acquire_core_map_lock;; vpi_mod (kva (Z.of_nat x), i) g;; release_core_map_lock) s =
    Ok tt (put_vpage x (v <| infos ::= upd_at i g |>) s <| k_cpu ::= touch |>).
Proof.
  intros [O1 O2 [L1 L2]] Hx Hv. unfold acquire_core_map_lock, release_core_map_lock. mrun.
  rewrite O2. cbn [when]. step (acquire_free LkKmem s L1). mrun.
  erewrite bind_run by (by apply (vpi_mod_page _ x v)). mrun. cbn [k_kmem set locked use_lock put_vpage]. rewrite O2. cbn [when].
  rewrite (release_locked LkKmem s) by done. done.
Qed.

Section page.
Context (x c : nat) (Hx : Z.of_nat x < PAGES_MAX) (Hc : Z.of_nat c < PAGES_MAX) (Hxc : x <> c).

Lemma share_one s v d i w :
  alloc_ok s -> vpage_at s x = Some v -> vpage_at s c = Some d -> is_used w = true -> names_page s w ->
  exists s',
    (vpi_mod (kva (Z.of_nat c), i) (fun d => d <| vpi_used := vpi_used w |> <| vpi_present := vpi_present w |>);;
     vpi_mod (kva (Z.of_nat c), i) share_vpi;;
     vpi_mod (kva (Z.of_nat x), i) share_vpi;;
     vpi_mod (kva (Z.of_nat c), i) (fun d => d <| vpi_ppn := vpi_ppn w |>);;
     e <- pa2page (u64 (Z.shiftl (vpi_ppn w) PT_SHIFT));
     acquire_core_map_lock;;
     cme_mod e (fun r => r <| ref_count := ref_count r + 1 |>);;
     release_core_map_lock) s = Ok tt s' /\
    vpage_at s' x = Some (v <| infos ::= upd_at i share_vpi |>) /\
    vpage_at s' c = Some (d <| infos ::= upd_at i (fun _ => share_vpi w) |>) /\
    counted s [x; c] (fun y => Z.b2z (refers y w)) s'.
Proof.
  intros O Hv Hd Hu Hn. destruct (Hn Hu) as (f & r & Hf & Hr & Ha & Hpos).
  step (vpi_mod_page s c d i (fun d => d <| vpi_used := vpi_used w |> <| vpi_present := vpi_present w |>) Hc Hd).
  set (s1 := put_vpage c _ s). step (vpi_mod_page s1 c _ i share_vpi Hc (vpage_put_eq _ _ _)).
  set (s2 := put_vpage c _ s1).
  assert (vpage_at s2 x = Some v) as Hv2 by (unfold s2, s1; rewrite !vpage_put_ne by done; done).
  step (vpi_mod_page s2 x v i share_vpi Hx Hv2). set (s3 := put_vpage x _ s2).
  assert (vpage_at s3 c = vpage_at s2 c) as Hd3 by (unfold s3; by rewrite vpage_put_ne by done).
  unfold s2 in Hd3 at 1. rewrite vpage_put_eq in Hd3.
  step (vpi_mod_page s3 c _ i (fun d => d <| vpi_ppn := vpi_ppn w |>) Hc Hd3). set (s4 := put_vpage c _ s3).
  assert (counted s [x; c] (fun _ => 0) s4) as C4.
  { do 4 (apply counted_put; [|set_solver]). by apply counted_refl. }
  rewrite Hf. step (pa2page_run s4 f (ao_wf _ (cn_alloc _ _ _ _ C4)) ltac:(by eapply lookup_lt_Some)). cbv beta.
  pose proof (ref_counted s4 f r 1 [x; c] (cn_alloc _ _ _ _ C4) Hr Ha Hpos ltac:(lia)) as C5.
  exists (ref_state f 1 s4). split; [by apply (ref_run s4 f 1), C4|].
  change (vpage_at (ref_state f 1 s4)) with (vpage_at s4). split; [|split].
  - unfold s4. rewrite vpage_put_ne by done. apply vpage_put_eq.
  - unfold s4. rewrite vpage_put_eq. f_equal. destruct d as [l n]. unfold set. simpl. f_equal.
    rewrite !alter_twice. apply alter_same. intros e. by destruct w, e.
  - eapply counted_ext; [|eapply counted_trans; [exact C4|exact C5]]. intros y. cbv beta.
    unfold refers. rewrite Hu, Hf. cbn [andb]. destruct (decide (y = f)) as [->|Hne].
    + by rewrite Z.eqb_refl.
    + rewrite (proj2 (Z.eqb_neq _ _)) by lia. done.
Qed.

(** The descriptors of the two pages from index [i] on are shared. *)
Record page_shared (i : nat) (v d v' d' : vpi_page) : Prop := {
  ps_src j : infos v' !! j = if (j <? i)%nat then infos v !! j else kept_vpi <$> infos v !! j;
  ps_dst j : infos d' !! j = if (j <? i)%nat then infos d !! j else
    match infos v !! j with Some w => if is_used w then Some (share_vpi w) else infos d !! j | None => infos d !! j end;
  ps_vnext : vpi_next v' = vpi_next v;
  ps_dnext : vpi_next d' = vpi_next d }.
Lemma page_shared_step i v d v1 d1 v' d' w :
  infos v !! i = Some w -> (i < length (infos d))%nat ->
  (if is_used w then v1 = v <| infos ::= upd_at i share_vpi |> /\ d1 = d <| infos ::= upd_at i (fun _ => share_vpi w) |>
   else v1 = v /\ d1 = d) ->
  page_shared (S i) v1 d1 v' d' -> page_shared i v d v' d'.
Proof.
  intros Hw Hd H [P1 P2 P3 P4]. split.
  - intros j. rewrite P1. destruct (Nat.ltb_spec j (S i)), (Nat.ltb_spec j i); try lia.
    + destruct (is_used w), H as [-> _]; [|done]. simpl. by rewrite list_lookup_alter_ne by lia.
    + assert (j = i) as -> by lia. rewrite Hw. unfold kept_vpi. simpl.
      destruct (is_used w), H as [-> _]; [|done]. simpl. by rewrite list_lookup_alter_eq, Hw.
    + destruct (is_used w), H as [-> _]; [|done]. simpl. by rewrite list_lookup_alter_ne by lia.
  - intros j. rewrite P2. destruct (Nat.ltb_spec j (S i)), (Nat.ltb_spec j i); try lia.
    + destruct (is_used w), H as [_ ->]; [|done]. simpl. by rewrite list_lookup_alter_ne by lia.
    + assert (j = i) as -> by lia. rewrite Hw. destruct (is_used w), H as [_ ->]; [|done]. simpl.
      rewrite list_lookup_alter_eq. by destruct (lookup_lt_is_Some_2 _ _ Hd) as [e ->].
    + destruct (is_used w), H as [-> ->]; [|done]. simpl. by rewrite !list_lookup_alter_ne by lia.
  - rewrite P3. by destruct (is_used w), H as [-> _].
  - rewrite P4. by destruct (is_used w), H as [_ ->].
Qed.
Lemma copy_infos_run n : forall i s v d,
  (i + n = NVPI)%nat -> alloc_ok s -> vpage_at s x = Some v -> vpage_at s c = Some d ->
  length (infos v) = NVPI -> length (infos d) = NVPI ->
  (forall j w, (i <= j)%nat -> infos v !! j = Some w -> names_page s w) ->
  exists s' v' d', copy_infos n i (kva (Z.of_nat c)) (kva (Z.of_nat x)) s = Ok tt s' /\
    vpage_at s' x = Some v' /\ vpage_at s' c = Some d' /\ page_shared i v d v' d' /\
    counted s [x; c] (fun y => cnt (refers y) (drop i (infos v))) s'.
Proof.
  induction n as [|n IH]; intros i s v d Hi O Hv Hd Lv Ld Hn; cbn [copy_infos].
  - exists s, v, d. split; [done|]. split; [done|]. split; [done|]. split; [split; try done|].
    + intros j. destruct (Nat.ltb_spec j i); [done|]. by rewrite lookup_ge_None_2 by lia.
    + intros j. destruct (Nat.ltb_spec j i); [done|]. by rewrite (lookup_ge_None_2 (infos v)) by lia.
    + eapply counted_ext; [|by apply counted_refl]. intros y. by rewrite drop_ge by lia.
  - destruct (lookup_lt_is_Some_2 (infos v) i) as [w Hw]; [lia|].
    step (vpi_get_page s x v i w Hx Hv Hw). cbv beta. fold (is_used w).
    match goal with |- context [when (is_used w) ?m] => set (body := m) end.
    assert (exists s1 v1 d1, when (is_used w) body s = Ok tt s1 /\
      vpage_at s1 x = Some v1 /\ vpage_at s1 c = Some d1 /\
      (if is_used w then v1 = v <| infos ::= upd_at i share_vpi |> /\ d1 = d <| infos ::= upd_at i (fun _ => share_vpi w) |>
       else v1 = v /\ d1 = d) /\
      counted s [x; c] (fun y => Z.b2z (refers y w)) s1) as (s1 & v1 & d1 & Hr & Hv1 & Hd1 & H1 & C1).
    { destruct (is_used w) eqn:Hu; cbn [when].
      - destruct (share_one s v d i w O Hv Hd Hu (Hn i w ltac:(lia) Hw)) as (s1 & Hr & H1 & H2 & C). eauto 10.
      - exists s, v, d. split; [done|]. repeat (split; [done|]). eapply counted_ext; [|by apply counted_refl].
        intros y. unfold refers. by rewrite Hu. }
    assert (infos v1 = if is_used w then alter share_vpi i (infos v) else infos v) as Hiv.
    { destruct (is_used w), H1 as [-> _]; done. }
    destruct (IH (S i) s1 v1 d1) as (s' & v' & d' & Hr' & Hv' & Hd' & P & C'); [lia|apply C1|done|done| | | |].
    + rewrite Hiv. destruct (is_used w); by rewrite ?length_alter.
    + destruct (is_used w), H1 as [_ ->]; simpl; by rewrite ?length_alter.
    + intros j u Hj Hu. apply (counted_names _ _ _ _ _ C1); [intros y; destruct (refers y w); simpl; lia|].
      apply (Hn j); [lia|]. rewrite Hiv in Hu. destruct (is_used w); [|done].
      by rewrite list_lookup_alter_ne in Hu by lia.
    + exists s', v', d'. split; [by step Hr|]. split; [done|]. split; [done|].
      split; [eapply page_shared_step; [done|lia|done|done]|].
      eapply counted_ext; [|eapply counted_trans; [exact C1|exact C']]. intros y. cbv beta.
      rewrite (drop_S (infos v) w i Hw). cbn [cnt]. do 2 f_equal. rewrite Hiv.
      destruct (is_used w); [|done]. by rewrite drop_alter_lt by lia.
Qed.
End page.

(** * Sharing a list of descriptor pages *)

(** [k] more pages are in use; the pages in use in [s] have the references of [refs] more, and but
    for those of [ns] the same contents. *)
Record forked (s : kstate) (ns : list nat) (refs : nat -> Z) (k : Z) (s' : kstate) : Prop := {
  fk_alloc : alloc_ok s';
  fk_free : free_pages (k_kmem s') = free_pages (k_kmem s) - k;
  fk_npages : npages (k_kmem s') = npages (k_kmem s);
  fk_refs x : in_use_at s x -> core_map (k_kmem s') !! x = more_refs (refs x) <$> core_map (k_kmem s) !! x;
  fk_pages x : in_use_at s x -> x ∉ ns -> k_pages s' !! Z.of_nat x = k_pages s !! Z.of_nat x;
  fk_was x : free_at s' x -> free_at s x;
  fk_frame : mframe s s' }.
Lemma forked_extended s ns k s' : extended s ns k s' -> forked s ns (fun _ => 0) k s'.
Proof.
  intros [E1 E2 E3 E4 E5 E6 E7]. split; try done. intros x (r & H1 & H2). rewrite (E4 x r H1 H2), H1. simpl.
  by rewrite more_refs_0.
Qed.
Lemma forked_counted s ns refs s' : counted s ns refs s' -> forked s ns refs 0 s'.
Proof.
  intros [C1 C2 C3 C4 C5 C6]. split; try done; auto; [lia|].
  intros x (r & H1 & H2). rewrite C4 in H1. destruct (core_map (k_kmem s) !! x) as [r0|] eqn:E; [|done].
  injection H1 as <-. by exists r0.
Qed.
Lemma forked_use s ns refs k s' x : forked s ns refs k s' -> in_use_at s x -> in_use_at s' x.
Proof.
  intros F H. pose proof (fk_refs _ _ _ _ _ F x H) as E. destruct H as (r & H1 & H2). rewrite H1 in E.
  eexists. split; [exact E|done].
Qed.
Lemma forked_trans s1 ns1 r1 k1 s2 ns2 r2 k2 s3 ns :
  forked s1 ns1 r1 k1 s2 -> forked s2 ns2 r2 k2 s3 ->
  (forall x, x ∈ ns1 -> x ∈ ns) -> (forall x, x ∈ ns2 -> in_use_at s1 x -> x ∈ ns) ->
  forked s1 ns (fun x => r1 x + r2 x) (k1 + k2) s3.
Proof.
  intros F1 F2 H1 H2. split.
  - apply F2.
  - rewrite (fk_free _ _ _ _ _ F2), (fk_free _ _ _ _ _ F1). lia.
  - by rewrite (fk_npages _ _ _ _ _ F2), (fk_npages _ _ _ _ _ F1).
  - intros x Hx. rewrite (fk_refs _ _ _ _ _ F2) by (by eapply forked_use). rewrite (fk_refs _ _ _ _ _ F1) by done.
    destruct (core_map (k_kmem s1) !! x); simpl; by rewrite ?more_refs_add.
  - intros x Hx Hn. rewrite (fk_pages _ _ _ _ _ F2), (fk_pages _ _ _ _ _ F1); auto. by eapply forked_use.
  - intros x Hx. by apply (fk_was _ _ _ _ _ F1), (fk_was _ _ _ _ _ F2).
  - eapply mframe_trans; [apply F1|apply F2].
Qed.
Lemma forked_ext s ns refs refs' k k' s' :
  (forall x, refs x = refs' x) -> k = k' -> forked s ns refs k s' -> forked s ns refs' k' s'.
Proof. intros H <- [F1 F2 F3 F4 F5 F6 F7]. split; try done. intros x Hx. by rewrite F4, H. Qed.
Lemma forked_names s ns refs k s' v :
  forked s ns refs k s' -> (forall x, 0 <= refs x) -> names_page s v -> names_page s' v.
Proof.
  intros F Hr H Hu. destruct (H Hu) as (f & r & H1 & H2 & H3 & H4). exists f, (more_refs (refs f) r).
  split; [done|]. split; [rewrite (fk_refs _ _ _ _ _ F), H2; [done|by exists r]|].
  split; [done|]. specialize (Hr f). simpl. lia.
Qed.
Lemma vpage_forked s ns refs k s' x :
  forked s ns refs k s' -> in_use_at s x -> x ∉ ns -> vpage_at s' x = vpage_at s x.
Proof. intros F Hu Hn. unfold vpage_at. by rewrite (fk_pages _ _ _ _ _ F). Qed.

(** The copy [cs], at [b], of the list [ns] at [a]. *)
Record list_copied (s : kstate) (a : Z) (ns : list nat) (b : Z) (cs : list nat) (s' : kstate) : Prop := {
  lc_length : length cs = length ns;
  lc_src : vlist s' a ns;
  lc_dst : vlist s' b cs;
  lc_kept : slots s' ns = kept_vpi <$> slots s ns;
  lc_given : slots s' cs = given_vpi <$> slots s ns;
  lc_free x : x ∈ cs -> free_at s x;
  lc_nodup : NoDup cs;
  lc_forked : forked s ns (fun y => cnt (refers y) (slots s ns)) (Z.of_nat (length ns)) s' }.

(** The start of a copy: a page for it, zeroed. *)
Lemma copy_page s :
  alloc_ok s -> 1 <= free_pages (k_kmem s) ->
  exists c s1 s2, kalloc s = Ok (kva (Z.of_nat c)) s1 /\ Z.of_nat c < PAGES_MAX /\ free_at s c /\
    s2 = s1 <| k_pages ::= <[PGNUM (V2P (kva (Z.of_nat c))) := PVpi vpi_page_zero]> |> /\
    vpage_at s2 c = Some vpi_page_zero /\ in_use_at s2 c /\ extended s [] 1 s2.
Proof.
  intros O Hf. destruct (kalloc_fresh s O Hf) as (c & s1 & Hk & Hfree & Huse & Hc & Hpg & E & _).
  eexists c, s1, _. split; [done|]. split; [done|]. split; [done|]. split; [done|].
  rewrite PGNUM_V2P_kva by lia. split; [|split].
  - unfold vpage_at. simpl. by rewrite lookup_insert_eq.
  - done.
  - destruct E as [E1 E2 E3 E4 E5 E6 E7]. split; simpl; try done; [by destruct E1|].
    intros x Hx _. rewrite Hpg, lookup_insert_ne; [done|]. intros ?. assert (x = c) as -> by lia.
    by eapply free_not_use.
Qed.
Lemma page_shared_all v v' d' :
  page_shared 0 v vpi_page_zero v' d' -> length (infos v) = NVPI ->
  infos v' = kept_vpi <$> infos v /\ infos d' = given_vpi <$> infos v.
Proof.
  intros P Hl. split; apply list_eq; intros j; rewrite list_lookup_fmap.
  - apply (ps_src _ _ _ _ _ P).
  - rewrite (ps_dst _ _ _ _ _ P). cbn [Nat.ltb Nat.leb]. unfold given_vpi.
    change (infos vpi_page_zero) with (replicate NVPI vpi_zero).
    destruct (infos v !! j) as [w|] eqn:E; cbn [fmap option_fmap option_map].
    + destruct (is_used w); [done|]. apply lookup_replicate_2. apply lookup_lt_Some in E. lia.
    + apply lookup_replicate_None. apply lookup_ge_None in E. lia.
Qed.

Section first.
Context (s : kstate) (x : nat) (v : vpi_page) (O : alloc_ok s) (Hx : Z.of_nat x < PAGES_MAX)
  (Hu : in_use_at s x) (Hv : vpage_at s x = Some v) (Hl : length (infos v) = NVPI).

(** The first page [x] of a list, with descriptors [v], has been copied to page [c]. *)
Record first_copied (c : nat) (v' d' : vpi_page) (s' : kstate) : Prop := {
  fc_bound : Z.of_nat c < PAGES_MAX;
  fc_free : free_at s c;
  fc_use : in_use_at s' c;
  fc_src : vpage_at s' x = Some v';
  fc_dst : vpage_at s' c = Some d';
  fc_kept : infos v' = kept_vpi <$> infos v;
  fc_given : infos d' = given_vpi <$> infos v;
  fc_next : vpi_next v' = vpi_next v;
  fc_forked : forked s [x] (fun y => cnt (refers y) (infos v)) 1 s' }.
Lemma copy_first :
  Forall (names_page s) (infos v) -> 1 <= free_pages (k_kmem s) ->
  exists c v' d' s1 s2 s3, kalloc s = Ok (kva (Z.of_nat c)) s1 /\
    s2 = s1 <| k_pages ::= <[PGNUM (V2P (kva (Z.of_nat c))) := PVpi vpi_page_zero]> |> /\
    copy_infos (Z.to_nat VPIPPAGE) 0 (kva (Z.of_nat c)) (kva (Z.of_nat x)) s2 = Ok tt s3 /\
    first_copied c v' d' s3.
Proof.
  intros Hn Hf. destruct (copy_page s O Hf) as (c & s1 & s2 & Hk & Hc & Hfree & Hs2 & Hd & Huc & E2).
  assert (x <> c) as Hxc by (by eapply elem_free_ne).
  pose proof (forked_extended _ _ _ _ E2) as F2.
  assert (vpage_at s2 x = Some v) as Hv2 by (rewrite (vpage_forked _ _ _ _ _ _ F2); [done|done|set_solver]).
  destruct (copy_infos_run x c Hx Hc Hxc (Z.to_nat VPIPPAGE) 0 s2 v vpi_page_zero)
    as (s3 & v' & d' & Hr3 & Hv3 & Hd3 & P & C3); [done|apply E2|done|done|done|done| |].
  { intros j w _ Hw. apply (forked_names _ _ _ _ _ _ F2); [done|]. exact (Forall_lookup_1 _ _ _ _ Hn Hw). }
  rewrite drop_0 in C3. pose proof (forked_counted _ _ _ _ C3) as F3.
  destruct (page_shared_all v v' d' P Hl) as [Hk' Hg'].
  exists c, v', d', s1, s2, s3. split; [done|]. split; [done|]. split; [done|]. split; try done.
  - by eapply forked_use.
  - apply (ps_vnext _ _ _ _ _ P).
  - eapply forked_ext; [| |eapply forked_trans; [exact F2|exact F3|intros y Hy; by apply elem_of_nil in Hy|]];
      [done|done|].
    intros y Hy Huy. rewrite !elem_of_cons in Hy.
    destruct Hy as [->|[->|Hy]]; [by apply list_elem_of_singleton| |by apply elem_of_nil in Hy].
    exfalso. by eapply free_not_use.
Qed.

Context (ns : list nat) (L : vlist s (vpi_next v) ns) (Hxn : x ∉ ns) (Hnd : NoDup ns).
Context (c : nat) (v' d' : vpi_page) (s3 : kstate) (F : first_copied c v' d' s3).

Lemma rest_same y : y ∈ ns -> in_use_at s y /\ vpage_at s3 y = vpage_at s y.
Proof.
  intros Hy. assert (in_use_at s y) as Hyu by (by eapply vlist_in_use). split; [done|].
  apply (vpage_forked _ _ _ _ _ _ (fc_forked _ _ _ _ F)); [done|]. intros ->%list_elem_of_singleton. done.
Qed.
Lemma rest_list : vlist s3 (vpi_next v) ns /\ slots s3 ns = slots s ns.
Proof.
  split; [|apply slots_ext; intros y Hy; by apply rest_same].
  eapply vlist_ext; [intros y Hy; by apply rest_same| |done].
  intros y Hy. apply (forked_use _ _ _ _ _ _ (fc_forked _ _ _ _ F)).
Qed.
Lemma rest_copied b cs s4 :
  list_copied s3 (vpi_next v) ns b cs s4 ->
  vpi_page_mod (kva (Z.of_nat c)) (fun d => d <| vpi_next := b |>) s4 = Ok tt (put_vpage c (d' <| vpi_next := b |>) s4) /\
  list_copied s (kva (Z.of_nat x)) (x :: ns) (kva (Z.of_nat c)) (c :: cs) (put_vpage c (d' <| vpi_next := b |>) s4).
Proof.
  intros C. pose proof (lc_forked _ _ _ _ _ _ C) as F4. pose proof (fc_forked _ _ _ _ F) as F3.
  assert (c ∉ ns) as Hcn.
  { intros Hin. eapply free_not_use; [apply (fc_free _ _ _ _ F)|]. by apply rest_same. }
  assert (x <> c) as Hxc by (eapply elem_free_ne; [done|apply F]).
  assert (c ∉ cs) as Hccs.
  { intros Hin. eapply free_not_use; [by apply (lc_free _ _ _ _ _ _ C)|apply F]. }
  assert (vpage_at s4 c = Some d') as Hd4.
  { rewrite (vpage_forked _ _ _ _ _ _ F4); [apply F|apply F|done]. }
  assert (vpage_at s4 x = Some v') as Hv4.
  { rewrite (vpage_forked _ _ _ _ _ _ F4); [apply F| |done]. by eapply forked_use. }
  split; [by apply (vpi_page_mod_run s4 c d' _ (fc_bound _ _ _ _ F))|].
  set (s5 := put_vpage c _ s4).
  assert (forall y, y <> c -> vpage_at s5 y = vpage_at s4 y) as Hs5 by (intros y Hy; unfold s5; by rewrite vpage_put_ne).
  destruct rest_list as [_ Hsl].
  assert (forall y, y ∈ ns -> y <> c) as Hnc by (by intros y Hy ->).
  assert (forall y, y ∈ cs -> y <> c) as Hcc by (by intros y Hy ->).
  assert (forall y, in_use_at s4 y -> in_use_at s5 y) as Hu5 by done.
  assert (vpage_at s5 x = Some v') as Hv5 by (by rewrite Hs5).
  assert (vpage_at s5 c = Some (d' <| vpi_next := b |>)) as Hd5 by apply vpage_put_eq.
  assert (length (infos v') = NVPI /\ length (infos d') = NVPI) as [Lv' Ld'].
  { rewrite (fc_kept _ _ _ _ F), (fc_given _ _ _ _ F), !length_fmap. done. }
  split.
  - cbn [length]. by rewrite (lc_length _ _ _ _ _ _ C).
  - split; [done|]. split; [done|]. split; [by apply Hu5, (forked_use _ _ _ _ _ _ F4), (forked_use _ _ _ _ _ _ F3)|].
    exists v'. split; [done|]. split; [done|]. rewrite (fc_next _ _ _ _ F).
    apply (vlist_ext s4); [by auto|by auto|apply C].
  - split; [done|]. split; [apply F|]. split; [apply Hu5; eapply forked_use; [exact F4|apply F]|].
    exists (d' <| vpi_next := b |>). split; [done|]. split; [done|].
    apply (vlist_ext s4); [by auto|by auto|apply C].
  - rewrite (slots_cons _ _ _ _ Hv5), (slots_cons _ _ _ _ Hv), fmap_app, (slots_ext s4) by auto.
    by rewrite (lc_kept _ _ _ _ _ _ C), Hsl, (fc_kept _ _ _ _ F).
  - rewrite (slots_cons _ _ _ _ Hd5), (slots_cons _ _ _ _ Hv), fmap_app, (slots_ext s4) by auto.
    by rewrite (lc_given _ _ _ _ _ _ C), Hsl; cbn [infos]; rewrite <-(fc_given _ _ _ _ F).
  - intros y [->|Hy]%elem_of_cons; [apply F|]. apply (fk_was _ _ _ _ _ F3). by apply (lc_free _ _ _ _ _ _ C).
  - constructor; [done|apply C].
  - rewrite (slots_cons _ _ _ _ Hv). cbn [length].
    assert (forked s4 [c] (fun _ => 0) 0 s5) as F5.
    { apply forked_extended, extended_put; [apply F4|set_solver]. }
    eapply forked_ext; [| |eapply forked_trans; [exact F3|eapply forked_trans; [exact F4|exact F5| |]| |]].
    + intros y. cbv beta. rewrite cnt_app, Hsl. lia.
    + lia.
    + intros y Hy. exact (list_elem_of_further _ c _ Hy).
    + intros y ->%list_elem_of_singleton _. apply list_elem_of_here.
    + set_solver.
    + intros y [->|Hy]%elem_of_cons Hyu; [|set_solver]. exfalso. eapply free_not_use; [apply (fc_free _ _ _ _ F)|done].
Qed.
End first.

Lemma copy_list_run ns : forall s a fuel,
  alloc_ok s -> vlist s a ns -> NoDup ns -> Forall (names_page s) (slots s ns) ->
  Z.of_nat (length ns) <= free_pages (k_kmem s) -> (length ns < fuel)%nat ->
  exists b cs s', copy_vpi_page fuel a s = Ok (0, b) s' /\ list_copied s a ns b cs s'.
Proof.
  induction ns as [|x ns IH]; intros s a fuel O L Hnd Hnames Hf Hfuel;
    (destruct fuel as [|fuel]; [lia|]); cbn [copy_vpi_page].
  - cbn [vlist] in L. subst a. exists 0, [], s. split; [done|].
    split; try done; try (by constructor); [set_solver|].
    eapply forked_ext; [|done|by apply forked_counted, counted_refl]. done.
  - destruct L as (-> & Hx & Hu & v & Hv & Hl & L). apply NoDup_cons in Hnd as [Hxn Hnd].
    rewrite (slots_cons _ _ _ _ Hv) in Hnames. apply Forall_app in Hnames as [Hn1 Hn2].
    cbn [length] in Hf, Hfuel. rewrite kva_neq_0 by lia.
    destruct (copy_first s x v O Hx Hu Hv Hl Hn1) as (c & v' & d' & s1 & s2 & s3 & Hk & -> & Hr & F); [lia|].
    pose proof (fc_forked _ _ _ _ _ _ _ F) as F3.
    step Hk. cbv beta. rewrite kva_neq_0 by lia. mrun. step Hr.
    step (vpi_page_at_run s3 x v' Hx (fc_src _ _ _ _ _ _ _ F)). cbv beta. rewrite (fc_next _ _ _ _ _ _ _ F).
    destruct (rest_list s x v ns L Hxn c v' d' s3 F) as [L3 Hsl].
    destruct (IH s3 (vpi_next v) fuel) as (b & cs & s4 & Hr4 & C); [apply F3|done|done| | |lia|].
    + rewrite Hsl. eapply Forall_impl; [exact Hn2|]. intros w. apply (forked_names _ _ _ _ _ _ F3).
      intros y. apply cnt_nonneg.
    + rewrite (fk_free _ _ _ _ _ F3). lia.
    + step Hr4. cbv beta iota.
      destruct (rest_copied s x v O Hx Hu Hv Hl ns L Hxn Hnd c v' d' s3 F b cs s4 C) as [Hm C'].
      step Hm. eauto.
Qed.

(** C21: what fork does to the pages of a region.  copy_vpi_page copies the list of descriptor
    pages into fresh pages; every used descriptor of the copy names the page the original names,
    and both are now read-only and copy-on-write.  A page has one more reference for each
    descriptor that names it, no page is copied, and nothing else in use changes. *)
Theorem copy_vpi_page_shares s vr ns fuel :
  alloc_ok s -> region_ok s vr ns -> Forall (names_page s) (slots s ns) ->
  Z.of_nat (length ns) <= free_pages (k_kmem s) -> (length ns < fuel)%nat ->
  exists b cs s', copy_vpi_page fuel (vr_pages vr) s = Ok (0, b) s' /\
    region_ok s' vr ns /\ region_ok s' (vr <| vr_pages := b |>) cs /\
    slots s' ns = (fun v => if is_used v then share_vpi v else v) <$> slots s ns /\
    slots s' cs = (fun v => if is_used v then share_vpi v else vpi_zero) <$> slots s ns /\
    (forall x, x ∈ cs -> free_at s x) /\
    forked s ns (fun x => cnt (refers x) (slots s ns)) (Z.of_nat (length ns)) s'.
Proof.
  intros O [L Hnd] Hn Hf Hfuel.
  destruct (copy_list_run ns s (vr_pages vr) fuel O L Hnd Hn Hf Hfuel) as (b & cs & s' & Hr & C).
  exists b, cs, s'. split; [done|]. split; [split; [apply C|done]|]. split; [split; apply C|].
  split; [apply (lc_kept _ _ _ _ _ _ C)|]. split; [apply (lc_given _ _ _ _ _ _ C)|].
  split; [apply (lc_free _ _ _ _ _ _ C)|apply C].
Qed.

(** * Taking a shared page apart *)

Section cow.
Context (s : kstate) (vr : vregion) (ns : list nat) (O : alloc_ok s) (R : region_ok s vr ns)
  (idx y : nat) (Hy : ns !! (idx / NVPI)%nat = Some y)
  (f : nat) (Hf : vpi_ppn (slot s ns idx) = Z.of_nat f) (r : core_map_entry)
  (Hr : core_map (k_kmem s) !! f = Some r) (Ha : available r = 0).
Notation q := (kva (Z.of_nat y), (idx mod NVPI)%nat).

Definition own (g : nat) : vpage_info := mkVpi 1 (Z.of_nat g) VPI_PRESENT VPI_WRITABLE false.
Lemma cow_copy_run p :
  1 < ref_count r -> k_pages s !! Z.of_nat f = Some p -> f ∉ ns -> 1 <= free_pages (k_kmem s) ->
  exists g s', cow_copy q f s = Ok true s' /\ free_at s g /\ region_ok s' vr ns /\
    (forall j, slot s' ns j = if decide (j = idx) then own g else slot s ns j) /\
    k_pages s' !! Z.of_nat g = Some p /\
    (exists r', core_map (k_kmem s') !! g = Some r' /\ available r' = 0 /\ ref_count r' = 1) /\
    forked s ns (fun x => if decide (x = f) then -1 else 0) 1 s'.
Proof.
  intros Hc Hp Hfn Hfree.
  destruct (new_page s O Hfree) as (g & s1 & Hk & Hg & Hgf & Hm & E & (r1 & Hr1 & Ha1 & Hc1) & Hpg).
  set (s2 := s1 <| k_pages ::= _ |>) in *.
  assert (in_use_at s f) as Hfu by (by exists r).
  assert (f <> g) as Hfg by (by eapply elem_free_ne).
  assert (forall x, x ∈ ns -> vpage_at s2 x = vpage_at s x) as Hns.
  { intros x Hx. apply (vpage_extended _ _ _ _ _ E); [by eapply region_in_use|set_solver]. }
  assert (region_ok s2 vr ns) as R2.
  { split; [|apply R]. eapply vlist_ext; [done| |apply R]. intros x _. by apply (extended_use _ _ _ _ _ E). }
  assert (slot s2 ns idx = slot s ns idx) as Hs2 by (unfold slot; by rewrite (slots_ext s)).
  unfold cow_copy. step Hk. cbv beta. rewrite kva_neq_0 by lia. step Hm.
  step (vpi_get_run s2 vr ns idx y R2 Hy). cbv beta. rewrite Hs2, Hf.
  assert (Z.of_nat f < PAGES_MAX) as Hfb.
  { destruct (ao_wf _ O) as [W1 W2 _ _ _]. apply lookup_lt_Some in Hr. lia. }
  rewrite shift_pa, P2V_pa by (unfold PAGES_MAX in *; lia). unfold page_copy. mrun.
  rewrite !PGNUM_V2P_kva by lia.
  replace (k_pages s2 !! Z.of_nat f) with (Some p) by (rewrite Hpg, lookup_insert_ne by lia; done). mrun.
  set (s3 := s2 <| k_pages ::= _ |>).
  assert (extended s [] 1 s3) as E3.
  { destruct E as [E1 E2 E3 E4 E5 E6 E7]. split; try done; [by destruct E1|]. intros x Hx Hn. unfold s3. simpl.
    rewrite lookup_insert_ne; [by apply E5|]. intros ?. assert (x = g) as -> by lia. by eapply free_not_use. }
  assert (forall x, x ∈ ns -> vpage_at s3 x = vpage_at s x) as Hns3.
  { intros x Hx. apply (vpage_extended _ _ _ _ _ E3); [by eapply region_in_use|set_solver]. }
  destruct (vlist_at _ _ _ _ _ (ro_list _ _ _ R) Hy) as (Hyb & v & Hv & Hl).
  assert (vpage_at s3 y = Some v) as Hv3 by (rewrite Hns3; [done|by eapply list_elem_of_lookup_2]).
  rewrite (ref_mod_run s3 f (-1) y v _ _ true (ex_alloc _ _ _ _ E3) Hyb Hv3).
  set (s4 := ref_state f (-1) s3).
  assert (counted s3 ns (fun x => if decide (x = f) then -1 else 0) s4) as C4.
  { apply (ref_counted s3 f r); [apply E3| |done|lia|lia]. by apply (ex_use _ _ _ _ E3). }
  assert (region_ok s4 vr ns) as R4.
  { split; [|apply R]. eapply vlist_ext; [| |apply R]; [done|]. intros x _ Hx.
    by eapply counted_use, (extended_use _ _ _ _ _ E3). }
  assert (alloc_ok s4) as O4 by apply C4.
  match goal with |- context [upd_at (idx mod NVPI)%nat ?G] => set (fn := G) end.
  destruct (vpi_mod_run s4 vr ns idx y fn O4 R4 Hy) as (s5 & Hm5 & R5 & Hslot & E5 & Hkm).
  rewrite (vpi_mod_page s4 y v _ fn Hyb Hv3) in Hm5. injection Hm5 as Hm5.
  assert (forall j, slot s4 ns j = slot s ns j) as Hs4 by (intros j; unfold slot; by rewrite (slots_ext s s4)).
  assert (g ∉ ns) as Hgn by (intros Hx; eapply free_not_use; [done|by eapply region_in_use]).
  assert (core_map (k_kmem s4) !! g = Some r1) as Hg4.
  { rewrite (cn_refs _ _ _ _ C4), decide_False by done. change (core_map (k_kmem s3)) with (core_map (k_kmem s2)).
    rewrite Hr1. simpl. by rewrite more_refs_0. }
  exists g, s5. split; [exact (f_equal (Ok true) Hm5)|]. split; [done|]. split; [done|]. split; [|split; [|split]].
  - intros j. rewrite Hslot, Hs4. done.
  - rewrite (ex_pages _ _ _ _ E5); [|by exists r1|done]. unfold s4, s3. simpl. apply lookup_insert_eq.
  - exists r1. by rewrite Hkm.
  - eapply forked_ext; [| |eapply forked_trans; [apply (forked_extended _ _ _ _ E3)|eapply forked_trans;
      [apply (forked_counted _ _ _ _ C4)|apply (forked_extended _ _ _ _ E5)| |]| |]].
    + intros x. cbv beta. destruct (decide (x = f)); lia.
    + lia.
    + intros x Hx. exact Hx.
    + intros x Hx _. exact Hx.
    + set_solver.
    + intros x Hx _. exact Hx.
Qed.
Lemma cow_copy_full :
  free_pages (k_kmem s) = 0 ->
  cow_copy q f s = Ok false (s <| k_cpu ::= touch |>).
Proof.
  intros Hfree. destruct O as [O1 O2 O3]. unfold cow_copy.
  assert (kalloc s = Ok 0 (s <| k_cpu ::= touch |>)) as Hk.
  { rewrite (kalloc_run s O1 O2 O3). unfold kalloc_km.
    destruct (first_free (core_map (k_kmem s))) as [c|] eqn:Ef; [|f_equal; kext].
    apply first_free_spec in Ef as [(r' & Hr' & Ha') _]. rewrite (wf_free _ O1) in Hfree.
    assert (0 < cnt is_free (core_map (k_kmem s))); [|lia]. apply cnt_pos. exists c, r'. split; [done|].
    unfold is_free. by rewrite Ha'. }
  step Hk. done.
Qed.
Lemma cow_last_run :
  exists s', cow_last q s = Ok tt s' /\ region_ok s' vr ns /\
    (forall j, slot s' ns j = if decide (j = idx)
                              then slot s ns j <| vpi_writable := VPI_WRITABLE |> <| vpi_cow := false |>
                              else slot s ns j) /\
    forked s ns (fun _ => 0) 0 s'.
Proof.
  destruct (vlist_at _ _ _ _ _ (ro_list _ _ _ R) Hy) as (Hyb & v & Hv & Hl).
  unfold cow_last. rewrite (mod_run s y v _ _ O Hyb Hv).
  match goal with |- context [upd_at (idx mod NVPI)%nat ?G] => set (fn := G) end.
  destruct (vpi_mod_run s vr ns idx y fn O R Hy) as (s5 & Hm5 & R5 & Hslot & E5 & Hkm).
  rewrite (vpi_mod_page s y v _ fn Hyb Hv) in Hm5. injection Hm5 as Hm5.
  exists (s5 <| k_cpu ::= touch |>). split; [exact (f_equal (fun t => Ok tt (t <| k_cpu ::= touch |>)) Hm5)|].
  split; [|split].
  - split; [|apply R]. eapply vlist_ext; [| |apply R5]; done.
  - intros j. change (slot (s5 <| k_cpu ::= touch |>) ns j) with (slot s5 ns j). rewrite Hslot. done.
  - apply forked_extended in E5. destruct E5 as [[F1 F1' F1''] F2 F3 F4 F5 F6 F7]. split; try done.
Qed.
End cow.


(** * A page shared by two descriptors *)

Definition one_used (w : vpage_info) : vpi_page := mkVpiPage (w :: replicate 168 vpi_zero) 0.
(** Page 0 holds the descriptors of a region, of which the first one names page 1; page 2 is free. *)
Definition cow_machine (w : vpage_info) (refs : Z) : kstate :=
  bss <| k_end := KERNBASE |>
      <| k_kmem := mkKmem 3 [mkCme 0 0 0 1; mkCme 0 0 0 refs; mkCme 1 0 0 0] 2 0 1 true 1 |>
      <| k_pages := {[0 := PVpi (one_used w); 1 := PBytes [7]]} |>.
Lemma cow_machine_ok w refs : 0 < refs -> alloc_ok (cow_machine w refs).
Proof.
  intros H. split; [split; try reflexivity|reflexivity|split; [reflexivity|split; simpl; lia]].
  - vm_compute. split; congruence.
  - repeat constructor; simpl; lia.
  - simpl. unfold in_use. simpl. by rewrite (proj2 (Z.ltb_lt _ _)).
Qed.
Lemma cow_machine_region w refs : region_ok (cow_machine w refs) small_region [0%nat].
Proof.
  split; [|repeat constructor; set_solver]. split; [reflexivity|]. split; [reflexivity|].
  split; [by eexists|]. exists (one_used w). split; [reflexivity|]. split; reflexivity.
Qed.

Lemma copy_vpi_page_shares_witness :
  exists b cs s', copy_vpi_page 2 (kva 0) (cow_machine (own 1) 1) = Ok (0, b) s' /\
    region_ok s' (small_region <| vr_pages := b |>) cs.
Proof.
  destruct (copy_vpi_page_shares (cow_machine (own 1) 1) small_region [0%nat] 2
    (cow_machine_ok (own 1) 1 ltac:(lia)) (cow_machine_region _ _)) as (b & cs & s' & H1 & _ & H2 & _).
  - change (slots (cow_machine (own 1) 1) [0%nat]) with (own 1 :: replicate 168 vpi_zero). constructor.
    + intros _. exists 1%nat, (mkCme 0 0 0 1). repeat split.
    + apply Forall_replicate. intros H. discriminate H.
  - simpl. lia.
  - simpl. lia.
  - exists b, cs, s'. split; [exact H1|exact H2].
Defined.
