(* ===== verification/Exec.v ===== *)
(** Running a program, kernel/exec.c. *)
From S2P Require Import Prelude Kstate Locks Kalloc Sched Bytes Bio Fs Paging Vspace File Proc Fault.

(** A string of user memory, without its NUL.  It cannot be longer than the memory of the
    machine. *)
Fixpoint user_string_loop (fuel : nat) (a : Z) : K (list Z) :=
  match fuel with
  | O => hang
  | S fuel =>
      b <- user_load a;
      if b =? 0 then ret [] else bs <- user_string_loop fuel (u64 (a + 1)); ret (b :: bs)
  end.
Definition user_string (a : Z) : K (list Z) :=
  n <- gets (fun s => npages (k_kmem s)); user_string_loop (S (Z.to_nat (n * PGSIZE))) a.

(** The copy of the argument strings below [va_space]: the address space, and unless it failed
    the new [va_space] and the addresses, first argument first. *)
Fixpoint exec_args (argv : list Z) (temp : vspace) (va_space : Z) (done : list Z) :
    K (vspace * option (Z * list Z)) :=
  match argv with
  | [] => ret (temp, Some (va_space, done))
  | a :: argv =>
      s <- user_string a;
      let size := u64 (Z.of_nat (length s) + 1 + 8) in
      let va_space := u64 (va_space - size / 8 * 8) in
      '(temp, res) <- vspacewritetova temp va_space (s ++ [0]) (s32 (size - 8));
      if res <? 0 then ret (temp, None) else exec_args argv temp va_space (done ++ [va_space])
  end.

Section Exec.
Context {D : Driver} {V : Devsw}.

(** [temp0]: what is on the stack where the temporary address space is built. *)
Definition exec (temp0 : vspace) (n : Z) (path : list Z) (argv : list Z) : K Z :=
  '(temp, _) <- vspaceinit temp0;
  '(temp, rip0, sz) <- vspaceloadcode temp path;
  if sz =? 0 then vspacefree temp;; ret (-1) else
  '(temp, res) <- vspaceinitstack temp SZ_2G;
  if res <? 0 then vspacefree temp;; ret (-1) else
  '(temp, o) <- exec_args argv temp SZ_2G [];
  match o with
  | None => vspacefree temp;; ret (-1)
  | Some (va_space, args) =>
      let userStack_args := [0] ++ args ++ [0] in
      let copyLen := s32 ((n + 2) * 8) in
      let va_space := u64 (va_space - copyLen) in
      '(temp, res) <- vspacewritetova temp va_space (flat_map (le 8) userStack_args) copyLen;
      if res <? 0 then vspacefree temp;; ret (-1) else
      i <- myproc;
      proc_mod i (fun p => p <| p_tf ::= fun t =>
        t <| rip := rip0 |> <| rsi := u64 (va_space + 8) |> <| rdi := u64 n |> <| rsp := va_space |> |>);;
      vs <- vspace_of i;
      '(vs, temp, res) <- vspacecopy vs temp;
      vspace_put i vs;;
      vspacefree temp;;
      if res <? 0 then ret (-1) else
      vspaceinstall i;;
      ret 0
  end.
End Exec.
