(* ===== verification/Syscall.v ===== *)
(** System calls: their arguments and the dispatcher (kernel/syscall.c), and the calls
    (kernel/sysfile.c, kernel/sysproc.c).

    A call that sleeps stops; what it does when it goes on is the [_resume] operation of its
    component.  Bytes that a call stores through a user's buffer are stored when it returns.
    The messages of cprintf are not modelled. *)
From S2P Require Import Prelude Kstate Locks Kalloc Sched Bytes Bio Fs Paging Vspace File Proc Fault Exec.

(** * Arguments *)

Definition my_regions : K (list vregion) :=
  i <- myproc; vs <- vspace_of i; ret (take NREGIONS (vs_regions vs)).
Definition contained (rs : list vregion) (addr size : Z) : bool :=
  existsb (fun r => vregioncontains r addr size) rs.
(** [None]: -1. *)
Definition fetchint (addr : Z) : K (option Z) :=
  rs <- my_regions;
  if contained rs addr 4 then bs <- user_loads addr 4; ret (Some (s32 (of_le bs))) else ret None.
Definition fetchint64_t (addr : Z) : K (option Z) :=
  rs <- my_regions;
  if contained rs addr 8 then bs <- user_loads addr 8; ret (Some (s64 (of_le bs))) else ret None.

(** The scan for a NUL from [s] up to [ep]. *)
Fixpoint find_nul (n : nat) (s len : Z) : K (option Z) :=
  match n with
  | O => ret None
  | S n => b <- user_load s; if b =? 0 then ret (Some len) else find_nul n (u64 (s + 1)) (len + 1)
  end.
Fixpoint fetchstr_regions (rs : list vregion) (addr : Z) : K (option Z) :=
  match rs with
  | [] => ret None
  | r :: rs =>
      if vregioncontains r addr 0 then
        o <- find_nul (Z.to_nat (VRTOP r - addr)) addr 0;
        match o with Some n => ret (Some (s32 n)) | None => fetchstr_regions rs addr end
      else fetchstr_regions rs addr
  end.
(** The length of the string at [addr]. *)
Definition fetchstr (addr : Z) : K (option Z) := rs <- my_regions; fetchstr_regions rs addr.

Definition fetcharg (n : Z) : K Z :=
  i <- myproc;
  p <- proc_at i;
  let t := p_tf p in
  if n =? 0 then ret (rdi t) else if n =? 1 then ret (rsi t) else if n =? 2 then ret (rdx t)
  else if n =? 3 then ret (rcx t) else if n =? 4 then ret (r8 t) else if n =? 5 then ret (r9 t)
  else panic "more than 6 arguments for a syscall".
Definition argint (n : Z) : K Z := a <- fetcharg n; ret (s32 a).
Definition argint64 (n : Z) : K Z := a <- fetcharg n; ret (s64 a).
(** The pointer, if [size] bytes from it on are in a region. *)
Definition argptr (n size : Z) : K (option Z) :=
  a <- argint64 n;
  if size <? 0 then ret None else
  rs <- my_regions;
  ret (if contained rs (u64 a) size then Some (u64 a) else None).
(** The pointer and the length of the string. *)
Definition argstr (n : Z) : K (option (Z * Z)) :=
  a <- argint n;
  o <- fetchstr (u64 a);
  ret ((fun len => (u64 a, len)) <$> o).
Definition argfd (fd : Z) : bool := (0 <=? fd) && (fd <? Z.of_nat NOFILE).

(** * Files *)

Section Calls.
Context {D : Driver} {V : Devsw}.
(** The address of the heap's va_base, and the stack of exec. *)
Context (heap_field : nat -> Z) (temp0 : vspace).

Definition sys_dup : K Z := fd <- argint 0; if argfd fd then filedup fd else ret (-1).
Definition sys_read : K Z :=
  fd <- argint 0;
  if negb (argfd fd) then ret (-1) else
  n <- argint 2;
  if n <? 0 then ret (-1) else
  o <- argptr 1 n;
  match o with
  | None => ret (-1)
  | Some buf => '(r, bs) <- fileread fd n; user_stores buf bs;; ret r
  end.
Definition sys_write : K Z :=
  fd <- argint 0;
  if negb (argfd fd) then ret (-1) else
  n <- argint 2;
  o <- argptr 1 n;
  match o with
  | None => ret (-1)
  | Some _ =>
      o <- argstr 1;
      match o with
      | None => ret (-1)
      | Some (buf, _) => bs <- user_loads buf (Z.to_nat n); filewrite fd bs n
      end
  end.
Definition sys_close : K Z := fd <- argint 0; if argfd fd then fileclose fd else ret (-1).
(** struct stat in user memory. *)
Definition put_stat (a : Z) (st : stat) : K unit :=
  user_stores a (le 2 (st_type st));;
  user_stores (u64 (a + 4)) (le 4 (st_dev st));;
  user_stores (u64 (a + 8)) (le 4 (st_ino st));;
  user_stores (u64 (a + 12)) (le 4 (st_size st)).
(** sizeof of a pointer. *)
Definition sizeof_ptr : Z := 8.
Definition sys_fstat : K Z :=
  fd <- argint 0;
  if negb (argfd fd) then ret (-1) else
  o <- argptr 1 sizeof_ptr;
  match o with
  | None => ret (-1)
  | Some a =>
      '(r, st) <- filestat fd;
      match st with Some st => put_stat a st | None => ret tt end;;
      ret r
  end.
Definition open_modes : list Z := [O_RDONLY; O_WRONLY; O_RDWR; O_CREATE; Z.lor O_CREATE O_RDWR].
Definition sys_open : K Z :=
  o <- argstr 0;
  match o with
  | None => ret (-1)
  | Some (a, _) =>
      mode <- argint 1;
      path <- user_string a;
      ptr <- namei path;
      if negb (bool_decide (mode ∈ open_modes)) then ret (-1) else
      when ((Z.land mode 0xF00 =? O_CREATE) && bool_decide (ptr = None)) (filecreate path;; ret tt);;
      fileopen path mode
  end.
Fixpoint exec_scan (n : nat) (i : Z) (path : list Z) (address : Z) (args : list Z) : K Z :=
  match n with
  | O => ret (-1)
  | S n =>
      o <- fetchint (u64 (s32 (address + 8 * i)));
      match o with
      | None => ret (-1)
      | Some aa =>
          o <- fetchstr (u64 aa);
          match o with
          | None => ret (-1)
          | Some _ =>
              if u64 aa =? 0 then exec temp0 i path args
              else exec_scan n (i + 1) path address (args ++ [u64 aa])
          end
      end
  end.
Definition sys_exec : K Z :=
  o <- argstr 0;
  match o with
  | None => ret (-1)
  | Some (a, _) =>
      path <- user_string a;
      o <- argptr 0 (Z.of_nat (length path));
      match o with
      | None => ret (-1)
      | Some a =>
          path <- user_string a;
          address <- argint 1;
          exec_scan MAXARG 0 path address []
      end
  end.
Definition sys_pipe : K Z :=
  o <- argptr 0 8;
  match o with
  | None => ret (-1)
  | Some a =>
      '(r, fds) <- pipe_;
      user_stores a (flat_map (fun fd => le 4 (Z.of_nat fd)) fds);;
      ret r
  end.

(** * Processes *)

Definition sys_crashn : K Z :=
  n <- argint 0;
  modify (fun s => s <| k_crashn_enable := true |>);;
  modify (fun s => s <| k_crashn := n |>);;
  ret 0.
Definition sys_fork : K Z := fork.
Definition sys_exit : K Z := exit.
Definition sys_wait : K Z := wait.
Definition sys_kill : K Z := pid <- argint 0; kill pid.
Definition sys_getpid : K Z := i <- myproc; p <- proc_at i; ret (p_pid p).
Definition sys_sbrk : K Z := n <- argint 0; sbrk heap_field (if n <? 0 then 0 else n).
(** The wait, with tickslock held: also where the woken process goes on. *)
Definition sleep_loop (n ticks0 : Z) : K Z :=
  t <- gets k_ticks;
  if u32 (t - ticks0) <? u32 n then
    k <- killed;
    if k : bool then release LkTicks;; ret (-1) else sleep CTicks LkTicks
  else release LkTicks;; ret 0.
Definition sys_sleep : K Z :=
  n <- argint 0;
  acquire LkTicks;;
  ticks0 <- gets k_ticks;
  sleep_loop n ticks0.
Definition sys_sleep_resume (n ticks0 : Z) : K Z := sleep_resume LkTicks;; sleep_loop n ticks0.
Definition sys_uptime : K Z :=
  acquire LkTicks;;
  t <- gets k_ticks;
  release LkTicks;;
  ret (s32 t).
Definition sys_sysinfo : K Z :=
  o <- argptr 0 sizeof_ptr;
  match o with
  | None => ret (-1)
  | Some a =>
      s <- get;
      user_stores a (flat_map (le 4)
        [pages_in_use (k_kmem s); pages_in_swap (k_kmem s); free_pages (k_kmem s);
         k_num_page_faults s; k_num_disk_reads s]);;
      ret 0
  end.

(** * The dispatcher *)

Definition syscalls (num : Z) : option (K Z) :=
  match num with
  | 1 => Some sys_fork | 2 => Some sys_exit | 3 => Some sys_wait | 4 => Some sys_pipe
  | 5 => Some sys_read | 6 => Some sys_kill | 7 => Some sys_exec | 8 => Some sys_fstat
  | 10 => Some sys_dup | 11 => Some sys_getpid | 12 => Some sys_sbrk | 13 => Some sys_sleep
  | 14 => Some sys_uptime | 15 => Some sys_open | 16 => Some sys_write | 21 => Some sys_close
  | 22 => Some sys_sysinfo | 23 => Some sys_crashn
  | _ => None
  end.
Definition syscall : K unit :=
  i <- myproc;
  p <- proc_at i;
  match syscalls (s32 (rax (p_tf p))) with
  | Some f => r <- f; proc_mod i (fun p => p <| p_tf ::= fun t => t <| rax := u64 r |> |>)
  | None => proc_mod i (fun p => p <| p_tf ::= fun t => t <| rax := u64 (-1) |> |>)
  end.
End Calls.
