(* ===== verification/Console.v ===== *)
(** The console, kernel/console.c: the line editor behind the keyboard and the serial line, the
    read and write of the device, and the screen.

    What consputc is given goes to [k_out]; the serial port and the screen are functions of it.
    procdump only prints. *)
From S2P Require Import Prelude Kstate Locks Kalloc Sched Bytes Bio Fs File.

Definition BACKSPACE : Z := 0x100.
Definition newline : Z := 10.
(** C(x), control and a letter. *)
Definition CTRL (x : Z) : Z := x - 64.
Definition CTRL_D : Z := CTRL 68.
Definition CTRL_H : Z := CTRL 72.
Definition CTRL_P : Z := CTRL 80.
Definition CTRL_U : Z := CTRL 85.
Definition DEL : Z := 0x7f.

Definition consputc (c : Z) : K unit := modify (fun s => s <| k_out ::= fun o => o ++ [c] |>).

(** * Input *)

(** A byte of the ring, at an unsigned counter. *)
Definition input_at (i : input) (k : Z) : option Z := in_buf i !! Z.to_nat (k mod INPUT_BUF).
Definition input_mod (f : input -> input) : K unit := modify (fun s => s <| k_input ::= f |>).

Fixpoint kill_line (fuel : nat) : K unit :=
  match fuel with
  | O => ret tt
  | S fuel =>
      i <- gets k_input;
      if in_e i =? in_w i then ret tt else
      c <- deref (input_at i (u32 (in_e i - 1)));
      if c =? newline then ret tt else
      input_mod (fun i => i <| in_e := u32 (in_e i - 1) |>);;
      consputc BACKSPACE;;
      kill_line fuel
  end.
(** One character of getc.  Of the editing keys, kill line runs while there is something to
    kill, at most once per character before the edit index. *)
Definition cons_key (c : Z) : K unit :=
  i <- gets k_input;
  if c =? CTRL_P then ret tt
  else if c =? CTRL_U then kill_line (Z.to_nat (u32 (in_e i - in_w i)))
  else if (c =? CTRL_H) || (c =? DEL) then
    when (negb (in_e i =? in_w i))
      (input_mod (fun i => i <| in_e := u32 (in_e i - 1) |>);; consputc BACKSPACE)
  else
    when (negb (c =? 0) && (u32 (in_e i - in_r i) <? INPUT_BUF))
      (let c := if c =? 13 then newline else c in
       input_mod (fun i => i <| in_buf ::= <[Z.to_nat (in_e i mod INPUT_BUF) := u8 c]> |>
                             <| in_e := u32 (in_e i + 1) |>);;
       consputc c;;
       i <- gets k_input;
       when ((c =? newline) || (c =? CTRL_D) || (in_e i =? u32 (in_r i + INPUT_BUF)))
         (input_mod (fun i => i <| in_w := in_e i |>);;
          wakeup CInput)).
Fixpoint cons_keys (cs : list Z) : K unit :=
  match cs with [] => ret tt | c :: cs => cons_key c;; cons_keys cs end.
(** [cs]: what getc returns before it returns a negative number. *)
Definition consoleintr (cs : list Z) : K unit :=
  acquire LkCons;;
  cons_keys cs;;
  release LkCons.

(** The loop of consoleread with [n] of [target] bytes to go, the lock held: also where a woken
    reader goes on. *)
Fixpoint consoleread_loop (n : nat) (target : Z) (acc : list Z) : K (Z * list Z) :=
  match n with
  | O => release LkCons;; ret (s32 target, acc)
  | S n' =>
      i <- gets k_input;
      if in_r i =? in_w i then
        k <- killed;
        if k : bool then release LkCons;; ret (-1, acc) else sleep CInput LkCons
      else
      c <- deref (input_at i (in_r i));
      input_mod (fun i => i <| in_r := u32 (in_r i + 1) |>);;
      if c =? CTRL_D then
        when (Z.of_nat n <? target) (input_mod (fun i => i <| in_r := u32 (in_r i - 1) |>));;
        release LkCons;;
        ret (s32 (target - Z.of_nat n), acc)
      else if c =? newline then
        release LkCons;;
        ret (s32 (target - Z.of_nat n'), acc ++ [c])
      else consoleread_loop n' target (acc ++ [c])
  end.
Definition consoleread (ip : iptr) (n : Z) : K (Z * list Z) :=
  acquire LkCons;;
  if n <=? 0 then release LkCons;; ret (0, []) else consoleread_loop (Z.to_nat n) n [].
Definition consoleread_resume (n : nat) (target : Z) (acc : list Z) : K (Z * list Z) :=
  sleep_resume LkCons;; consoleread_loop n target acc.

(** * Output *)

Fixpoint consputs (n : nat) (buf : list Z) : K unit :=
  match n with
  | O => ret tt
  | S n => c <- deref (head buf); consputc (u8 c);; consputs n (tail buf)
  end.
Definition consolewrite (ip : iptr) (buf : list Z) (n : Z) : K Z :=
  acquire LkCons;;
  consputs (Z.to_nat n) buf;;
  release LkCons;;
  ret n.
Definition CONSOLE : Z := 1.
(** The device table after consoleinit, which also creates the lock. *)
Definition consoleinit : K unit := initlock LkCons.
Definition console_devsw : Devsw := {|
  dev_read d := if d =? CONSOLE then Some consoleread else None;
  dev_write d := if d =? CONSOLE then Some consolewrite else None |}.

(** What the serial port is given for a character. *)
Definition uart_bytes (c : Z) : list Z := if c =? BACKSPACE then [8; 32; 8] else [u8 c].

(** The screen: the text memory, in cells of 16 bits, and the cursor.  [None]: a panic. *)
Record cga := mkCga { crt : list Z; pos : Z }.
Definition scroll (m : list Z) (pos : Z) : list Z :=
  let m := slice 80 (23 * 80) m ++ drop (23 * 80) m in
  let p := Z.to_nat (pos - 80) in
  take p m ++ replicate (24 * 80 - p) 0 ++ drop (24 * 80) m.
Definition cgaputc (c : Z) (g : cga) : option cga :=
  let '(m, p) :=
    if c =? newline then (crt g, pos g + (80 - Z.rem (pos g) 80))
    else if c =? BACKSPACE then (crt g, if 0 <? pos g then pos g - 1 else pos g)
    else (<[Z.to_nat (pos g) := Z.lor (Z.land c 0xff) 0x0700]> (crt g), pos g + 1) in
  if (p <? 0) || (25 * 80 <? p) then None else
  let '(m, p) := if 24 <=? p / 80 then (scroll m p, p - 80) else (m, p) in
  Some (mkCga (<[Z.to_nat p := Z.lor 32 0x0700]> m) p).
