(* ===== verification/ConsoleProofs.v ===== *)
(** The console refines a line editor: a queue of committed characters and a line being typed. *)
From S2P Require Import Prelude Kstate Locks Kalloc Sched Bytes Bio Fs File Console.

(** * The line editor *)

(** What a key does to the committed characters [q] and the line [l]: the new ones, the echo, and
    whether readers are woken. *)
Record edited := mkEdited { ed_queue : list Z; ed_line : list Z; ed_echo : list Z; ed_wake : bool }.
Definition edit (c : Z) (q l : list Z) : edited :=
  if c =? CTRL_P then mkEdited q l [] false
  else if c =? CTRL_U then mkEdited q [] (replicate (length l) BACKSPACE) false
  else if (c =? CTRL_H) || (c =? DEL) then
    match l with
    | [] => mkEdited q l [] false
    | _ => mkEdited q (take (length l - 1) l) [BACKSPACE] false
    end
  else if (c =? 0) || (128 <=? length q + length l)%nat then mkEdited q l [] false
  else
    let c := if c =? 13 then newline else c in
    if (c =? newline) || (c =? CTRL_D) || (length q + length l + 1 =? 128)%nat
    then mkEdited (q ++ l ++ [c]) [] [c] true
    else mkEdited q (l ++ [c]) [c] false.
Fixpoint edits (cs : list Z) (q l : list Z) : edited :=
  match cs with
  | [] => mkEdited q l [] false
  | c :: cs =>
      let e := edit c q l in
      let f := edits cs (ed_queue e) (ed_line e) in
      mkEdited (ed_queue f) (ed_line f) (ed_echo e ++ ed_echo f) (ed_wake e || ed_wake f)
  end.
(** Reading [n] characters of the queue: what is delivered and what is left, up to a newline or
    ^D; [None] when the queue ends first, and the reader waits. *)
Fixpoint read_line (n : nat) (got q : list Z) : option (list Z * list Z) :=
  match n, q with
  | O, _ => Some (got, q)
  | _, [] => None
  | S n, c :: q =>
      if c =? CTRL_D then Some (got, match got with [] => q | _ => c :: q end)
      else if c =? newline then Some (got ++ [c], q)
      else read_line n (got ++ [c]) q
  end.

(** * The ring buffer *)

Record ring (i : input) (q l : list Z) : Prop := {
  rg_buf : length (in_buf i) = 128%nat;
  rg_r : 0 <= in_r i < 2^32;
  rg_w : in_w i = u32 (in_r i + Z.of_nat (length q));
  rg_e : in_e i = u32 (in_r i + Z.of_nat (length q) + Z.of_nat (length l));
  rg_room : (length q + length l <= 128)%nat;
  rg_at k c : (q ++ l) !! k = Some c ->
    in_buf i !! Z.to_nat ((in_r i + Z.of_nat k) mod INPUT_BUF) = Some c }.

Lemma mod_u32 z : u32 z mod INPUT_BUF = z mod INPUT_BUF.
Proof. unfold u32, INPUT_BUF. rewrite <-(Znumtheory.Zmod_div_mod 128 (2^32)); try done. by exists (2^25). Qed.
Lemma u32_add_l a b : u32 (u32 a + b) = u32 (a + b).
Proof. unfold u32. by rewrite Zplus_mod_idemp_l. Qed.
Lemma u32_inj a b : - 2^31 < a - b < 2^31 -> u32 a = u32 b -> a = b.
Proof.
  intros H E. unfold u32 in E. pose proof (Z.div_mod a (2^32)). pose proof (Z.div_mod b (2^32)).
  nia.
Qed.
Lemma ring_empty_line i q l : ring i q l -> (in_e i =? in_w i) = bool_decide (l = []).
Proof.
  intros R. rewrite (rg_e _ _ _ R), (rg_w _ _ _ R). pose proof (rg_room _ _ _ R). destruct l as [|c l].
  - rewrite Z.add_0_r, Z.eqb_refl. by rewrite bool_decide_true.
  - rewrite bool_decide_false by done. apply Z.eqb_neq. intros E. apply u32_inj in E; simpl in *; lia.
Qed.
Lemma ring_used i q l : ring i q l -> u32 (in_e i - in_r i) = Z.of_nat (length q + length l).
Proof.
  intros R. pose proof (rg_room _ _ _ R). rewrite (rg_e _ _ _ R), <-Z.add_opp_r, u32_add_l, u32_small; lia.
Qed.
Lemma ring_empty_queue i q l : ring i q l -> (in_r i =? in_w i) = bool_decide (q = []).
Proof.
  intros R. rewrite (rg_w _ _ _ R). pose proof (rg_room _ _ _ R). pose proof (rg_r _ _ _ R). destruct q as [|c q].
  - rewrite Z.add_0_r, u32_small, Z.eqb_refl by lia. by rewrite bool_decide_true.
  - rewrite bool_decide_false by done. apply Z.eqb_neq. intros E. rewrite <-(u32_small (in_r i)) in E at 1 by lia.
    apply u32_inj in E; simpl in *; lia.
Qed.
Lemma ring_last i q l c : ring i q (l ++ [c]) -> input_at i (u32 (in_e i - 1)) = Some c.
Proof.
  intros R. unfold input_at. rewrite mod_u32, (rg_e _ _ _ R), length_app. cbn [length].
  replace (u32 (in_r i + Z.of_nat (length q) + Z.of_nat (length l + 1)) - 1)
    with (u32 (in_r i + Z.of_nat (length q) + Z.of_nat (length l + 1)) + -1) by lia.
  rewrite <-mod_u32, u32_add_l, mod_u32.
  replace (_ + -1) with (in_r i + Z.of_nat (length q + length l)) by lia. apply (rg_at _ _ _ R).
  rewrite app_assoc, lookup_app_r; rewrite length_app; [|lia]. by rewrite Nat.sub_diag.
Qed.
Lemma ring_back i q l c : ring i q (l ++ [c]) -> ring (i <| in_e := u32 (in_e i - 1) |>) q l.
Proof.
  intros R. destruct R as [R1 R2 R3 R4 R5 R6]. rewrite length_app in *. cbn [length] in *. split; simpl; auto.
  - rewrite R4. replace (u32 _ - 1) with (u32 (in_r i + Z.of_nat (length q) + Z.of_nat (length l + 1)) + -1) by lia.
    rewrite u32_add_l. f_equal. lia.
  - lia.
  - intros k x Hk. apply R6. rewrite app_assoc. by apply lookup_app_l_Some.
Qed.
Lemma ring_push i q l c :
  ring i q l -> (length q + length l < 128)%nat ->
  ring (i <| in_buf ::= <[Z.to_nat (in_e i mod INPUT_BUF) := c]> |> <| in_e := u32 (in_e i + 1) |>) q (l ++ [c]).
Proof.
  intros R Hlt. destruct R as [R1 R2 R3 R4 R5 R6]. split; simpl; auto.
  - by rewrite length_insert.
  - rewrite R4, u32_add_l, length_app. f_equal. simpl. lia.
  - rewrite length_app. simpl. lia.
  - intros k x Hk. rewrite app_assoc in Hk. rewrite R4, mod_u32.
    assert (forall z, 0 <= z mod INPUT_BUF < 128) as Hb by (intros z; apply Z.mod_pos_bound; done).
    apply lookup_app_Some in Hk as [Hk|[Hge Hk]].
    + rewrite list_lookup_insert_ne; [by apply R6|]. apply lookup_lt_Some in Hk. rewrite length_app in Hk.
      intros E. apply Z2Nat.inj in E; [|apply Hb..]. unfold INPUT_BUF in E.
      pose proof (Z.div_mod (in_r i + Z.of_nat (length q) + Z.of_nat (length l)) 128).
      pose proof (Z.div_mod (in_r i + Z.of_nat k) 128). lia.
    + apply list_lookup_singleton_Some in Hk as [Hk <-]. rewrite length_app in *.
      replace (Z.of_nat k) with (Z.of_nat (length q) + Z.of_nat (length l)) by lia. rewrite Z.add_assoc.
      apply list_lookup_insert_eq. rewrite R1. specialize (Hb (in_r i + Z.of_nat (length q) + Z.of_nat (length l))). lia.
Qed.
Lemma ring_commit i q l : ring i q l -> ring (i <| in_w := in_e i |>) (q ++ l) [].
Proof.
  intros [R1 R2 R3 R4 R5 R6]. split; simpl; auto; rewrite ?length_app; simpl.
  - rewrite R4. f_equal. lia.
  - rewrite R4. f_equal. lia.
  - lia.
  - intros k c. rewrite app_nil_r. apply R6.
Qed.
Lemma ring_first i q l c : ring i (c :: q) l -> input_at i (in_r i) = Some c.
Proof.
  intros R. unfold input_at. rewrite <-(Z.add_0_r (in_r i)). by apply (rg_at _ _ _ R 0%nat).
Qed.
Lemma ring_take i q l c : ring i (c :: q) l -> ring (i <| in_r := u32 (in_r i + 1) |>) q l.
Proof.
  intros [R1 R2 R3 R4 R5 R6]. cbn [length] in *. split; simpl; auto.
  - apply Z.mod_pos_bound. done.
  - rewrite R3, u32_add_l. f_equal. lia.
  - rewrite R4, <-!Z.add_assoc, u32_add_l. f_equal. lia.
  - lia.
  - intros k x Hk. rewrite <-mod_u32, u32_add_l, mod_u32.
    replace (in_r i + 1 + Z.of_nat k) with (in_r i + Z.of_nat (S k)) by lia. by apply R6.
Qed.

(** * Keys *)

(** The state after keys: the ring, the echo and the readers. *)
Definition typed (i : input) (e : edited) (s : kstate) : kstate :=
  s <| k_input := i |> <| k_out ::= fun o => o ++ ed_echo e |>
    <| k_ptable ::= if ed_wake e then fmap (wake_proc CInput) else id |>.
Lemma wake_idemp c p : wake_proc c (wake_proc c p) = wake_proc c p.
Proof.
  unfold wake_proc at 2. destruct (decide (p_state p = SLEEPING /\ p_chan p = Some c)) as [H|H]; [|done].
  unfold wake_proc. rewrite decide_False, decide_True; [done|done|]. simpl. intros [? _]. done.
Qed.
Lemma typed_typed i1 e1 i2 q l echo wake s :
  typed i2 (mkEdited q l echo wake) (typed i1 e1 s) =
    typed i2 (mkEdited q l (ed_echo e1 ++ echo) (ed_wake e1 || wake)) s.
Proof.
  unfold typed. kext; simpl.
  - destruct (ed_wake e1), wake; simpl; try done. rewrite <-list_fmap_compose. apply list_fmap_ext.
    intros j p _. apply wake_idemp.
  - by rewrite app_assoc.
Qed.

Section keys.
Context (s0 : kstate) (HC : can_lock LkCons s0) (HP : can_lock LkPtable s0).
Definition under (s : kstate) : Prop :=
  k_cpu s = k_cpu (locked LkCons s0) /\ k_spins s = k_spins (locked LkCons s0).

Lemma kill_line_run q l : forall s,
  ring (k_input s) q l -> newline ∉ l ->
  exists i, kill_line (length l) s =
      Ok tt (typed i (mkEdited q [] (replicate (length l) BACKSPACE) false) s) /\ ring i q [].
Proof.
  induction l as [|c l IH] using rev_ind; intros s R Hn.
  - exists (k_input s). split; [|done]. simpl. unfold ret. f_equal. unfold typed. kext. simpl.
    by rewrite app_nil_r.
  - rewrite length_app, Nat.add_comm. cbn [length Nat.add kill_line]. mrun.
    rewrite (ring_empty_line _ _ _ R), bool_decide_false by (by destruct l).
    rewrite (ring_last _ _ _ _ R). mrun. destruct (Z.eqb_spec c newline) as [->|_]; [set_solver|].
    unfold input_mod, consputc. mrun.
    set (s1 := s <| k_input ::= _ |> <| k_out ::= _ |>).
    destruct (IH s1) as (i & Hr & R'); [by apply (ring_back _ _ _ c)|set_solver|].
    exists i. split; [|done]. rewrite Hr. f_equal. unfold typed, s1. kext. simpl. by rewrite <-app_assoc.
Qed.
Definition stored (c : Z) (q l : list Z) : edited :=
  if (c =? newline) || (c =? CTRL_D) || (length q + length l + 1 =? 128)%nat
  then mkEdited (q ++ l ++ [c]) [] [c] true else mkEdited q (l ++ [c]) [c] false.
Lemma store_key_run s q l c :
  under s -> ring (k_input s) q l -> newline ∉ l -> 0 <= c < 256 -> (length q + length l < 128)%nat ->
  exists i, (input_mod (fun i => i <| in_buf ::= <[Z.to_nat (in_e i mod INPUT_BUF) := u8 c]> |>
                                   <| in_e := u32 (in_e i + 1) |>);;
             consputc c;;
             i <- gets k_input;
             when ((c =? newline) || (c =? CTRL_D) || (in_e i =? u32 (in_r i + INPUT_BUF)))
               (input_mod (fun i => i <| in_w := in_e i |>);; wakeup CInput)) s =
      Ok tt (typed i (stored c q l) s) /\
    ring i (ed_queue (stored c q l)) (ed_line (stored c q l)) /\ newline ∉ ed_line (stored c q l).
Proof.
  intros [U1 U2] R Hn Hc Hlt. unfold u8. rewrite Z.mod_small by done. unfold input_mod, consputc. mrun.
  set (s1 := s <| k_input ::= _ |> <| k_out ::= _ |>).
  pose proof (ring_push _ _ _ c R Hlt) as R1. change (ring (k_input s1) q (l ++ [c])) in R1.
  assert ((in_e (k_input s1) =? u32 (in_r (k_input s1) + INPUT_BUF)) = (length q + length l + 1 =? 128)%nat) as ->.
  { rewrite (rg_e _ _ _ R1), length_app. cbn [length].
    destruct (Nat.eqb_spec (length q + length l + 1) 128) as [E|E].
    - apply Z.eqb_eq. f_equal. unfold INPUT_BUF. lia.
    - apply Z.eqb_neq. intros E'. apply u32_inj in E'; unfold INPUT_BUF in *; lia. }
  unfold stored. destruct (Z.eqb_spec c newline) as [->|Hnl]; cbn [orb]; [|destruct (_ || _)]; cbn [when ed_queue ed_line].
  1,2: mrun; exists (k_input s1 <| in_w := in_e (k_input s1) |>).
  1,2: rewrite (wakeup_held LkCons CInput s0); [|done..]; split; [done|].
  1,2: split; [by apply ring_commit|set_solver].
  exists (k_input s1). split; [done|]. split; [done|]. set_solver.
Qed.
Lemma cons_key_run s q l c :
  under s -> ring (k_input s) q l -> newline ∉ l -> 0 <= c < 256 ->
  exists i, cons_key c s = Ok tt (typed i (edit c q l) s) /\
    ring i (ed_queue (edit c q l)) (ed_line (edit c q l)) /\ newline ∉ ed_line (edit c q l).
Proof.
  intros U R Hn Hc.
  assert (forall w, typed (k_input s) (mkEdited q l [] w) s = s <| k_ptable ::= if w then fmap (wake_proc CInput) else id |>) as Hid.
  { intros w. unfold typed. kext. simpl. by rewrite app_nil_r. }
  assert (s <| k_ptable ::= id |> = s) as Hs by kext.
  unfold cons_key, edit. mrun. destruct (c =? CTRL_P); [|destruct (c =? CTRL_U); [|destruct ((c =? CTRL_H) || (c =? DEL))]].
  - exists (k_input s). by rewrite Hid, Hs.
  - assert (Z.to_nat (u32 (in_e (k_input s) - in_w (k_input s))) = length l) as ->.
    { rewrite (rg_e _ _ _ R), (rg_w _ _ _ R). pose proof (rg_room _ _ _ R).
      unfold u32. rewrite <-Zminus_mod, Z.mod_small; lia. }
    destruct (kill_line_run q l s R Hn) as (i & Hr & R'). exists i. split; [done|]. split; [done|set_solver].
  - rewrite (ring_empty_line _ _ _ R). destruct (decide (l = [])) as [->|Hl].
    + exists (k_input s). by rewrite bool_decide_true, Hid, Hs.
    + rewrite bool_decide_false by done. destruct (exists_last Hl) as (l' & x & ->).
      exists (k_input s <| in_e := u32 (in_e (k_input s) - 1) |>).
      replace (match l' ++ [x] with [] => _ | _ => _ end)
        with (mkEdited q (take (length (l' ++ [x]) - 1) (l' ++ [x])) [BACKSPACE] false) by (by destruct l').
      rewrite length_app, Nat.add_sub, take_app_length. cbn [ed_queue ed_line]. split; [done|].
      split; [by apply (ring_back _ _ _ x)|set_solver].
  - change (Z.to_nat INPUT_BUF) with 128%nat. fold (stored (if c =? 13 then newline else c) q l).
    assert (0 <= (if c =? 13 then newline else c) < 256) as Hc' by (destruct (c =? 13); unfold newline; lia).
    rewrite (ring_used _ _ _ R).
    replace (negb (c =? 0) && (Z.of_nat (length q + length l) <? INPUT_BUF))
      with (negb ((c =? 0) || (128 <=? length q + length l)%nat)).
    2:{ rewrite negb_orb. f_equal. rewrite Nat.leb_antisym, negb_involutive. unfold INPUT_BUF.
        destruct (Nat.ltb_spec (length q + length l) 128), (Z.ltb_spec (Z.of_nat (length q + length l)) 128); done || lia. }
    destruct ((c =? 0) || _) eqn:E; cbn [negb when].
    + exists (k_input s). by rewrite Hid, Hs.
    + apply orb_false_iff in E as [_ E]. apply Nat.leb_gt in E. by apply store_key_run.
Qed.
Lemma cons_keys_run cs : forall s q l,
  under s -> ring (k_input s) q l -> newline ∉ l -> Forall (fun c => 0 <= c < 256) cs ->
  exists i, cons_keys cs s = Ok tt (typed i (edits cs q l) s) /\
    ring i (ed_queue (edits cs q l)) (ed_line (edits cs q l)) /\ newline ∉ ed_line (edits cs q l).
Proof.
  induction cs as [|c cs IH]; intros s q l U R Hn Hcs; cbn [cons_keys edits].
  - exists (k_input s). split; [|done]. unfold ret. f_equal. unfold typed. kext. simpl. by rewrite app_nil_r.
  - apply Forall_cons in Hcs as [Hc Hcs]. destruct (cons_key_run s q l c U R Hn Hc) as (i & Hr & R1 & Hn1).
    destruct (IH (typed i (edit c q l) s) _ _ U R1 Hn1 Hcs) as (j & Hj & R2 & Hn2).
    exists j. split; [|done]. step Hr. rewrite Hj. f_equal.
    destruct (edits cs (ed_queue (edit c q l)) (ed_line (edit c q l))). apply typed_typed.
Qed.
End keys.

(** * Readers *)

(** The running process [i], outside the kernel's critical sections. *)
Record reader (s : kstate) (i : nat) (p : proc) : Prop := {
  rd_cur : k_cur s = Some i;
  rd_proc : k_ptable s !! i = Some p;
  rd_alive : p_killed p = false;
  rd_ptable : can_lock LkPtable s;
  rd_cons : can_lock LkCons s;
  rd_nest : ncli (k_cpu s) = 0 }.
(** Process [i] waits for input. *)
Definition blocked (i : nat) (inp : input) (s : kstate) : kstate :=
  s <| k_input := inp |> <| k_ptable ::= alter (asleep CInput (eflags_IF (k_cpu s))) i |>
    <| k_spins ::= <[LkPtable := mkSpin true true]> |>
    <| k_cpu := mkCpu 1 (eflags_IF (k_cpu s)) false |>.
(** What a read of [m] more characters behind [got] comes to: the line, or the wait for more. *)
Definition read_outcome (s : kstate) (i : nat) (q l got : list Z) (m : nat)
    (r : result kstate (Z * list Z)) : Prop :=
  match read_line m got q with
  | Some (bs, q') => exists inp, ring inp q' l /\
      r = Ok (Z.of_nat (length bs), bs) (s <| k_input := inp |> <| k_cpu ::= touch |>)
  | None => exists inp, ring inp [] l /\ r = Sleep (blocked i inp s)
  end.

Section readers.
Context (s : kstate) (i : nat) (p : proc) (l : list Z) (Rd : reader s i p).
(** The lock taken, the ring replaced. *)
Abbreviation held inp := (locked LkCons s <| k_input := inp |>).

Lemma cons_release {A} inp (a : A) :
  (release LkCons;; ret a) (held inp) = Ok a (s <| k_input := inp |> <| k_cpu ::= touch |>).
Proof.
  destruct (rd_cons _ _ _ Rd) as [H1 H2].
  erewrite bind_run by (apply (release_locked LkCons s); done). done.
Qed.
Lemma cons_wait {A} inp : sleep (A:=A) CInput LkCons (held inp) = Sleep (blocked i inp s).
Proof.
  destruct (rd_cons _ _ _ Rd) as [H1 H2]. destruct (rd_ptable _ _ _ Rd) as [H3 _].
  rewrite (sleep_run CInput LkCons _ (k_spins s) (eflags_IF (k_cpu s)) i p); try done;
    try apply Rd; simpl; unfold locked; simpl; rewrite ?(rd_nest _ _ _ Rd); try done.
Qed.
Lemma killed_held inp : killed (held inp) = Ok false (held inp).
Proof.
  unfold killed, myproc, proc_at. mrun. simpl. rewrite (rd_cur _ _ _ Rd). mrun. simpl.
  rewrite (rd_proc _ _ _ Rd). mrun. by rewrite (rd_alive _ _ _ Rd).
Qed.
Lemma consoleread_loop_run m : forall q got inp target,
  ring inp q l -> target = Z.of_nat (length got + m) -> target < 2^31 ->
  read_outcome s i q l got m (consoleread_loop m target got (held inp)).
Proof.
  induction m as [|m IH]; intros q got inp target R Ht Hb; unfold read_outcome; cbn [consoleread_loop read_line].
  - exists inp. split; [done|]. rewrite cons_release, s32_small by lia. do 2 f_equal. lia.
  - mrun. cbn [k_input set]. rewrite (ring_empty_queue _ _ _ R). destruct q as [|c q].
    + rewrite bool_decide_true by done. step (killed_held inp). exists inp. split; [done|]. apply cons_wait.
    + rewrite bool_decide_false by done. rewrite (ring_first _ _ _ _ R). mrun. unfold input_mod. mrun.
      pose proof (ring_take _ _ _ _ R) as R1.
      change (held inp <| k_input ::= _ |>) with (held (inp <| in_r := u32 (in_r inp + 1) |>)).
      destruct (c =? CTRL_D); [|destruct (c =? newline)].
      * replace (s32 (target - Z.of_nat (S m))) with (Z.of_nat (length got)) by (rewrite s32_small; lia).
        destruct got as [|g got]; cbn [length] in Ht |- *.
        -- rewrite (proj2 (Z.ltb_ge _ _)) by lia. cbn [when]. mrun. eexists. split; [done|]. apply cons_release.
        -- rewrite (proj2 (Z.ltb_lt _ _)) by lia. cbn [when]. mrun. exists inp. split; [done|].
           rewrite <-cons_release. f_equal. kext. simpl. destruct inp as [b r w e].
           unfold set. simpl. f_equal. pose proof (rg_r _ _ _ R) as Hr. simpl in Hr. unfold u32.
           rewrite Zminus_mod_idemp_l, Z.add_simpl_r. by apply Z.mod_small.
      * eexists. split; [done|]. rewrite cons_release, s32_small, length_app by lia. cbn [length].
        do 2 f_equal. lia.
      * apply IH; [done|rewrite length_app; cbn [length]; lia|done].
Qed.
Lemma consoleread_run ip n q :
  ring (k_input s) q l -> 0 < n < 2^31 ->
  read_outcome s i q l [] (Z.to_nat n) (consoleread ip n s).
Proof.
  intros R Hn. unfold consoleread. step (acquire_free LkCons s (proj1 (rd_cons _ _ _ Rd))).
  rewrite (proj2 (Z.leb_gt _ _)) by lia.
  replace (locked LkCons s) with (held (k_input s)) by kext. apply consoleread_loop_run; [done| |lia].
  cbn [length]. lia.
Qed.
(** [t] is the state in which the scheduler has switched back to the reader. *)
Lemma consoleread_resume_run t ie sp q got m target :
  s = woken i ie sp t -> k_spins t = <[LkPtable := mkSpin true true]> sp -> sp !! LkPtable = None ->
  k_cpu t = mkCpu 1 ie false -> k_cur t = Some i -> ring (k_input s) q l ->
  target = Z.of_nat (length got + m) -> target < 2^31 ->
  read_outcome s i q l got m (consoleread_resume m target got t).
Proof.
  intros E Hs Hm Hc Hi R Ht Hb. unfold consoleread_resume, sleep_resume, myproc, proc_mod. mrun.
  rewrite Hi. mrun. rewrite bool_decide_false by done. simpl. unfold when. mrun.
  erewrite bind_run by (apply (ptable_release_run _ sp ie); done).
  change (_ <| k_cpu := mkCpu 0 ie ie |>) with (woken i ie sp t). rewrite <-E.
  step (acquire_free LkCons s (proj1 (rd_cons _ _ _ Rd))).
  replace (locked LkCons s) with (held (k_input s)) by kext. by apply consoleread_loop_run.
Qed.
End readers.

(** C27: the console refines a line editor of a queue of committed characters and a line being typed.
    The characters of an interrupt edit the line, are echoed, and commit it at a newline, at ^D
    and when the buffer is full, waking the readers.  A read delivers the queue up to a newline,
    ^D or the count; where the queue ends first the reader sleeps, and when it is scheduled again
    it goes on behind what it has. *)
Theorem console_refines s i p q l :
  reader s i p -> ring (k_input s) q l -> newline ∉ l ->
  (forall cs, Forall (fun c => 0 <= c < 256) cs ->
     let e := edits cs q l in
     exists inp, consoleintr cs s = Ok tt (typed inp e s <| k_cpu ::= touch |>) /\
       ring inp (ed_queue e) (ed_line e) /\ newline ∉ ed_line e) /\
  (forall ip n, 0 < n < 2^31 -> read_outcome s i q l [] (Z.to_nat n) (consoleread ip n s)) /\
  (forall t ie sp got m, s = woken i ie sp t ->
     k_spins t = <[LkPtable := mkSpin true true]> sp -> sp !! LkPtable = None ->
     k_cpu t = mkCpu 1 ie false -> k_cur t = Some i -> Z.of_nat (length got + m) < 2^31 ->
     read_outcome s i q l got m (consoleread_resume m (Z.of_nat (length got + m)) got t)).
Proof.
  intros Rd R Hn. destruct (rd_cons _ _ _ Rd) as [H1 H2]. split; [|split].
  - intros cs Hcs e.
    destruct (cons_keys_run s (rd_cons _ _ _ Rd) (rd_ptable _ _ _ Rd) cs (locked LkCons s) q l) as (inp & Hr & R' & Hn');
      [done|done|done|done|].
    exists inp. split; [|done]. unfold consoleintr. step (acquire_free LkCons s H1). step Hr.
    rewrite (release_locked LkCons s) by done. done.
  - intros ip n Hb. by apply (consoleread_run s i p).
  - intros t ie sp got m E Hs Hm Hc Hi Hb. by apply (consoleread_resume_run s i p l Rd t ie sp).
Qed.

(** A machine with one process, nothing typed yet. *)
Definition machine_typing : kstate :=
  bss <| k_cpu := mkCpu 0 false true |>
      <| k_ptable := [proc_zero <| p_state := RUNNING |> <| p_pid := 1 |>] |>
      <| k_cur := Some 0%nat |>.
Lemma machine_typing_reader :
  reader machine_typing 0 (proc_zero <| p_state := RUNNING |> <| p_pid := 1 |>).
Proof. split; try reflexivity; (split; [reflexivity|split; [simpl; lia|simpl; lia]]). Qed.
Lemma machine_typing_ring : ring (k_input machine_typing) [] [].
Proof. split; try reflexivity; simpl; [lia|lia|done]. Qed.

(** "ab", backspace and return leave the line "a"; a read before that waits. *)
Lemma console_refines_witness :
  (exists inp, consoleintr [97; 98; DEL; 13] machine_typing =
       Ok tt (typed inp (mkEdited [97; 10] [] [97; 98; BACKSPACE; 10] true) machine_typing <| k_cpu ::= touch |>) /\
     ring inp [97; 10] []) /\
  exists inp, consoleread (ICache 0) 5 machine_typing = Sleep (blocked 0 inp machine_typing).
Proof.
  destruct (console_refines machine_typing 0 _ [] [] machine_typing_reader machine_typing_ring ltac:(set_solver))
    as (H1 & H2 & _). split.
  - destruct (H1 [97; 98; DEL; 13]) as (inp & Hr & R & _); [repeat constructor; vm_compute; congruence|].
    exists inp. split; [exact Hr|exact R].
  - destruct (H2 (ICache 0) 5) as (inp & _ & Hr); [lia|]. exists inp. exact Hr.
Defined.
