(* ===== verification/Trap.v ===== *)
(** Traps, kernel/trap.c. *)
From S2P Require Import Prelude Kstate Locks Kalloc Sched Bytes Bio Fs Paging Vspace File Proc Fault Exec Syscall Console.

(** The gates of the descriptor table are in Segment.v. *)
Definition tvinit : K unit := initlock LkTicks.

Section Trap.
Context {D : Driver} {V : Devsw}.
(** The disk driver's handler, and the parameters of the system calls. *)
Context (disk_intr : K unit) (heap_field : nat -> Z) (temp0 : vspace).

Definition from_user (tf : trap_frame) : bool := Z.land (cs tf) 3 =? DPL_USER.
(** if (myproc() && myproc()->killed && the trap came from user space) exit(); *)
Definition exit_if_killed (tf : trap_frame) : K unit :=
  o <- gets k_cur;
  match o with
  | None => ret tt
  | Some i => p <- proc_at i; when (p_killed p && from_user tf) exit
  end.
Definition clock : K unit :=
  acquire LkTicks;;
  modify (fun s => s <| k_ticks := u32 (k_ticks s + 1) |>);;
  wakeup CTicks;;
  release LkTicks.
Definition kill_current : K unit := i <- myproc; proc_mod i (fun p => p <| p_killed := true |>).
(** The switch on the trap number.  [cr2]: the address of a page fault; [keys]: what the keyboard
    or the serial line has. *)
Definition trap_switch (tf : trap_frame) (cr2 : Z) (keys : list Z) : K unit :=
  let n := trapno tf in
  if n =? TRAP_IRQ0 + IRQ_TIMER then clock
  else if n =? TRAP_IRQ0 + IRQ_IDE then disk_intr
  else if n =? TRAP_IRQ0 + IRQ_IDE + 1 then ret tt
  else if (n =? TRAP_IRQ0 + IRQ_KBD) || (n =? TRAP_IRQ0 + IRQ_COM1) then consoleintr keys
  else if (n =? TRAP_IRQ0 + 7) || (n =? TRAP_IRQ0 + IRQ_SPURIOUS) then ret tt
  else if n =? TRAP_PF then
    b <- page_fault cr2;
    if b : bool then ret tt else
    o <- gets k_cur;
    if bool_decide (o = None) || (Z.land (cs tf) 3 =? 0) then panic "trap" else kill_current
  else kill_current.
Definition trap (tf : trap_frame) (cr2 : Z) (keys : list Z) : K unit :=
  if trapno tf =? TRAP_SYSCALL then
    k <- killed;
    if k : bool then exit else
    i <- myproc;
    proc_mod i (fun p => p <| p_tf := tf |>);;
    syscall heap_field temp0;;
    k <- killed;
    if k : bool then exit else ret tt
  else
  trap_switch tf cr2 keys;;
  exit_if_killed tf;;
  o <- gets k_cur;
  match o with
  | None => ret tt
  | Some i =>
      p <- proc_at i;
      when (bool_decide (p_state p = RUNNING) && (trapno tf =? TRAP_IRQ0 + IRQ_TIMER)) yield
  end;;
  exit_if_killed tf.
(** Where a process that yielded goes on. *)
Definition trap_resume (tf : trap_frame) : K unit := yield_resume;; exit_if_killed tf.
End Trap.
