(* ===== verification/Typed.v ===== *)
(** The types of the kernel's tables.  C does not keep an index inside its array or a string
    inside its buffer; [typed] says that they are, and every trap, with the system call, the page
    fault or the interrupt behind it, keeps it so. *)
From S2P Require Import Prelude Kstate Locks Kalloc Sched Bytes Bio Ide Fs Paging Vspace File Frame FileProofs MemFrame Proc Fault Exec Syscall Console Trap.

(** * The types *)

Definition within (n : nat) (o : option nat) : Prop := forall i, o = Some i -> (i < n)%nat.
Definition int32 (z : Z) : Prop := -2^31 <= z < 2^31.
Definition vspace_typed (vs : vspace) : Prop := length (vs_regions vs) = NREGIONS.
Record proc_typed (p : proc) : Prop := {
  pt_vspace : vspace_typed (p_vspace p);
  pt_pid : int32 (p_pid p);
  pt_parent : within NPROC (p_parent p);
  pt_fds : length (p_pftable p) = NOFILE;
  pt_fd : Forall (within NFILE) (p_pftable p);
  pt_name : length (p_name p) = 16%nat }.
Record file_typed (f : file_info) : Prop := {
  ft_buf : length (pi_buf (f_pipe f)) = Z.to_nat PIPESIZE;
  ft_head : int32 (pi_head (f_pipe f));
  ft_tail : int32 (pi_tail (f_pipe f)) }.
Record typed (s : kstate) : Prop := {
  ty_ptable : length (k_ptable s) = NPROC;
  ty_procs : Forall proc_typed (k_ptable s);
  ty_cur : within NPROC (k_cur s);
  ty_init : within NPROC (k_initproc s);
  ty_pid : int32 (k_nextpid s);
  ty_ftable : length (k_ftable s) = NFILE;
  ty_files : Forall file_typed (k_ftable s) }.

Lemma int32_s32 z : int32 (s32 z).
Proof. apply s32_range. Qed.
Lemma within_None n : within n None.
Proof. by intros i. Qed.
Lemma within_Some n i : (i < n)%nat -> within n (Some i).
Proof. by intros H j [= <-]. Qed.
Lemma within_index {A} (P : A -> bool) l n : length l = n -> within n (index_of P l).
Proof.
  intros <- i H. apply index_of_Some in H as (x & H & _). by eapply lookup_lt_Some.
Qed.
Lemma within_found {A} (P : A -> bool) l n i :
  length l = n -> index_of P l = Some i -> within n (Some i).
Proof. intros H <-. by apply within_index. Qed.

(** What a process loses in [still] has no type to keep. *)
Lemma proc_typed_still p q : still p = still q -> proc_typed q -> proc_typed p.
Proof.
  destruct p, q. intros [= -> -> -> -> -> -> -> ->] []. by split.
Qed.
Lemma typed_files s s' : files s' = files s -> typed s -> typed s'.
Proof.
  unfold files. intros [= H1 H2 H3 H4 H5] []. split; rewrite ?H1, ?H3, ?H4, ?H5; try done.
  - apply (f_equal length) in H2. rewrite !length_fmap in H2. congruence.
  - apply Forall_lookup_2. intros i p Hp.
    assert ((still <$> k_ptable s') !! i = Some (still p)) as H by (by rewrite list_lookup_fmap, Hp).
    rewrite H2, list_lookup_fmap in H. apply fmap_Some in H as (q & Hq & E).
    eapply proc_typed_still; [exact E|]. by eapply Forall_lookup_1.
Qed.

(** * Code that keeps the types *)

(** From a typed state [m] ends or sleeps in a typed state, and what it returns has [Q]. *)
Definition typ {A} (m : K A) (Q : A -> Prop) : Prop :=
  forall s, typed s ->
    match m s with Ok a s' => typed s' /\ Q a | Sleep s' => typed s' | _ => True end.
Notation any := (fun _ => True).

Create HintDb typ discriminated.
Lemma typ_ret {A} (a : A) (Q : A -> Prop) : Q a -> typ (ret a) Q.
Proof. by intros H s T. Qed.
Lemma typ_bind {A B} (m : K A) (Q : A -> Prop) (k : A -> K B) R :
  typ m Q -> (forall a, Q a -> typ (k a) R) -> typ (bind m k) R.
Proof.
  intros Hm Hk s T. unfold bind. specialize (Hm s T). destruct (m s) as [a s'| |s'| |]; try done.
  destruct Hm as [T' Ha]. apply (Hk a Ha s' T').
Qed.
Lemma typ_mono {A} (m : K A) (Q R : A -> Prop) : typ m Q -> (forall a, Q a -> R a) -> typ m R.
Proof. intros H HQ s T. specialize (H s T). destruct (m s); try done. naive_solver. Qed.
Lemma typ_any {A} (m : K A) (Q : A -> Prop) : typ m Q -> typ m any.
Proof. intros H. by eapply typ_mono. Qed.
Lemma typ_keeps {A} (m : K A) : keeps files m -> typ m any.
Proof.
  intros H s T. specialize (H s). destruct (m s); try done; [split; [|done]|]; by eapply typed_files.
Qed.
Lemma typ_gets {A} (f : kstate -> A) (Q : A -> Prop) : (forall s, typed s -> Q (f s)) -> typ (gets f) Q.
Proof. intros H s T. split; [done|]. by apply H. Qed.
Lemma typ_panic {A} msg (Q : A -> Prop) : typ (panic msg) Q.
Proof. by intros s. Qed.
Lemma typ_fault {A} (Q : A -> Prop) : typ fault Q.
Proof. by intros s. Qed.
Lemma typ_hang {A} (Q : A -> Prop) : typ hang Q.
Proof. by intros s. Qed.
Lemma typ_when b m : typ m any -> typ (when b m) any.
Proof. destruct b; [done|]. intros _. by apply typ_ret. Qed.
Lemma typ_deref {A} (o : option A) (Q : A -> Prop) : (forall a, o = Some a -> Q a) -> typ (deref o) Q.
Proof. destruct o; intros H; [apply typ_ret; by apply H|by intros s]. Qed.
#[export] Hint Resolve typ_panic typ_fault typ_hang : typ.

(** What code that returns an address space with other values says of it. *)
Definition on_vspace {A} (x : vspace * A) : Prop := vspace_typed (fst x).
Definition on_vspaces {A} (x : vspace * vspace * A) : Prop :=
  vspace_typed x.1.1 /\ vspace_typed x.1.2.
Definition on_loaded {A B} (x : vspace * A * B) : Prop := vspace_typed x.1.1.

(** Follow the code.  A statement whose result has a type is in the hint database; any other
    keeps the files, or is itself followed. *)
Ltac typ_step :=
  match goal with
  | |- forall _, _ => intros ?
  | H : on_vspace (?vs, _) |- _ => change (vspace_typed vs) in H
  | H : on_loaded (?vs, _, _) |- _ => change (vspace_typed vs) in H
  | H : on_vspaces (?vs, ?vs', _) |- _ => change (vspace_typed vs /\ vspace_typed vs') in H; destruct H
  | |- typ (bind _ _) _ =>
      first
        [ eapply typ_bind; [solve [eauto 6 with typ]|cbv beta; intros ? ?]
        | eapply typ_bind; [apply typ_keeps; solve [eauto with keeps]|intros ? _]
        | apply (typ_bind _ any); [|intros ? _] ]
  | |- typ (when _ _) _ => apply typ_when
  | |- typ (let '(_, _) := ?x in _) _ => destruct x; cbn beta iota in *
  | |- typ (if ?b then _ else _) _ => destruct b eqn:?
  | |- typ (match ?x with _ => _ end) _ => destruct x eqn:?
  | |- typ _ _ => solve [eauto 6 with typ]
  | |- typ _ any => apply typ_keeps; solve [eauto with keeps]
  | |- typ (ret _) _ => apply typ_ret; solve [done|eauto 6 with typ]
  end.
Ltac typ := repeat typ_step.

(** * The tables *)

Lemma typ_cur : typ (gets k_cur) (within NPROC).
Proof. apply typ_gets. apply ty_cur. Qed.
Lemma typ_initproc : typ (gets k_initproc) (within NPROC).
Proof. apply typ_gets. apply ty_init. Qed.
Lemma typ_nextpid : typ (gets k_nextpid) int32.
Proof. apply typ_gets. apply ty_pid. Qed.
Lemma typ_proc_index P : typ (gets (fun s => index_of P (k_ptable s))) (within NPROC).
Proof. apply typ_gets. intros s T. apply within_index, T. Qed.
Lemma typ_ftable : typ (gets k_ftable) (fun t => length t = NFILE).
Proof. apply typ_gets. apply ty_ftable. Qed.
Lemma typ_deref_within n o : within n o -> typ (deref o) (fun i => i < n)%nat.
Proof. intros H. by apply typ_deref. Qed.
#[export] Hint Resolve typ_cur typ_initproc typ_nextpid typ_proc_index typ_ftable typ_deref_within
  : typ.
Lemma typ_myproc : typ myproc (fun i => i < NPROC)%nat.
Proof. unfold myproc. typ. Qed.
Lemma typ_proc_at i : typ (proc_at i) proc_typed.
Proof.
  intros s T. unfold proc_at. mrun. destruct (k_ptable s !! i) eqn:E; [|done].
  split; [done|]. eapply Forall_lookup_1; [apply T|exact E].
Qed.
Lemma typ_proc_mod i f : (forall p, proc_typed p -> proc_typed (f p)) -> typ (proc_mod i f) any.
Proof.
  intros Hf s []. split; [|done]. split; try done; cbn [k_ptable k_ftable set].
  - etransitivity; [apply length_alter|done].
  - apply Forall_alter; [done|]. by intros; apply Hf.
Qed.
Lemma typ_file_mod g f : (forall x, file_typed x -> file_typed (f x)) -> typ (file_mod g f) any.
Proof.
  intros Hf s []. split; [|done]. split; try done; cbn [k_ptable k_ftable set].
  - etransitivity; [apply length_alter|done].
  - apply Forall_alter; [done|]. by intros; apply Hf.
Qed.
Lemma typ_set_initproc o : within NPROC o -> typ (modify (fun s => s <| k_initproc := o |>)) any.
Proof. intros H s []. split; [by split|done]. Qed.
Lemma typ_set_cur o : within NPROC o -> typ (modify (fun s => s <| k_cur := o |>)) any.
Proof. intros H s []. split; [by split|done]. Qed.
Lemma typ_set_nextpid z : int32 z -> typ (modify (fun s => s <| k_nextpid := z |>)) any.
Proof. intros H s []. split; [by split|done]. Qed.
#[export] Hint Resolve typ_myproc typ_proc_at typ_proc_mod typ_file_mod typ_set_initproc typ_set_cur
  typ_set_nextpid within_None within_Some within_found int32_s32 : typ.

(** A process or a file with some fields changed. *)
Lemma length_proc_name s : (length (proc_name s) <= 16)%nat.
Proof. unfold proc_name. rewrite length_app, length_take. cbn [length]. lia. Qed.
Lemma set_name_typed s p : proc_typed p -> proc_typed (set_name s p).
Proof.
  intros []. split; try done. unfold set_name. cbn [p_name set].
  rewrite length_splice; [done|]. rewrite pt_name0. apply length_proc_name.
Qed.
Lemma set_fd_typed j o p : within NFILE o -> proc_typed p -> proc_typed (p <| p_pftable ::= <[j := o]> |>).
Proof.
  intros Ho []. split; try done; cbn [p_pftable set].
  - etransitivity; [apply length_insert|done].
  - by apply Forall_insert.
Qed.
Lemma set_vspace_typed vs p : vspace_typed vs -> proc_typed p -> proc_typed (p <| p_vspace := vs |>).
Proof. intros H []. by split. Qed.
Lemma set_parent_typed o p : within NPROC o -> proc_typed p -> proc_typed (p <| p_parent := o |>).
Proof. intros H []. by split. Qed.
Lemma set_pid_typed z p : int32 z -> proc_typed p -> proc_typed (p <| p_pid := z |>).
Proof. intros H []. by split. Qed.
#[export] Hint Resolve set_name_typed set_fd_typed set_vspace_typed set_parent_typed set_pid_typed : typ.
#[export] Hint Extern 3 (proc_typed _) =>
  (match goal with H : proc_typed _ |- _ => destruct H; by split end) : typ.
#[export] Hint Extern 3 (file_typed _) =>
  (match goal with H : file_typed _ |- _ => destruct H; by split end) : typ.

(** * Address spaces *)

Lemma with_region_typed vs i r : vspace_typed vs -> vspace_typed (with_region vs i r).
Proof. unfold vspace_typed. cbn [with_region vs_regions set]. by rewrite length_insert. Qed.
#[export] Hint Resolve with_region_typed pt_vspace : typ.
#[export] Hint Extern 1 (vspace_typed _) => reflexivity : typ.
Lemma on_vspace_pair {A} vs (a : A) : vspace_typed vs -> on_vspace (vs, a).
Proof. done. Qed.
Lemma on_vspaces_pair {A} vs vs' (a : A) : vspace_typed vs -> vspace_typed vs' -> on_vspaces (vs, vs', a).
Proof. by split. Qed.
Lemma on_loaded_pair {A B} vs (a : A) (b : B) : vspace_typed vs -> on_loaded (vs, a, b).
Proof. done. Qed.
#[export] Hint Resolve on_vspace_pair on_vspaces_pair on_loaded_pair : typ.

Lemma typ_vspace_of i : typ (vspace_of i) vspace_typed.
Proof. unfold vspace_of. typ. Qed.
Lemma typ_vspace_put i vs : vspace_typed vs -> typ (vspace_put i vs) any.
Proof. intros H. unfold vspace_put. typ. Qed.
Lemma typ_vspaceinit vs : vspace_typed vs -> typ (vspaceinit vs) on_vspace.
Proof. intros H. unfold vspaceinit. typ. Qed.
Lemma typ_invalidate_regions n i vs : vspace_typed vs -> typ (invalidate_regions n i vs) vspace_typed.
Proof.
  revert i vs. induction n as [|n IH]; intros i vs H; cbn [invalidate_regions]; typ.
Qed.
Lemma typ_vspaceinvalidate vs : vspace_typed vs -> typ (vspaceinvalidate vs) vspace_typed.
Proof. intros H. unfold vspaceinvalidate. typ. by apply typ_invalidate_regions. Qed.
#[export] Hint Resolve typ_vspace_of typ_vspace_put typ_vspaceinit typ_vspaceinvalidate : typ.
Lemma typ_vspacefree_regions n i vs : vspace_typed vs -> typ (vspacefree_regions n i vs) vspace_typed.
Proof.
  revert i vs. induction n as [|n IH]; intros i vs H; cbn [vspacefree_regions]; typ.
Qed.
#[local] Hint Resolve typ_vspacefree_regions : typ.
Lemma typ_vspacefree vs : vspace_typed vs -> typ (vspacefree vs) vspace_typed.
Proof. intros H. unfold vspacefree. typ. Qed.
Lemma typ_vspaceinitcode vs d n : vspace_typed vs -> typ (vspaceinitcode vs d n) vspace_typed.
Proof. intros H. unfold vspaceinitcode. typ. Qed.
Lemma typ_vspacecopy_regions n i vs : vspace_typed vs -> typ (vspacecopy_regions n i vs) on_vspace.
Proof.
  revert i vs. induction n as [|n IH]; intros i vs H; cbn [vspacecopy_regions]; typ.
Qed.
#[local] Hint Resolve typ_vspacecopy_regions : typ.
Lemma typ_vspacecopy dst src :
  vspace_typed src -> typ (vspacecopy dst src) on_vspaces.
Proof.
  intros H. unfold vspacecopy. typ.
Qed.
Lemma typ_vspaceinitstack vs a : vspace_typed vs -> typ (vspaceinitstack vs a) on_vspace.
Proof. intros H. unfold vspaceinitstack. typ. Qed.
Lemma typ_writetova_loop n vs va e d sz : vspace_typed vs -> typ (writetova_loop n vs va e d sz) on_vspace.
Proof.
  revert vs va d sz. induction n as [|n IH]; intros vs va d sz H; cbn [writetova_loop]; typ.
Qed.
#[local] Hint Resolve typ_writetova_loop : typ.
Lemma typ_vspacewritetova vs va d sz : vspace_typed vs -> typ (vspacewritetova vs va d sz) on_vspace.
Proof. intros H. unfold vspacewritetova. typ. Qed.
#[export] Hint Resolve typ_vspacefree typ_vspaceinitcode typ_vspacecopy typ_vspaceinitstack
  typ_vspacewritetova : typ.

(** * Scheduling *)

Lemma wake_proc_typed c p : proc_typed p -> proc_typed (wake_proc c p).
Proof. apply proc_typed_still. unfold wake_proc. by case_decide. Qed.
Lemma kill_proc_typed p : proc_typed p -> proc_typed (kill_proc p).
Proof. intros []. unfold kill_proc. case_decide; by split. Qed.
#[export] Hint Resolve kill_proc_typed : typ.
Lemma typ_sched {A} (Q : A -> Prop) : typ sched Q.
Proof. unfold sched, holding. typ. by intros s T. Qed.
#[export] Hint Resolve typ_sched : typ.
Lemma typ_kill pid : typ (kill pid) any.
Proof. unfold kill. typ. Qed.
Lemma typ_yield : typ yield any.
Proof. unfold yield. typ. Qed.
Lemma typ_dispatch i : (i < NPROC)%nat -> typ (dispatch i) any.
Proof. intros H. unfold dispatch. typ. Qed.
Lemma typ_switched_back : typ switched_back any.
Proof. unfold switched_back. typ. Qed.
#[export] Hint Resolve typ_kill typ_yield : typ.

(** * Files *)

Lemma typ_fd p i : proc_typed p -> typ (deref (p_pftable p !! i)) (within NFILE).
Proof. intros H. apply typ_deref. intros o Ho. exact (Forall_lookup_1 _ _ _ _ (pt_fd _ H) Ho). Qed.
#[export] Hint Resolve typ_fd : typ.
Lemma typ_pftable_at fd : typ (pftable_at fd) (within NFILE).
Proof. unfold pftable_at. typ. Qed.
Lemma typ_pftable_set j o : within NFILE o -> typ (pftable_set j o) any.
Proof. intros H. unfold pftable_set. typ. Qed.
#[export] Hint Resolve typ_pftable_at typ_pftable_set : typ.
Section file.
Context {D : Driver} {V : Devsw} {DK : DriverKeeps D} {VK : DevswKeeps V}.
Hint Resolve keeps_killed keeps_file_at : keeps.
Lemma typ_file_at g : typ (file_at g) file_typed.
Proof.
  intros s T. unfold file_at. mrun. destruct (k_ftable s !! g) eqn:E; [|done].
  split; [done|]. eapply Forall_lookup_1; [apply T|exact E].
Qed.
Hint Resolve typ_file_at : typ.
Lemma typ_fileopen path mode : typ (fileopen path mode) any.
Proof. unfold fileopen. typ. Qed.
Lemma typ_filestat fd : typ (filestat fd) any.
Proof. unfold filestat. typ. Qed.
Lemma typ_fileclose fd : typ (fileclose fd) any.
Proof. unfold fileclose. typ. Qed.
Lemma typ_filedup fd : typ (filedup fd) any.
Proof. unfold filedup. typ. Qed.

(** The buffer of a pipe keeps its size, and the counters are ints. *)
Lemma typ_pipe_mod g f :
  (forall p, length (pi_buf (f p)) = length (pi_buf p) /\
     (int32 (pi_head p) -> int32 (pi_head (f p))) /\ (int32 (pi_tail p) -> int32 (pi_tail (f p)))) ->
  typ (pipe_mod g f) any.
Proof.
  intros H. apply typ_file_mod. intros x []. destruct (H (f_pipe x)) as (H1 & H2 & H3).
  split; simpl; [congruence|auto..].
Qed.
Lemma typ_piperead_loop n g acc : typ (piperead_loop n g acc) any.
Proof.
  revert acc. induction n as [|n IH]; intros acc; cbn [piperead_loop]; typ.
  apply typ_pipe_mod. intros p. split_and!; [done|intros _; apply int32_s32|done].
Qed.
Hint Resolve typ_piperead_loop : typ.
Lemma typ_piperead_wait g n : typ (piperead_wait g n) any.
Proof. unfold piperead_wait. typ. Qed.
Lemma typ_pipewrite_loop n g i bs : typ (pipewrite_loop n g i bs) any.
Proof.
  revert i bs. induction n as [|n IH]; intros i bs; cbn [pipewrite_loop]; typ.
  apply typ_pipe_mod. intros p. split_and!; [apply length_insert|done|intros _; apply int32_s32].
Qed.
Hint Resolve typ_piperead_wait typ_pipewrite_loop : typ.
Lemma typ_piperead_resume g n : typ (piperead_resume g n) any.
Proof. unfold piperead_resume. typ. Qed.
Lemma typ_pipewrite_resume n g i bs : typ (pipewrite_resume n g i bs) any.
Proof. unfold pipewrite_resume. typ. Qed.
Lemma typ_fileread fd n : typ (fileread fd n) any.
Proof. unfold fileread. typ. Qed.
Lemma typ_filewrite fd bs n : typ (filewrite fd bs n) any.
Proof. unfold filewrite. typ. Qed.
Lemma typ_pipe_fds n j g fds : within NFILE (Some g) -> typ (pipe_fds n j g fds) any.
Proof. intros H. revert j fds. induction n as [|n IH]; intros j fds; cbn [pipe_fds]; typ. Qed.
Hint Resolve typ_pipe_fds : typ.
Lemma typ_pipe : typ pipe_ any.
Proof. unfold pipe_. typ. Qed.
Lemma typ_filecopy_loop n i parent child : typ (filecopy_loop n i parent child) any.
Proof.
  revert i. induction n as [|n IH]; intros i; cbn [filecopy_loop]; typ.
Qed.
End file.
#[export] Hint Resolve typ_file_at typ_fileopen typ_filestat typ_fileclose typ_filedup typ_fileread
  typ_filewrite typ_pipe : typ.

(** * Processes *)

Lemma typ_allocproc : typ allocproc (within NPROC).
Proof. unfold allocproc. typ. Qed.
#[export] Hint Resolve typ_allocproc : typ.
Lemma typ_userinit init n : typ (userinit init n) any.
Proof. unfold userinit. typ. Qed.
Lemma typ_sbrk h n : typ (sbrk h n) any.
Proof. unfold sbrk. typ. Qed.
Lemma typ_fork_files n j c : typ (fork_files n j c) any.
Proof. revert j. induction n as [|n IH]; intros j; cbn [fork_files]; typ. Qed.
#[export] Hint Resolve typ_fork_files : typ.
Lemma typ_fork : typ fork any.
Proof. unfold fork. typ. Qed.
Lemma typ_wakeup1_ptr o : typ (wakeup1_ptr o) any.
Proof.
  destruct o; simpl; [typ|]. intros s []. split; [|done]. split; try done; simpl.
  - by rewrite length_fmap.
  - apply Forall_fmap. eapply Forall_impl; [done|]. intros p Hp. simpl. case_decide; [|done].
    by destruct Hp; split.
Qed.
Lemma typ_parent_pid j : typ (parent_pid j) any.
Proof. unfold parent_pid, null_pid. typ. Qed.
#[export] Hint Resolve typ_wakeup1_ptr typ_parent_pid : typ.
Lemma typ_reparent n j : typ (reparent n j) any.
Proof. revert j. induction n as [|n IH]; intros j; cbn [reparent]; typ. Qed.
#[export] Hint Resolve typ_reparent : typ.
Section proc.
Context {D : Driver} {V : Devsw} {DK : DriverKeeps D} {VK : DevswKeeps V}.
Lemma typ_close_files n j : typ (close_files n j) any.
Proof. revert j. induction n as [|n IH]; intros j; cbn [close_files]; typ. Qed.
Hint Resolve typ_close_files : typ.
Lemma typ_exit {A} (Q : A -> Prop) : typ exit Q.
Proof. unfold exit. typ. Qed.
Lemma typ_forkret : typ forkret any.
Proof. unfold forkret. typ. Qed.
End proc.
Lemma typ_count_children n j b : typ (count_children n j b) any.
Proof. revert j b. induction n as [|n IH]; intros j b; cbn [count_children]; typ. Qed.
Lemma typ_wait_loop : typ wait_loop any.
Proof. unfold wait_loop. typ. Qed.
#[export] Hint Resolve typ_exit typ_count_children typ_wait_loop : typ.
Lemma typ_wait : typ wait any.
Proof. unfold wait. typ. Qed.
Lemma typ_wait_resume : typ wait_resume any.
Proof. unfold wait_resume. typ. Qed.

(** * Page faults and user memory *)

Lemma typ_growuserstack : typ growuserstack any.
Proof. unfold growuserstack. typ. Qed.
Lemma keeps_page_copy a b : keeps files (page_copy a b).
Proof. unfold page_copy. keeps. Qed.
#[export] Hint Resolve keeps_page_copy : keeps.
Lemma keeps_cow_copy q e : keeps files (cow_copy q e).
Proof. unfold cow_copy. keeps. Qed.
Lemma keeps_cow_last q : keeps files (cow_last q).
Proof. unfold cow_last. keeps. Qed.
#[export] Hint Resolve keeps_cow_copy keeps_cow_last : keeps.
#[export] Hint Resolve typ_growuserstack : typ.
Lemma typ_reload i : typ (reload i) any.
Proof. unfold reload. typ. Qed.
Lemma typ_grow_on_demand a : typ (grow_on_demand a) any.
Proof. unfold grow_on_demand. typ. Qed.
#[export] Hint Resolve typ_reload typ_grow_on_demand : typ.
Lemma typ_page_fault a : typ (page_fault a) any.
Proof. unfold page_fault. typ. Qed.
#[export] Hint Resolve typ_page_fault : typ.
Lemma typ_user_page n w a : typ (user_page n w a) any.
Proof. induction n as [|n IH]; cbn [user_page]; typ. Qed.
#[export] Hint Resolve typ_user_page : typ.
Lemma typ_user_load a : typ (user_load a) any.
Proof. unfold user_load. typ. Qed.
Lemma typ_user_store a b : typ (user_store a b) any.
Proof. unfold user_store. typ. Qed.
#[export] Hint Resolve typ_user_load typ_user_store : typ.
Lemma typ_user_loads a n : typ (user_loads a n) any.
Proof. revert a. induction n as [|n IH]; intros a; cbn [user_loads]; typ. Qed.
Lemma typ_user_stores a bs : typ (user_stores a bs) any.
Proof. revert a. induction bs as [|b bs IH]; intros a; cbn [user_stores]; typ. Qed.
Lemma typ_user_string_loop n a : typ (user_string_loop n a) any.
Proof. revert a. induction n as [|n IH]; intros a; cbn [user_string_loop]; typ. Qed.
#[export] Hint Resolve typ_user_loads typ_user_stores typ_user_string_loop : typ.
Lemma typ_user_string a : typ (user_string a) any.
Proof. unfold user_string. typ. Qed.
#[export] Hint Resolve typ_user_string : typ.

(** * Running a program *)

Lemma typ_exec_args argv vs a l : vspace_typed vs -> typ (exec_args argv vs a l) on_vspace.
Proof. revert vs a l. induction argv as [|x argv IH]; intros vs a l H; cbn [exec_args]; typ. Qed.
#[export] Hint Resolve typ_exec_args : typ.
Section exec.
Context {D : Driver} {V : Devsw} {DK : DriverKeeps D} {VK : DevswKeeps V}.
Lemma typ_elf_failure vs ip : vspace_typed vs -> typ (elf_failure vs ip) on_loaded.
Proof. intros H. unfold elf_failure. typ. Qed.
Hint Resolve typ_elf_failure : typ.
Lemma typ_vspaceloadcode vs path : vspace_typed vs -> typ (vspaceloadcode vs path) on_loaded.
Proof. intros H. unfold vspaceloadcode. typ. Qed.
Hint Resolve typ_vspaceloadcode : typ.
Lemma typ_exec temp0 n path argv : vspace_typed temp0 -> typ (exec temp0 n path argv) any.
Proof. intros H. unfold exec. typ. Qed.
End exec.
#[export] Hint Resolve typ_exec : typ.

(** * System calls *)

Lemma typ_my_regions : typ my_regions any.
Proof. unfold my_regions. typ. Qed.
#[export] Hint Resolve typ_my_regions : typ.
Lemma typ_find_nul n a len : typ (find_nul n a len) any.
Proof. revert a len. induction n as [|n IH]; intros a len; cbn [find_nul]; typ. Qed.
#[export] Hint Resolve typ_find_nul : typ.
Lemma typ_fetchstr_regions rs a : typ (fetchstr_regions rs a) any.
Proof. induction rs as [|r rs IH]; cbn [fetchstr_regions]; typ. Qed.
#[export] Hint Resolve typ_fetchstr_regions : typ.
Lemma typ_fetchint a : typ (fetchint a) any.
Proof. unfold fetchint. typ. Qed.
Lemma typ_fetchstr a : typ (fetchstr a) any.
Proof. unfold fetchstr. typ. Qed.
Lemma typ_argint n : typ (argint n) any.
Proof. unfold argint, fetcharg. typ. Qed.
#[export] Hint Resolve typ_fetchint typ_fetchstr typ_argint : typ.
Lemma typ_argptr n sz : typ (argptr n sz) any.
Proof. unfold argptr, argint64, fetcharg. typ. Qed.
Lemma typ_argstr n : typ (argstr n) any.
Proof. unfold argstr. typ. Qed.
#[export] Hint Resolve typ_argptr typ_argstr : typ.
Lemma typ_sleep_loop n t : typ (sleep_loop n t) any.
Proof. unfold sleep_loop, killed. typ. Qed.
#[export] Hint Resolve typ_sleep_loop : typ.
Lemma typ_sys_sleep_resume n t : typ (sys_sleep_resume n t) any.
Proof. unfold sys_sleep_resume. typ. Qed.

Section calls.
Context {D : Driver} {V : Devsw} {DK : DriverKeeps D} {VK : DevswKeeps V}.
Context (heap_field : nat -> Z) (temp0 : vspace) (Htemp : vspace_typed temp0).
Lemma typ_sys_open : typ sys_open any.
Proof. unfold sys_open, filecreate. typ. Qed.
Lemma typ_exec_scan n i path a args : typ (exec_scan temp0 n i path a args) any.
Proof. revert i args. induction n as [|n IH]; intros i args; cbn [exec_scan]; typ. Qed.
Hint Resolve typ_exec_scan : typ.
Lemma typ_sys_exec : typ (sys_exec temp0) any.
Proof. unfold sys_exec. typ. Qed.
Lemma typ_put_stat a st : typ (put_stat a st) any.
Proof. unfold put_stat. typ. Qed.
Hint Resolve typ_put_stat typ_sbrk typ_fork typ_wait typ_pipe : typ.
Lemma typ_syscalls n f : syscalls heap_field temp0 n = Some f -> typ f any.
Proof.
  intros E. unfold syscalls in E.
  repeat case_match; simplify_eq; try first [apply typ_sys_open|apply typ_sys_exec];
    unfold sys_dup, sys_read, sys_write, sys_close, sys_fstat, sys_pipe, sys_crashn, sys_fork, sys_exit,
      sys_wait, sys_kill, sys_getpid, sys_sbrk, sys_sleep, sys_uptime, sys_sysinfo; typ.
Qed.
Hint Resolve typ_syscalls : typ.
Lemma typ_syscall : typ (syscall heap_field temp0) any.
Proof. unfold syscall. typ. Qed.
End calls.
#[export] Hint Resolve typ_syscall : typ.

(** * The console and the disk *)

Section devices.
Lemma keeps_input_mod f : keeps files (input_mod f).
Proof. unfold input_mod. keeps. Qed.
Lemma keeps_consputc c : keeps files (consputc c).
Proof. unfold consputc. keeps. Qed.
Hint Resolve keeps_input_mod keeps_consputc keeps_killed : keeps.
Lemma keeps_kill_line n : keeps files (kill_line n).
Proof. induction n as [|n IH]; cbn [kill_line]; keeps. Qed.
Hint Resolve keeps_kill_line : keeps.
Lemma keeps_cons_keys l : keeps files (cons_keys l).
Proof. induction l as [|c l IH]; cbn [cons_keys]; unfold cons_key; keeps. Qed.
Hint Resolve keeps_cons_keys : keeps.
Lemma keeps_consoleintr l : keeps files (consoleintr l).
Proof. unfold consoleintr. keeps. Qed.
Lemma keeps_consoleread_loop n t acc : keeps files (consoleread_loop n t acc).
Proof. revert acc. induction n as [|n IH]; intros acc; cbn [consoleread_loop]; keeps. Qed.
Hint Resolve keeps_consoleread_loop : keeps.
Lemma keeps_consoleread_resume n t acc : keeps files (consoleread_resume n t acc).
Proof. unfold consoleread_resume. keeps. Qed.
Lemma keeps_consputs n l : keeps files (consputs n l).
Proof. revert l. induction n as [|n IH]; intros l; cbn [consputs]; keeps. Qed.
Hint Resolve keeps_consputs : keeps.
#[export] Instance console_keeps : DevswKeeps console_devsw.
Proof.
  split; intros d f; simpl; destruct (d =? CONSOLE); intros [= <-] *;
    unfold consoleread, consolewrite; keeps.
Qed.
Hint Resolve keeps_buf_at keeps_buf_mod : keeps.
Lemma keeps_ideintr {A : Ata} : keeps files ideintr.
Proof. unfold ideintr, idestart. keeps. Qed.
End devices.
#[export] Hint Resolve keeps_consoleintr keeps_consoleread_resume : keeps.

(** * Entering the kernel *)

(** How the kernel is entered, and where a process goes on that slept or was preempted. *)
Inductive entry :=
| Trap (tf : trap_frame) (cr2 : Z) (keys : list Z)
| Userinit (init : list Z) (size : Z)
| Dispatch (i : nat)
| SwitchedBack
| Forkret
| TrapResume (tf : trap_frame)
| WaitResume
| SleepResume (n ticks0 : Z)
| ReadResume (g : nat) (n : Z)
| WriteResume (n g : nat) (i : Z) (bs : list Z)
| ConsoleResume (n : nat) (target : Z) (acc : list Z)
| LockResume (l : sleep_id).

Section entries.
Context {D : Driver} {V : Devsw} {DK : DriverKeeps D} {VK : DevswKeeps V}.
Context (disk_intr : K unit) (heap_field : nat -> Z) (temp0 : vspace).
Definition void {A} (m : K A) : K unit := m;; ret tt.
Definition enter (e : entry) : K unit :=
  match e with
  | Trap tf cr2 keys => trap disk_intr heap_field temp0 tf cr2 keys
  | Userinit init size => userinit init size
  | Dispatch i => void (dispatch i)
  | SwitchedBack => switched_back
  | Forkret => forkret
  | TrapResume tf => trap_resume tf
  | WaitResume => void wait_resume
  | SleepResume n t => void (sys_sleep_resume n t)
  | ReadResume g n => void (piperead_resume g n)
  | WriteResume n g i bs => void (pipewrite_resume n g i bs)
  | ConsoleResume n t acc => void (consoleread_resume n t acc)
  | LockResume l => acquiresleep_resume l
  end.
(** The loop of the scheduler is over the table. *)
Definition entry_ok (e : entry) : Prop :=
  match e with Dispatch i => (i < NPROC)%nat | _ => True end.
(** One stay in the kernel, to its end or to where the process gives up the processor. *)
Definition kernel_step (s s' : kstate) : Prop :=
  exists e, entry_ok e /\ (enter e s = Ok tt s' \/ enter e s = Sleep s').

Context (Hdisk : keeps files disk_intr) (Htemp : vspace_typed temp0).
Hint Resolve Hdisk : keeps.
Lemma typ_trap_switch tf a keys : typ (trap_switch disk_intr tf a keys) any.
Proof. unfold trap_switch, clock, kill_current. typ. Qed.
Lemma typ_exit_if_killed tf : typ (exit_if_killed tf) any.
Proof. unfold exit_if_killed. typ. Qed.
Hint Resolve typ_trap_switch typ_exit_if_killed : typ.
Lemma typ_trap tf a keys : typ (trap disk_intr heap_field temp0 tf a keys) any.
Proof. unfold trap, killed. typ. Qed.
Hint Resolve typ_trap typ_userinit typ_dispatch typ_switched_back typ_forkret typ_wait_resume
  typ_sys_sleep_resume typ_piperead_resume typ_pipewrite_resume : typ.
Lemma typ_enter e : entry_ok e -> typ (enter e) any.
Proof.
  destruct e; intros He; simpl; unfold void, trap_resume, yield_resume, acquiresleep_resume, acquiresleep_loop;
    typ.
Qed.
Lemma kernel_step_typed s s' : kernel_step s s' -> typed s -> typed s'.
Proof.
  intros (e & He & H) T. specialize (typ_enter e He s T).
  destruct H as [-> | ->]; [by intros []|done].
Qed.
Lemma bss_typed : typed bss.
Proof.
  split; try done.
  - apply Forall_replicate. split; try done. by apply Forall_replicate.
  - apply Forall_replicate. by split.
Qed.
End entries.


(** A timer interrupt, and a look at a process that is not ready. *)
Definition tick_frame : trap_frame := tf_zero <| trapno := 32 |>.
