(* ===== verification/Kbd.v ===== *)
(** The keyboard, kernel/kbd.c and inc/kbd.h: from scan codes to characters. *)
From S2P Require Import Prelude.

Definition NO : Z := 0.
Definition SHIFT : Z := 1.
Definition CTL : Z := 2.
Definition ALT : Z := 4.
Definition CAPSLOCK : Z := 8.
Definition NUMLOCK : Z := 16.
Definition SCROLLLOCK : Z := 32.
Definition E0ESC : Z := 64.
Definition KBS_DIB : Z := 1.
Definition KEY_HOME : Z := 0xE0.
Definition KEY_END : Z := 0xE1.
Definition KEY_UP : Z := 0xE2.
Definition KEY_DN : Z := 0xE3.
Definition KEY_LF : Z := 0xE4.
Definition KEY_RT : Z := 0xE5.
Definition KEY_PGUP : Z := 0xE6.
Definition KEY_PGDN : Z := 0xE7.
Definition KEY_INS : Z := 0xE8.
Definition KEY_DEL : Z := 0xE9.

(** uchar t[256] = \{ first elements, [index] = value, ... \}; what is left out is 0. *)
Definition table256 (first : list Z) (at_ : list (Z * Z)) : list Z :=
  foldl (fun t '(i, v) => <[Z.to_nat i := u8 v]> t)
    ((u8 <$> first) ++ replicate (256 - length first) 0) at_.

Definition shiftcode : list Z := table256 []
  [(0x1D, CTL); (0x2A, SHIFT); (0x36, SHIFT); (0x38, ALT); (0x9D, CTL); (0xB8, ALT)].
Definition togglecode : list Z := table256 []
  [(0x3A, CAPSLOCK); (0x45, NUMLOCK); (0x46, SCROLLLOCK)].
Definition normalmap : list Z := table256
  [NO; 27; 49; 50; 51; 52; 53; 54; 55; 56; 57; 48; 45; 61; 8; 9;
   113; 119; 101; 114; 116; 121; 117; 105; 111; 112; 91; 93; 10; NO; 97; 115;
   100; 102; 103; 104; 106; 107; 108; 59; 39; 96; NO; 92; 122; 120; 99; 118;
   98; 110; 109; 44; 46; 47; NO; 42; NO; 32; NO; NO; NO; NO; NO; NO;
   NO; NO; NO; NO; NO; NO; NO; 55; 56; 57; 45; 52; 53; 54; 43; 49;
   50; 51; 48; 46; NO; NO; NO; NO]
  [(0x9c, 10); (0xb5, 47); (0xc8, KEY_UP); (0xd0, KEY_DN); (0xc9, KEY_PGUP);
   (0xd1, KEY_PGDN); (0xcb, KEY_LF); (0xcd, KEY_RT); (0x97, KEY_HOME); (0xcf, KEY_END);
   (0xd2, KEY_INS); (0xd3, KEY_DEL)].
Definition shiftmap : list Z := table256
  [NO; 27; 33; 64; 35; 36; 37; 94; 38; 42; 40; 41; 95; 43; 8; 9;
   81; 87; 69; 82; 84; 89; 85; 73; 79; 80; 123; 125; 10; NO; 65; 83;
   68; 70; 71; 72; 74; 75; 76; 58; 34; 126; NO; 124; 90; 88; 67; 86;
   66; 78; 77; 60; 62; 63; NO; 42; NO; 32; NO; NO; NO; NO; NO; NO;
   NO; NO; NO; NO; NO; NO; NO; 55; 56; 57; 45; 52; 53; 54; 43; 49;
   50; 51; 48; 46; NO; NO; NO; NO]
  [(0x9c, 10); (0xb5, 47); (0xc8, KEY_UP); (0xd0, KEY_DN); (0xc9, KEY_PGUP);
   (0xd1, KEY_PGDN); (0xcb, KEY_LF); (0xcd, KEY_RT); (0x97, KEY_HOME); (0xcf, KEY_END);
   (0xd2, KEY_INS); (0xd3, KEY_DEL)].
Definition ctlmap : list Z := table256
  [NO; NO; NO; NO; NO; NO; NO; NO; NO; NO; NO; NO; NO; NO; NO; NO;
   17; 23; 5; 18; 20; 25; 21; 9; 15; 16; NO; NO; 13; NO; 1; 19;
   4; 6; 7; 8; 10; 11; 12; NO; NO; NO; NO; 28; 26; 24; 3; 22;
   2; 14; 13; NO; NO; -17; NO; NO]
  [(0x9c, 13); (0xb5, -17); (0xc8, KEY_UP); (0xd0, KEY_DN); (0xc9, KEY_PGUP);
   (0xd1, KEY_PGDN); (0xcb, KEY_LF); (0xcd, KEY_RT); (0x97, KEY_HOME); (0xcf, KEY_END);
   (0xd2, KEY_INS); (0xd3, KEY_DEL)].

Definition elem (t : list Z) (i : Z) : option Z := t !! Z.to_nat i.
Definition charcode : list (list Z) := [normalmap; shiftmap; ctlmap; ctlmap].

(** One byte from the controller: the new value of [shift] and the character. *)
Definition kbd_data (shift data : Z) : option (Z * Z) :=
  if data =? 0xE0 then Some (Z.lor shift E0ESC, 0) else
  if flag data 0x80 then
    let data := if flag shift E0ESC then data else Z.land data 0x7F in
    code ← elem shiftcode data;
    Some (Z.land shift (Z.lnot (Z.lor code E0ESC)), 0)
  else
    let '(shift, data) :=
      if flag shift E0ESC then (Z.land shift (Z.lnot E0ESC), Z.lor data 0x80) else (shift, data) in
    code ← elem shiftcode data;
    let shift := Z.lor shift code in
    toggle ← elem togglecode data;
    let shift := Z.lxor shift toggle in
    map ← charcode !! Z.to_nat (Z.land shift (Z.lor CTL SHIFT));
    c ← elem map data;
    let c :=
      if flag shift CAPSLOCK then
        if (97 <=? c) && (c <=? 122) then c + (65 - 97)
        else if (65 <=? c) && (c <=? 90) then c + (97 - 65) else c
      else c in
    Some (shift, c).
(** [kbdgetc], given the status and the data port. *)
Definition kbdgetc (shift st data : Z) : option (Z * Z) :=
  if Z.land st KBS_DIB =? 0 then Some (shift, -1) else kbd_data shift data.

(** * What the keyboard means

    A key is its scan code below 128, plus 128 if it is sent behind the escape byte. *)

Record mods := mkMods {
  m_shift : bool; m_ctl : bool; m_alt : bool; m_caps : bool; m_num : bool; m_scroll : bool }.
#[export] Instance eta_mods : Eta mods := fun m =>
  mkMods (m_shift m) (m_ctl m) (m_alt m) (m_caps m) (m_num m) (m_scroll m).
Definition encode (m : mods) : Z :=
  Z.b2z (m_shift m) + 2 * Z.b2z (m_ctl m) + 4 * Z.b2z (m_alt m) + 8 * Z.b2z (m_caps m) +
  16 * Z.b2z (m_num m) + 32 * Z.b2z (m_scroll m).

Inductive role := RShift | RCtl | RAlt | RCaps | RNum | RScroll | RPlain.
Definition role_of (k : Z) : role :=
  if (k =? 0x2A) || (k =? 0x36) then RShift
  else if (k =? 0x1D) || (k =? 0x9D) then RCtl
  else if (k =? 0x38) || (k =? 0xB8) then RAlt
  else if k =? 0x3A then RCaps else if k =? 0x45 then RNum else if k =? 0x46 then RScroll
  else RPlain.
(** A modifier holds while its key is down; a lock changes when its key goes down. *)
Definition press (k : Z) (m : mods) : mods :=
  match role_of k with
  | RShift => m <| m_shift := true |>
  | RCtl => m <| m_ctl := true |>
  | RAlt => m <| m_alt := true |>
  | RCaps => m <| m_caps := negb (m_caps m) |>
  | RNum => m <| m_num := negb (m_num m) |>
  | RScroll => m <| m_scroll := negb (m_scroll m) |>
  | RPlain => m
  end.
Definition release (k : Z) (m : mods) : mods :=
  match role_of k with
  | RShift => m <| m_shift := false |>
  | RCtl => m <| m_ctl := false |>
  | RAlt => m <| m_alt := false |>
  | _ => m
  end.
(** The other case of a letter. *)
Definition swapcase (c : Z) : Z :=
  if (97 <=? c) && (c <=? 122) then c - 32 else if (65 <=? c) && (c <=? 90) then c + 32 else c.
Definition key_char (m : mods) (k : Z) : Z :=
  let c := default 0 (elem (if m_ctl m then ctlmap else if m_shift m then shiftmap else normalmap) k) in
  if m_caps m then swapcase c else c.

Inductive event := Down (k : Z) | Up (k : Z).
(** The bytes of an event. *)
Definition scan_bytes (e : event) : list Z :=
  let '(k, up) := match e with Down k => (k, 0) | Up k => (k, 128) end in
  if 128 <=? k then [0xE0; k - 128 + up] else [k + up].
(** The codes whose release would be sent as the escape byte are not used. *)
Definition key_ok (e : event) : Prop :=
  match e with Down k | Up k => 0 <= k < 256 /\ k <> 0x60 /\ k <> 0xE0 end.
Definition event_step (m : mods) (e : event) : mods * Z :=
  match e with
  | Down k => (press k m, key_char (press k m) k)
  | Up k => (release k m, 0)
  end.
(** The characters of a sequence of events, and of the bytes it is sent as; 0 is no character. *)
Fixpoint typed (m : mods) (es : list event) : mods * list Z :=
  match es with
  | [] => (m, [])
  | e :: es =>
      let '(m, c) := event_step m e in
      let '(m, cs) := typed m es in
      (m, if c =? 0 then cs else c :: cs)
  end.
Fixpoint kbd_run (shift : Z) (bytes : list Z) : option (Z * list Z) :=
  match bytes with
  | [] => Some (shift, [])
  | b :: bytes =>
      '(shift, c) ← kbdgetc shift KBS_DIB b;
      '(shift, cs) ← kbd_run shift bytes;
      Some (shift, if c =? 0 then cs else c :: cs)
  end.

Definition shift_bit (r : role) : Z :=
  match r with RShift => SHIFT | RCtl => CTL | RAlt => ALT | _ => 0 end.
Definition toggle_bit (r : role) : Z :=
  match r with RCaps => CAPSLOCK | RNum => NUMLOCK | RScroll => SCROLLLOCK | _ => 0 end.
Lemma shiftcode_role k : 0 <= k < 256 -> elem shiftcode k = Some (shift_bit (role_of k)).
Proof.
  intros H. eapply bool_decide_eq_true_1. revert k H.
  apply (Z_range_check (fun k => bool_decide (elem shiftcode k = Some (shift_bit (role_of k)))) 256).
  vm_compute. reflexivity.
Qed.
Lemma togglecode_role k : 0 <= k < 256 -> elem togglecode k = Some (toggle_bit (role_of k)).
Proof.
  intros H. eapply bool_decide_eq_true_1. revert k H.
  apply (Z_range_check (fun k => bool_decide (elem togglecode k = Some (toggle_bit (role_of k)))) 256).
  vm_compute. reflexivity.
Qed.
Lemma map_elem t k :
  t ∈ charcode -> 0 <= k < 256 -> elem t k = Some (default 0 (elem t k)).
Proof.
  intros Ht Hk. assert (length t = 256)%nat as Hl.
  { revert Ht. unfold charcode. rewrite !elem_of_cons, elem_of_nil.
    intros [->|[->|[->|[->|[]]]]]; reflexivity. }
  unfold elem. destruct (lookup_lt_is_Some_2 t (Z.to_nat k)) as [c ->]; [lia|done].
Qed.

(** The bits of [shift] are the modifiers. *)
Ltac all_mods m := destruct m as [[] [] [] [] [] []].
Lemma encode_press m k :
  Z.lxor (Z.lor (encode m) (shift_bit (role_of k))) (toggle_bit (role_of k)) = encode (press k m).
Proof. unfold press. destruct (role_of k); all_mods m; reflexivity. Qed.
Lemma encode_release m k :
  Z.land (encode m) (Z.lnot (Z.lor (shift_bit (role_of k)) E0ESC)) = encode (release k m).
Proof. unfold release. destruct (role_of k); all_mods m; reflexivity. Qed.
Lemma encode_map m :
  charcode !! Z.to_nat (Z.land (encode m) (Z.lor CTL SHIFT)) =
    Some (if m_ctl m then ctlmap else if m_shift m then shiftmap else normalmap).
Proof. all_mods m; reflexivity. Qed.
Lemma encode_caps m : flag (encode m) CAPSLOCK = m_caps m.
Proof. all_mods m; reflexivity. Qed.
Lemma encode_esc m :
  flag (encode m) E0ESC = false /\ flag (Z.lor (encode m) E0ESC) E0ESC = true /\
  Z.land (Z.lor (encode m) E0ESC) (Z.lnot E0ESC) = encode m /\
  forall r, Z.land (Z.lor (encode m) E0ESC) (Z.lnot (Z.lor (shift_bit r) E0ESC)) =
    Z.land (encode m) (Z.lnot (Z.lor (shift_bit r) E0ESC)).
Proof. all_mods m; repeat split; intros []; reflexivity. Qed.

(** The part of [kbd_data] behind the escape handling. *)
Lemma key_down m k :
  0 <= k < 256 ->
  (code ← elem shiftcode k;
   let shift := Z.lor (encode m) code in
   toggle ← elem togglecode k;
   let shift := Z.lxor shift toggle in
   map ← charcode !! Z.to_nat (Z.land shift (Z.lor CTL SHIFT));
   c ← elem map k;
   let c :=
     if flag shift CAPSLOCK then
       if (97 <=? c) && (c <=? 122) then c + (65 - 97)
       else if (65 <=? c) && (c <=? 90) then c + (97 - 65) else c
     else c in
   Some (shift, c)) = Some (encode (press k m), key_char (press k m) k).
Proof.
  intros Hk. rewrite shiftcode_role, togglecode_role by done. simpl.
  rewrite encode_press, encode_map, encode_caps. simpl.
  rewrite map_elem; [|destruct (m_ctl (press k m)), (m_shift (press k m)); set_solver|done].
  reflexivity.
Qed.

Lemma scan_bits k :
  0 <= k < 128 ->
  flag k 0x80 = false /\ flag (k + 128) 0x80 = true /\
  Z.lor k 0x80 = k + 128 /\ Z.land (k + 128) 0x7F = k.
Proof.
  intros Hk. assert ((Z.land k 128 =? 0) && (Z.land (k + 128) 128 =? 128)
    && (Z.lor k 128 =? k + 128) && (Z.land (k + 128) 127 =? k) = true) as H.
  { revert k Hk. apply (Z_range_check _ 128). vm_compute. reflexivity. }
  rewrite !andb_true_iff, !Z.eqb_eq in H. destruct H as [[[H1 H2] H3] H4].
  unfold flag. by rewrite H1, H2, H3, H4.
Qed.
Lemma kbd_data_down m k :
  0 <= k < 128 ->
  kbd_data (encode m) k = Some (encode (press k m), key_char (press k m) k).
Proof.
  intros Hk. destruct (encode_esc m) as (E1 & _). destruct (scan_bits k Hk) as (B1 & _).
  unfold kbd_data. rewrite (proj2 (Z.eqb_neq _ _)), B1, E1 by lia. apply key_down. lia.
Qed.
Lemma kbd_data_down_ext m k :
  128 <= k < 256 ->
  kbd_data (Z.lor (encode m) E0ESC) (k - 128) = Some (encode (press k m), key_char (press k m) k).
Proof.
  intros Hk. destruct (encode_esc m) as (_ & E2 & E3 & _).
  destruct (scan_bits (k - 128) ltac:(lia)) as (B1 & _ & B3 & _).
  unfold kbd_data. rewrite (proj2 (Z.eqb_neq _ _)), B1, E2, E3, B3 by lia.
  replace (k - 128 + 128) with k by lia. apply key_down. lia.
Qed.
Lemma kbd_data_up m k :
  0 <= k < 128 -> k <> 0x60 -> kbd_data (encode m) (k + 128) = Some (encode (release k m), 0).
Proof.
  intros Hk Hne. destruct (encode_esc m) as (E1 & _). destruct (scan_bits k Hk) as (_ & B2 & _ & B4).
  unfold kbd_data. rewrite (proj2 (Z.eqb_neq _ _)), B2, E1, B4 by lia.
  rewrite shiftcode_role by lia. simpl. by rewrite encode_release.
Qed.
Lemma kbd_data_up_ext m k :
  128 <= k < 256 -> k <> 0xE0 ->
  kbd_data (Z.lor (encode m) E0ESC) k = Some (encode (release k m), 0).
Proof.
  intros Hk Hne. destruct (encode_esc m) as (_ & E2 & _ & E4).
  destruct (scan_bits (k - 128) ltac:(lia)) as (_ & B2 & _ & _).
  replace (k - 128 + 128) with k in B2 by lia.
  unfold kbd_data. rewrite (proj2 (Z.eqb_neq _ _)), B2, E2 by lia.
  rewrite shiftcode_role by lia. simpl. by rewrite E4, encode_release.
Qed.

Lemma kbd_data_esc shift : kbdgetc shift KBS_DIB 0xE0 = Some (Z.lor shift E0ESC, 0).
Proof. reflexivity. Qed.
Lemma kbdgetc_data shift data : kbdgetc shift KBS_DIB data = kbd_data shift data.
Proof. reflexivity. Qed.

(** One event: its bytes change [shift] as it changes the modifiers, and only the last byte may
    give a character. *)
Lemma event_run m e bytes :
  key_ok e ->
  kbd_run (encode m) (scan_bytes e ++ bytes) =
    '(shift, cs) ← kbd_run (encode (fst (event_step m e))) bytes;
    Some (shift, if snd (event_step m e) =? 0 then cs else snd (event_step m e) :: cs).
Proof.
  destruct e as [k|k]; intros (Hk & H1 & H2); unfold scan_bytes;
    destruct (Z.leb_spec 128 k); cbn [app kbd_run fst snd event_step].
  - rewrite kbd_data_esc. simpl. rewrite kbdgetc_data, Z.add_0_r, kbd_data_down_ext by lia.
    simpl. by destruct (kbd_run _ bytes) as [[]|].
  - rewrite kbdgetc_data, Z.add_0_r, kbd_data_down by lia. simpl.
    by destruct (kbd_run _ bytes) as [[]|].
  - rewrite kbd_data_esc. simpl. rewrite kbdgetc_data. replace (k - 128 + 128) with k by lia.
    rewrite kbd_data_up_ext by lia. simpl. by destruct (kbd_run _ bytes) as [[]|].
  - rewrite kbdgetc_data, kbd_data_up by lia. simpl. by destruct (kbd_run _ bytes) as [[]|].
Qed.

(** C40: the keyboard.  However keys go down and up, with their scan codes sent one byte at a
    time and the escape byte in front of the extended ones, kbdgetc keeps the modifiers and
    locks in [shift], gives the character of the map they select for each key that goes down,
    in the other case under caps lock, and no character for any other byte. *)
Theorem kbdgetc_refines m es :
  Forall key_ok es ->
  kbd_run (encode m) (concat (scan_bytes <$> es)) =
    Some (encode (fst (typed m es)), snd (typed m es)).
Proof.
  intros H. revert m. induction H as [|e es He H IH]; intros m; [done|].
  cbn [fmap list_fmap concat typed]. rewrite event_run by done.
  change (concat (list_fmap _ _ scan_bytes es)) with (concat (scan_bytes <$> es)).
  rewrite IH. destruct (event_step m e) as [m' c]. simpl. by destruct (typed m' es).
Qed.
Definition no_mods : mods := mkMods false false false false false false.
(** Shift down, H, shift up, I, escape and the up key. *)
Lemma kbdgetc_refines_witness :
  kbd_run 0 [0x2A; 0x23; 0xA3; 0xAA; 0x17; 0xE0; 0x48] = Some (0, [72; 105; KEY_UP]).
Proof.
  exact (kbdgetc_refines no_mods [Down 0x2A; Down 0x23; Up 0x23; Up 0x2A; Down 0x17; Down 0xC8]
    ltac:(repeat constructor; lia)).
Defined.
