(* ===== verification/Printf.v ===== *)
(** Formatted output: printf of user/printf.c and cprintf of kernel/console.c, with the string
    routines of user/ulib.c.  What a call prints is the list of the characters it puts, in
    order; None stands for a store outside a local buffer or a missing argument. *)
From S2P Require Import Prelude KString.

(** The bytes of a C string literal. *)
Definition str (s : string) : list Z := (fun a => Z.of_N (Ascii.N_of_ascii a)) <$> String.list_ascii_of_string s.
Definition nl : list Z := [10].
(** The string in an array of characters: those before the first NUL. *)
Fixpoint upto_nul (l : list Z) : list Z :=
  match l with [] => [] | c :: l => if c =? 0 then [] else c :: upto_nul l end.

(** * Numbers *)

Definition digits_lower : list Z :=
  [48; 49; 50; 51; 52; 53; 54; 55; 56; 57; 97; 98; 99; 100; 101; 102].
Definition digits_upper : list Z :=
  [48; 49; 50; 51; 52; 53; 54; 55; 56; 57; 65; 66; 67; 68; 69; 70].
Definition minus : Z := 45.

(** [buf[i++] = c] in a buffer of [cap] bytes. *)
Definition push (cap : nat) (buf : list Z) (c : Z) : option (list Z) :=
  if (length buf <? cap)%nat then Some (buf ++ [c]) else None.
(** do buf[i++] = digits[x % base]; while ((x /= base) != 0) *)
Fixpoint put_digits (fuel cap : nat) (digits : list Z) (base x : Z) (buf : list Z) :
    option (list Z) :=
  match fuel with
  | O => None
  | S fuel =>
      d ← digits !! Z.to_nat (x mod base);
      buf ← push cap buf d;
      if x / base =? 0 then Some buf else put_digits fuel cap digits base (x / base) buf
  end.
(** The digits, the sign, and the buffer printed backwards. *)
Definition print_number (cap : nat) (digits : list Z) (base x : Z) (neg : bool) : option (list Z) :=
  buf ← put_digits 64 cap digits base x [];
  buf ← (if neg then push cap buf minus else Some buf);
  Some (reverse buf).

(** user/printf.c; the argument of printint64 is an int. *)
Definition printint64 (xx base : Z) (sgn : bool) : option (list Z) :=
  let neg := sgn && (xx <? 0) in
  let x := if neg then u64 (s32 (- xx)) else u64 xx in
  print_number 32 digits_lower base x neg.
Definition printint (xx base : Z) (sgn : bool) : option (list Z) :=
  let neg := sgn && (xx <? 0) in
  let x := if neg then u32 (- xx) else u32 xx in
  print_number 16 digits_upper base x neg.

(** kernel/console.c *)
Definition cons_printint64 (xx base : Z) (sign : bool) : option (list Z) :=
  let sign := sign && (xx <? 0) in
  let x := if sign then u64 (- xx) else u64 xx in
  print_number 32 digits_lower base x sign.
Definition cons_printint (xx base : Z) (sign : bool) : option (list Z) :=
  let sign := sign && (xx <? 0) in
  let x := if sign then u32 (- xx) else u32 xx in
  print_number 16 digits_lower base x sign.

(** * Formats *)

(** The arguments behind the format: integers, and strings with None for the null pointer. *)
Inductive arg := AInt (z : Z) | AStr (s : option (list Z)).
Definition va_int (args : list arg) : option (Z * list arg) :=
  match args with AInt z :: args => Some (z, args) | _ => None end.
Definition null_string : list Z := [40; 110; 117; 108; 108; 41].
Definition va_str (args : list arg) : option (list Z * list arg) :=
  match args with AStr s :: args => Some (default null_string s, args) | _ => None end.

Definition percent : Z := 37.
Definition ch_l : Z := 108.
Definition ch_d : Z := 100.
Definition ch_x : Z := 120.
Definition ch_p : Z := 112.
Definition ch_s : Z := 115.

(** The loop of printf; [st] is None in state 0, and in state '%' the lflag. *)
Fixpoint printf_loop (fmt : list Z) (st : option bool) (args : list arg) : option (list Z) :=
  match fmt with
  | [] => Some []
  | c :: fmt =>
      match st with
      | None =>
          if c =? percent then printf_loop fmt (Some false) args
          else cons c <$> printf_loop fmt None args
      | Some lflag =>
          if c =? ch_l then printf_loop fmt (Some true) args
          else if c =? ch_d then
            '(z, args) ← va_int args;
            out ← (if lflag : bool then printint64 (s32 z) 10 true else printint (s32 z) 10 true);
            app out <$> printf_loop fmt None args
          else if (c =? ch_x) || (c =? ch_p) then
            '(z, args) ← va_int args;
            out ← (if lflag : bool then printint64 (s32 z) 16 false else printint (s32 z) 16 false);
            app out <$> printf_loop fmt None args
          else if c =? ch_s then
            '(s, args) ← va_str args;
            app s <$> printf_loop fmt None args
          else if c =? percent then cons c <$> printf_loop fmt None args
          else app [percent; c] <$> printf_loop fmt None args
      end
  end.
Definition printf (fmt : list Z) (args : list arg) : option (list Z) := printf_loop fmt None args.

(** cprintf, as the characters given to consputc. *)
Fixpoint cprintf_loop (fmt : list Z) (st : option bool) (args : list arg) : option (list Z) :=
  match fmt with
  | [] => Some []
  | c :: fmt =>
      match st with
      | None =>
          if negb (c =? percent) then cons c <$> cprintf_loop fmt None args
          else cprintf_loop fmt (Some false) args
      | Some lflag =>
          if c =? ch_d then
            '(z, args) ← va_int args;
            out ← (if lflag : bool then cons_printint64 (s64 z) 10 true
                   else cons_printint (s32 z) 10 true);
            app out <$> cprintf_loop fmt None args
          else if c =? ch_l then cprintf_loop fmt (Some (negb lflag)) args
          else if (c =? ch_x) || (c =? ch_p) then
            '(z, args) ← va_int args;
            out ← (if lflag : bool then cons_printint64 (s64 z) 16 false
                   else cons_printint (s32 z) 16 false);
            app out <$> cprintf_loop fmt None args
          else if c =? ch_s then
            '(s, args) ← va_str args;
            app s <$> cprintf_loop fmt None args
          else if c =? percent then cons c <$> cprintf_loop fmt None args
          else app [percent; c] <$> cprintf_loop fmt None args
      end
  end.
Definition cprintf (fmt : list Z) (args : list arg) : option (list Z) := cprintf_loop fmt None args.

(** * user/ulib.c *)

(** The string routines work on memory, as those of kernel/string.c; the fuel of a loop that
    runs to a NUL bounds the scan. *)
Fixpoint strcpy (fuel : nat) (s t : Z) (m : mem) : option mem :=
  match fuel with
  | O => None
  | S fuel =>
      let m := store m s (m t) in
      if m s =? 0 then Some m else strcpy fuel (s + 1) (t + 1) m
  end.
Fixpoint strcmp (fuel : nat) (p q : Z) (m : mem) : option Z :=
  match fuel with
  | O => None
  | S fuel =>
      if negb (m p =? 0) && (m p =? m q) then strcmp fuel (p + 1) (q + 1) m
      else Some (m p - m q)
  end.
Definition ulib_strlen (fuel : nat) (s : Z) (m : mem) : option Z := strlen fuel s m.
Fixpoint strchr (fuel : nat) (s c : Z) (m : mem) : option Z :=
  match fuel with
  | O => None
  | S fuel => if m s =? 0 then Some 0 else if m s =? c then Some s else strchr fuel (s + 1) c m
  end.
Definition ulib_memset (dst c n : Z) (m : mem) : mem := stosb (Z.to_nat n) dst c m.
(** memmove of the user library always copies upwards. *)
Definition ulib_memmove (dst src n : Z) (m : mem) : mem := copy_up (Z.to_nat n) dst src m.
Fixpoint atoi_loop (s : list Z) (n : Z) : Z :=
  match s with
  | c :: s => if (48 <=? c) && (c <=? 57) then atoi_loop s (s32 (n * 10 + c - 48)) else n
  | [] => n
  end.
Definition atoi (s : list Z) : Z := atoi_loop s 0.
(** gets: the results of the one-byte reads of standard input, [None] for end of file.  Gives
    the line and the input left. *)
Fixpoint gets_loop (room : nat) (input : list (option Z)) (buf : list Z) :
    list Z * list (option Z) :=
  match room with
  | O => (buf, input)
  | S room =>
      match input with
      | Some c :: input =>
          if (c =? 10) || (c =? 13) then (buf ++ [c], input) else gets_loop room input (buf ++ [c])
      | None :: input => (buf, input)
      | [] => (buf, [])
      end
  end.
Definition gets (max : Z) (input : list (option Z)) : list Z * list (option Z) :=
  gets_loop (Z.to_nat (max - 1)) input [].

(** * Numerals *)

(** The digits of [x] in a base, the first one the most significant. *)
Fixpoint numeral_f (fuel : nat) (base x : Z) : list Z :=
  match fuel with
  | O => []
  | S fuel => (if x / base =? 0 then [] else numeral_f fuel base (x / base)) ++ [x mod base]
  end.
Definition numeral (base x : Z) : list Z := numeral_f 64 base x.
Definition value (base : Z) (ds : list Z) : Z := foldl (fun a d => a * base + d) 0 ds.
Definition digit (digits : list Z) (d : Z) : Z := default 0 (digits !! Z.to_nat d).

Lemma value_snoc base ds d : value base (ds ++ [d]) = value base ds * base + d.
Proof. unfold value. by rewrite foldl_app. Qed.
Lemma numeral_value fuel base x :
  2 <= base -> 0 <= x < 2 ^ Z.of_nat fuel -> value base (numeral_f fuel base x) = x.
Proof.
  intros Hb. revert x. induction fuel as [|fuel IH]; intros x Hx; [simpl in *; unfold value; simpl; lia|].
  cbn [numeral_f]. rewrite value_snoc.
  pose proof (Z.div_mod x base ltac:(lia)). destruct (Z.eqb_spec (x / base) 0) as [E|E].
  - unfold value. simpl. lia.
  - rewrite IH; [lia|]. split; [apply Z.div_pos; lia|].
    apply Z.div_lt_upper_bound; [lia|]. rewrite Nat2Z.inj_succ, Z.pow_succ_r in Hx by lia. nia.
Qed.
Lemma numeral_digits fuel base x :
  2 <= base -> Forall (fun d => 0 <= d < base) (numeral_f fuel base x).
Proof.
  intros Hb. revert x. induction fuel as [|fuel IH]; intros x; cbn [numeral_f]; [done|].
  apply Forall_app. split; [destruct (_ =? 0); [done|apply IH]|].
  apply Forall_singleton. apply Z.mod_pos_bound. lia.
Qed.
(** No leading zero, but in the numeral of 0 itself. *)
Lemma numeral_head fuel base x d ds :
  2 <= base -> 0 < x < 2 ^ Z.of_nat fuel -> numeral_f fuel base x = d :: ds -> d <> 0.
Proof.
  intros Hb. revert x d ds. induction fuel as [|fuel IH]; intros x d ds Hx; [done|].
  cbn [numeral_f]. destruct (Z.eqb_spec (x / base) 0) as [E|E].
  - intros [= <- _]. pose proof (Z.div_mod x base ltac:(lia)). lia.
  - assert (0 < x / base < 2 ^ Z.of_nat fuel) as Hq.
    { split; [pose proof (Z.div_pos x base); lia|].
      apply Z.div_lt_upper_bound; [lia|]. rewrite Nat2Z.inj_succ, Z.pow_succ_r in Hx by lia. nia. }
    specialize (IH (x / base)). destruct (numeral_f fuel base (x / base)) as [|d' ds'] eqn:En.
    + pose proof (numeral_value fuel base (x / base) Hb ltac:(lia)) as Hv.
      rewrite En in Hv. unfold value in Hv. simpl in Hv. lia.
    + intros [= <- _]. eapply IH; eauto.
Qed.
(** In [n] digits there is room for every number below [base ^ n]. *)
Lemma numeral_length fuel base x n :
  2 <= base -> 0 <= x < base ^ Z.of_nat (S n) -> (length (numeral_f fuel base x) <= S n)%nat.
Proof.
  intros Hb. revert x n. induction fuel as [|fuel IH]; intros x n Hx; cbn [numeral_f]; [simpl; lia|].
  rewrite length_app. simpl length at 2. destruct (Z.eqb_spec (x / base) 0) as [E|E]; [simpl; lia|].
  destruct n as [|n].
  - rewrite Z.div_small in E by (simpl in Hx; lia). done.
  - enough (length (numeral_f fuel base (x / base)) <= S n)%nat by lia.
    apply IH. split; [apply Z.div_pos; lia|]. apply Z.div_lt_upper_bound; [lia|].
    rewrite Nat2Z.inj_succ, Z.pow_succ_r in Hx by lia. lia.
Qed.

Lemma put_digits_run fuel cap digits base x buf :
  2 <= base <= Z.of_nat (length digits) -> 0 <= x < 2 ^ Z.of_nat fuel -> (0 < fuel)%nat ->
  (length buf + length (numeral_f fuel base x) <= cap)%nat ->
  put_digits fuel cap digits base x buf =
    Some (buf ++ reverse (digit digits <$> numeral_f fuel base x)).
Proof.
  intros Hb. revert x buf. induction fuel as [|fuel IH]; intros x buf Hx Hf Hc; [lia|].
  cbn [put_digits numeral_f] in *.
  pose proof (Z.mod_pos_bound x base ltac:(lia)) as Hm.
  destruct (lookup_lt_is_Some_2 digits (Z.to_nat (x mod base))) as [d Hd]; [lia|].
  rewrite Hd. simpl. rewrite length_app in Hc. simpl length in Hc at 3.
  unfold push. rewrite (proj2 (Nat.ltb_lt _ _)) by lia. simpl.
  rewrite fmap_app, reverse_app. simpl.
  assert (digit digits (x mod base) = d) as -> by (unfold digit; by rewrite Hd).
  destruct (Z.eqb_spec (x / base) 0) as [E|E]; [done|].
  assert (0 <= x / base < 2 ^ Z.of_nat fuel) as Hq.
  { split; [apply Z.div_pos; lia|].
    apply Z.div_lt_upper_bound; [lia|]. rewrite Nat2Z.inj_succ, Z.pow_succ_r in Hx by lia. nia. }
  rewrite IH; [by rewrite <-app_assoc|done| |rewrite length_app; simpl; lia].
  destruct fuel; [simpl in Hq; lia|lia].
Qed.

(** The text of a signed number. *)
Definition signed (digits : list Z) (base z : Z) : list Z :=
  (if z <? 0 then [minus] else []) ++ (digit digits <$> numeral base (Z.abs z)).

Lemma print_number_run cap digits base x neg n :
  2 <= base <= Z.of_nat (length digits) -> 0 <= x < 2 ^ 64 ->
  x < base ^ Z.of_nat (S n) -> (S n < cap)%nat ->
  print_number cap digits base x neg =
    Some ((if neg then [minus] else []) ++ (digit digits <$> numeral base x)).
Proof.
  intros Hb Hx Hn Hc. pose proof (numeral_length 64 base x n ltac:(lia) ltac:(lia)).
  fold (numeral base x) in *. unfold print_number.
  assert (put_digits 64 cap digits base x [] = Some (reverse (digit digits <$> numeral base x)))
    as ->.
  { apply put_digits_run; [lia|exact Hx|lia|]. fold (numeral base x). simpl. lia. }
  generalize dependent (numeral base x). intros ds Hds. destruct neg; simpl.
  - unfold push. rewrite (proj2 (Nat.ltb_lt _ _)) by (rewrite length_reverse, length_fmap; lia).
    simpl. by rewrite reverse_app, reverse_involutive.
  - by rewrite reverse_involutive.
Qed.

(** What the routines have in common: the absolute value and the sign. *)
Lemma print_signed cap digits base z n :
  2 <= base <= Z.of_nat (length digits) -> Z.abs z < 2 ^ 64 ->
  Z.abs z < base ^ Z.of_nat (S n) -> (S n < cap)%nat ->
  print_number cap digits base (Z.abs z) (z <? 0) = Some (signed digits base z).
Proof. intros. erewrite print_number_run by (done || lia). done. Qed.

Lemma printint_as_signed xx (sgn : bool) :
  - 2 ^ 31 <= xx < 2 ^ 31 ->
  let z := if sgn then xx else u32 xx in
  Z.abs z < 2 ^ 32 /\ (z <? 0) = sgn && (xx <? 0) /\
  Z.abs z = (if sgn && (xx <? 0) then u32 (- xx) else u32 xx).
Proof.
  intros H. pose proof (Z.mod_pos_bound xx (2 ^ 32) ltac:(lia)) as Hm.
  destruct sgn; cbn [andb].
  - destruct (Z.ltb_spec xx 0); cbn; rewrite u32_small by lia; lia.
  - unfold u32 in *. destruct (Z.ltb_spec (xx mod 2 ^ 32) 0); lia.
Qed.

Lemma printint_run xx base (sgn : bool) :
  - 2 ^ 31 <= xx < 2 ^ 31 -> base = 10 \/ base = 16 ->
  printint xx base sgn = Some (signed digits_upper base (if sgn then xx else u32 xx)) /\
  cons_printint xx base sgn = Some (signed digits_lower base (if sgn then xx else u32 xx)).
Proof.
  intros Hx Hb. destruct (printint_as_signed xx sgn Hx) as (H1 & H2 & H3).
  unfold printint, cons_printint. rewrite <-H3, <-H2.
  assert (2 ^ 32 < 10 ^ Z.of_nat 10 /\ 2 ^ 32 < 16 ^ Z.of_nat 10) by (split; reflexivity).
  split; apply (print_signed _ _ _ _ 9); destruct Hb as [-> | ->]; simpl length; lia.
Qed.
Lemma cons_printint64_run xx base (sgn : bool) :
  - 2 ^ 63 <= xx < 2 ^ 63 -> base = 10 \/ base = 16 ->
  cons_printint64 xx base sgn = Some (signed digits_lower base (if sgn then xx else u64 xx)).
Proof.
  intros Hx Hb. pose proof (Z.mod_pos_bound xx (2 ^ 64) ltac:(lia)) as Hm.
  set (z := if sgn then xx else u64 xx).
  assert (Z.abs z < 2 ^ 64 /\ (z <? 0) = sgn && (xx <? 0) /\
    Z.abs z = (if sgn && (xx <? 0) then u64 (- xx) else u64 xx)) as (H1 & H2 & H3).
  { subst z. destruct sgn; simpl.
    - destruct (Z.ltb_spec xx 0); simpl; rewrite u64_small by lia; lia.
    - unfold u64 in *. destruct (Z.ltb_spec (xx mod 2 ^ 64) 0); lia. }
  unfold cons_printint64. rewrite <-H3, <-H2.
  assert (2 ^ 64 < 10 ^ Z.of_nat 20 /\ 2 ^ 64 < 16 ^ Z.of_nat 20) by (split; reflexivity).
  apply (print_signed _ _ _ _ 19); destruct Hb as [-> | ->]; simpl length; lia.
Qed.
(** * Reading numbers back *)

Lemma value_from base n ds :
  1 <= base -> Forall (fun d => 0 <= d) ds -> 0 <= n -> n <= foldl (fun a d => a * base + d) n ds.
Proof.
  intros Hb H. revert n. induction H as [|d ds Hd H IH]; intros n Hn; simpl; [lia|].
  specialize (IH (n * base + d)). nia.
Qed.
Lemma digit_dec digits d :
  digits = digits_lower \/ digits = digits_upper -> 0 <= d < 10 -> digit digits d = 48 + d.
Proof.
  intros Hs Hd. apply Z.eqb_eq. revert d Hd.
  destruct Hs as [-> | ->]; apply (Z_range_check (fun d => digit _ d =? 48 + d) 10); reflexivity.
Qed.
Lemma atoi_digits digits ds n :
  digits = digits_lower \/ digits = digits_upper ->
  Forall (fun d => 0 <= d < 10) ds -> 0 <= n -> foldl (fun a d => a * 10 + d) n ds < 2 ^ 31 ->
  atoi_loop (digit digits <$> ds) n = foldl (fun a d => a * 10 + d) n ds.
Proof.
  intros Hs H. revert n. induction H as [|d ds Hd H IH]; intros n Hn Hv; simpl in *; [done|].
  rewrite digit_dec by done.
  rewrite (proj2 (Z.leb_le _ _)), (proj2 (Z.leb_le _ _)) by lia. simpl.
  assert (n * 10 + d <= foldl (fun a d => a * 10 + d) (n * 10 + d) ds).
  { apply value_from; [lia| |lia]. eapply Forall_impl; [exact H|]. simpl. lia. }
  rewrite s32_small by lia. replace (n * 10 + (48 + d) - 48) with (n * 10 + d) by lia.
  apply IH; lia.
Qed.

(** Printing and reading a number.  atoi of what %d prints is the number, for every
    non-negative int. *)
Theorem printint_atoi xx sgn :
  0 <= xx < 2 ^ 31 -> exists out, printint xx 10 sgn = Some out /\ atoi out = xx.
Proof.
  intros H. exists (digit digits_upper <$> numeral 10 xx). split.
  - unfold printint. rewrite (proj2 (Z.ltb_ge xx 0)), andb_false_r by lia.
    rewrite u32_small by lia.
    rewrite (print_number_run _ _ _ _ false 9) by (simpl length; lia). done.
  - unfold atoi. pose proof (numeral_value 64 10 xx ltac:(lia) ltac:(lia)) as Hv.
    unfold value in Hv. change (numeral_f 64) with numeral in Hv.
    rewrite atoi_digits; [exact Hv|by right|apply numeral_digits; lia|lia|]. rewrite Hv. lia.
Qed.
Lemma printint_atoi_witness : exists out, printint 4096 10 true = Some out /\ atoi out = 4096.
Proof. apply (printint_atoi 4096 true). lia. Defined.

(** * Formats

    A format as a list of directives, its text, and what it stands for. *)
Inductive directive :=
| Lit (c : Z)        (* a character that is not a percent sign *)
| Dec (long : bool)  (* %d, %ld *)
| Hex (long : bool)  (* %x, %lx *)
| Ptr (long : bool)  (* %p, %lp *)
| Str                (* %s *)
| Pct                (* %% *)
| Unknown (c : Z).   (* % before any other character *)

Definition long_ (l : bool) : list Z := if l then [ch_l] else [].
Definition text (d : directive) : list Z :=
  match d with
  | Lit c => [c]
  | Dec l => percent :: long_ l ++ [ch_d]
  | Hex l => percent :: long_ l ++ [ch_x]
  | Ptr l => percent :: long_ l ++ [ch_p]
  | Str => [percent; ch_s]
  | Pct => [percent; percent]
  | Unknown c => [percent; c]
  end.
Definition format (ds : list directive) : list Z := concat (text <$> ds).
Definition plain (c : Z) : Prop := c ∉ [percent; ch_l; ch_d; ch_x; ch_p; ch_s].
Definition directive_ok (d : directive) : Prop :=
  match d with Lit c => c <> percent | Unknown c => plain c | _ => True end.

(** The text of an integer argument; printf takes even a long one as an int. *)
Definition user_number (long : bool) (z base : Z) (sgn : bool) : list Z :=
  if long then
    if sgn && (s32 z <? 0)
    then minus :: (digit digits_lower <$> numeral base (u64 (s32 (- s32 z))))
    else digit digits_lower <$> numeral base (u64 (s32 z))
  else signed digits_upper base (if sgn then s32 z else u32 (s32 z)).
Definition kernel_number (long : bool) (z base : Z) (sgn : bool) : list Z :=
  if long then signed digits_lower base (if sgn then s64 z else u64 (s64 z))
  else signed digits_lower base (if sgn then s32 z else u32 (s32 z)).

#[global] Arguments user_number : simpl never.
#[global] Arguments kernel_number : simpl never.

(** What a list of directives prints with its arguments. *)
Fixpoint render (number : bool -> Z -> Z -> bool -> list Z) (ds : list directive)
    (args : list arg) : option (list Z) :=
  match ds with
  | [] => Some []
  | d :: ds =>
      match d, args with
      | Lit c, _ => cons c <$> render number ds args
      | Dec l, AInt z :: args => app (number l z 10 true) <$> render number ds args
      | (Hex l | Ptr l), AInt z :: args => app (number l z 16 false) <$> render number ds args
      | Str, AStr s :: args => app (default null_string s) <$> render number ds args
      | Pct, _ => cons percent <$> render number ds args
      | Unknown c, _ => app [percent; c] <$> render number ds args
      | _, _ => None
      end
  end.

Lemma user_number_run (l : bool) z base sgn :
  base = 10 \/ base = 16 ->
  (if l then printint64 (s32 z) base sgn else printint (s32 z) base sgn) =
    Some (user_number l z base sgn).
Proof.
  intros Hb. destruct l.
  - unfold printint64, user_number. set (x := if _ && _ then _ else _).
    assert (0 <= x < 2 ^ 64) by (subst x; destruct (_ && _); apply Z.mod_pos_bound; lia).
    assert (2 ^ 64 < 10 ^ Z.of_nat 20 /\ 2 ^ 64 < 16 ^ Z.of_nat 20) by (split; reflexivity).
    rewrite (print_number_run _ _ _ _ _ 19); [|destruct Hb; simpl length; lia..].
    subst x. by destruct (sgn && _).
  - exact (proj1 (printint_run _ _ _ (s32_range z) Hb)).
Qed.
Lemma kernel_number_run (l : bool) z base sgn :
  base = 10 \/ base = 16 ->
  (if l then cons_printint64 (s64 z) base sgn else cons_printint (s32 z) base sgn) =
    Some (kernel_number l z base sgn).
Proof.
  intros Hb. destruct l; [exact (cons_printint64_run _ _ _ (s64_range z) Hb)|].
  exact (proj2 (printint_run _ _ _ (s32_range z) Hb)).
Qed.

(** The two loops agree with [render], by the same steps: [IH] is the rest of the format, [run]
    a routine for numbers. *)
Ltac render_tac IH run :=
  simpl; change (concat (list_fmap directive (list Z) text ?ds)) with (format ds);
  repeat match goal with
  | H : _ <> percent |- _ => rewrite (proj2 (Z.eqb_neq _ _) H)
  | H : plain _ |- _ => unfold plain in H; rewrite !not_elem_of_cons in H;
      destruct H as (?Hp1 & ?Hp2 & ?Hp3 & ?Hp4 & ?Hp5 & ?Hp6 & _);
      rewrite !(proj2 (Z.eqb_neq _ _)) by done
  end; simpl;
  try match goal with |- context [va_int ?args] => destruct args as [|[] ?]; simpl; try done
  | |- context [va_str ?args] => destruct args as [|[] ?]; simpl; try done end;
  try match goal with
  | |- context [s32 ?z] => first
      [ rewrite (run true z 10 true) by tauto | rewrite (run false z 10 true) by tauto
      | rewrite (run true z 16 false) by tauto | rewrite (run false z 16 false) by tauto ]
  | |- context [s64 ?z] => first
      [ rewrite (run true z 10 true) by tauto | rewrite (run true z 16 false) by tauto ]
  end; simpl; by rewrite IH.
Lemma printf_render ds args :
  Forall directive_ok ds -> printf (format ds) args = render user_number ds args.
Proof.
  intros H. unfold printf. revert args. induction H as [|d ds Hd H IH]; intros args; [done|].
  destruct d as [c|[]|[]|[]| | |c]; simpl in Hd; unfold format; render_tac IH user_number_run.
Qed.
Lemma cprintf_render ds args :
  Forall directive_ok ds -> cprintf (format ds) args = render kernel_number ds args.
Proof.
  intros H. unfold cprintf. revert args. induction H as [|d ds Hd H IH]; intros args; [done|].
  destruct d as [c|[]|[]|[]| | |c]; simpl in Hd; unfold format; render_tac IH kernel_number_run.
Qed.



(** * The string routines of the user library *)

Lemma strcmp_cstr fuel p q m :
  (length (cstr fuel p m) < fuel)%nat ->
  exists r, strcmp fuel p q m = Some r /\ (r = 0 <-> cstr fuel p m = cstr fuel q m).
Proof.
  revert p q. induction fuel as [|n IH]; intros p q H; simpl in *; [lia|].
  destruct (Z.eqb_spec (m p) 0) as [Hp|Hp]; simpl.
  - exists (m p - m q). split; [done|]. destruct (Z.eqb_spec (m q) 0); split; done || lia.
  - simpl in H. destruct (Z.eqb_spec (m p) (m q)) as [E|E].
    + destruct (IH (p + 1) (q + 1)) as (r & -> & Hr); [lia|]. exists r. split; [done|].
      rewrite <-E, (proj2 (Z.eqb_neq _ _) Hp), Hr. split; congruence.
    + exists (m p - m q). split; [done|]. destruct (Z.eqb_spec (m q) 0); split; done || lia || congruence.
Qed.
Lemma strcpy_cstr fuel s t m :
  (length (cstr fuel t m) < fuel)%nat ->
  (t + Z.of_nat fuel <= s \/ s + Z.of_nat fuel <= t) ->
  exists m', strcpy fuel s t m = Some m' /\ cstr fuel s m' = cstr fuel t m /\
    forall a, a < s \/ s + Z.of_nat fuel <= a -> m' a = m a.
Proof.
  revert s t m. induction fuel as [|n IH]; intros s t m H Hd; cbn [strcpy cstr] in *; [simpl in *; lia|].
  rewrite store_eq. destruct (Z.eqb_spec (m t) 0) as [E|E].
  - exists (store m s (m t)). rewrite store_eq, E. split; [done|]. split; [done|].
    intros a Ha. apply store_ne. lia.
  - simpl in H. rewrite <-(cstr_store n (t + 1) m s (m t)) in H by lia.
    destruct (IH (s + 1) (t + 1) (store m s (m t))) as (m' & -> & H1 & H2); [lia|lia|].
    exists m'. split; [done|]. split.
    + rewrite H2, store_eq, (proj2 (Z.eqb_neq _ _) E), H1, cstr_store by lia. done.
    + intros a Ha. rewrite H2, store_ne by lia. done.
Qed.

(** String comparison and copy of the user library.  With a NUL within reach strcmp returns
    0 exactly on equal strings, and strcpy to a place that does not overlap makes an equal
    string there and changes nothing outside. *)
Theorem ulib_strings fuel s t m :
  (length (cstr fuel t m) < fuel)%nat ->
  (t + Z.of_nat fuel <= s \/ s + Z.of_nat fuel <= t) ->
  exists m' r, strcpy fuel s t m = Some m' /\ cstr fuel s m' = cstr fuel t m /\
    (forall a, a < s \/ s + Z.of_nat fuel <= a -> m' a = m a) /\
    strcmp fuel t s m = Some r /\ (r = 0 <-> cstr fuel t m = cstr fuel s m).
Proof.
  intros H1 H2. destruct (strcpy_cstr fuel s t m H1 H2) as (m' & ? & ? & ?).
  destruct (strcmp_cstr fuel t s m H1) as (r & ? & ?). by exists m', r.
Qed.
Definition hello : mem := fun a => if a =? 100 then 104 else if a =? 101 then 105 else 0.
Lemma ulib_strings_witness :
  exists m' r, strcpy 3 200 100 hello = Some m' /\ cstr 3 200 m' = [104; 105] /\
    strcmp 3 100 200 hello = Some r /\ r <> 0.
Proof.
  destruct (ulib_strings 3 200 100 hello) as (m' & r & H1 & H2 & _ & H3 & H4);
    [vm_compute; lia|lia|].
  exists m', r. repeat split; [exact H1|exact H2|exact H3|]. intros H5. by apply H4 in H5.
Defined.

Lemma copy_up_below n d s m a : a < d -> copy_up n d s m a = m a.
Proof.
  revert d s m. induction n as [|n IH]; intros d s m H; cbn [copy_up]; [done|].
  rewrite IH by lia. apply store_ne. lia.
Qed.

(** Memmove of the user library is not the kernel's.  It copies upwards always, so that
    moving [n] bytes up by one fills the destination with the first byte. *)
Theorem ulib_memmove_smears p n m a :
  p <= a <= p + n -> ulib_memmove (p + 1) p n m a = m p.
Proof.
  intros Ha. unfold ulib_memmove. remember (Z.to_nat n) as k eqn:Ek.
  assert (a <= p + Z.of_nat k) as Hk by lia. clear Ek.
  revert p m a Ha Hk. induction k as [|k IH]; intros p m a Ha Hk; cbn [copy_up].
  - f_equal. lia.
  - destruct (Z.eq_dec a p) as [->|Hne].
    + rewrite copy_up_below by lia. apply store_ne. lia.
    + rewrite IH by lia. apply store_eq.
Qed.
Lemma ulib_memmove_smears_witness : ulib_memmove 101 100 2 hello 102 = 104.
Proof. apply (ulib_memmove_smears 100 2 hello 102). lia. Defined.
