(* ===== verification/Umalloc.v ===== *)
(** The user allocator, user/umalloc.c: a circular list of free blocks in address order. *)
From S2P Require Import Prelude.

(** * The code

    A pointer is its address, 0 for null.  Headers are kept by address; a block of [n] units at
    [p] has its header at [p] and ends at [p + 16 n]. *)

Record header := mkHeader { h_ptr : Z; h_size : Z }.
#[export] Instance eta_header : Eta header := fun h => mkHeader (h_ptr h) (h_size h).
Definition sizeof_Header : Z := 16.
Definition plus (p n : Z) : Z := p + sizeof_Header * n.

Record heap := mkHeap { hdr : Z -> header; freep : Z; brk : Z }.
#[export] Instance eta_heap : Eta heap := fun m => mkHeap (hdr m) (freep m) (brk m).
Definition set_hdr (p : Z) (f : header -> header) (m : heap) : heap :=
  m <| hdr := fun a => if a =? p then f (hdr m p) else hdr m a |>.
Definition set_ptr (p q : Z) : heap -> heap := set_hdr p (fun h => h <| h_ptr := q |>).
Definition set_size (p n : Z) : heap -> heap := set_hdr p (fun h => h <| h_size := n |>).

Section Alloc.
(** The address of [base], and the end of what sbrk can give; sbrk extends the heap upwards. *)
Context (base limit : Z).
Definition sbrk (n : Z) (m : heap) : Z * heap :=
  if brk m + n <=? limit then (brk m, m <| brk := brk m + n |>) else (-1, m).

(** The loop of [free]: the block after which [bp] belongs. *)
Definition belongs (m : heap) (bp p : Z) : bool :=
  let q := h_ptr (hdr m p) in
  ((p <? bp) && (bp <? q)) || ((q <=? p) && ((p <? bp) || (bp <? q))).
Fixpoint find_place (fuel : nat) (m : heap) (bp p : Z) : option Z :=
  match fuel with
  | O => None
  | S fuel => if belongs m bp p then Some p else find_place fuel m bp (h_ptr (hdr m p))
  end.
Definition link_block (bp p : Z) (m : heap) : heap :=
  let q := h_ptr (hdr m p) in
  let m :=
    if plus bp (h_size (hdr m bp)) =? q then
      let m := set_size bp (u32 (h_size (hdr m bp) + h_size (hdr m q))) m in
      set_ptr bp (h_ptr (hdr m q)) m
    else set_ptr bp q m in
  let m :=
    if plus p (h_size (hdr m p)) =? bp then
      let m := set_size p (u32 (h_size (hdr m p) + h_size (hdr m bp))) m in
      set_ptr p (h_ptr (hdr m bp)) m
    else set_ptr p bp m in
  m <| freep := p |>.
Definition free (fuel : nat) (ap : Z) (m : heap) : option heap :=
  let bp := ap - sizeof_Header in
  p ← find_place fuel m bp (freep m);
  Some (link_block bp p m).

Definition morecore (fuel : nat) (nu : Z) (m : heap) : option (Z * heap) :=
  let nu := if nu <? 4096 then 4096 else nu in
  let '(p, m) := sbrk (s32 (nu * sizeof_Header)) m in
  if p =? -1 then Some (0, m) else
  let m := set_size p nu m in
  m ← free fuel (plus p 1) m;
  Some (freep m, m).

Definition take_block (prevp p nunits : Z) (m : heap) : Z * heap :=
  if h_size (hdr m p) =? nunits then
    let m := set_ptr prevp (h_ptr (hdr m p)) m in
    (plus p 1, m <| freep := prevp |>)
  else
    let m := set_size p (u32 (h_size (hdr m p) - nunits)) m in
    let p := plus p (h_size (hdr m p)) in
    let m := set_size p nunits m in
    (plus p 1, m <| freep := prevp |>).
Fixpoint malloc_loop (fuel : nat) (nunits prevp p : Z) (m : heap) : option (Z * heap) :=
  match fuel with
  | O => None
  | S fuel =>
      if nunits <=? h_size (hdr m p) then Some (take_block prevp p nunits m) else
      if p =? freep m then
        '(p, m) ← morecore fuel nunits m;
        if p =? 0 then Some (0, m) else malloc_loop fuel nunits p (h_ptr (hdr m p)) m
      else malloc_loop fuel nunits p (h_ptr (hdr m p)) m
  end.
Definition malloc (fuel : nat) (nbytes : Z) (m : heap) : option (Z * heap) :=
  let nunits := u32 ((nbytes + sizeof_Header - 1) / sizeof_Header + 1) in
  let m :=
    if freep m =? 0 then set_size base 0 (set_ptr base base m <| freep := base |>) else m in
  let prevp := freep m in
  malloc_loop fuel nunits prevp (h_ptr (hdr m prevp)) m.
End Alloc.

(** * Tilings

    The blocks that fill an interval without gap or overlap. *)

Fixpoint tiles (lo : Z) (T : list (Z * Z)) (hi : Z) : Prop :=
  match T with
  | [] => lo = hi
  | (x, n) :: T => x = lo /\ 0 < n /\ tiles (plus x n) T hi
  end.
Lemma plus_lt x n : 0 < n -> x < plus x n.
Proof. unfold plus, sizeof_Header. lia. Qed.
Lemma plus_plus x a b : plus (plus x a) b = plus x (a + b).
Proof. unfold plus. lia. Qed.
Lemma tiles_app lo T U hi : tiles lo (T ++ U) hi <-> exists mid, tiles lo T mid /\ tiles mid U hi.
Proof.
  revert lo. induction T as [|[x n] T IH]; intros lo; simpl.
  - split; [intros; by exists lo|]. by intros (? & -> & ?).
  - rewrite IH. naive_solver.
Qed.
Lemma tiles_le lo T hi : tiles lo T hi -> lo <= hi.
Proof.
  revert lo. induction T as [|[x n] T IH]; intros lo; simpl; [lia|].
  intros (-> & Hn & H). apply IH in H. pose proof (plus_lt lo n Hn). lia.
Qed.
Lemma tiles_in lo T hi x n :
  tiles lo T hi -> (x, n) ∈ T -> lo <= x /\ 0 < n /\ plus x n <= hi.
Proof.
  intros H (T1 & T2 & ->)%list_elem_of_split. apply tiles_app in H as (mid & H1 & H2).
  destruct H2 as (-> & Hn & H2). apply tiles_le in H1, H2. lia.
Qed.
Lemma tiles_start lo T hi x n m :
  tiles lo T hi -> (x, n) ∈ T -> (x, m) ∈ T -> n = m.
Proof.
  intros H (T1 & T2 & ->)%list_elem_of_split Hm. apply tiles_app in H as (mid & H1 & H2).
  destruct H2 as (-> & Hn & H2). apply elem_of_app in Hm as [Hm|Hm].
  - pose proof (tiles_in _ _ _ _ _ H1 Hm) as (? & ? & ?). pose proof (plus_lt mid m). lia.
  - apply elem_of_cons in Hm as [[= ->]|Hm]; [done|].
    pose proof (tiles_in _ _ _ _ _ H2 Hm) as (? & ? & ?). pose proof (plus_lt mid n). lia.
Qed.

(** Two neighbours can be merged, a block split, the interval extended. *)
Lemma tiles_merge lo T hi x a b :
  tiles lo T hi -> (x, a) ∈ T -> (plus x a, b) ∈ T ->
  exists T1 T2, T = T1 ++ (x, a) :: (plus x a, b) :: T2 /\ tiles lo (T1 ++ (x, a + b) :: T2) hi.
Proof.
  intros H (T1 & T2 & ->)%list_elem_of_split Hb. pose proof H as H'.
  apply tiles_app in H as (mid & H1 & H2). destruct H2 as (-> & Ha & H2).
  assert ((plus mid a, b) ∈ T2) as Hb2.
  { apply elem_of_app in Hb as [Hb|Hb].
    - pose proof (tiles_in _ _ _ _ _ H1 Hb) as (? & ? & ?).
      pose proof (plus_lt mid a). pose proof (plus_lt (plus mid a) b). lia.
    - apply elem_of_cons in Hb as [Hb|Hb]; [|done]. injection Hb as Hb _.
      pose proof (plus_lt mid a). lia. }
  destruct T2 as [|[y c] T2]; [by apply elem_of_nil in Hb2|].
  destruct H2 as (-> & Hc & H2).
  assert (c = b) as ->.
  { eapply (tiles_start (plus mid a) ((plus mid a, c) :: T2) hi); [done|by left|done]. }
  exists T1, T2. split; [done|]. apply tiles_app. exists mid. split; [done|].
  simpl. rewrite <-plus_plus. split; [done|]. split; [lia|done].
Qed.
Lemma tiles_split lo T1 T2 hi x a b :
  tiles lo (T1 ++ (x, a + b) :: T2) hi -> 0 < a -> 0 < b ->
  tiles lo (T1 ++ (x, a) :: (plus x a, b) :: T2) hi.
Proof.
  rewrite !tiles_app. intros (mid & H1 & -> & _ & H2) Ha Hb. exists mid. split; [done|].
  simpl. rewrite plus_plus. done.
Qed.

Section Proofs.
Context (base limit lo : Z).
Context (base_lo : base < lo) (lo_pos : 0 < base) (room : limit - lo <= 2 ^ 35).

(** The blocks [B], with the header of [base] among them, fill the heap. *)
Definition tiled (B : list (Z * Z)) (hi : Z) : Prop :=
  exists T, tiles lo T hi /\ (base, 0) :: T ≡ₚ B.
#[global] Instance tiled_perm : Proper ((≡ₚ) ==> eq ==> iff) tiled.
Proof.
  intros B B' HB hi _ <-. unfold tiled. split; intros (T & H1 & H2); exists T; split; try done.
  - by rewrite <-HB.
  - by rewrite HB.
Qed.

Lemma tiled_in B hi x n :
  tiled B hi -> (x, n) ∈ B -> (x = base /\ n = 0) \/ (lo <= x /\ 0 < n /\ plus x n <= hi).
Proof.
  intros (T & H1 & H2) Hin. rewrite <-H2 in Hin. apply elem_of_cons in Hin as [[= -> ->]|Hin].
  - by left.
  - right. by eapply tiles_in.
Qed.
(** A block behind [base] is one of the tiling. *)
Lemma tiled_cons x n B hi :
  tiled ((x, n) :: B) hi -> x <> base ->
  exists T1 T2, tiles lo (T1 ++ (x, n) :: T2) hi /\ (base, 0) :: T1 ++ T2 ≡ₚ B.
Proof.
  intros (T & H1 & H2) Hx. assert ((x, n) ∈ (base, 0) :: T) as Hin by (rewrite H2; by left).
  apply elem_of_cons in Hin as [[= -> _]|Hin]; [done|].
  apply list_elem_of_split in Hin as (T1 & T2 & ->). exists T1, T2. split; [done|].
  apply (Permutation_cons_inv (a := (x, n))). rewrite <-H2. solve_Permutation.
Qed.
Lemma tiled_merge x a b B hi :
  tiled ((x, a) :: (plus x a, b) :: B) hi -> x <> base -> plus x a <> base ->
  tiled ((x, a + b) :: B) hi.
Proof.
  intros (T & H1 & H2) Hx Hy.
  assert (forall y n, y <> base -> (y, n) ∈ (x, a) :: (plus x a, b) :: B -> (y, n) ∈ T) as Hin.
  { intros y n Hne Hin. rewrite <-H2 in Hin. by apply elem_of_cons in Hin as [[= -> _]|Hin]. }
  destruct (tiles_merge lo T hi x a b) as (T1 & T2 & -> & HT);
    [done|apply Hin; [done|by left]|apply Hin; [done|by right; left]|].
  exists (T1 ++ (x, a + b) :: T2). split; [done|].
  assert ((base, 0) :: T1 ++ T2 ≡ₚ B) as <-; [|solve_Permutation].
  apply (Permutation_cons_inv (a := (plus x a, b))), (Permutation_cons_inv (a := (x, a))).
  rewrite <-H2. solve_Permutation.
Qed.
Lemma tiled_split x a b B hi :
  tiled ((x, a + b) :: B) hi -> x <> base -> 0 < a -> 0 < b ->
  tiled ((x, a) :: (plus x a, b) :: B) hi.
Proof.
  intros H Hx Ha Hb. destruct (tiled_cons _ _ _ _ H Hx) as (T1 & T2 & H1 & H2).
  exists (T1 ++ (x, a) :: (plus x a, b) :: T2). split; [by apply tiles_split|].
  rewrite <-H2. solve_Permutation.
Qed.
Lemma tiled_grow B hi n : tiled B hi -> 0 < n -> tiled ((hi, n) :: B) (plus hi n).
Proof.
  intros (T & H1 & H2) Hn. exists (T ++ [(hi, n)]). split.
  - apply tiles_app. by exists hi.
  - rewrite <-H2. solve_Permutation.
Qed.
(** Different blocks are apart. *)
Lemma tiled_disjoint x a y b B hi :
  tiled ((x, a) :: (y, b) :: B) hi -> plus x a <= y \/ plus y b <= x.
Proof.
  intros H.
  assert ((x, a) ∈ (x, a) :: (y, b) :: B) as Hx by (by left).
  assert ((y, b) ∈ (x, a) :: (y, b) :: B) as Hy by (by right; left).
  apply (tiled_in _ _ _ _ H) in Hx as [[-> ->]|Hx]; apply (tiled_in _ _ _ _ H) in Hy as [[-> ->]|Hy];
    try (unfold plus in *; lia).
  destruct (tiled_cons _ _ _ _ H) as (T1 & T2 & H1 & H2); [lia|].
  assert ((y, b) ∈ T1 ++ T2) as Hin.
  { assert ((y, b) ∈ (y, b) :: B) as Hb by (by left). rewrite <-H2 in Hb.
    apply elem_of_cons in Hb as [[= -> _]|Hb]; [lia|done]. }
  apply tiles_app in H1 as (mid & H1 & H3). destruct H3 as (-> & Ha & H3).
  apply elem_of_app in Hin as [Hin|Hin].
  - apply (tiles_in _ _ _ _ _ H1) in Hin. lia.
  - apply (tiles_in _ _ _ _ _ H3) in Hin. lia.
Qed.

(** * The list of free blocks *)

(** The headers of [l] are linked in order, the last one to [z]. *)
Fixpoint links (h : Z -> header) (l : list Z) (z : Z) : Prop :=
  match l with
  | [] => True
  | x :: l => h_ptr (h x) = hd z l /\ links h l z
  end.
Lemma links_app h l1 l2 z : links h (l1 ++ l2) z <-> links h l1 (hd z l2) /\ links h l2 z.
Proof.
  induction l1 as [|x l1 IH]; simpl; [tauto|]. rewrite IH.
  destruct l1; simpl; [tauto|]. tauto.
Qed.
Lemma links_ext h h' l z :
  (forall x, x ∈ l -> h_ptr (h' x) = h_ptr (h x)) -> links h l z -> links h' l z.
Proof.
  induction l as [|x l IH]; simpl; [done|]. intros H [H1 H2]. split.
  - rewrite H by (by left). done.
  - apply IH; [|done]. intros y Hy. apply H. by right.
Qed.

(** Ascending, each block ending before the next one begins. *)
Fixpoint gaps (h : Z -> header) (l : list Z) : Prop :=
  match l with
  | x :: l' => match l' with y :: _ => plus x (h_size (h x)) < y | [] => True end /\ gaps h l'
  | [] => True
  end.
Lemma gaps_app h l1 x l2 :
  gaps h (l1 ++ x :: l2) <-> gaps h (l1 ++ [x]) /\ gaps h (x :: l2).
Proof.
  induction l1 as [|y l1 IH]; [simpl; tauto|].
  change ((y :: l1) ++ x :: l2) with (y :: l1 ++ x :: l2).
  change ((y :: l1) ++ [x]) with (y :: l1 ++ [x]). cbn [gaps]. rewrite IH.
  destruct l1; simpl; tauto.
Qed.
Lemma gaps_ext h h' l :
  (forall x, x ∈ l -> h_size (h' x) = h_size (h x)) -> gaps h l -> gaps h' l.
Proof.
  induction l as [|x l IH]; simpl; [done|]. intros H [H1 H2]. split.
  - destruct l; [done|]. rewrite H by (by left). done.
  - apply IH; [|done]. intros y Hy. apply H. by right.
Qed.

Definition blocks (h : Z -> header) (l : list Z) : list (Z * Z) := (fun x => (x, h_size (h x))) <$> l.
Lemma blocks_ext h h' l :
  (forall x, x ∈ l -> h_size (h' x) = h_size (h x)) -> blocks h' l = blocks h l.
Proof. intros H. apply list_fmap_ext. intros i x Hx. by rewrite H by (by eapply list_elem_of_lookup_2). Qed.

(** The state of the allocator: the free blocks are [L], behind [base], in one circular list in
    address order, no two of them adjacent; the blocks handed out are [A], their headers
    untouched; together they fill the heap. *)
Record inv (m : heap) (L : list Z) (A : list (Z * Z)) : Prop := {
  i_head : head L = Some base;
  i_base : h_size (hdr m base) = 0;
  i_links : links (hdr m) L base;
  i_gaps : gaps (hdr m) L;
  i_freep : freep m ∈ L;
  i_tiled : tiled (blocks (hdr m) L ++ A) (brk m);
  i_alloc : Forall (fun '(a, n) => h_size (hdr m a) = n /\ a <> base) A;
  i_limit : brk m <= limit }.

Lemma set_hdr_eq p f m : hdr (set_hdr p f m) p = f (hdr m p).
Proof. unfold set_hdr. simpl. by rewrite Z.eqb_refl. Qed.
Lemma set_hdr_ne p f m x : x <> p -> hdr (set_hdr p f m) x = hdr m x.
Proof. intros H. unfold set_hdr. simpl. by rewrite (proj2 (Z.eqb_neq _ _) H). Qed.

Section Facts.
Context (m : heap) (L : list Z) (A : list (Z * Z)) (I : inv m L A).
Lemma block_in x : x ∈ L -> (x, h_size (hdr m x)) ∈ blocks (hdr m) L ++ A.
Proof. intros H. apply elem_of_app. left. apply list_elem_of_fmap. by exists x. Qed.
Lemma free_block x :
  x ∈ L -> x = base \/ (lo <= x /\ 0 < h_size (hdr m x) /\ plus x (h_size (hdr m x)) <= brk m).
Proof.
  intros H%block_in. apply (tiled_in _ _ _ _ (i_tiled _ _ _ I)) in H as [[? _]|?]; auto.
Qed.
Lemma free_size x : x ∈ L -> 0 <= h_size (hdr m x).
Proof.
  intros H. destruct (free_block x H) as [->|?]; [|lia]. by rewrite (i_base _ _ _ I).
Qed.
Lemma alloc_block a n : (a, n) ∈ A -> lo <= a /\ 0 < n /\ plus a n <= brk m.
Proof.
  intros H. pose proof (i_alloc _ _ _ I) as HA. rewrite Forall_forall in HA.
  destruct (HA _ H) as [_ Hne].
  assert ((a, n) ∈ blocks (hdr m) L ++ A) as Hin by (apply elem_of_app; by right).
  apply (tiled_in _ _ _ _ (i_tiled _ _ _ I)) in Hin as [[? _]|?]; done.
Qed.
Lemma base_in : base ∈ L.
Proof. pose proof (i_head _ _ _ I). destruct L; [done|]. injection H as ->. by left. Qed.
End Facts.

Lemma gaps_lt h x l y :
  (forall z, z ∈ x :: l -> 0 <= h_size (h z)) -> gaps h (x :: l) -> y ∈ l -> plus x (h_size (h x)) < y.
Proof.
  revert x. induction l as [|z l IH]; intros x Hs [H1 H2] Hy; [by apply elem_of_nil in Hy|].
  apply elem_of_cons in Hy as [->|Hy]; [done|].
  assert (plus z (h_size (h z)) < y) by (apply IH; [intros; apply Hs; by right|done|done]).
  assert (0 <= h_size (h z)) by (apply Hs; right; by left). unfold plus, sizeof_Header in *. lia.
Qed.
Section Order.
Context (m : heap) (L : list Z) (A : list (Z * Z)) (I : inv m L A).
(** The list is in ascending order. *)
Lemma free_lt l1 x l2 y : L = l1 ++ x :: l2 -> y ∈ l2 -> plus x (h_size (hdr m x)) < y.
Proof.
  intros E Hy. pose proof (i_gaps _ _ _ I) as Hg. rewrite E in Hg. apply gaps_app in Hg as [_ Hg].
  eapply gaps_lt; [|done|done]. intros z Hz. eapply free_size; [done|]. rewrite E. set_solver.
Qed.
Lemma free_order l1 x l2 y : L = l1 ++ x :: l2 -> y ∈ l2 -> x < y.
Proof.
  intros E Hy. pose proof (free_lt _ _ _ _ E Hy).
  assert (0 <= h_size (hdr m x)) by (eapply free_size; [done|]; rewrite E; set_solver).
  unfold plus, sizeof_Header in *. lia.
Qed.
Lemma free_next l1 x l2 : L = l1 ++ x :: l2 -> h_ptr (hdr m x) = hd base l2.
Proof.
  intros E. pose proof (i_links _ _ _ I) as H. rewrite E in H. apply links_app in H as [_ H].
  apply H.
Qed.

(** The place of a block of the heap that is not free. *)
Context (bp : Z) (bp_lo : lo <= bp) (bp_new : bp ∉ L).
Lemma place : exists l1 p l2, L = l1 ++ p :: l2 /\ p < bp /\ forall y, y ∈ l2 -> bp < y.
Proof.
  pose proof (i_head _ _ _ I) as Hh.
  assert (forall l1 x l2 y, L = l1 ++ x :: l2 -> y ∈ l2 -> x < y) as Ho by apply free_order.
  clear I. revert bp_new Hh Ho. induction L as [|x l IH] using rev_ind; intros Hn Hh Ho; [done|].
  destruct (decide (x < bp)) as [Hx|Hx].
  - exists l, x, []. split; [done|]. split; [done|]. by intros y ?%elem_of_nil.
  - assert (bp < x) by (assert (bp <> x) by set_solver; lia).
    destruct l as [|b l]; [simpl in Hh; injection Hh as ->; lia|].
    destruct IH as (l1 & p & l2 & E & Hp & Hl2); [set_solver|done| |].
    { intros l1 y l2 z E Hz. apply (Ho l1 y (l2 ++ [x])); [by rewrite E, <-app_assoc|set_solver]. }
    exists l1, p, (l2 ++ [x]). split; [by rewrite E, <-app_assoc|]. split; [done|].
    intros y [?|?%list_elem_of_singleton]%elem_of_app; subst; auto.
Qed.
Lemma belongs_place l1 p l2 x :
  L = l1 ++ p :: l2 -> p < bp -> (forall y, y ∈ l2 -> bp < y) -> x ∈ L ->
  belongs m bp x = true <-> x = p.
Proof.
  intros E Hp Hl2 Hx. pose proof base_lo as Hbl.
  assert (forall y, y ∈ L -> base <= y) as Hb.
  { intros y Hy. destruct (free_block m L A I y Hy) as [->|?]; lia. }
  unfold belongs. split.
  - intros H. pose proof Hx as Hx'. rewrite E in Hx'. apply elem_of_app in Hx' as [H1|H1].
    + apply list_elem_of_split in H1 as (a & b & ->).
      assert (L = a ++ x :: (b ++ p :: l2)) as E1 by (by rewrite E, <-app_assoc).
      rewrite (free_next _ _ _ E1) in H.
      assert (x < hd base (b ++ p :: l2) <= p) as [H2 H3].
      { split; [apply (free_order _ _ _ _ E1); destruct b; by left|].
        destruct b as [|z b]; simpl; [lia|].
        assert (z < p); [|lia]. apply (free_order (a ++ [x]) z (b ++ p :: l2)); [|set_solver].
        rewrite E1. by rewrite <-app_assoc. }
      zcase; simpl in H; try done; lia.
    + apply elem_of_cons in H1 as [->|H1]; [done|]. pose proof (Hl2 _ H1).
      apply list_elem_of_split in H1 as (a & b & ->).
      assert (L = (l1 ++ p :: a) ++ x :: b) as E1 by (by rewrite E, <-app_assoc).
      rewrite (free_next _ _ _ E1) in H. destruct b as [|z b]; simpl in H.
      * zcase; simpl in H; try done; lia.
      * assert (x < z) by (apply (free_order _ _ _ _ E1); by left).
        zcase; simpl in H; try done; lia.
  - intros ->. rewrite (free_next _ _ _ E). destruct l2 as [|z l2]; simpl.
    + assert (base <= p) by auto. zcase; simpl; try done; lia.
    + assert (bp < z) by (apply Hl2; by left). zcase; simpl; try done; lia.
Qed.
Lemma find_place_seg fuel c z :
  links (hdr m) c z -> (forall y, y ∈ c -> belongs m bp y = false) ->
  find_place (length c + fuel) m bp (hd z c) = find_place fuel m bp z.
Proof.
  induction c as [|x c IH]; intros Hl Hb; [done|]. simpl. rewrite Hb by (by left).
  destruct Hl as [-> Hl]. apply IH; [done|]. intros y Hy. apply Hb. by right.
Qed.
Lemma find_place_run fuel l1 p l2 :
  L = l1 ++ p :: l2 -> p < bp -> (forall y, y ∈ l2 -> bp < y) -> (length L <= fuel)%nat ->
  find_place fuel m bp (freep m) = Some p.
Proof.
  intros E Hp Hl2 Hf.
  assert (forall y, y ∈ L -> y <> p -> belongs m bp y = false) as Hno.
  { intros y Hy Hne. destruct (belongs m bp y) eqn:Eb; [|done].
    by apply (belongs_place l1 p l2) in Eb. }
  assert (belongs m bp p = true) as Hyes.
  { apply (belongs_place l1 p l2); try done. rewrite E. set_solver. }
  assert (forall f, (0 < f)%nat -> find_place f m bp p = Some p) as Hend.
  { intros [|f]; [lia|]. simpl. by rewrite Hyes. }
  assert (forall l1' x l2', L = l1' ++ x :: l2' -> x ∉ l2' /\ x ∉ l1') as Hnd.
  { intros l1' x l2' E'. split.
    - intros H. pose proof (free_order _ _ _ _ E' H). lia.
    - intros (a & b & ->)%list_elem_of_split. rewrite <-app_assoc in E'.
      assert (x < x); [|lia]. apply (free_order a x (b ++ x :: l2')); [done|set_solver]. }
  pose proof (i_freep _ _ _ I) as Hfr. apply list_elem_of_split in Hfr as (a & b & Ef).
  pose proof (i_links _ _ _ I) as Hlk.
  assert (p ∈ a ++ freep m :: b) as Hin by (rewrite <-Ef, E; set_solver).
  rewrite Ef in Hf. rewrite length_app in Hf. simpl in Hf.
  apply elem_of_app in Hin as [Hin|Hin].
  - apply list_elem_of_split in Hin as (c & d & ->).
    rewrite Ef in Hlk. apply links_app in Hlk as [H1 H2]. rewrite length_app in Hf. simpl in Hf.
    apply links_app in H1 as [H1 H3].
    replace fuel with (length (freep m :: b) + (length c + (fuel - length c - length (freep m :: b))))%nat
      by (simpl; lia).
    etransitivity; [apply (find_place_seg _ (freep m :: b) base); [done|]|].
    + intros y Hy. apply Hno; [rewrite Ef; set_solver|]. intros ->.
      destruct (Hnd c p (d ++ freep m :: b)); [by rewrite Ef, <-app_assoc|set_solver].
    + assert (base = hd p c) as ->.
      { pose proof (i_head _ _ _ I) as Hh. rewrite Ef in Hh. destruct c; simpl in *; congruence. }
      rewrite find_place_seg; [apply Hend; simpl; lia|done|].
      intros y Hy. apply Hno; [rewrite Ef; set_solver|]. intros ->.
      destruct (Hnd c p (d ++ freep m :: b)); [by rewrite Ef, <-app_assoc|done].
  - apply list_elem_of_split in Hin as (c & d & Ec).
    rewrite Ef, Ec in Hlk. rewrite app_assoc in Hlk. apply links_app in Hlk as [H1 H2].
    apply links_app in H1 as [_ H1].
    assert (length c < fuel)%nat.
    { assert (length (freep m :: b) = length c + S (length d))%nat as Hlen
        by (rewrite Ec, length_app; done). simpl in Hlen. lia. }
    replace fuel with (length c + (fuel - length c))%nat by lia.
    assert (freep m = hd p c) as -> by (destruct c; simpl in *; congruence).
    rewrite find_place_seg; [apply Hend; lia|done|].
    intros y Hy. apply Hno; [rewrite Ef, Ec; set_solver|]. intros ->.
    destruct (Hnd (a ++ c) p d); [by rewrite Ef, Ec, app_assoc|set_solver].
Qed.
End Order.

(** No two blocks begin at one place. *)
Lemma tiled_ne x a y b B hi : tiled ((x, a) :: (y, b) :: B) hi -> x <> y.
Proof.
  intros H ->. pose proof (tiled_disjoint _ _ _ _ _ _ H) as Hd.
  assert ((y, a) ∈ (y, a) :: (y, b) :: B) as Hx by (by left).
  assert ((y, b) ∈ (y, a) :: (y, b) :: B) as Hy by (by right; left).
  apply (tiled_in _ _ _ _ H) in Hx as [[-> ->]|Hx]; apply (tiled_in _ _ _ _ H) in Hy as [[Hyb ->]|Hy];
    try (unfold plus, sizeof_Header in *; lia).
  destruct H as (T & H1 & H2). apply Permutation_cons_inv in H2.
  assert ((base, 0) ∈ T) as Hin by (rewrite H2; by left).
  apply (tiles_in _ _ _ _ _ H1) in Hin. lia.
Qed.
Lemma tiled_nodup B hi : tiled B hi -> NoDup (fst <$> B).
Proof.
  intros H. apply NoDup_alt. intros i j x Hi Hj.
  rewrite list_lookup_fmap in Hi, Hj. apply fmap_Some in Hi as ([x' a] & Hi & ->), Hj as ([y b] & Hj & Hxy).
  simpl in Hxy. subst y. destruct (decide (i = j)) as [|Hne]; [done|exfalso].
  apply delete_Permutation in Hi as Hp.
  assert ((x', b) ∈ delete i B) as Hin.
  { apply list_elem_of_lookup. destruct (decide (i < j)%nat).
    - exists (j - 1)%nat. rewrite list_lookup_delete_ge by lia. by replace (S (j - 1)) with j by lia.
    - exists j. by rewrite list_lookup_delete_lt by lia. }
  apply list_elem_of_split in Hin as (B1 & B2 & E). rewrite E in Hp.
  assert (B ≡ₚ (x', a) :: (x', b) :: B1 ++ B2) as Hp2 by (rewrite Hp; solve_Permutation).
  rewrite Hp2 in H. by apply tiled_ne in H.
Qed.
Lemma inv_nodup m L A : inv m L A -> NoDup (L ++ (fst <$> A)).
Proof.
  intros I. pose proof (tiled_nodup _ _ (i_tiled _ _ _ I)) as H.
  rewrite fmap_app in H. unfold blocks in H. rewrite <-list_fmap_compose in H.
  by rewrite list_fmap_id in H.
Qed.
Lemma tiled_size B hi x n : tiled B hi -> (x, n) ∈ B -> hi <= limit -> u32 n = n.
Proof.
  intros H Hin Hl. apply Z.mod_small.
  destruct (tiled_in _ _ _ _ H Hin) as [[_ ->]|?]; unfold plus, sizeof_Header in *; lia.
Qed.

(** * free *)

(** The first half: the block above, if [bp] ends where it begins, becomes part of it. *)
Definition absorb (bp q : Z) (m : heap) : heap :=
  if plus bp (h_size (hdr m bp)) =? q then
    let m := set_size bp (u32 (h_size (hdr m bp) + h_size (hdr m q))) m in
    set_ptr bp (h_ptr (hdr m q)) m
  else set_ptr bp q m.

Section Free.
Context (m : heap) (L : list Z) (A : list (Z * Z)) (bp n : Z).
Context (I : inv m L ((bp, n) :: A)).
Context (l1 : list Z) (p : Z) (l2 : list Z).
Context (E : L = l1 ++ p :: l2) (p_bp : p < bp) (bp_l2 : forall y, y ∈ l2 -> bp < y).

Lemma bp_size : h_size (hdr m bp) = n /\ bp <> base.
Proof. pose proof (i_alloc _ _ _ I) as H. by inversion H. Qed.
Lemma bp_facts : bp ∉ L /\ 0 < n /\ lo <= bp /\ plus bp n <= brk m.
Proof.
  pose proof (inv_nodup _ _ _ I) as H. apply NoDup_app in H as (_ & H & _).
  assert ((bp, n) ∈ (bp, n) :: A) as Hin by (by left).
  pose proof (alloc_block _ _ _ I _ _ Hin). split; [|lia]. intros Hb. apply (H bp Hb). by left.
Qed.
(** What [absorb] gives: a block [n1] long, linked to what is left of [l2], apart from it. *)
Record absorbed (m1 : heap) (l3 : list Z) (n1 : Z) : Prop := {
  ab_hdr : forall x, x <> bp -> hdr m1 x = hdr m x;
  ab_bp : hdr m1 bp = mkHeader (hd base l3) n1;
  ab_freep : freep m1 = freep m;
  ab_brk : brk m1 = brk m;
  ab_tiled : tiled (blocks (hdr m) (l1 ++ p :: l3) ++ (bp, n1) :: A) (brk m);
  ab_apart : forall y, y ∈ l3 -> plus bp n1 < y;
  ab_links : links (hdr m) l3 base;
  ab_gaps : gaps (hdr m) l3;
  ab_sub : forall y, y ∈ l3 -> y ∈ l2;
  ab_size : n <= n1;
  ab_length : (length l3 <= length l2)%nat }.

Lemma blocks_app h l l' : blocks h (l ++ l') = blocks h l ++ blocks h l'.
Proof. apply fmap_app. Qed.
Lemma absorb_none l3 :
  l3 = l2 -> (forall y, y ∈ l2 -> plus bp n < y) ->
  absorbed (set_ptr bp (hd base l2) m) l3 n.
Proof.
  intros -> Hy. destruct bp_size as [Hs _].
  pose proof (i_links _ _ _ I) as Hl. rewrite E in Hl. apply links_app in Hl as [_ [_ Hl]].
  pose proof (i_gaps _ _ _ I) as Hg. rewrite E in Hg. apply gaps_app in Hg as [_ [_ Hg]].
  pose proof (i_tiled _ _ _ I) as Ht. rewrite E in Ht.
  split; try done.
  - intros x Hx. by apply set_hdr_ne.
  - unfold set_ptr. rewrite set_hdr_eq. destruct (hdr m bp). simpl in Hs. by subst.
Qed.
Lemma absorb_run : exists l3 n1, absorbed (absorb bp (hd base l2) m) l3 n1.
Proof.
  destruct bp_size as [Hs Hne]. destruct bp_facts as (Hnew & Hn & Hlo & Hhi).
  unfold absorb. rewrite Hs. destruct (Z.eqb_spec (plus bp n) (hd base l2)) as [Eq|Eq].
  - destruct l2 as [|y l3] eqn:El2; simpl in Eq.
    { unfold plus, sizeof_Header in Eq. lia. }
    assert (L = (l1 ++ [p]) ++ y :: l3) as Ey by (by rewrite E, <-app_assoc).
    assert (y <> bp) as Hyb by (intros ->; apply Hnew; rewrite Ey; set_solver).
    exists l3, (n + h_size (hdr m y)). simpl hd.
    pose proof (i_tiled _ _ _ I) as Ht. rewrite Ey in Ht.
    assert (blocks (hdr m) ((l1 ++ [p]) ++ y :: l3) ++ (bp, n) :: A ≡ₚ
      (bp, n) :: (plus bp n, h_size (hdr m y)) :: blocks (hdr m) (l1 ++ p :: l3) ++ A) as Hp.
    { rewrite Eq, !blocks_app. simpl. rewrite <-app_assoc. solve_Permutation. }
    rewrite Hp in Ht. apply tiled_merge in Ht; [|done|unfold plus, sizeof_Header; lia].
    assert (u32 (n + h_size (hdr m y)) = n + h_size (hdr m y)) as Hu.
    { eapply (tiled_size _ _ bp); [exact Ht|by left|]. apply (i_limit _ _ _ I). }
    pose proof (i_links _ _ _ I) as Hl. rewrite Ey in Hl. apply links_app in Hl as [_ [Hl1 Hl]].
    pose proof (i_gaps _ _ _ I) as Hg. rewrite Ey in Hg. apply gaps_app in Hg as [_ [_ Hg]].
    split; try done.
    + intros x Hx. unfold set_ptr, set_size. by rewrite !set_hdr_ne.
    + unfold set_ptr, set_size. rewrite set_hdr_eq, set_hdr_ne, set_hdr_eq, Hu, Hl1 by done. done.
    + rewrite Permutation_middle in Ht. exact Ht.
    + intros z Hz. rewrite <-plus_plus, Eq. by apply (free_lt _ _ _ I _ _ _ _ Ey).
    + intros z Hz. rewrite El2; by right.
    + enough (0 <= h_size (hdr m y)) by lia. eapply free_size; [exact I|]. rewrite Ey. set_solver.
    + rewrite El2. simpl. lia.
  - exists l2, n. apply absorb_none; [done|]. intros z Hz.
    destruct l2 as [|y l3] eqn:El2; [by apply elem_of_nil in Hz|]. simpl in Eq.
    assert (L = (l1 ++ [p]) ++ y :: l3) as Ey by (by rewrite E, <-app_assoc).
    assert (bp < y) as Hy by (apply bp_l2; by left).
    pose proof (i_tiled _ _ _ I) as Ht. rewrite Ey in Ht.
    assert (blocks (hdr m) ((l1 ++ [p]) ++ y :: l3) ++ (bp, n) :: A ≡ₚ
      (bp, n) :: (y, h_size (hdr m y)) :: blocks (hdr m) (l1 ++ p :: l3) ++ A) as Hp.
    { rewrite !blocks_app. simpl. rewrite <-app_assoc. solve_Permutation. }
    rewrite Hp in Ht. apply tiled_disjoint in Ht.
    assert (0 <= h_size (hdr m y)) by (eapply free_size; [exact I|]; rewrite Ey; set_solver).
    assert (plus bp n < y) by (unfold plus, sizeof_Header in *; lia).
    apply elem_of_cons in Hz as [->|Hz]; [done|].
    pose proof (free_order _ _ _ I _ _ _ _ Ey Hz). lia.
Qed.

(** The second half: the block below absorbs it, or is linked to it. *)
Definition attach (m : heap) : heap :=
  let m :=
    if plus p (h_size (hdr m p)) =? bp then
      let m := set_size p (u32 (h_size (hdr m p) + h_size (hdr m bp))) m in
      set_ptr p (h_ptr (hdr m bp)) m
    else set_ptr p bp m in
  m <| freep := p |>.
Lemma link_block_halves : link_block bp p m = attach (absorb bp (hd base l2) m).
Proof. unfold link_block. by rewrite (free_next _ _ _ I _ _ _ E). Qed.

Section Attach.
Context (m1 : heap) (l3 : list Z) (n1 : Z) (B : absorbed m1 l3 n1).
Lemma p_ne : p <> bp.
Proof. lia. Qed.
Lemma parts_nodup : NoDup (l1 ++ p :: l2) /\ bp ∉ l1 ++ p :: l2.
Proof.
  pose proof (inv_nodup _ _ _ I) as H. apply NoDup_app in H as (H & _ & _). rewrite <-E.
  split; [done|]. apply bp_facts.
Qed.
Lemma allocated_apart a k : (a, k) ∈ A -> a <> p /\ a <> bp /\ h_size (hdr m a) = k /\ a <> base.
Proof.
  intros Ha. pose proof (inv_nodup _ _ _ I) as H. pose proof (i_alloc _ _ _ I) as HA.
  apply Forall_cons in HA as [_ HA']. rewrite Forall_forall in HA'. pose proof (HA' _ Ha) as [Hs1 Hs2].
  apply NoDup_app in H as (_ & H1 & H2). simpl in H2. apply NoDup_cons in H2 as [H2 _].
  repeat split; try done.
  - intros ->. apply (H1 p); [rewrite E; set_solver|]. right. apply list_elem_of_fmap. by exists (p, k).
  - intros ->. apply H2. apply list_elem_of_fmap. by exists (bp, k).
Qed.
(** The headers of [attach], case by case. *)
Lemma attach_other m2 x f : m2 = set_hdr p f m1 -> x <> p -> x <> bp -> hdr m2 x = hdr m x.
Proof. intros -> Hp Hb. rewrite set_hdr_ne by done. by apply (ab_hdr _ _ _ B). Qed.

Lemma gaps_prefix h h' l x :
  (forall y, y ∈ l -> h_size (h' y) = h_size (h y)) -> gaps h (l ++ [x]) -> gaps h' (l ++ [x]).
Proof.
  induction l as [|y l IH]; [done|]. intros H Hg.
  change ((y :: l) ++ [x]) with (y :: l ++ [x]) in *. destruct Hg as [H1 H2]. split.
  - rewrite H by (by left). done.
  - apply IH; [|done]. intros z Hz. apply H. by right.
Qed.
(** What stays the same whichever way [p] is changed. *)
Lemma attach_common m2 :
  (forall x, x <> p -> x <> bp -> hdr m2 x = hdr m x) ->
  links (hdr m2) l1 p /\ links (hdr m2) l3 base /\ gaps (hdr m2) (l1 ++ [p]) /\ gaps (hdr m2) l3 /\
  blocks (hdr m2) l1 = blocks (hdr m) l1 /\ blocks (hdr m2) l3 = blocks (hdr m) l3 /\
  Forall (fun '(a, k) => h_size (hdr m2 a) = k /\ a <> base) A /\
  (p <> base -> h_size (hdr m2 base) = 0).
Proof.
  intros H. destruct parts_nodup as [Hd Hb].
  assert (forall x, x ∈ l1 -> hdr m2 x = hdr m x) as H1.
  { intros x Hx. apply NoDup_app in Hd as (_ & Hd & _). apply H; [|set_solver].
    intros ->. apply (Hd p Hx). by left. }
  assert (forall x, x ∈ l3 -> hdr m2 x = hdr m x) as H3.
  { intros x Hx%(ab_sub _ _ _ B). apply NoDup_app in Hd as (_ & _ & Hd).
    apply NoDup_cons in Hd as [Hd _]. apply H; [congruence|set_solver]. }
  pose proof (i_links _ _ _ I) as Hl. rewrite E in Hl. apply links_app in Hl as [Hl _].
  pose proof (i_gaps _ _ _ I) as Hg. rewrite E in Hg. apply gaps_app in Hg as [Hg _].
  repeat split.
  - eapply links_ext; [|exact Hl]. intros x Hx. by rewrite H1.
  - eapply links_ext; [|apply (ab_links _ _ _ B)]. intros x Hx. by rewrite H3.
  - eapply gaps_prefix; [|exact Hg]. intros x Hx. by rewrite H1.
  - eapply gaps_ext; [|apply (ab_gaps _ _ _ B)]. intros x Hx. by rewrite H3.
  - apply blocks_ext. intros x Hx. by rewrite H1.
  - apply blocks_ext. intros x Hx. by rewrite H3.
  - apply Forall_forall. intros [a k] Ha. destruct (allocated_apart a k Ha) as (? & ? & ? & ?).
    by rewrite H.
  - intros Hp. destruct bp_size. rewrite H by done. apply (i_base _ _ _ I).
Qed.

Lemma head_same l l' : head (l1 ++ p :: l) = head (l1 ++ p :: l').
Proof. by destruct l1. Qed.
(** The block below ends where [bp] begins. *)
Lemma attach_merge :
  plus p (h_size (hdr m p)) = bp ->
  inv (attach m1) (l1 ++ p :: l3) A /\ n <= h_size (hdr (attach m1) p).
Proof.
  intros Eq. destruct bp_facts as (Hnew & Hn & Hlo & Hhi).
  pose proof (ab_hdr _ _ _ B p p_ne) as Hp1. pose proof (ab_bp _ _ _ B) as Hbp.
  assert (p <> base) as Hpb.
  { intros ->. rewrite (i_base _ _ _ I) in Eq. unfold plus in Eq. lia. }
  pose proof (ab_tiled _ _ _ B) as Ht.
  assert (blocks (hdr m) (l1 ++ p :: l3) ++ (bp, n1) :: A ≡ₚ
    (p, h_size (hdr m p)) :: (plus p (h_size (hdr m p)), n1) :: (blocks (hdr m) l1 ++ blocks (hdr m) l3) ++ A)
    as Hp. { rewrite Eq, blocks_app. simpl. solve_Permutation. }
  rewrite Hp in Ht. apply tiled_merge in Ht; [|done|lia].
  assert (u32 (h_size (hdr m p) + n1) = h_size (hdr m p) + n1) as Hu.
  { eapply (tiled_size _ _ p); [exact Ht|by left|apply (i_limit _ _ _ I)]. }
  assert (attach m1 = set_ptr p (hd base l3) (set_size p (h_size (hdr m p) + n1) m1) <| freep := p |>) as Em.
  { unfold attach. rewrite Hp1, Eq, Z.eqb_refl, Hbp. cbn [h_size]. rewrite Hu.
    unfold set_size at 1. rewrite set_hdr_ne, Hbp by (pose proof p_ne; congruence). done. }
  assert (hdr (attach m1) p = mkHeader (hd base l3) (h_size (hdr m p) + n1)) as Hh.
  { rewrite Em. simpl. unfold set_size, set_ptr, set_hdr. simpl. by rewrite Z.eqb_refl. }
  destruct (attach_common (attach m1)) as (C1 & C2 & C3 & C4 & C5 & C6 & C7 & C8).
  { intros x H1 H2. rewrite Em. simpl. unfold set_ptr, set_size. rewrite <-(ab_hdr _ _ _ B x H2).
    change (hdr (set_hdr p (fun h => h <| h_ptr := hd base l3 |>)
      (set_hdr p (fun h => h <| h_size := h_size (hdr m p) + n1 |>) m1)) x = hdr m1 x).
    by rewrite !set_hdr_ne. }
  pose proof (ab_size _ _ _ B). split.
  - split; try done.
    + rewrite (head_same l3 l2), <-E. apply (i_head _ _ _ I).
    + auto.
    + apply links_app. split; [done|]. split; [by rewrite Hh|done].
    + apply gaps_app. split; [done|]. split; [|done]. destruct l3 as [|y l3']; [done|].
      rewrite Hh. simpl h_size. rewrite <-plus_plus, Eq. apply (ab_apart _ _ _ B). by left.
    + rewrite Em. simpl. set_solver.
    + rewrite blocks_app, C5. change (blocks ?h (p :: l3)) with ((p, h_size (h p)) :: blocks h l3).
      rewrite C6, Hh, Em. simpl brk. rewrite (ab_brk _ _ _ B). simpl h_size.
      assert ((blocks (hdr m) l1 ++ (p, h_size (hdr m p) + n1) :: blocks (hdr m) l3) ++ A ≡ₚ
        (p, h_size (hdr m p) + n1) :: (blocks (hdr m) l1 ++ blocks (hdr m) l3) ++ A) as -> by solve_Permutation.
      done.
    + rewrite Em. simpl. rewrite (ab_brk _ _ _ B). apply (i_limit _ _ _ I).
  - rewrite Hh. simpl. enough (0 <= h_size (hdr m p)) by lia.
    eapply free_size; [exact I|]. rewrite E. set_solver.
Qed.
(** There is a gap between them. *)
Lemma attach_link :
  plus p (h_size (hdr m p)) <> bp ->
  inv (attach m1) (l1 ++ p :: bp :: l3) A /\ n <= h_size (hdr (attach m1) bp).
Proof.
  intros Hne. destruct bp_facts as (Hnew & Hn & Hlo & Hhi). destruct bp_size as [_ Hbb].
  pose proof (ab_hdr _ _ _ B p p_ne) as Hp1. pose proof (ab_bp _ _ _ B) as Hbp.
  assert (p ∈ L) as HpL by (rewrite E; set_solver).
  assert (attach m1 = set_ptr p bp m1 <| freep := p |>) as Em.
  { unfold attach. rewrite Hp1. by rewrite (proj2 (Z.eqb_neq _ _) Hne). }
  assert (hdr (attach m1) p = mkHeader bp (h_size (hdr m p))) as Hh.
  { rewrite Em. simpl. unfold set_ptr, set_hdr. simpl. rewrite Z.eqb_refl, Hp1. done. }
  assert (hdr (attach m1) bp = mkHeader (hd base l3) n1) as Hhb.
  { rewrite Em. simpl. rewrite <-Hbp. pose proof p_ne.
    change (hdr (set_ptr p bp m1) bp = hdr m1 bp). by apply set_hdr_ne. }
  destruct (attach_common (attach m1)) as (C1 & C2 & C3 & C4 & C5 & C6 & C7 & C8).
  { intros x H1 H2. rewrite <-(ab_hdr _ _ _ B x H2), Em.
    change (hdr (set_ptr p bp m1) x = hdr m1 x). by apply set_hdr_ne. }
  assert (plus p (h_size (hdr m p)) < bp) as Hgap.
  { pose proof (i_tiled _ _ _ I) as Ht. rewrite E in Ht.
    assert (blocks (hdr m) (l1 ++ p :: l2) ++ (bp, n) :: A ≡ₚ
      (p, h_size (hdr m p)) :: (bp, n) :: (blocks (hdr m) l1 ++ blocks (hdr m) l2) ++ A) as Hp.
    { rewrite blocks_app. simpl. solve_Permutation. }
    rewrite Hp in Ht. apply tiled_disjoint in Ht. unfold plus, sizeof_Header in *. lia. }
  pose proof (ab_size _ _ _ B). split.
  - split; try done.
    + rewrite (head_same (bp :: l3) l2), <-E. apply (i_head _ _ _ I).
    + destruct (decide (p = base)) as [Hpb|Hpb]; [|auto]. rewrite <-Hpb, Hh. simpl.
      rewrite Hpb. apply (i_base _ _ _ I).
    + apply links_app. split; [done|]. split; [by rewrite Hh|]. split; [by rewrite Hhb|done].
    + apply gaps_app. split; [done|]. split; [by rewrite Hh|]. split; [|done].
      destruct l3 as [|y l3']; [done|]. rewrite Hhb. apply (ab_apart _ _ _ B). by left.
    + rewrite Em. simpl. set_solver.
    + rewrite blocks_app, C5.
      change (blocks ?h (p :: bp :: l3)) with ((p, h_size (h p)) :: (bp, h_size (h bp)) :: blocks h l3).
      rewrite C6, Hh, Hhb, Em. simpl brk. rewrite (ab_brk _ _ _ B). simpl h_size.
      pose proof (ab_tiled _ _ _ B) as Ht.
      assert (blocks (hdr m) (l1 ++ p :: l3) ++ (bp, n1) :: A ≡ₚ
        (blocks (hdr m) l1 ++ (p, h_size (hdr m p)) :: (bp, n1) :: blocks (hdr m) l3) ++ A) as <-; [|done].
      rewrite blocks_app. simpl. solve_Permutation.
    + rewrite Em. simpl. rewrite (ab_brk _ _ _ B). apply (i_limit _ _ _ I).
  - by rewrite Hhb.
Qed.
Lemma attach_run :
  exists L', inv (attach m1) L' A /\ (length L' <= S (length L))%nat /\
    exists x, x ∈ L' /\ n <= h_size (hdr (attach m1) x).
Proof.
  pose proof (ab_length _ _ _ B) as Hl.
  destruct (Z.eq_dec (plus p (h_size (hdr m p))) bp) as [Hm|Hm].
  - destruct (attach_merge Hm) as [H1 H2]. eexists. split; [exact H1|].
    split; [rewrite E, !length_app; simpl; lia|]. exists p. split; [set_solver|done].
  - destruct (attach_link Hm) as [H1 H2]. eexists. split; [exact H1|].
    split; [rewrite E, !length_app; simpl; lia|]. exists bp. split; [set_solver|done].
Qed.
End Attach.
End Free.

(** free gives a block back: it is free afterwards, and part of a free block of at least its
    size. *)
Lemma free_run m L A bp n fuel :
  inv m L ((bp, n) :: A) -> (length L <= fuel)%nat ->
  exists m' L', free fuel (plus bp 1) m = Some m' /\ inv m' L' A /\ brk m' = brk m /\
    (length L' <= S (length L))%nat /\ exists x, x ∈ L' /\ n <= h_size (hdr m' x).
Proof.
  intros I Hf. destruct (bp_facts _ _ _ _ _ I) as (Hnew & Hn & Hlo & Hhi).
  destruct (place _ _ _ I bp Hlo Hnew) as (l1 & p & l2 & E & Hp & Hl2).
  unfold free. replace (plus bp 1 - sizeof_Header) with bp by (unfold plus, sizeof_Header; lia).
  rewrite (find_place_run _ _ _ I bp Hlo Hnew fuel l1 p l2) by done. simpl.
  rewrite (link_block_halves _ _ _ _ _ I l1 p l2 E).
  destruct (absorb_run _ _ _ _ _ I l1 p l2 E Hp Hl2) as (l3 & n1 & B).
  destruct (attach_run _ _ _ _ _ I l1 p l2 E Hp Hl2 _ _ _ B) as (L' & I' & Hlen & Hx).
  eexists _, L'. split; [done|]. split; [done|]. split; [|done].
  unfold attach. destruct (_ =? _); apply (ab_brk _ _ _ _ _ _ _ _ _ _ B).
Qed.

(** * malloc *)

Section Take.
Context (m : heap) (L : list Z) (A : list (Z * Z)) (I : inv m L A) (k : Z) (k_pos : 0 < k).
Context (prevp p : Z) (prevp_in : prevp ∈ L) (next : h_ptr (hdr m prevp) = p).
Context (p_in : p ∈ L) (fits : k <= h_size (hdr m p)).

Lemma fit_not_base : p <> base.
Proof. intros E. rewrite E, (i_base _ _ _ I) in fits. lia. Qed.
Lemma take_split : exists l1 l2, L = l1 ++ prevp :: p :: l2.
Proof.
  apply list_elem_of_split in prevp_in as (l1 & l2 & E). pose proof (free_next _ _ _ I _ _ _ E) as H.
  rewrite next in H. pose proof fit_not_base. destruct l2 as [|y l2]; simpl in H; [congruence|].
  subst y. by exists l1, l2.
Qed.
(** The block fits exactly and leaves the list. *)
Lemma take_exact :
  h_size (hdr m p) = k ->
  exists L', inv (set_ptr prevp (h_ptr (hdr m p)) m <| freep := prevp |>) L' ((p, k) :: A).
Proof.
  intros Ek. destruct take_split as (l1 & l2 & E). pose proof fit_not_base as Hpb.
  assert (L = (l1 ++ [prevp]) ++ p :: l2) as E2 by (by rewrite E, <-app_assoc).
  rewrite (free_next _ _ _ I _ _ _ E2).
  set (m' := set_ptr prevp (hd base l2) m <| freep := prevp |>).
  assert (forall x, x <> prevp -> hdr m' x = hdr m x) as Ho.
  { intros x Hx. change (hdr (set_ptr prevp (hd base l2) m) x = hdr m x). by apply set_hdr_ne. }
  assert (hdr m' prevp = mkHeader (hd base l2) (h_size (hdr m prevp))) as Hh.
  { change (hdr (set_ptr prevp (hd base l2) m) prevp = mkHeader (hd base l2) (h_size (hdr m prevp))).
    apply set_hdr_eq. }
  assert (forall x, h_size (hdr m' x) = h_size (hdr m x)) as Hs.
  { intros x. destruct (decide (x = prevp)) as [->|]; [by rewrite Hh|by rewrite Ho]. }
  pose proof (inv_nodup _ _ _ I) as Hd. rewrite E in Hd. apply NoDup_app in Hd as (Hd & _ & _).
  apply NoDup_app in Hd as (_ & Hd1 & Hd2). apply NoDup_cons in Hd2 as [Hd2 _].
  pose proof (i_links _ _ _ I) as Hl. rewrite E in Hl. apply links_app in Hl as [Hl1 (_ & _ & Hl2)].
  pose proof (i_gaps _ _ _ I) as Hg. rewrite E in Hg. apply gaps_app in Hg as [Hg1 (_ & _ & Hg2)].
  exists (l1 ++ prevp :: l2). split.
  - pose proof (i_head _ _ _ I) as H. rewrite E in H. by destruct l1.
  - rewrite Hs. apply (i_base _ _ _ I).
  - apply links_app. split; [|split].
    + eapply links_ext; [|exact Hl1]. intros x Hx. rewrite Ho; [done|].
      intros ->. apply (Hd1 prevp Hx). by left.
    + by rewrite Hh.
    + eapply links_ext; [|exact Hl2]. intros x Hx. rewrite Ho; [done|]. intros ->. apply Hd2. by right.
  - eapply gaps_ext; [intros x Hx; apply Hs|]. apply gaps_app. split; [done|]. split; [|done].
    destruct l2 as [|y l2]; [done|]. assert (plus prevp (h_size (hdr m prevp)) < y); [|done].
    apply (free_lt _ _ _ I l1 prevp (p :: y :: l2)); [done|]. right. by left.
  - simpl. set_solver.
  - pose proof (i_tiled _ _ _ I) as Ht. rewrite E in Ht.
    rewrite (blocks_ext (hdr m) (hdr m')) by (intros; apply Hs).
    change (brk m') with (brk m). rewrite <-Ek.
    assert (blocks (hdr m) (l1 ++ prevp :: p :: l2) ++ A ≡ₚ
      blocks (hdr m) (l1 ++ prevp :: l2) ++ (p, h_size (hdr m p)) :: A) as <-; [|done].
    rewrite !blocks_app. simpl. solve_Permutation.
  - constructor; [by rewrite Hs|]. eapply Forall_impl; [apply (i_alloc _ _ _ I)|].
    intros [a j]. by rewrite Hs.
  - apply (i_limit _ _ _ I).
Qed.
(** The tail of the block is cut off. *)
Lemma take_tail :
  h_size (hdr m p) <> k ->
  let b := plus p (h_size (hdr m p) - k) in
  inv (set_size b k (set_size p (h_size (hdr m p) - k) m) <| freep := prevp |>) L ((b, k) :: A).
Proof.
  intros Ek b. pose proof fit_not_base as Hpb. pose proof (i_tiled _ _ _ I) as Ht.
  pose proof p_in as Hpi. apply list_elem_of_split in Hpi as (l1 & l2 & E).
  assert (blocks (hdr m) L ++ A ≡ₚ
    (p, (h_size (hdr m p) - k) + k) :: (blocks (hdr m) l1 ++ blocks (hdr m) l2) ++ A) as Hp.
  { replace (h_size (hdr m p) - k + k) with (h_size (hdr m p)) by lia.
    rewrite E, blocks_app. simpl. solve_Permutation. }
  rewrite Hp in Ht. apply tiled_split in Ht; [|done|lia|done]. fold b in Ht.
  pose proof (tiled_nodup _ _ Ht) as Hd. cbn [fmap list_fmap fst] in Hd.
  apply NoDup_cons in Hd as [Hd1 Hd]. apply NoDup_cons in Hd as [Hd2 _].
  rewrite !fmap_app in Hd1, Hd2.
  set (m' := set_size b k (set_size p (h_size (hdr m p) - k) m) <| freep := prevp |>).
  assert (p <> b) as Hpbn by set_solver.
  assert (b ∉ L /\ b ∉ (fst <$> A) /\ p ∉ (fst <$> A) /\ p ∉ l1 /\ p ∉ l2) as (Hb1 & Hb2 & Hb3 & Hb4 & Hb5).
  { assert (forall l, fst <$> blocks (hdr m) l = l) as Hf
      by (intros l; unfold blocks; rewrite <-list_fmap_compose; apply list_fmap_id).
    rewrite !Hf in Hd1, Hd2. rewrite E. set_solver. }
  assert (forall x, x <> p -> x <> b -> hdr m' x = hdr m x) as Ho.
  { intros x H1 H2. change (hdr (set_size b k (set_size p (h_size (hdr m p) - k) m)) x = hdr m x).
    unfold set_size. by rewrite !set_hdr_ne. }
  assert (hdr m' p = mkHeader (h_ptr (hdr m p)) (h_size (hdr m p) - k)) as Hh.
  { change (hdr (set_size b k (set_size p (h_size (hdr m p) - k) m)) p =
      mkHeader (h_ptr (hdr m p)) (h_size (hdr m p) - k)).
    unfold set_size. rewrite set_hdr_ne by done. apply set_hdr_eq. }
  assert (h_size (hdr m' b) = k) as Hk.
  { change (h_size (hdr (set_size b k (set_size p (h_size (hdr m p) - k) m)) b) = k).
    unfold set_size at 1. by rewrite set_hdr_eq. }
  assert (forall x, x ∈ L -> h_ptr (hdr m' x) = h_ptr (hdr m x)) as Hptr.
  { intros x Hx. destruct (decide (x = p)) as [->|]; [by rewrite Hh|]. rewrite Ho; [done|done|].
    intros ->. done. }
  assert (forall x, x ∈ l1 \/ x ∈ l2 -> h_size (hdr m' x) = h_size (hdr m x)) as Hsz.
  { intros x Hx. rewrite Ho; [done| |]; intros ->; [|apply Hb1; rewrite E]; set_solver. }
  pose proof (i_gaps _ _ _ I) as Hg. rewrite E in Hg. apply gaps_app in Hg as [Hg1 [Hg2 Hg3]].
  split.
  - apply (i_head _ _ _ I).
  - rewrite Ho; [apply (i_base _ _ _ I)|done|]. intros Eb. apply Hb1. rewrite <-Eb. by apply (base_in m L A).
  - eapply links_ext; [exact Hptr|apply (i_links _ _ _ I)].
  - rewrite E. apply gaps_app. split; [eapply gaps_prefix; [|exact Hg1]; auto|]. split.
    + destruct l2 as [|y l2]; [done|]. rewrite Hh. simpl h_size. unfold plus, sizeof_Header in *. lia.
    + eapply gaps_ext; [|exact Hg3]. auto.
  - done.
  - change (brk m') with (brk m). rewrite E, blocks_app.
    change (blocks (hdr m') (p :: l2)) with ((p, h_size (hdr m' p)) :: blocks (hdr m') l2).
    rewrite (blocks_ext (hdr m) (hdr m') l1), (blocks_ext (hdr m) (hdr m') l2) by auto.
    rewrite Hh. simpl h_size.
    assert ((blocks (hdr m) l1 ++ (p, h_size (hdr m p) - k) :: blocks (hdr m) l2) ++ (b, k) :: A ≡ₚ
      (p, h_size (hdr m p) - k) :: (b, k) :: (blocks (hdr m) l1 ++ blocks (hdr m) l2) ++ A) as ->
      by solve_Permutation. done.
  - constructor; [split; [done|]|].
    + intros Eb. apply Hb1. rewrite Eb. by apply (base_in m L A).
    + apply Forall_forall. intros [a j] Ha. pose proof (i_alloc _ _ _ I) as HA.
      rewrite Forall_forall in HA. destruct (HA _ Ha) as [H1 H2].
      assert (a ∈ (fst <$> A)) by (apply list_elem_of_fmap; by exists (a, j)).
      rewrite Ho; [done| |]; intros ->; done.
  - apply (i_limit _ _ _ I).
Qed.
Lemma take_block_run :
  exists b m' L', take_block prevp p k m = (plus b 1, m') /\ inv m' L' ((b, k) :: A).
Proof.
  unfold take_block. destruct (Z.eqb_spec (h_size (hdr m p)) k) as [Ek|Ek].
  - destruct (take_exact Ek) as [L' H]. by eexists _, _, L'.
  - assert (u32 (h_size (hdr m p) - k) = h_size (hdr m p) - k) as ->.
    { apply Z.mod_small. destruct (free_block _ _ _ I p p_in) as [|(H1 & H2 & H3)]; [by apply fit_not_base in H|].
      pose proof (i_limit _ _ _ I). unfold plus, sizeof_Header in *. lia. }
    cbv zeta. assert (h_size (hdr (set_size p (h_size (hdr m p) - k) m) p) = h_size (hdr m p) - k) as ->
      by (unfold set_size; by rewrite set_hdr_eq).
    eexists _, _, L. split; [reflexivity|exact (take_tail Ek)].
Qed.
End Take.

(** The search through the whole list, from the block behind [freep]. *)
Lemma first_split {X} (P : X -> Prop) `{forall x, Decision (P x)} l :
  (Forall (fun x => ~ P x) l) \/ exists c x d, l = c ++ x :: d /\ P x /\ Forall (fun x => ~ P x) c.
Proof.
  induction l as [|x l [IH|(c & y & d & -> & Hy & Hc)]]; [by left| |].
  - destruct (decide (P x)).
    + right. by exists [], x, l.
    + left. by constructor.
  - right. destruct (decide (P x)).
    + by exists [], x, (c ++ y :: d).
    + exists (x :: c), y, d. split; [done|]. split; [done|]. by constructor.
Qed.
Section Search.
Context (m : heap) (L : list Z) (A : list (Z * Z)) (I : inv m L A) (k : Z) (k_pos : 0 < k).
Lemma rotation : exists c, links (hdr m) (freep m :: c) (freep m) /\ L ≡ₚ freep m :: c.
Proof.
  pose proof (i_freep _ _ _ I) as H. apply list_elem_of_split in H as (a & b & E).
  exists (b ++ a). split.
  - pose proof (i_links _ _ _ I) as Hl. rewrite E in Hl. apply links_app in Hl as [H1 H2].
    apply (links_app _ (freep m :: b) a). split; [|exact H1].
    pose proof (i_head _ _ _ I) as Hh. rewrite E in Hh.
    destruct a as [|x a]; simpl in Hh; injection Hh as Hb; simpl hd.
    + by rewrite Hb in H2 |- *.
    + by rewrite Hb.
  - rewrite E. solve_Permutation.
Qed.
Lemma malloc_loop_seg fuel c z prevp :
  links (hdr m) (prevp :: c) z -> Forall (fun x => h_size (hdr m x) < k) c -> freep m ∉ c ->
  exists q, (q = prevp \/ q ∈ c) /\ h_ptr (hdr m q) = z /\
    malloc_loop limit (length c + fuel) k prevp (hd z c) m = malloc_loop limit fuel k q z m.
Proof.
  revert prevp. induction c as [|x c IH]; intros prevp [H1 H2] Hs Hf.
  - exists prevp. auto.
  - apply Forall_cons in Hs as [Hx Hs]. apply not_elem_of_cons in Hf as [Hf1 Hf2].
    destruct (IH x H2 Hs Hf2) as (q & Hq & Hz & Er). exists q. split; [set_solver|]. split; [done|].
    rewrite <-Er. simpl. rewrite (proj2 (Z.leb_gt _ _)) by lia.
    rewrite (proj2 (Z.eqb_neq x (freep m))) by congruence. destruct H2 as [-> _]. done.
Qed.
(** What the loop has come to once it is round: a block that fits, or none. *)
Lemma malloc_search fuel :
  (exists prevp p, prevp ∈ L /\ h_ptr (hdr m prevp) = p /\ p ∈ L /\ k <= h_size (hdr m p) /\
     malloc_loop limit (length L + fuel) k (freep m) (h_ptr (hdr m (freep m))) m =
       Some (take_block prevp p k m)) \/
  (Forall (fun x => h_size (hdr m x) < k) L /\
   malloc_loop limit (length L + fuel) k (freep m) (h_ptr (hdr m (freep m))) m =
     '(p, m) ← morecore limit fuel k m;
     if p =? 0 then Some (0, m) else malloc_loop limit fuel k p (h_ptr (hdr m p)) m).
Proof.
  destruct rotation as (c & Hl & HL). pose proof (inv_nodup _ _ _ I) as Hd.
  apply NoDup_app in Hd as (Hd & _ & _). rewrite HL in Hd. apply NoDup_cons in Hd as [Hd _].
  assert (length L = S (length c)) as Hlen by (by rewrite HL).
  destruct (first_split (fun x => k <= h_size (hdr m x)) (c ++ [freep m])) as [Hno|(c1 & x & d & Ec & Hx & Hc1)].
  - right. apply Forall_app in Hno as [Hc Hfr]. rewrite Forall_singleton in Hfr.
    assert (Forall (fun x => h_size (hdr m x) < k) c) as Hc' by (eapply Forall_impl; [exact Hc|]; simpl; lia).
    split; [rewrite HL; constructor; [lia|done]|].
    destruct (malloc_loop_seg (S fuel) c (freep m) (freep m) Hl Hc' Hd) as (q & _ & _ & Er).
    destruct Hl as [-> _]. rewrite Hlen. replace (S (length c) + fuel)%nat with (length c + S fuel)%nat by lia.
    rewrite Er. cbn [malloc_loop]. rewrite (proj2 (Z.leb_gt _ _)), Z.eqb_refl by lia. done.
  - left. assert (Forall (fun x => h_size (hdr m x) < k) c1) as Hc' by (eapply Forall_impl; [exact Hc1|]; simpl; lia).
    assert (x ∈ L /\ (forall y, y ∈ c1 -> y ∈ c) /\ links (hdr m) (freep m :: c1) x /\ (length c1 <= length c)%nat)
      as (HxL & Hsub & Hl1 & Hlen1).
    { destruct d as [|y d] using rev_ind.
      - apply app_inj_tail in Ec as [-> <-]. rewrite HL. repeat split; [by left|done|apply Hl|apply Hl|done].
      - clear IHd. rewrite app_comm_cons, app_assoc in Ec. apply app_inj_tail in Ec as [-> _].
        rewrite HL. split; [set_solver|]. split; [set_solver|].
        rewrite app_comm_cons in Hl. apply links_app in Hl as [Hl _].
        split; [exact Hl|rewrite length_app; simpl; lia]. }
    destruct (malloc_loop_seg (S (length c - length c1) + fuel) c1 x (freep m) Hl1 Hc') as (q & Hq & Hz & Er);
      [set_solver|].
    exists q, x. split; [rewrite HL; set_solver|]. repeat (split; [done|]).
    destruct Hl1 as [-> _]. rewrite Hlen.
    replace (S (length c) + fuel)%nat with (length c1 + (S (length c - length c1) + fuel))%nat by lia.
    rewrite Er. simpl. by rewrite (proj2 (Z.leb_le _ _)).
Qed.
End Search.

(** What sbrk gives is a block handed out to morecore. *)
Lemma inv_grow m L A nu :
  inv m L A -> 0 < nu -> plus (brk m) nu <= limit ->
  inv (set_size (brk m) nu (m <| brk := plus (brk m) nu |>)) L ((brk m, nu) :: A).
Proof.
  intros I Hnu Hlim. set (m' := set_size (brk m) nu (m <| brk := plus (brk m) nu |>)).
  assert (forall x, x < brk m -> hdr m' x = hdr m x) as Ho.
  { intros x Hx. unfold m', set_size. rewrite set_hdr_ne by lia. done. }
  assert (lo <= brk m) as Hlo.
  { destruct (i_tiled _ _ _ I) as (T & HT & _). by apply tiles_le in HT. }
  assert (forall x, x ∈ L -> x < brk m) as HL.
  { intros x Hx. destruct (free_block _ _ _ I x Hx) as [->|?]; unfold plus, sizeof_Header in *; lia. }
  split.
  - apply (i_head _ _ _ I).
  - rewrite Ho by lia. apply (i_base _ _ _ I).
  - eapply links_ext; [|apply (i_links _ _ _ I)]. intros x Hx. by rewrite Ho by auto.
  - eapply gaps_ext; [|apply (i_gaps _ _ _ I)]. intros x Hx. by rewrite Ho by auto.
  - apply (i_freep _ _ _ I).
  - rewrite (blocks_ext (hdr m) (hdr m')) by (intros x Hx; by rewrite Ho by auto).
    change (brk m') with (plus (brk m) nu).
    assert (blocks (hdr m) L ++ (brk m, nu) :: A ≡ₚ (brk m, nu) :: blocks (hdr m) L ++ A) as ->
      by solve_Permutation.
    apply tiled_grow; [apply (i_tiled _ _ _ I)|done].
  - constructor; [split; [unfold m', set_size; by rewrite set_hdr_eq|lia]|].
    apply Forall_forall. intros [a j] Ha. pose proof (i_alloc _ _ _ I) as HA.
    rewrite Forall_forall in HA. pose proof (HA _ Ha).
    pose proof (alloc_block _ _ _ I _ _ Ha). rewrite Ho; [done|].
    unfold plus, sizeof_Header in *. lia.
  - done.
Qed.
Definition more_units (k : Z) : Z := if k <? 4096 then 4096 else k.
Lemma morecore_run m L A k fuel :
  inv m L A -> 0 < k < 2 ^ 27 -> (length L <= fuel)%nat ->
  (limit < plus (brk m) (more_units k) /\ morecore limit fuel k m = Some (0, m)) \/
  exists m' L', morecore limit fuel k m = Some (freep m', m') /\ inv m' L' A /\
    (length L' <= S (length L))%nat /\ exists x, x ∈ L' /\ k <= h_size (hdr m' x).
Proof.
  intros I Hk Hf. unfold morecore. fold (more_units k).
  assert (0 < more_units k < 2 ^ 27 /\ k <= more_units k) as [Hnu Hle]
    by (unfold more_units; destruct (Z.ltb_spec k 4096); lia).
  assert (s32 (more_units k * sizeof_Header) = sizeof_Header * more_units k) as ->.
  { unfold s32, sizeof_Header. rewrite Z.mod_small; lia. }
  unfold sbrk. fold (plus (brk m) (more_units k)).
  assert (lo <= brk m) as Hlo.
  { destruct (i_tiled _ _ _ I) as (T & HT & _). by apply tiles_le in HT. }
  destruct (Z.leb_spec (plus (brk m) (more_units k)) limit) as [Hl|Hl]; [|left; done].
  right. rewrite (proj2 (Z.eqb_neq _ _)) by lia.
  pose proof (inv_grow m L A (more_units k) I ltac:(lia) Hl) as I1.
  destruct (free_run _ _ _ _ _ fuel I1 Hf) as (m' & L' & Hr & I' & _ & Hlen & x & Hx & Hs).
  rewrite Hr. simpl. exists m', L'. split; [done|]. split; [done|]. split; [done|].
  exists x. split; [done|lia].
Qed.

Lemma malloc_loop_run m L A k fuel :
  inv m L A -> 0 < k < 2 ^ 27 -> (2 * length L + 2 <= fuel)%nat ->
  exists p m' L', malloc_loop limit fuel k (freep m) (h_ptr (hdr m (freep m))) m = Some (p, m') /\
    ((p = 0 /\ m' = m /\ Forall (fun x => h_size (hdr m x) < k) L /\
      limit < plus (brk m) (more_units k)) \/
     exists b, p = plus b 1 /\ inv m' L' ((b, k) :: A)).
Proof.
  intros I Hk Hf. destruct (malloc_search _ _ _ I k ltac:(lia) (fuel - length L)) as [H|[Hno H]].
  all: replace (length L + (fuel - length L))%nat with fuel in H by lia.
  - destruct H as (prevp & q & H1 & H2 & H3 & H4 & ->).
    destruct (take_block_run _ _ _ I k ltac:(lia) prevp q H1 H2 H3 H4) as (b & m' & L' & -> & I').
    exists (plus b 1), m', L'. split; [done|]. right. by exists b.
  - rewrite H.
    destruct (morecore_run _ _ _ k (fuel - length L) I Hk ltac:(lia)) as [[Hl ->]|(m' & L' & -> & I' & Hlen & x & Hx & Hs)].
    + simpl. exists 0, m, L. split; [done|]. by left.
    + simpl. assert (freep m' <> 0) as Hnz.
      { destruct (free_block _ _ _ I' _ (i_freep _ _ _ I')); lia. }
      rewrite (proj2 (Z.eqb_neq _ _) Hnz).
      destruct (malloc_search _ _ _ I' k ltac:(lia) (fuel - length L - length L')) as [H'|[Hno' _]].
      * replace (length L' + (fuel - length L - length L'))%nat with (fuel - length L)%nat in H' by lia.
        destruct H' as (prevp & q & H1 & H2 & H3 & H4 & ->).
        destruct (take_block_run _ _ _ I' k ltac:(lia) prevp q H1 H2 H3 H4) as (b & m2 & L2 & -> & I2).
        exists (plus b 1), m2, L2. split; [done|]. right. by exists b.
      * rewrite Forall_forall in Hno'. apply Hno' in Hx. lia.
Qed.

(** The allocator before the first call: nothing handed out, and the heap empty. *)
Definition fresh (m : heap) : Prop := freep m = 0 /\ brk m = lo /\ lo <= limit.
Definition ready (m : heap) (L : list Z) (A : list (Z * Z)) : Prop :=
  inv m L A \/ (fresh m /\ L = [base] /\ A = []).
Definition first_use (m : heap) : heap :=
  if freep m =? 0 then set_size base 0 (set_ptr base base m <| freep := base |>) else m.
Lemma first_use_inv m L A : ready m L A -> inv (first_use m) L A /\ brk (first_use m) = brk m.
Proof.
  intros [I|[(Hf & Hb & Hl) [-> ->]]]; unfold first_use.
  - assert (freep m <> 0) as Hnz by (destruct (free_block _ _ _ I _ (i_freep _ _ _ I)); lia).
    by rewrite (proj2 (Z.eqb_neq _ _) Hnz).
  - rewrite Hf, Z.eqb_refl. set (m' := set_size _ _ _).
    assert (hdr m' base = mkHeader base 0) as Hh.
    { unfold m', set_size, set_ptr, set_hdr. simpl. by rewrite Z.eqb_refl. }
    split; [|done]. split.
    + done.
    + by rewrite Hh.
    + split; [by rewrite Hh|done].
    + done.
    + by left.
    + exists []. split; [by rewrite <-Hb|]. unfold blocks. cbn [fmap list_fmap app]. by rewrite Hh.
    + constructor.
    + change (brk m') with (brk m). lia.
Qed.
Definition units (nbytes : Z) : Z := (nbytes + sizeof_Header - 1) / sizeof_Header + 1.
Lemma units_bounds nbytes :
  0 <= nbytes <= 2 ^ 31 - 64 -> 0 < units nbytes < 2 ^ 27 /\ nbytes <= sizeof_Header * (units nbytes - 1).
Proof.
  intros H. unfold units, sizeof_Header. pose proof (Z.div_mod (nbytes + 16 - 1) 16 ltac:(lia)).
  pose proof (Z.mod_pos_bound (nbytes + 16 - 1) 16 ltac:(lia)). lia.
Qed.
Lemma malloc_run m L A nbytes fuel :
  ready m L A -> 0 <= nbytes <= 2 ^ 31 - 64 -> (2 * length L + 2 <= fuel)%nat ->
  exists p m' L', malloc base limit fuel nbytes m = Some (p, m') /\
    ((p = 0 /\ inv m' L A /\ Forall (fun x => h_size (hdr m' x) < units nbytes) L /\
      limit < plus (brk m) (more_units (units nbytes))) \/
     exists b, p = plus b 1 /\ inv m' L' ((b, units nbytes) :: A)).
Proof.
  intros Hr Hn Hf. destruct (first_use_inv _ _ _ Hr) as [I Hb].
  destruct (units_bounds _ Hn) as [Hk _]. unfold malloc. fold (first_use m).
  assert (u32 ((nbytes + sizeof_Header - 1) / sizeof_Header + 1) = units nbytes) as ->.
  { apply Z.mod_small. fold (units nbytes). lia. }
  destruct (malloc_loop_run _ _ _ _ _ I Hk Hf) as (p & m' & L' & -> & [(-> & -> & H1 & H2)|H]).
  - exists 0, (first_use m), L. split; [done|]. left. rewrite Hb in H2. done.
  - exists p, m', L'. auto.
Qed.
End Proofs.


(** C32: free.  Giving back a block that is in use ends, and leaves the blocks filling the heap
    with that block free: the list of free blocks stays in address order, and no two of them
    are adjacent. *)
Theorem free_correct base limit lo m L A bp n fuel :
  base < lo -> 0 < base -> limit - lo <= 2 ^ 35 ->
  inv base limit lo m L ((bp, n) :: A) -> (length L <= fuel)%nat ->
  exists m' L', free fuel (plus bp 1) m = Some m' /\ inv base limit lo m' L' A /\ brk m' = brk m.
Proof.
  intros Hbl Hb Hroom I Hf.
  destruct (free_run base limit lo Hbl Hb Hroom _ _ _ _ _ _ I Hf) as (m' & L' & H1 & H2 & H3 & _).
  by exists m', L'.
Qed.


(** * A concrete heap *)

Definition heap0 : heap := mkHeap (fun _ => mkHeader 0 0) 0 0x10000.
(** A heap with one block of the first 4096 units in use. *)
Definition heap1 : heap :=
  mkHeap (fun p => if p =? 0x4000 then mkHeader 0x10000 0 else
                   if p =? 0x10000 then mkHeader 0x4000 4088 else mkHeader 0 8) 0x4000 0x20000.
Lemma heap0_ready : ready 0x4000 0x80000 0x10000 heap0 [0x4000] [].
Proof. right. repeat split; done || lia. Qed.
Lemma heap1_inv : inv 0x4000 0x80000 0x10000 heap1 [0x4000; 0x10000] [(0x1ff80, 8)].
Proof.
  assert (blocks (hdr heap1) [0x4000; 0x10000] = [(0x4000, 0); (0x10000, 4088)]) as Hb by reflexivity.
  split; try done.
  - first [by left|by right; left].
  - rewrite Hb. exists [(0x10000, 4088); (0x1ff80, 8)]. done.
  - repeat constructor; done.
Qed.
Lemma free_correct_witness :
  exists m' L', free 10 0x1ff90 heap1 = Some m' /\ inv 0x4000 0x80000 0x10000 m' L' [] /\ brk m' = 0x20000.
Proof.
  apply (free_correct 0x4000 0x80000 0x10000 heap1 [0x4000; 0x10000] [] 0x1ff80 8 10);
    [lia|lia|lia|exact heap1_inv|simpl; lia].
Defined.
(** The same heap with the block freed. *)
Definition heap2 : heap :=
  mkHeap (fun p => if p =? 0x4000 then mkHeader 0x10000 0 else mkHeader 0x4000 4096) 0x10000 0x20000.
Lemma heap2_inv : inv 0x4000 0x80000 0x10000 heap2 [0x4000; 0x10000] [].
Proof.
  assert (blocks (hdr heap2) [0x4000; 0x10000] = [(0x4000, 0); (0x10000, 4096)]) as Hb by reflexivity.
  split; try done.
  - first [by left|by right; left].
  - rewrite Hb. exists [(0x10000, 4096)]. done.
Qed.
