(* ===== verification/Grep.v ===== *)
(** user/grep.c: the matcher for regular expressions, proved to decide the language of the
    pattern, and the loop that prints the matching lines of a file. *)
From S2P Require Import Prelude.

(** A C string is its bytes, without the NUL. *)

Definition caret : Z := 94.
Definition star : Z := 42.
Definition dollar : Z := 36.
Definition dot : Z := 46.
Definition newline : Z := 10.

(** * The matcher *)

(** [matchstar], given the matcher for the rest of the expression. *)
Fixpoint matchstar (matchhere : list Z -> bool) (c : Z) (text : list Z) : bool :=
  if matchhere text then true else
  match text with
  | [] => false
  | x :: text => if (x =? c) || (c =? dot) then matchstar matchhere c text else false
  end.
Fixpoint matchhere (re text : list Z) : bool :=
  match re with
  | [] => true
  | c :: re1 =>
      match re1 with
      | d :: re2 =>
          if d =? star then matchstar (matchhere re2) c text
          else match text with
               | x :: text => if (c =? dot) || (c =? x) then matchhere re1 text else false
               | [] => false
               end
      | [] =>
          if c =? dollar then bool_decide (text = [])
          else match text with
               | x :: text => if (c =? dot) || (c =? x) then matchhere re1 text else false
               | [] => false
               end
      end
  end.
Fixpoint match_anywhere (re text : list Z) : bool :=
  if matchhere re text then true else
  match text with [] => false | _ :: text => match_anywhere re text end.
Definition match_ (re text : list Z) : bool :=
  match re with
  | c :: re1 => if c =? caret then matchhere re1 text else match_anywhere re text
  | [] => match_anywhere re text
  end.

(** * The loop *)

(** The inner loop of [grep] on the bytes of the buffer: what is printed, and the bytes behind
    the last newline.  A NUL ends the string that strchr searches, and the line that match
    sees. *)
Fixpoint strchr (s : list Z) (c : Z) : option nat :=
  match s with
  | [] => None
  | x :: s => if x =? 0 then None else if x =? c then Some 0%nat else S <$> strchr s c
  end.
Fixpoint grep_lines (fuel : nat) (pattern p : list Z) : option (list Z * list Z) :=
  match fuel with
  | O => None
  | S fuel =>
      match strchr p newline with
      | None => Some ([], p)
      | Some q =>
          let line := take q p in
          '(out, rest) ← grep_lines fuel pattern (drop (S q) p);
          Some ((if match_ pattern line then line ++ [newline] else []) ++ out, rest)
      end
  end.

(** [grep]: the results of the calls of read, in order; the last read returns 0.  [m] is what
    the buffer holds from before.  A read of more than the buffer has room for cannot be. *)
Definition BUFLEN : nat := 1024.
Fixpoint grep (pattern : list Z) (m : list Z) (reads : list (list Z)) : option (list Z) :=
  match reads with
  | [] => Some []
  | n :: reads =>
      if (BUFLEN - length m - 1 <? length n)%nat || bool_decide (n = []) then None else
      let buf := m ++ n in
      '(out, p) ← grep_lines (S (length buf)) pattern buf;
      out' ← grep pattern (if bool_decide (p = buf) then [] else p) reads;
      Some (out ++ out')
  end.

(** * The language of a pattern

    A pattern is a list of atoms, each starred or not, between optional anchors. *)

Inductive atom := AChar (c : Z) | AAny.
Definition atom_ok (a : atom) (x : Z) : Prop :=
  match a with AChar c => x = c | AAny => True end.
Definition atom_of (c : Z) : atom := if c =? dot then AAny else AChar c.
Inductive item := One (a : atom) | Many (a : atom).
(** The words of one item, of a sequence of items. *)
Definition item_word (i : item) (w : list Z) : Prop :=
  match i with
  | One a => exists x, w = [x] /\ atom_ok a x
  | Many a => Forall (atom_ok a) w
  end.
Fixpoint word (its : list item) (w : list Z) : Prop :=
  match its with
  | [] => w = []
  | i :: its => exists u v, w = u ++ v /\ item_word i u /\ word its v
  end.

(** The items of an expression and whether it ends in the anchor. *)
Fixpoint items (re : list Z) : list item * bool :=
  match re with
  | [] => ([], false)
  | c :: re1 =>
      match re1 with
      | d :: re2 =>
          if d =? star then (let '(its, e) := items re2 in (Many (atom_of c) :: its, e))
          else (let '(its, e) := items re1 in (One (atom_of c) :: its, e))
      | [] => if c =? dollar then ([], true) else ([One (atom_of c)], false)
      end
  end.

Lemma atom_of_ok c x : atom_ok (atom_of c) x <-> (c =? dot) || (c =? x) = true.
Proof.
  unfold atom_of. destruct (Z.eqb_spec c dot); simpl; [done|].
  rewrite Z.eqb_eq. split; intros; congruence.
Qed.

(** [text] has a word of the items at its start, up to its end if anchored. *)
Definition starts (p : list item * bool) (text : list Z) : Prop :=
  exists w rest, text = w ++ rest /\ word (fst p) w /\ (snd p = true -> rest = []).
Lemma starts_many a its e text :
  starts (Many a :: its, e) text <->
  starts (its, e) text \/
  (exists x t, text = x :: t /\ atom_ok a x /\ starts (Many a :: its, e) t).
Proof.
  split.
  - intros (w & rest & -> & (u & v & -> & Hu & Hv) & He). destruct u as [|x u].
    + left. by exists v, rest.
    + right. apply Forall_cons in Hu as [Hx Hu]. exists x, ((u ++ v) ++ rest).
      split; [done|]. split; [done|]. exists (u ++ v), rest. split; [done|]. split; [|done].
      by exists u, v.
  - intros [(w & rest & -> & Hw & He)|(x & t & -> & Hx & w & rest & -> & (u & v & -> & Hu & Hv) & He)].
    + exists w, rest. split; [done|]. split; [|done]. exists [], w. split; [done|].
      split; [by constructor|done].
    + exists ((x :: u) ++ v), rest. split; [done|]. split; [|done]. exists (x :: u), v.
      split; [done|]. split; [by constructor|done].
Qed.
Lemma starts_one a its e text :
  starts (One a :: its, e) text <-> exists x t, text = x :: t /\ atom_ok a x /\ starts (its, e) t.
Proof.
  split.
  - intros (w & rest & -> & (u & v & -> & (x & -> & Hx) & Hv) & He).
    exists x, (v ++ rest). repeat split; [done|]. by exists v, rest.
  - intros (x & t & -> & Hx & w & rest & -> & Hw & He).
    exists (x :: w), rest. split; [done|]. split; [|done]. exists [x], w.
    repeat split; [|done]. by exists x.
Qed.

Lemma matchstar_starts mh c its e :
  (forall t, mh t = true <-> starts (its, e) t) ->
  forall text, matchstar mh c text = true <-> starts (Many (atom_of c) :: its, e) text.
Proof.
  intros IH text. induction text as [|x text IHt]; rewrite starts_many; simpl.
  - destruct (mh []) eqn:E.
    + split; [|done]. intros _. left. by apply IH.
    + split; [done|]. intros [H|(x & t & ? & _)]; [|done]. apply IH in H. congruence.
  - destruct (mh (x :: text)) eqn:E.
    + split; [|done]. intros _. left. by apply IH.
    + rewrite (Z.eqb_sym x c), orb_comm. destruct ((c =? dot) || (c =? x)) eqn:Ex.
      * rewrite IHt. split; [intros H; right; exists x, text; by rewrite atom_of_ok|].
        intros [H|(y & t & [= <- <-] & _ & H)]; [apply IH in H; congruence|done].
      * split; [done|]. intros [H|(y & t & [= <- <-] & H & _)].
        -- apply IH in H. congruence.
        -- apply atom_of_ok in H. congruence.
Qed.

Lemma one_step c p (b : list Z -> bool) text :
  (forall t, b t = true <-> starts p t) ->
  match text with x :: t => if (c =? dot) || (c =? x) then b t else false | [] => false end = true
  <-> starts (One (atom_of c) :: fst p, snd p) text.
Proof.
  intros IH. rewrite starts_one. destruct text as [|x t].
  - split; [done|]. by intros (? & ? & ? & _).
  - destruct p as [its e]; simpl. split.
    + destruct ((c =? dot) || (c =? x)) eqn:E; [|done]. intros H. exists x, t.
      rewrite atom_of_ok, <-IH. done.
    + intros (y & t' & [= <- <-] & H & H'). apply atom_of_ok in H as ->. by apply IH.
Qed.

Lemma matchhere_plain c d re text :
  d <> star ->
  matchhere (c :: d :: re) text =
    match text with
    | x :: t => if (c =? dot) || (c =? x) then matchhere (d :: re) t else false
    | [] => false
    end.
Proof. intros H. cbn [matchhere]. by rewrite (proj2 (Z.eqb_neq _ _) H). Qed.
Lemma items_plain c d re :
  d <> star ->
  items (c :: d :: re) = (One (atom_of c) :: fst (items (d :: re)), snd (items (d :: re))).
Proof.
  intros H. cbn [items]. rewrite (proj2 (Z.eqb_neq _ _) H).
  change (match re with [] => _ | _ => _ end) with (items (d :: re)). by destruct (items (d :: re)).
Qed.
Lemma matchhere_starts re text : matchhere re text = true <-> starts (items re) text.
Proof.
  revert text. induction re as [re IH] using (induction_ltof1 _ length). unfold ltof in IH.
  intros text. destruct re as [|c [|d re2]].
  - simpl. split; [|done]. intros _. by exists [], text.
  - simpl. destruct (Z.eqb_spec c dollar) as [Hc|Hc].
    + rewrite bool_decide_eq_true. split.
      * intros ->. by exists [], [].
      * intros (w & rest & -> & Hw & He). simpl in *. subst w. by rewrite He.
    + apply (one_step c ([], false) (matchhere [])). intros t. apply IH. simpl. lia.
  - destruct (Z.eqb_spec d star) as [->|Hd].
    + cbn [matchhere items]. rewrite Z.eqb_refl.
      destruct (items re2) as [its e] eqn:E. apply matchstar_starts. intros t.
      rewrite <-E. apply IH. simpl. lia.
    + rewrite matchhere_plain, items_plain by done.
      apply one_step. intros t. apply IH. simpl. lia.
Qed.

(** * Correctness of the matcher *)

Lemma match_anywhere_starts re text :
  match_anywhere re text = true <-> exists pre suf, text = pre ++ suf /\ starts (items re) suf.
Proof.
  induction text as [|x text IH]; simpl.
  - destruct (matchhere re []) eqn:E; (split; [intros H|intros (pre & suf & H & Hs)]); try done.
    + exists [], []. by rewrite <-matchhere_starts.
    + symmetry in H. apply app_nil in H as [_ ->]. apply matchhere_starts in Hs. congruence.
  - destruct (matchhere re (x :: text)) eqn:E.
    + split; [intros _|done]. exists [], (x :: text). by rewrite <-matchhere_starts.
    + rewrite IH. split.
      * intros (pre & suf & -> & Hs). by exists (x :: pre), suf.
      * intros ([|y pre] & suf & H & Hs); simpl in H.
        -- subst suf. apply matchhere_starts in Hs. congruence.
        -- injection H as _ ->. by exists pre, suf.
Qed.

(** C34: the regular expression matcher.  match accepts a text exactly when some part of it is a
    word of the pattern: of its characters, dots and starred ones in sequence, at the start of
    the text if the pattern begins with a caret, and up to its end if it ends in a dollar. *)
Theorem match_correct re text :
  match_ re text = true <->
  (exists re1, re = caret :: re1 /\ starts (items re1) text) \/
  (head re <> Some caret /\ exists pre suf, text = pre ++ suf /\ starts (items re) suf).
Proof.
  destruct re as [|c re1]; unfold match_.
  - rewrite match_anywhere_starts. split; [by right|]. intros [(? & ? & _)|[_ H]]; done.
  - destruct (Z.eqb_spec c caret) as [->|Hc].
    + rewrite matchhere_starts. split; [intros; left; by exists re1|].
      intros [(? & [= <-] & H)|[H _]]; done.
    + rewrite match_anywhere_starts. split.
      * intros H. right. split; [simpl; congruence|done].
      * intros [(? & [= ? _] & _)|[_ H]]; done.
Qed.

(** * Correctness of the loop *)

(** The complete lines of a text, and the bytes behind the last one. *)
Fixpoint lines (s : list Z) : list (list Z) * list Z :=
  match s with
  | [] => ([], [])
  | x :: s =>
      let '(ls, rest) := lines s in
      if x =? newline then ([] :: ls, rest)
      else match ls with [] => ([], x :: rest) | l :: ls => ((x :: l) :: ls, rest) end
  end.
Definition print_line (l : list Z) : list Z := l ++ [newline].
Definition matching (pattern s : list Z) : list Z :=
  concat (print_line <$> filter (fun l => match_ pattern l = true) (fst (lines s))).

Lemma strchr_None s : 0 ∉ s -> strchr s newline = None <-> newline ∉ s.
Proof.
  induction s as [|x s IH]; intros H0; simpl; [set_solver|].
  apply not_elem_of_cons in H0 as [H0 H1]. rewrite (proj2 (Z.eqb_neq _ _)) by done.
  rewrite not_elem_of_cons. destruct (Z.eqb_spec x newline) as [->|Hx].
  - split; [done|]. by intros [].
  - rewrite fmap_None, IH by done. naive_solver.
Qed.
Lemma lines_None s : newline ∉ s -> lines s = ([], s).
Proof.
  induction s as [|x s IH]; simpl; [done|]. intros [H1 H2]%not_elem_of_cons.
  rewrite IH by done. by rewrite (proj2 (Z.eqb_neq _ _)).
Qed.
Lemma strchr_Some s q :
  strchr s newline = Some q ->
  lines s = (take q s :: fst (lines (drop (S q) s)), snd (lines (drop (S q) s))).
Proof.
  revert q. induction s as [|x s IH]; intros q; simpl; [done|].
  destruct (x =? 0); [done|]. destruct (Z.eqb_spec x newline) as [->|Hx].
  - intros [= <-]. simpl. rewrite drop_0. by destruct (lines s).
  - intros (q' & Hq' & ->)%fmap_Some. specialize (IH _ Hq').
    destruct (lines s). by injection IH as -> ->.
Qed.

Lemma strchr_lt s q : strchr s newline = Some q -> (q < length s)%nat.
Proof.
  revert q. induction s as [|x s IH]; intros q; simpl; [done|].
  destruct (x =? 0); [done|]. destruct (x =? newline).
  - intros [= <-]. lia.
  - intros (q' & H & ->)%fmap_Some. apply IH in H. lia.
Qed.
Lemma grep_lines_run fuel pattern p :
  0 ∉ p -> (length p < fuel)%nat ->
  grep_lines fuel pattern p = Some (matching pattern p, snd (lines p)).
Proof.
  revert p. induction fuel as [|fuel IH]; intros p H0 Hf; [lia|]. simpl.
  destruct (strchr p newline) as [q|] eqn:E.
  - pose proof (strchr_lt _ _ E). rewrite IH; simpl.
    + rewrite (strchr_Some _ _ E). unfold matching. rewrite (strchr_Some _ _ E). simpl fst.
      do 2 f_equal. rewrite filter_cons. case_decide as H1.
      * rewrite H1. simpl. unfold print_line. by rewrite <-!app_assoc.
      * by rewrite (not_true_is_false _ H1).
    + intros H1. apply H0. rewrite <-(take_drop (S q) p). by apply elem_of_app; right.
    + rewrite length_drop. lia.
  - apply strchr_None in E; [|done]. unfold matching. by rewrite lines_None.
Qed.

Lemma lines_app s t :
  lines (s ++ t) =
    (fst (lines s) ++ fst (lines (snd (lines s) ++ t)), snd (lines (snd (lines s) ++ t))).
Proof.
  induction s as [|x s IH]; simpl; [by destruct (lines t)|]. rewrite IH.
  destruct (lines s) as [ls rest]; simpl. destruct (Z.eqb_spec x newline) as [->|Hx]; [done|].
  destruct ls as [|l ls]; [|done]. simpl. destruct (lines (rest ++ t)) as [[|l ls] r]; simpl;
    by rewrite (proj2 (Z.eqb_neq _ _)).
Qed.
Lemma matching_app pattern s t :
  matching pattern (s ++ t) = matching pattern s ++ matching pattern (snd (lines s) ++ t).
Proof.
  unfold matching. rewrite (lines_app s t). simpl fst. by rewrite filter_app, fmap_app, concat_app.
Qed.
Lemma lines_rest s : newline ∉ snd (lines s) /\ forall x, x ∈ snd (lines s) -> x ∈ s.
Proof.
  induction s as [|x s [IH1 IH2]]; simpl; [set_solver|].
  destruct (lines s) as [[|l ls] r]; destruct (Z.eqb_spec x newline); set_solver.
Qed.
Lemma length_rest s : (length (snd (lines s)) <= length s)%nat.
Proof.
  induction s as [|x s IH]; simpl; [done|]. destruct (lines s) as [[|l ls] r]; simpl in *;
    destruct (x =? newline); simpl; lia.
Qed.
Lemma rest_shorter s : newline ∈ s -> (length (snd (lines s)) < length s)%nat.
Proof.
  induction s as [|x s IH]; [by intros ?%elem_of_nil|]. intros H. simpl.
  pose proof (length_rest s).
  destruct (Z.eqb_spec x newline) as [->|Hx].
  - destruct (lines s); simpl in *. lia.
  - apply elem_of_cons in H as [Hn|H]; [congruence|]. specialize (IH H).
    destruct (lines s) as [[|l ls] r]; simpl in *; lia.
Qed.

(** What read gives: no NUL, at least a byte, no more than there is room for behind the [m]
    bytes kept, and a complete line. *)
Fixpoint reads_ok (m : list Z) (reads : list (list Z)) : Prop :=
  match reads with
  | [] => True
  | n :: reads =>
      0 ∉ n /\ newline ∈ n /\ (length m + length n < BUFLEN)%nat /\
      reads_ok (snd (lines (m ++ n))) reads
  end.

Lemma grep_reads pattern m reads :
  0 ∉ m -> reads_ok m reads ->
  newline ∉ m -> grep pattern m reads = Some (matching pattern (m ++ concat reads)).
Proof.
  revert m. induction reads as [|n reads IH]; intros m H0 H Hm; cbn [grep concat].
  - rewrite app_nil_r. unfold matching. by rewrite lines_None.
  - destruct H as (Hn0 & Hn & Hl & H).
    rewrite (proj2 (Nat.ltb_ge _ _)) by lia.
    rewrite bool_decide_false by (intros ->; by apply elem_of_nil in Hn). cbn [orb].
    assert (0 ∉ m ++ n) as Hmn by (rewrite elem_of_app; tauto).
    rewrite grep_lines_run by (done || lia). cbn.
    assert (newline ∈ m ++ n) as Hin by (apply elem_of_app; by right).
    pose proof (rest_shorter _ Hin).
    rewrite bool_decide_false by (intros Heq; rewrite Heq in *; lia).
    destruct (lines_rest (m ++ n)) as [Hr1 Hr2].
    rewrite IH by eauto.
    simpl. by rewrite (app_assoc m), (matching_app pattern (m ++ n)).
Qed.


(** An unfinished line is lost.  The bytes of a read that holds no newline are thrown away,
    with what was kept from before: grep then prints what it would without them. *)
Theorem grep_drops_partial_line pattern m n reads :
  0 ∉ m ++ n -> newline ∉ m ++ n -> n <> [] -> (length m + length n < BUFLEN)%nat ->
  grep pattern m (n :: reads) = grep pattern [] reads.
Proof.
  intros H0 Hn Hne Hl. cbn [grep].
  rewrite (proj2 (Nat.ltb_ge _ _)) by lia. rewrite bool_decide_false by done. cbn [orb].
  rewrite grep_lines_run by (done || lia). rewrite lines_None by done. simpl.
  rewrite bool_decide_true by done. unfold matching. rewrite lines_None by done. simpl.
  by destruct (grep pattern [] reads).
Qed.
Lemma grep_drops_partial_line_witness :
  grep [97] [] [[97]; [98; 10]] = grep [97] [] [[98; 10]].
Proof.
  apply (grep_drops_partial_line [97] [] [97] [[98; 10]]);
    [set_solver|set_solver|done|unfold BUFLEN; simpl; lia].
Defined.
