(* ===== verification/Sh.v ===== *)
(** The shell, user/sh.c: its parser, proved against the grammar of command lines, and the way
    [runcmd] wires up the file descriptors of the commands it starts. *)
From S2P Require Import Prelude Kstate.

(** * Commands

    A pointer into the command line is the text from there to its end, so that [es] is the
    empty text and the character under a pointer is the head, or NUL at the end. *)

Abbreviation ptr := (list Z).
Definition MAXARGS : nat := 10.

Record redir := mkRedir { r_file : ptr; r_efile : ptr; r_mode : Z; r_fd : Z }.
(** struct cmd: the arguments of an execcmd are the pairs of argv and eargv in front of the
    null pointer. *)
Inductive cmd :=
| EXEC (args : list (ptr * ptr))
| REDIR (c : cmd) (r : redir)
| PIPE (left right : cmd)
| LIST (left right : cmd)
| BACK (c : cmd).

(** * Lexing *)

(** strchr(set, c), used as a condition. *)
Definition strchr (set : list Z) (c : Z) : bool := existsb (Z.eqb c) set.
#[global] Arguments strchr : simpl never.
Definition whitespace : list Z := [32; 9; 13; 10; 11].
Definition ch_lt : Z := 60.
Definition ch_bar : Z := 124.
Definition ch_gt : Z := 62.
Definition ch_amp : Z := 38.
Definition ch_semi : Z := 59.
Definition ch_open : Z := 40.
Definition ch_close : Z := 41.
Definition symbols : list Z := [ch_lt; ch_bar; ch_gt; ch_amp; ch_semi; ch_open; ch_close].
Definition tok_word : Z := 97.
Definition tok_append : Z := 43.

Fixpoint skip (P : Z -> bool) (s : list Z) : list Z :=
  match s with c :: s' => if P c then skip P s' else s | [] => [] end.
Definition skip_ws : list Z -> list Z := skip (strchr whitespace).
Definition is_word_char (c : Z) : bool := negb (strchr whitespace c) && negb (strchr symbols c).

(** The parser's state is the pointer [ps]. *)
Abbreviation P := (M (list Z)).
(** The token, and the text between [q] and [eq]. *)
Definition gettoken : P (Z * ptr * ptr) :=
  s <- get;
  let q := skip_ws s in
  let '(tok, eq) :=
    match q with
    | [] => (0, q)
    | c :: s =>
        if strchr [ch_bar; ch_open; ch_close; ch_semi; ch_amp; ch_lt] c then (c, s)
        else if c =? ch_gt then
          match s with
          | d :: s' => if d =? ch_gt then (tok_append, s') else (c, s)
          | [] => (c, s)
          end
        else (tok_word, skip is_word_char q)
    end in
  modify (fun _ => skip_ws eq);;
  ret (tok, q, eq).
Definition peek (toks : list Z) : P bool :=
  s <- get;
  modify (fun _ => skip_ws s);;
  ret (match skip_ws s with c :: _ => strchr toks c | [] => false end).

(** * Parsing

    parseredirs wraps the command it is given; parseexec gives it the execcmd whose arguments
    it goes on to fill in, so that the wraps are put around the finished command here. *)

Definition wrap (c : cmd) (rs : list redir) : cmd := foldl REDIR c rs.
Fixpoint parseredirs (fuel : nat) (rs : list redir) : P (list redir) :=
  match fuel with
  | O => hang
  | S fuel =>
      b <- peek [ch_lt; ch_gt];
      if (b : bool) then
        '(tok, _, _) <- gettoken;
        '(t, q, eq) <- gettoken;
        if negb (t =? tok_word) then panic "missing file for redirection" else
        parseredirs fuel (rs ++ [if tok =? ch_lt then mkRedir q eq O_RDONLY 0
                                 else mkRedir q eq (Z.lor O_WRONLY O_CREATE) 1])
      else ret rs
  end.
(** The loop of parseexec. *)
Fixpoint parseargs (fuel : nat) (args : list (ptr * ptr)) (rs : list redir) : P cmd :=
  match fuel with
  | O => hang
  | S fuel =>
      b <- peek [ch_bar; ch_close; ch_amp; ch_semi];
      if (b : bool) then ret (wrap (EXEC args) rs) else
      '(tok, q, eq) <- gettoken;
      if tok =? 0 then ret (wrap (EXEC args) rs) else
      if negb (tok =? tok_word) then panic "syntax" else
      let args := args ++ [(q, eq)] in
      if (MAXARGS <=? length args)%nat then panic "too many args" else
      rs <- parseredirs fuel rs;
      parseargs fuel args rs
  end.
(** The loop of parseline over the ampersands. *)
Fixpoint parsebacks (fuel : nat) (c : cmd) : P cmd :=
  match fuel with
  | O => hang
  | S fuel =>
      b <- peek [ch_amp];
      if (b : bool) then gettoken;; parsebacks fuel (BACK c) else ret c
  end.

Fixpoint parseline (fuel : nat) : P cmd :=
  match fuel with
  | O => hang
  | S fuel =>
      c <- parsepipe fuel;
      c <- parsebacks fuel c;
      b <- peek [ch_semi];
      if (b : bool) then gettoken;; r <- parseline fuel; ret (LIST c r) else ret c
  end
with parsepipe (fuel : nat) : P cmd :=
  match fuel with
  | O => hang
  | S fuel =>
      c <- parseexec fuel;
      b <- peek [ch_bar];
      if (b : bool) then gettoken;; r <- parsepipe fuel; ret (PIPE c r) else ret c
  end
with parseexec (fuel : nat) : P cmd :=
  match fuel with
  | O => hang
  | S fuel =>
      b <- peek [ch_open];
      if (b : bool) then parseblock fuel else
      rs <- parseredirs fuel [];
      parseargs fuel [] rs
  end
with parseblock (fuel : nat) : P cmd :=
  match fuel with
  | O => hang
  | S fuel =>
      b <- peek [ch_open];
      if negb b then panic "parseblock" else
      gettoken;;
      c <- parseline fuel;
      b <- peek [ch_close];
      if negb b then panic "syntax - missing )" else
      gettoken;;
      rs <- parseredirs fuel [];
      ret (wrap c rs)
  end.

(** * NUL termination *)

(** The places where nulterminate stores a NUL. *)
Fixpoint ends (c : cmd) : list ptr :=
  match c with
  | EXEC args => snd <$> args
  | REDIR c r => ends c ++ [r_efile r]
  | PIPE l r | LIST l r => ends l ++ ends r
  | BACK c => ends c
  end.
(** The index of a pointer into the buffer, which holds the line and its NUL. *)
Definition index (s : list Z) (p : ptr) : nat := length s - length p.
Definition put_nuls (s : list Z) (es : list ptr) (buf : list Z) : list Z :=
  foldl (fun (buf : list Z) e => <[index s e := 0]> buf) buf es.
Definition nulterminate (s : list Z) (c : cmd) : list Z := put_nuls s (ends c) (s ++ [0]).

(** [parsecmd]: the command and the buffer it points into.  The parser calls itself at most
    four deep for every character. *)
Definition parse_fuel (s : list Z) : nat := 4 * length s + 8.
Definition parsecmd (s : list Z) : result (list Z) (cmd * list Z) :=
  (c <- parseline (parse_fuel s);
   peek [];;
   rest <- get;
   if negb (bool_decide (rest = [])) then panic "syntax" else
   ret (c, nulterminate s c)) s.

(** * Termination

    [wp m Q s]: run at [s], [m] panics or ends with [Q]. *)
Definition wp {A} (m : P A) (Q : A -> list Z -> Prop) (s : list Z) : Prop :=
  match m s with Ok a s' => Q a s' | Panic _ => True | _ => False end.
Lemma wpp_ret {A} (a : A) (Q : A -> list Z -> Prop) s : Q a s -> wp (ret a) Q s.
Proof. done. Qed.
Lemma wp_panic {A} msg (Q : A -> list Z -> Prop) s : wp (panic msg) Q s.
Proof. done. Qed.
Lemma wpp_bind {A B} (m : P A) (k : A -> P B) Q s :
  wp m (fun a s' => wp (k a) Q s') s -> wp (bind m k) Q s.
Proof. unfold wp, bind. by destruct (m s). Qed.
Lemma wpp_mono {A} (m : P A) (Q Q' : A -> list Z -> Prop) s :
  wp m Q s -> (forall a s', Q a s' -> Q' a s') -> wp m Q' s.
Proof. unfold wp. destruct (m s); eauto. Qed.

Lemma skip_length P s : (length (skip P s) <= length s)%nat.
Proof. induction s as [|c s IH]; simpl; [done|]. destruct (P c); simpl; lia. Qed.
Lemma skip_head P s c s' : skip P s = c :: s' -> P c = false.
Proof. induction s as [|d s IH]; simpl; [done|]. destruct (P d) eqn:E; naive_solver. Qed.
Lemma strchr_spec l c : strchr l c = true <-> c ∈ l.
Proof.
  unfold strchr. rewrite existsb_exists. split.
  - intros (x & Hx & ->%Z.eqb_eq). by apply list_elem_of_In.
  - intros H. exists c. by rewrite <-list_elem_of_In, Z.eqb_refl.
Qed.
Lemma symbol_cases c :
  strchr symbols c = strchr [ch_bar; ch_open; ch_close; ch_semi; ch_amp; ch_lt] c || (c =? ch_gt).
Proof.
  apply eq_true_iff_eq. rewrite orb_true_iff, !strchr_spec, Z.eqb_eq. unfold symbols. set_solver.
Qed.

Lemma wp_peek toks s :
  wp (peek toks) (fun b s' => s' = skip_ws s /\ (b = true -> s' <> [])) s.
Proof. unfold wp, peek. simpl. split; [done|]. by destruct (skip_ws s). Qed.
(** gettoken moves on unless it is at the end. *)
Lemma wp_gettoken s :
  wp gettoken (fun r s' => (length s' <= length s)%nat /\
    (skip_ws s <> [] \/ r.1.1 <> 0 -> (length s' < length s)%nat)) s.
Proof.
  unfold wp, gettoken. mrun. simpl. pose proof (skip_length (strchr whitespace) s) as Hl.
  fold skip_ws in Hl. destruct (skip_ws s) as [|c q] eqn:Eq; simpl in *.
  { split; [lia|]. intros []; done. }
  pose proof (skip_length (strchr whitespace) q) as Hq.
  destruct (strchr _ c) eqn:E1; simpl; [split; intros; unfold skip_ws; lia|].
  destruct (c =? ch_gt) eqn:E2.
  - destruct q as [|d q']; simpl; [split; intros; lia|].
    pose proof (skip_length (strchr whitespace) q').
    destruct (d =? ch_gt); simpl; unfold skip_ws; split; intros; simpl in *; lia.
  - assert (is_word_char c = true) as ->.
    { unfold is_word_char. rewrite (skip_head _ _ _ _ Eq), symbol_cases, E1, E2. done. }
    simpl. pose proof (skip_length is_word_char q).
    pose proof (skip_length (strchr whitespace) (skip is_word_char q)). unfold skip_ws.
    split; intros; lia.
Qed.

Ltac wp_step :=
  match goal with
  | |- wp (bind (peek _) _) _ _ =>
      apply wpp_bind; eapply wpp_mono; [apply wp_peek|]; intros ? ? [-> ?]
  | |- wp (bind gettoken _) _ _ =>
      apply wpp_bind; eapply wpp_mono; [apply wp_gettoken|]; intros [[? ?] ?] ? [? ?]
  | |- wp (ret _) _ _ => apply wpp_ret
  | |- wp (panic _) _ _ => apply wp_panic
  end.
Definition smaller {A} (s : list Z) (_ : A) (s' : list Z) : Prop := (length s' <= length s)%nat.
Lemma skip_ws_le s : (length (skip_ws s) <= length s)%nat.
Proof. apply skip_length. Qed.

Lemma skip_idem P s : skip P (skip P s) = skip P s.
Proof. induction s as [|c s IH]; simpl; [done|]. destruct (P c) eqn:E; simpl; [done|by rewrite E]. Qed.
(** A peek that succeeds is followed by a gettoken that moves on. *)
Lemma wp_peek_token {A} toks (k1 : Z * ptr * ptr -> P A) (k2 : P A) Q s :
  (forall r s', (length s' < length s)%nat -> wp (k1 r) Q s') ->
  wp k2 Q (skip_ws s) ->
  wp (b <- peek toks; if (b : bool) then r <- gettoken; k1 r else k2) Q s.
Proof.
  intros H1 H2. wp_step. pose proof (skip_ws_le s). destruct a; [|done]. wp_step.
  apply H1. enough (length s' < length (skip_ws s))%nat by lia.
  match goal with H : _ \/ _ -> _ |- _ => apply H end.
  left. unfold skip_ws. rewrite skip_idem. auto.
Qed.

Lemma wp_parseredirs fuel rs s : (length s < fuel)%nat -> wp (parseredirs fuel rs) (smaller s) s.
Proof.
  revert rs s. induction fuel as [|fuel IH]; intros rs s Hf; [lia|]. cbn [parseredirs].
  apply wp_peek_token; [|apply wpp_ret; apply skip_ws_le].
  intros [[tok ?] ?] s1 H1. wp_step. destruct (negb _); [wp_step|].
  eapply wpp_mono; [apply IH; lia|]. unfold smaller. intros. lia.
Qed.
Lemma wp_parseargs fuel args rs s :
  (length s < fuel)%nat -> wp (parseargs fuel args rs) (smaller s) s.
Proof.
  revert args rs s. induction fuel as [|fuel IH]; intros args rs s Hf; [lia|]. cbn [parseargs].
  wp_step. pose proof (skip_ws_le s). destruct a; [by apply wpp_ret|]. wp_step.
  destruct (Z.eqb_spec z 0); [apply wpp_ret; unfold smaller; lia|].
  destruct (negb _); [wp_step|]. destruct (_ <=? _)%nat; [wp_step|].
  simpl in *. assert (length s' < length s)%nat by (assert (length s' < length (skip_ws s))%nat by auto; lia).
  apply wpp_bind. eapply wpp_mono; [apply wp_parseredirs; lia|]. unfold smaller. intros rs' s1 Hr.
  eapply wpp_mono; [apply IH; lia|]. unfold smaller. intros. lia.
Qed.
Lemma wp_parsebacks fuel c s : (length s < fuel)%nat -> wp (parsebacks fuel c) (smaller s) s.
Proof.
  revert c s. induction fuel as [|fuel IH]; intros c s Hf; [lia|]. cbn [parsebacks].
  apply wp_peek_token; [|apply wpp_ret; apply skip_ws_le].
  intros r s1 H1. eapply wpp_mono; [apply IH; lia|]. unfold smaller. intros. lia.
Qed.

(** Run a routine of the parser that does not lengthen the text. *)
Ltac wp_call H := apply wpp_bind; eapply wpp_mono; [apply H; lia|]; unfold smaller at 1; cbv beta.
Lemma wp_parse fuel :
  (forall s, (4 * length s + 4 <= fuel)%nat -> wp (parseline fuel) (smaller s) s) /\
  (forall s, (4 * length s + 3 <= fuel)%nat -> wp (parsepipe fuel) (smaller s) s) /\
  (forall s, (4 * length s + 2 <= fuel)%nat -> wp (parseexec fuel) (smaller s) s) /\
  (forall s, (4 * length s + 1 <= fuel)%nat -> wp (parseblock fuel) (smaller s) s).
Proof.
  induction fuel as [|fuel (IHl & IHp & IHe & IHb)]; [repeat split; intros; lia|].
  repeat split; intros s Hs; simpl.
  - wp_call IHp. intros c s1 H1.
    wp_call wp_parsebacks. intros c2 s2 H2.
    apply wp_peek_token; [|apply wpp_ret; unfold smaller; pose proof (skip_ws_le s2); lia].
    intros r s3 H3. wp_call IHl. intros. apply wpp_ret. unfold smaller. lia.
  - wp_call IHe. intros c s1 H1.
    apply wp_peek_token; [|apply wpp_ret; unfold smaller; pose proof (skip_ws_le s1); lia].
    intros r s3 H3. wp_call IHp. intros. apply wpp_ret. unfold smaller. lia.
  - wp_step. pose proof (skip_ws_le s). destruct a.
    + eapply wpp_mono; [apply IHb; lia|]. unfold smaller. intros. lia.
    + wp_call wp_parseredirs. intros rs s1 H1.
      eapply wpp_mono; [apply wp_parseargs; lia|]. unfold smaller. intros. lia.
  - wp_step. pose proof (skip_ws_le s). destruct a; simpl; [|wp_step]. wp_step.
    assert (length s' < length (skip_ws s))%nat.
    { match goal with H : _ \/ _ -> _ |- _ => apply H end. left. unfold skip_ws. rewrite skip_idem. auto. }
    wp_call IHl. intros c s1 Hl1.
    wp_step. pose proof (skip_ws_le s1). destruct a; simpl; [|wp_step]. wp_step.
    wp_call wp_parseredirs. intros rs s3 Hl3.
    apply wpp_ret. unfold smaller. lia.
Qed.


(** * The grammar of command lines *)

(** ** Tokens *)

Inductive token := TSym (c : Z) | TAppend | TWord (w : list Z).
Definition token_text (t : token) : list Z :=
  match t with TSym c => [c] | TAppend => [ch_gt; ch_gt] | TWord w => w end.
Definition token_code (t : token) : Z :=
  match t with TSym c => c | TAppend => tok_append | TWord _ => tok_word end.
Definition first_char (t : token) : Z := hd 0 (token_text t).
Definition word_ok (w : list Z) : Prop := w <> [] /\ forallb is_word_char w = true /\ 0 ∉ w.
Definition token_ok (t : token) : Prop :=
  match t with TSym c => strchr symbols c = true | TAppend => True | TWord w => word_ok w end.
(** Nothing behind a token may continue it. *)
Definition ends_word (s : list Z) : Prop :=
  match s with c :: _ => is_word_char c = false | [] => True end.
Definition separated (t : token) (rest : list Z) : Prop :=
  match t with
  | TWord _ => ends_word rest
  | TSym c => c = ch_gt -> head rest <> Some ch_gt
  | TAppend => True
  end.
(** The text [s] is these tokens, with any white space around them. *)
Inductive lexes : list Z -> list token -> Prop :=
| lexes_end s : skip_ws s = [] -> lexes s []
| lexes_token s t rest ts :
    skip_ws s = token_text t ++ rest -> token_ok t -> separated t rest -> lexes rest ts ->
    lexes s (t :: ts).

(** ** Commands *)

Inductive redirection := RIn (f : list Z) | ROut (f : list Z) | RAppend (f : list Z).
Inductive line :=
| LPipe (p : pipeline) (backs : nat)
| LSeq (p : pipeline) (backs : nat) (l : line)
with pipeline :=
| POne (e : command)
| PPipe (e : command) (p : pipeline)
with command :=
| CWords (rs : list redirection) (args : list (list Z * list redirection))
| CBlock (l : line) (rs : list redirection).

Definition redir_tokens (r : redirection) : list token :=
  match r with
  | RIn f => [TSym ch_lt; TWord f]
  | ROut f => [TSym ch_gt; TWord f]
  | RAppend f => [TAppend; TWord f]
  end.
Definition redirs_tokens (rs : list redirection) : list token := concat (redir_tokens <$> rs).
Definition arg_tokens (a : list Z * list redirection) : list token :=
  TWord (fst a) :: redirs_tokens (snd a).
Definition args_tokens (l : list (list Z * list redirection)) : list token :=
  concat (arg_tokens <$> l).
Fixpoint line_tokens (l : line) : list token :=
  match l with
  | LPipe p n => pipe_tokens p ++ replicate n (TSym ch_amp)
  | LSeq p n l => pipe_tokens p ++ replicate n (TSym ch_amp) ++ TSym ch_semi :: line_tokens l
  end
with pipe_tokens (p : pipeline) : list token :=
  match p with
  | POne e => command_tokens e
  | PPipe e p => command_tokens e ++ TSym ch_bar :: pipe_tokens p
  end
with command_tokens (e : command) : list token :=
  match e with
  | CWords rs args => redirs_tokens rs ++ args_tokens args
  | CBlock l rs => TSym ch_open :: line_tokens l ++ TSym ch_close :: redirs_tokens rs
  end.

(** What a line means: the tree of commands with the words as strings. *)
Inductive tree :=
| TExec (argv : list (list Z))
| TRedir (c : tree) (file : list Z) (mode fd : Z)
| TPipe (l r : tree)
| TList (l r : tree)
| TBack (c : tree).
Definition redirect (c : tree) (r : redirection) : tree :=
  match r with
  | RIn f => TRedir c f O_RDONLY 0
  | ROut f | RAppend f => TRedir c f (Z.lor O_WRONLY O_CREATE) 1
  end.
Fixpoint line_tree (l : line) : tree :=
  match l with
  | LPipe p n => Nat.iter n TBack (pipe_tree p)
  | LSeq p n l => TList (Nat.iter n TBack (pipe_tree p)) (line_tree l)
  end
with pipe_tree (p : pipeline) : tree :=
  match p with
  | POne e => command_tree e
  | PPipe e p => TPipe (command_tree e) (pipe_tree p)
  end
with command_tree (e : command) : tree :=
  match e with
  | CWords rs args => foldl redirect (TExec (fst <$> args)) (rs ++ concat (snd <$> args))
  | CBlock l rs => foldl redirect (line_tree l) rs
  end.
(** No command has more arguments than parseexec takes. *)
Fixpoint line_ok (l : line) : Prop :=
  match l with LPipe p _ => pipe_ok p | LSeq p _ l => pipe_ok p /\ line_ok l end
with pipe_ok (p : pipeline) : Prop :=
  match p with POne e => command_ok e | PPipe e p => command_ok e /\ pipe_ok p end
with command_ok (e : command) : Prop :=
  match e with
  | CWords _ args => (length args < MAXARGS)%nat
  | CBlock l _ => line_ok l
  end.

(** ** Parsed commands *)

(** The pair of pointers (q, eq) into [text] is around the word [w]. *)
Definition word_at (text : list Z) (p : ptr * ptr) (w : list Z) : Prop :=
  fst p `suffix_of` text /\ fst p = w ++ snd p /\ word_ok w /\ ends_word (snd p).
Fixpoint parsed (text : list Z) (c : cmd) (t : tree) : Prop :=
  match c, t with
  | EXEC args, TExec ws => Forall2 (word_at text) args ws
  | REDIR c r, TRedir t f mode fd =>
      parsed text c t /\ word_at text (r_file r, r_efile r) f /\ r_mode r = mode /\ r_fd r = fd
  | PIPE c d, TPipe t u | LIST c d, TList t u => parsed text c t /\ parsed text d u
  | BACK c, TBack t => parsed text c t
  | _, _ => False
  end.

(** ** The lexer *)

Lemma skip_suffix P s : skip P s `suffix_of` s.
Proof.
  induction s as [|c s IH]; simpl; [done|]. destruct (P c); [|done]. by apply suffix_cons_r.
Qed.
Lemma skip_ws_idem s : skip_ws (skip_ws s) = skip_ws s.
Proof. apply skip_idem. Qed.
Lemma lexes_skip s ts : lexes s ts -> lexes (skip_ws s) ts.
Proof.
  destruct 1 as [s H|s t rest ts H H1 H2 H3].
  - constructor. by rewrite skip_ws_idem.
  - econstructor; eauto. by rewrite skip_ws_idem.
Qed.
Lemma skip_word w rest :
  forallb is_word_char w = true -> ends_word rest -> skip is_word_char (w ++ rest) = rest.
Proof.
  induction w as [|c w IH]; simpl.
  - destruct rest as [|c rest]; simpl; [done|]. by intros _ ->.
  - intros [-> H]%andb_true_iff. auto.
Qed.
Lemma word_char_symbol c : is_word_char c = true -> strchr symbols c = false.
Proof. unfold is_word_char. rewrite andb_true_iff, !negb_true_iff. tauto. Qed.

Lemma gettoken_run s t ts :
  lexes s (t :: ts) ->
  exists rest, skip_ws s = token_text t ++ rest /\ token_ok t /\ separated t rest /\ lexes rest ts /\
    gettoken s = Ok (token_code t, skip_ws s, rest) (skip_ws rest).
Proof.
  inversion 1 as [|s' t' rest ts' H1 H2 H3 H4]; subst. exists rest. repeat (split; [done|]).
  unfold gettoken. mrun. rewrite H1. destruct t as [c| |w]; simpl.
  - simpl in H2. rewrite symbol_cases in H2. apply orb_true_iff in H2.
    destruct (strchr _ c) eqn:E; [done|]. destruct H2 as [|E2]; [done|]. rewrite E2.
    apply Z.eqb_eq in E2 as ->. simpl in H3. destruct rest as [|d rest]; [done|].
    rewrite (proj2 (Z.eqb_neq d ch_gt)); [done|]. intros ->. by apply H3.
  - done.
  - destruct H2 as (Hne & Hw & _). destruct w as [|c w]; [done|]. simpl.
    pose proof Hw as Hc. simpl in Hc. apply andb_true_iff in Hc as [Hc _].
    pose proof (word_char_symbol c Hc) as Hs. rewrite symbol_cases in Hs.
    apply orb_false_iff in Hs as [-> ->].
    change (if is_word_char c then _ else _) with (skip is_word_char ((c :: w) ++ rest)).
    by rewrite skip_word.
Qed.
Lemma gettoken_end s : lexes s [] -> gettoken s = Ok (0, [], []) [].
Proof. inversion 1 as [s' H1|]; subst. unfold gettoken. mrun. by rewrite H1. Qed.
(** The characters of [set] that the next token may begin with. *)
Definition starts (set : list Z) (ts : list token) : bool :=
  match ts with t :: _ => strchr set (first_char t) | [] => false end.
Lemma peek_run set s ts : lexes s ts -> peek set s = Ok (starts set ts) (skip_ws s).
Proof.
  unfold peek. mrun. inversion 1 as [s' H1|s' t rest ts' H1 H2 H3 H4]; subst; rewrite H1; [done|].
  destruct t as [c| |[|c w]]; try done. by destruct H2.
Qed.

(** [wpl m Q s]: run at [s], [m] runs out of fuel or ends with [Q]. *)
Definition wpl {A} (m : P A) (Q : A -> list Z -> Prop) (s : list Z) : Prop :=
  match m s with Ok a s' => Q a s' | Hang => True | _ => False end.
Lemma wpl_bind {A B} (m : P A) (k : A -> P B) Q s :
  wpl m (fun a s' => wpl (k a) Q s') s -> wpl (bind m k) Q s.
Proof. unfold wpl, bind. by destruct (m s). Qed.
Lemma wpl_mono {A} (m : P A) (Q Q' : A -> list Z -> Prop) s :
  wpl m Q s -> (forall a s', Q a s' -> Q' a s') -> wpl m Q' s.
Proof. unfold wpl. destruct (m s); eauto. Qed.
Lemma wpl_run {A B} (m : P A) (k : A -> P B) Q s a s' :
  m s = Ok a s' -> wpl (k a) Q s' -> wpl (bind m k) Q s.
Proof. intros H1 H2. apply wpl_bind. unfold wpl at 1. by rewrite H1. Qed.

(** The text at [s] is these tokens, and is the end of the line. *)
Definition at_ (text s : list Z) (ts : list token) : Prop := lexes s ts /\ s `suffix_of` text.
Lemma at_skip text s ts : at_ text s ts -> at_ text (skip_ws s) ts.
Proof.
  intros [H1 H2]. split; [by apply lexes_skip|]. etrans; [apply skip_suffix|done].
Qed.
Lemma wpl_peek {B} set (k : bool -> P B) Q text s ts :
  at_ text s ts -> (forall s', at_ text s' ts -> wpl (k (starts set ts)) Q s') ->
  wpl (b <- peek set; k b) Q s.
Proof.
  intros H1 H2. eapply wpl_run; [by apply peek_run, H1|]. apply H2. by apply at_skip.
Qed.
Lemma wpl_token {B} (k : Z * ptr * ptr -> P B) Q text s t ts :
  at_ text s (t :: ts) ->
  (forall q eq s', at_ text s' ts -> (forall w, t = TWord w -> word_at text (q, eq) w) ->
    wpl (k (token_code t, q, eq)) Q s') ->
  wpl (r <- gettoken; k r) Q s.
Proof.
  intros [H1 H2] H3. destruct (gettoken_run _ _ _ H1) as (rest & E & Ht & Hs & Hl & Hr).
  eapply wpl_run; [exact Hr|].
  assert (skip_ws s `suffix_of` text) as Hq by (etrans; [apply skip_suffix|done]).
  assert (rest `suffix_of` text) as Hrest.
  { etrans; [|exact Hq]. rewrite E. by exists (token_text t). }
  apply H3; [by apply at_skip|]. intros w ->. repeat split; try done; apply Ht.
Qed.

Lemma strchr_other F G c :
  forallb (fun x => negb (strchr G x)) F = true -> strchr F c = true -> strchr G c = false.
Proof.
  rewrite forallb_forall, strchr_spec. intros H Hc. apply list_elem_of_In, H in Hc.
  by apply negb_true_iff.
Qed.
(** What may follow: the end, or a token that begins with one of these. *)
Definition follow (set : list Z) (ts : list token) : Prop :=
  match ts with t :: _ => strchr set (first_char t) = true | [] => True end.
Lemma follow_starts F G ts :
  forallb (fun x => negb (strchr G x)) F = true -> follow F ts -> starts G ts = false.
Proof. destruct ts; simpl; [done|]. apply strchr_other. Qed.
Definition after_line : list Z := [ch_close].
Definition after_pipe : list Z := [ch_close; ch_amp; ch_semi].
Definition after_command : list Z := [ch_bar; ch_close; ch_amp; ch_semi].
Definition after_redirs : list Z := [ch_bar; ch_close; ch_amp; ch_semi].

(** ** Redirections and arguments *)

Definition redir_at (text : list Z) (p : redir) (r : redirection) : Prop :=
  match r with
  | RIn f => word_at text (r_file p, r_efile p) f /\ r_mode p = O_RDONLY /\ r_fd p = 0
  | ROut f | RAppend f =>
      word_at text (r_file p, r_efile p) f /\ r_mode p = Z.lor O_WRONLY O_CREATE /\ r_fd p = 1
  end.
Lemma parsed_wrap text c t ps rs :
  parsed text c t -> Forall2 (redir_at text) ps rs -> parsed text (wrap c ps) (foldl redirect t rs).
Proof.
  intros H1 H2. revert c t H1. induction H2 as [|p r ps rs Hp H IH]; intros c t H1; simpl; [done|].
  apply IH. destruct r; destruct Hp as (? & ? & ?); done.
Qed.

Lemma parseredirs_wpl text rs : forall fuel ps s ts,
  at_ text s (redirs_tokens rs ++ ts) -> starts [ch_lt; ch_gt] ts = false ->
  wpl (parseredirs fuel ps)
    (fun ps' s' => (exists qs, ps' = ps ++ qs /\ Forall2 (redir_at text) qs rs) /\ at_ text s' ts) s.
Proof.
  induction rs as [|r rs IH]; intros [|fuel] ps s ts Hs Hf; try done; cbn [parseredirs].
  - eapply wpl_peek; [exact Hs|]. intros s1 H1. simpl in *. rewrite Hf.
    split; [|done]. exists []. by rewrite app_nil_r.
  - change (redirs_tokens (r :: rs)) with (redir_tokens r ++ redirs_tokens rs) in Hs.
    rewrite <-app_assoc in Hs. eapply wpl_peek; [exact Hs|]. intros s1 H1.
    assert (starts [ch_lt; ch_gt] (redir_tokens r ++ redirs_tokens rs ++ ts) = true) as ->
      by (by destruct r).
    assert (exists t f, redir_tokens r = [t; TWord f] /\
      forall q eq, word_at text (q, eq) f -> redir_at text
        (if token_code t =? ch_lt then mkRedir q eq O_RDONLY 0
         else mkRedir q eq (Z.lor O_WRONLY O_CREATE) 1) r) as (t & f & Et & Hr).
    { destruct r as [f|f|f]; eexists _, f; (split; [done|]); intros q eq ?; done. }
    rewrite Et in H1. eapply wpl_token; [exact H1|]. intros q1 e1 s2 H2 _.
    eapply wpl_token; [exact H2|]. intros q eq s3 H3 Hw. cbn [token_code].
    rewrite Z.eqb_refl. simpl negb. cbv iota. eapply wpl_mono; [by apply IH|].
    intros ps' s4 [(qs & -> & Hq) H4]. split; [|done]. eexists (_ :: qs).
    rewrite <-app_assoc. split; [done|]. constructor; [|done]. by apply Hr, Hw.
Qed.
Lemma word_starts G w ts :
  forallb (strchr symbols) G = true -> word_ok w -> starts G (TWord w :: ts) = false.
Proof.
  intros HG (Hne & Hw & _). destruct w as [|c w]; [done|]. simpl.
  simpl in Hw. apply andb_true_iff in Hw as [Hc _]. apply word_char_symbol in Hc.
  destruct (strchr G c) eqn:E; [|done]. apply strchr_spec, list_elem_of_In in E.
  rewrite forallb_forall in HG. apply HG in E. congruence.
Qed.
Lemma lexes_ok s ts : lexes s ts -> Forall token_ok ts.
Proof. induction 1; by constructor. Qed.
Lemma at_word text s w ts us : at_ text s (us ++ TWord w :: ts) -> word_ok w.
Proof. intros [H%lexes_ok _]. apply Forall_app in H as [_ H]. by inversion H. Qed.

Lemma args_starts G text s args us ts :
  forallb (strchr symbols) G = true ->
  forallb (fun x => negb (strchr G x)) after_command = true ->
  at_ text s (us ++ args_tokens args ++ ts) -> follow after_command ts ->
  starts G (args_tokens args ++ ts) = false.
Proof.
  intros H1 H2 H3 H4. destruct args as [|[w rw] args]; [by eapply follow_starts, H4|].
  eapply word_starts; [done|]. eapply at_word. exact H3.
Qed.
Lemma parseargs_wpl text args : forall fuel qs ps ws rs s ts,
  at_ text s (args_tokens args ++ ts) -> follow after_command ts ->
  Forall2 (word_at text) qs ws -> Forall2 (redir_at text) ps rs ->
  (length ws + length args < MAXARGS)%nat ->
  wpl (parseargs fuel qs ps)
    (fun c s' => parsed text c
        (foldl redirect (TExec (ws ++ (fst <$> args))) (rs ++ concat (snd <$> args))) /\
      at_ text s' ts) s.
Proof.
  induction args as [|[w rw] args IH]; intros [|fuel] qs ps ws rs s ts Hs Hf Hq Hp Hn; try done;
    cbn [parseargs]; (eapply wpl_peek; [exact Hs|]); intros s1 H1.
  - simpl in *. rewrite !app_nil_r. destruct ts as [|t ts].
    + eapply wpl_run; [apply gettoken_end, H1|]. simpl.
      split; [by apply parsed_wrap|]. split; [by constructor|apply suffix_nil].
    + unfold after_command in Hf. simpl in Hf |- *. rewrite Hf. split; [by apply parsed_wrap|done].
  - change (args_tokens ((w, rw) :: args)) with (TWord w :: redirs_tokens rw ++ args_tokens args) in *.
    rewrite <-app_comm_cons, <-app_assoc in *. rewrite word_starts; [|done|exact (at_word _ _ _ _ [] H1)].
    eapply wpl_token; [exact H1|]. intros q eq s2 H2 Hw. cbn [token_code].
    change (tok_word =? 0) with false. rewrite Z.eqb_refl. simpl negb. cbv iota.
    pose proof (Forall2_length _ _ _ Hq) as Hl. simpl in Hn.
    rewrite (proj2 (Nat.leb_gt _ _)) by (rewrite length_app; simpl; lia).
    assert (starts [ch_lt; ch_gt] (args_tokens args ++ ts) = false) as Hst.
    { eapply args_starts; [done..|exact H2|exact Hf]. }
    apply wpl_bind. eapply wpl_mono; [by eapply parseredirs_wpl|]. cbv beta.
    intros ps' s3 [(ps2 & -> & Hp2) H3].
    eapply wpl_mono; [eapply (IH _ _ _ (ws ++ [w]) (rs ++ rw)); try done|].
    + apply Forall2_app; [done|]. constructor; [by apply Hw|done].
    + by apply Forall2_app.
    + rewrite length_app. simpl. lia.
    + cbv beta. intros c s4. simpl. by rewrite <-!app_assoc.
Qed.

Lemma parsebacks_wpl text n : forall fuel c t s ts,
  at_ text s (replicate n (TSym ch_amp) ++ ts) -> starts [ch_amp] ts = false -> parsed text c t ->
  wpl (parsebacks fuel c) (fun c' s' => parsed text c' (Nat.iter n TBack t) /\ at_ text s' ts) s.
Proof.
  induction n as [|n IH]; intros [|fuel] c t s ts Hs Hf Hc; try done; cbn [parsebacks];
    (eapply wpl_peek; [exact Hs|]); intros s1 H1.
  - simpl in *. by rewrite Hf.
  - change (starts _ _) with true. cbv iota. eapply wpl_token; [exact H1|].
    intros q eq s2 H2 _. eapply wpl_mono; [by apply (IH _ _ (TBack t))|].
    cbv beta. intros c' s'. by rewrite <-Nat.iter_succ_r.
Qed.

(** ** The parser *)

Scheme line_mut := Induction for line Sort Prop
with pipeline_mut := Induction for pipeline Sort Prop
with command_mut := Induction for command Sort Prop.
Combined Scheme grammar_ind from line_mut, pipeline_mut, command_mut.
(** The routine [p] parses the tokens to the tree when one of [F] follows them. *)
Definition parses (p : nat -> P cmd) (F text : list Z) (toks : list token) (t : tree) : Prop :=
  forall fuel s ts, at_ text s (toks ++ ts) -> follow F ts ->
  wpl (p fuel) (fun c s' => parsed text c t /\ at_ text s' ts) s.
Definition line_parses text l := parses parseline after_line text (line_tokens l) (line_tree l).
Definition pipe_parses text p := parses parsepipe after_pipe text (pipe_tokens p) (pipe_tree p).
Definition command_parses text e :=
  parses parseexec after_command text (command_tokens e) (command_tree e).

Lemma words_parse text rs args :
  (length args < MAXARGS)%nat -> command_parses text (CWords rs args).
Proof.
  intros Hn [|fuel] s ts Hs Hf; [done|]. simpl in Hs. rewrite <-app_assoc in Hs. simpl.
  eapply wpl_peek; [exact Hs|]. intros s1 H1.
  assert (starts [ch_open] (redirs_tokens rs ++ args_tokens args ++ ts) = false) as ->.
  { destruct rs as [|[] rs]; try done. eapply (args_starts _ _ _ _ []); [done..|exact H1|exact Hf]. }
  apply wpl_bind. eapply wpl_mono;
    [eapply parseredirs_wpl; [exact H1|eapply args_starts; [done..|exact H1|exact Hf]]|].
  intros ps s2 [(qs & -> & Hq) H2]. eapply wpl_mono; [|intros c s3 H3; exact H3].
  by eapply (parseargs_wpl text args _ [] _ [] rs).
Qed.
Lemma block_parses text l rs : line_parses text l -> command_parses text (CBlock l rs).
Proof.
  intros IH [|[|fuel]] s ts Hs Hf; [done| |].
  { simpl. by eapply wpl_peek; [exact Hs|]. }
  cbn [command_tokens] in Hs. rewrite <-app_comm_cons, <-app_assoc, <-app_comm_cons in Hs.
  cbn [parseexec parseblock]. eapply wpl_peek; [exact Hs|]. intros s1 H1.
  change (starts _ _) with true. cbv iota. eapply wpl_peek; [exact H1|]. intros s2 H2.
  change (starts _ _) with true. simpl negb. cbv iota. eapply wpl_token; [exact H2|].
  intros _ _ s3 H3 _. apply wpl_bind. eapply wpl_mono; [by apply IH|].
  intros c s4 [Hc H4]. eapply wpl_peek; [exact H4|]. intros s5 H5.
  change (starts _ _) with true. simpl negb. cbv iota. eapply wpl_token; [exact H5|].
  intros _ _ s6 H6 _. apply wpl_bind.
  eapply wpl_mono; [eapply parseredirs_wpl; [exact H6|eapply follow_starts; [|exact Hf]; done]|].
  intros ps s7 [(qs & -> & Hq) H7]. split; [by apply parsed_wrap|done].
Qed.
Lemma pipe_one_parses text e : command_parses text e -> pipe_parses text (POne e).
Proof.
  intros IH [|fuel] s ts Hs Hf; [done|]. simpl. apply wpl_bind.
  eapply wpl_mono; [apply IH; [exact Hs|]|].
  { destruct ts as [|t ts]; [done|]. simpl in *. apply strchr_spec in Hf. apply strchr_spec.
    set_solver. }
  intros c s1 [Hc H1]. eapply wpl_peek; [exact H1|]. intros s2 H2.
  by rewrite (follow_starts after_pipe).
Qed.
Lemma pipe_pipe_parses text e p :
  command_parses text e -> pipe_parses text p -> pipe_parses text (PPipe e p).
Proof.
  intros IHe IHp [|fuel] s ts Hs Hf; [done|]. simpl in Hs.
  rewrite <-app_assoc, <-app_comm_cons in Hs. simpl. apply wpl_bind.
  eapply wpl_mono; [by apply IHe|]. intros c s1 [Hc H1].
  eapply wpl_peek; [exact H1|]. intros s2 H2. change (starts _ _) with true. cbv iota.
  eapply wpl_token; [exact H2|]. intros _ _ s3 H3 _. apply wpl_bind.
  eapply wpl_mono; [by apply IHp|]. intros d s4 [Hd H4]. done.
Qed.
(** A line's pipeline and its ampersands. *)
Lemma line_head text p n fuel k s ts Q :
  pipe_parses text p -> at_ text s (pipe_tokens p ++ replicate n (TSym ch_amp) ++ ts) ->
  follow after_pipe ts -> starts [ch_amp] ts = false ->
  (forall c s', parsed text c (Nat.iter n TBack (pipe_tree p)) -> at_ text s' ts -> wpl (k c) Q s') ->
  wpl (c <- parsepipe fuel; c <- parsebacks fuel c; k c : P cmd) Q s.
Proof.
  intros IH Hs Hf Ha Hk. apply wpl_bind. eapply wpl_mono; [apply IH; [exact Hs|by destruct n]|].
  intros c s1 [Hc H1]. apply wpl_bind. eapply wpl_mono; [by eapply parsebacks_wpl|].
  intros d s2 [Hd H2]. by apply Hk.
Qed.
Lemma line_pipe_parses text p n : pipe_parses text p -> line_parses text (LPipe p n).
Proof.
  intros IH [|fuel] s ts Hs Hf; [done|]. simpl in Hs. rewrite <-app_assoc in Hs. simpl.
  eapply line_head; [exact IH|exact Hs| |eapply follow_starts; [|exact Hf]; done|].
  { destruct ts as [|t ts]; [done|]. simpl in *. apply strchr_spec in Hf. apply strchr_spec.
    set_solver. }
  intros c s1 Hc H1. eapply wpl_peek; [exact H1|]. intros s2 H2.
  by rewrite (follow_starts after_line).
Qed.
Lemma line_seq_parses text p n l :
  pipe_parses text p -> line_parses text l -> line_parses text (LSeq p n l).
Proof.
  intros IHp IHl [|fuel] s ts Hs Hf; [done|]. simpl in Hs.
  rewrite <-!app_assoc, <-app_comm_cons in Hs. simpl.
  eapply line_head; [exact IHp|exact Hs|done|done|].
  intros c s1 Hc H1. eapply wpl_peek; [exact H1|]. intros s2 H2. change (starts _ _) with true.
  cbv iota. eapply wpl_token; [exact H2|]. intros _ _ s3 H3 _. apply wpl_bind.
  eapply wpl_mono; [by apply IHl|]. intros d s4 [Hd H4]. done.
Qed.
Lemma grammar_parses text :
  (forall l, line_ok l -> line_parses text l) /\ (forall p, pipe_ok p -> pipe_parses text p) /\
  (forall e, command_ok e -> command_parses text e).
Proof.
  apply grammar_ind; simpl; intros.
  - apply line_pipe_parses; auto.
  - apply line_seq_parses; tauto.
  - apply pipe_one_parses; auto.
  - apply pipe_pipe_parses; tauto.
  - by apply words_parse.
  - apply block_parses; auto.
Qed.

(** * The strings of a parsed command *)

(** The C string at an index of the buffer. *)
Fixpoint cstring (bs : list Z) : list Z :=
  match bs with c :: bs => if c =? 0 then [] else c :: cstring bs | [] => [] end.
Definition string_at (s buf : list Z) (p : ptr) : list Z := cstring (drop (index s p) buf).
Fixpoint strings (s buf : list Z) (c : cmd) : tree :=
  match c with
  | EXEC args => TExec ((fun a => string_at s buf (fst a)) <$> args)
  | REDIR c r => TRedir (strings s buf c) (string_at s buf (r_file r)) (r_mode r) (r_fd r)
  | PIPE c d => TPipe (strings s buf c) (strings s buf d)
  | LIST c d => TList (strings s buf c) (strings s buf d)
  | BACK c => TBack (strings s buf c)
  end.

Lemma cstring_word w bs :
  0 ∉ w -> (forall j, (j < length w)%nat -> bs !! j = w !! j) -> bs !! length w = Some 0 ->
  cstring bs = w.
Proof.
  revert bs. induction w as [|c w IH]; intros bs H0 H1 H2; destruct bs as [|d bs]; try done.
  - simpl in *. by injection H2 as ->.
  - apply not_elem_of_cons in H0 as [Hc H0]. simpl.
    specialize (H1 0%nat ltac:(simpl; lia)) as Hd. injection Hd as ->.
    rewrite (proj2 (Z.eqb_neq _ _)) by done. f_equal. apply IH; [done| |done].
    intros j Hj. apply (H1 (S j)). simpl. lia.
Qed.
Definition stops (s : list Z) (e : ptr) : Prop := e `suffix_of` s /\ ends_word e.
Lemma nul_lookup s (E : list ptr) buf i :
  put_nuls s E buf !! i =
    if bool_decide (i ∈ index s <$> E) then (fun _ => 0) <$> buf !! i else buf !! i.
Proof.
  revert buf. induction E as [|e E IH]; intros buf; [done|].
  change (put_nuls s (e :: E) buf) with (put_nuls s E (<[index s e := 0]> buf)). rewrite IH.
  cbn [fmap list_fmap].
  destruct (decide (i = index s e)) as [->|Hne].
  - rewrite (bool_decide_true (_ ∈ _ :: _)) by (by left).
    destruct (decide (index s e < length buf)%nat) as [Hl|Hl].
    + rewrite list_lookup_insert_eq by done. destruct (lookup_lt_is_Some_2 _ _ Hl) as [x ->].
      by case_bool_decide.
    + rewrite list_insert_ge by lia. rewrite lookup_ge_None_2 by lia. by case_bool_decide.
  - rewrite list_lookup_insert_ne by done.
    assert (i ∈ index s e :: (index s <$> E) <-> i ∈ index s <$> E) as Hi by set_solver.
    by rewrite (bool_decide_ext _ _ Hi).
Qed.
(** No end is inside a word. *)
Lemma stop_outside s e pre w rest j :
  s = pre ++ w ++ rest -> forallb is_word_char w = true -> stops s e -> (j < length w)%nat ->
  index s e <> (length pre + j)%nat.
Proof.
  intros -> Hw [[p Hp] He] Hj Hi. destruct (lookup_lt_is_Some_2 w j Hj) as [c Hc].
  unfold index in Hi. rewrite Hp, length_app in Hi. replace (_ - _)%nat with (length p) in Hi by lia.
  assert ((pre ++ w ++ rest) !! (length pre + j)%nat = Some c) as H1.
  { rewrite lookup_app_r by lia. replace (_ - _)%nat with j by lia. by rewrite lookup_app_l. }
  rewrite Hp, <-Hi, lookup_app_r, Nat.sub_diag in H1 by lia.
  destruct e as [|d e]; [done|]. injection H1 as ->. simpl in He.
  rewrite forallb_forall in Hw. apply list_elem_of_lookup_2, list_elem_of_In, Hw in Hc. congruence.
Qed.
Lemma string_at_word s E q eq w :
  word_at s (q, eq) w -> eq ∈ E -> Forall (stops s) E ->
  string_at s (put_nuls s E (s ++ [0])) q = w.
Proof.
  intros ([pre Hs] & Hq & (Hne & Hw & H0) & He) Hin HE. simpl in *. subst q.
  assert (index s (w ++ eq) = length pre) as Hi.
  { unfold index. rewrite Hs, length_app. lia. }
  assert (index s eq = length pre + length w)%nat as Hi2.
  { unfold index. rewrite Hs, !length_app. lia. }
  unfold string_at. rewrite Hi. apply cstring_word; [done| |].
  - intros j Hj. rewrite lookup_drop, nul_lookup, bool_decide_false.
    + rewrite Hs, <-!app_assoc, lookup_app_r by lia.
      replace (_ - _)%nat with j by lia. by rewrite lookup_app_l.
    + intros (e & Hie & Hee)%list_elem_of_fmap. rewrite Forall_forall in HE.
      eapply (stop_outside s e pre w eq j); eauto.
  - rewrite lookup_drop, nul_lookup, bool_decide_true.
    + destruct (lookup_lt_is_Some_2 (s ++ [0]) (length pre + length w)) as [x ->]; [|done].
      rewrite Hs, !length_app. simpl. lia.
    + apply list_elem_of_fmap. exists eq. by rewrite Hi2.
Qed.
Lemma parsed_stops s c t : parsed s c t -> Forall (stops s) (ends c).
Proof.
  revert t. induction c as [args|c IH r|c IHc d IHd|c IHc d IHd|c IH];
    intros [ws|t f mode fd|t u|t u|t]; simpl; try done.
  - intros H. induction H as [|[q eq] w args ws Hw H IH]; simpl; constructor; [|done].
    destruct Hw as ([p Hp] & Hq & _ & He). simpl in *. split; [|done].
    exists (p ++ w). by rewrite Hp, Hq, <-app_assoc.
  - intros (H1 & ([p Hp] & Hq & _ & He) & _). apply Forall_app. split; [by eapply IH|].
    apply Forall_singleton. simpl in *. split; [|done]. exists (p ++ f).
    by rewrite Hp, Hq, <-app_assoc.
  - intros [H1 H2]. apply Forall_app. eauto.
  - intros [H1 H2]. apply Forall_app. eauto.
  - eauto.
Qed.
Lemma parsed_strings s c t E :
  parsed s c t -> Forall (stops s) E -> (forall e, e ∈ ends c -> e ∈ E) ->
  strings s (put_nuls s E (s ++ [0])) c = t.
Proof.
  intros H HE. revert t H. induction c as [args|c IH r|c IHc d IHd|c IHc d IHd|c IH];
    intros [ws|t f mode fd|t u|t u|t]; simpl; try done; intros H Hin.
  - f_equal. induction H as [|[q eq] w args ws Hw H IH]; simpl in *; [done|].
    f_equal; [|apply IH; set_solver]. eapply string_at_word; [done| |done]. set_solver.
  - destruct H as (H1 & H2 & <- & <-). rewrite IH with (t := t); [|done|set_solver].
    f_equal. eapply string_at_word; [done| |done]. set_solver.
  - destruct H. rewrite IHc with (t := t), IHd with (t := u) by set_solver. done.
  - destruct H. rewrite IHc with (t := t), IHd with (t := u) by set_solver. done.
  - rewrite IH with (t := t) by set_solver. done.
Qed.

(** C28: parsing a command line.  A text that is the tokens of a line of the grammar, with any
    white space around them, is parsed, and the command, read through the NULs that
    nulterminate has put into the buffer, is the tree the grammar gives the line. *)
Theorem parsecmd_correct s l :
  lexes s (line_tokens l) -> line_ok l ->
  exists c buf s', parsecmd s = Ok (c, buf) s' /\ strings s buf c = line_tree l.
Proof.
  intros Hs Hl. destruct (grammar_parses s) as (H & _ & _).
  specialize (H l Hl (parse_fuel s) s []). rewrite app_nil_r in H.
  specialize (H (conj Hs (reflexivity s)) Logic.I).
  destruct (wp_parse (parse_fuel s)) as (T & _). specialize (T s ltac:(unfold parse_fuel; lia)).
  unfold wpl in H. unfold wp in T. unfold parsecmd, bind at 1.
  destruct (parseline (parse_fuel s) s) as [c s1| | | |]; try done.
  destruct H as [Hc [H1 _]]. exists c, (nulterminate s c), [].
  step (peek_run [] _ _ H1). inversion H1 as [s2 E|]; subst. rewrite E.
  split; [done|]. unfold nulterminate. apply parsed_strings; [done| |done].
  by eapply parsed_stops.
Qed.
(** The line "(a b|c)>d &;e" with a newline. *)
Definition a_line : list Z :=
  [40; 97; 32; 98; 124; 99; 41; 62; 100; 32; 38; 59; 101; 10].
Definition a_parse : line :=
  LSeq (POne (CBlock (LPipe (PPipe (CWords [] [([97], []); ([98], [])]) (POne (CWords [] [([99], [])]))) 0)
    [ROut [100]])) 1 (LPipe (POne (CWords [] [([101], [])])) 0).
Lemma parsecmd_correct_witness :
  exists c buf s', parsecmd a_line = Ok (c, buf) s' /\
    strings a_line buf c =
      TList (TBack (TRedir (TPipe (TExec [[97]; [98]]) (TExec [[99]])) [100] 513 1)) (TExec [[101]]).
Proof.
  apply (parsecmd_correct a_line a_parse); [|vm_compute; lia].
  repeat (eapply lexes_token; [reflexivity|vm_compute; repeat split; set_solver|done|]).
  by constructor.
Defined.

(** * Running commands

    What runcmd does with its file descriptors, process by process.  A descriptor is open to
    something inherited, to a file, or to an end of a pipe; a pipe is named by the place in the
    command where it is made.  The system calls take the lowest unused descriptors. *)

Inductive desc :=
| DInherited (n : nat)
| DFile (file : list Z) (mode : Z)
| DRead (pipe : list bool)
| DWrite (pipe : list bool).
Abbreviation fdtable := (list (option desc)).
Fixpoint lowest (f : fdtable) : option nat :=
  match f with [] => None | None :: _ => Some 0%nat | Some _ :: f => S <$> lowest f end.
Definition sys_close (fd : nat) (f : fdtable) : fdtable := <[fd := None]> f.
Definition sys_install (d : desc) (f : fdtable) : option (nat * fdtable) :=
  i ← lowest f; Some (i, <[i := Some d]> f).
Definition sys_dup (fd : nat) (f : fdtable) : fdtable :=
  match mjoin (f !! fd) with
  | Some d => match sys_install d f with Some (_, f') => f' | None => f end
  | None => f
  end.
Definition sys_pipe (name : list bool) (f : fdtable) : option (nat * nat * fdtable) :=
  '(r, f) ← sys_install (DRead name) f;
  '(w, f) ← sys_install (DWrite name) f;
  Some (r, w, f).

(** What a process goes on to do: exit, print a message and exit, replace itself by a program,
    fork a child, wait for one. *)
Inductive script :=
| SExit
| SPanic (msg : string)
| SExec (argv : list (list Z)) (f : fdtable) (failed : script)
| SFork (child k : script)
| SWait (k : script).

Section Run.
(** Whether open finds the file. *)
Context (openable : list Z -> Z -> bool).

Fixpoint runcmd (name : list bool) (c : tree) (f : fdtable) : script :=
  match c with
  | TExec [] => SExit
  | TExec argv => SExec argv f SExit
  | TRedir c file mode fd =>
      let f := sys_close (Z.to_nat fd) f in
      match (if openable file mode then sys_install (DFile file mode) f else None) with
      | None => SExit
      | Some (_, f) => runcmd (true :: name) c f
      end
  | TList l r => SFork (runcmd (false :: name) l f) (SWait (runcmd (true :: name) r f))
  | TPipe l r =>
      match sys_pipe name f with
      | None => SPanic "pipe"
      | Some (p0, p1, f) =>
          SFork
            (let f := sys_close 1 f in
             let f := sys_dup p1 f in
             let f := sys_close p0 f in
             let f := sys_close p1 f in
             runcmd (false :: name) l f)
            (SFork
              (let f := sys_close 0 f in
               let f := sys_dup p0 f in
               let f := sys_close p0 f in
               let f := sys_close p1 f in
               runcmd (true :: name) r f)
              (SWait (SWait SExit)))
      end
  | TBack c => SFork (runcmd (true :: name) c f) SExit
  end.

(** The wiring a user expects: a redirection replaces one descriptor, a pipe connects the
    standard output of its left side to the standard input of its right side, and no other
    descriptor differs. *)
Fixpoint wired (name : list bool) (c : tree) (f : fdtable) : script :=
  match c with
  | TExec [] => SExit
  | TExec argv => SExec argv f SExit
  | TRedir c file mode fd =>
      if openable file mode
      then wired (true :: name) c (<[Z.to_nat fd := Some (DFile file mode)]> f) else SExit
  | TList l r => SFork (wired (false :: name) l f) (SWait (wired (true :: name) r f))
  | TPipe l r =>
      SFork (wired (false :: name) l (<[1%nat := Some (DWrite name)]> f))
        (SFork (wired (true :: name) r (<[0%nat := Some (DRead name)]> f))
          (SWait (SWait SExit)))
  | TBack c => SFork (wired (true :: name) c f) SExit
  end.
(** The redirections the parser makes are of standard input and output. *)
Fixpoint std_redirs (c : tree) : Prop :=
  match c with
  | TExec _ => True
  | TRedir c _ _ fd => (fd = 0 \/ fd = 1) /\ std_redirs c
  | TPipe l r | TList l r => std_redirs l /\ std_redirs r
  | TBack c => std_redirs c
  end.
(** Standard input and output are open, and two descriptors are unused. *)
Definition shell_fds (f : fdtable) : Prop :=
  (exists a b rest, f = Some a :: Some b :: rest) /\
  exists i j, (i < j)%nat /\ lowest f = Some i /\ f !! j = Some None.

Lemma lowest_Some f i :
  lowest f = Some i <-> f !! i = Some None /\ forall j, (j < i)%nat -> exists d, f !! j = Some (Some d).
Proof.
  revert i. induction f as [|[d|] f IH]; intros i; simpl.
  - split; [done|]. by intros [? _].
  - rewrite fmap_Some. split.
    + intros (i' & Hi & ->). apply IH in Hi as [H1 H2]. split; [done|].
      intros [|j] Hj; [by exists d|]. apply H2. lia.
    + intros [H1 H2]. destruct i as [|i]; [done|]. exists i. split; [|done]. apply IH.
      split; [done|]. intros j Hj. apply (H2 (S j)). lia.
  - split.
    + intros [= <-]. split; [done|]. intros j Hj. lia.
    + intros [H1 H2]. destruct i as [|i]; [done|]. destruct (H2 0%nat) as [d Hd]; [lia|done].
Qed.
Lemma sys_install_at d f i :
  lowest f = Some i -> sys_install d f = Some (i, <[i := Some d]> f).
Proof. unfold sys_install. by intros ->. Qed.
Lemma lowest_insert_used f i k d :
  lowest f = Some i -> (exists e, f !! k = Some (Some e)) -> lowest (<[k := Some d]> f) = Some i.
Proof.
  rewrite !lowest_Some. intros [H1 H2] [e He].
  assert (k < length f)%nat by (by eapply lookup_lt_Some).
  assert (k <> i) by congruence. split; [by rewrite list_lookup_insert_ne|].
  intros j Hj. destruct (decide (j = k)) as [->|Hne].
  - exists d. by apply list_lookup_insert_eq.
  - rewrite list_lookup_insert_ne by done. by apply H2.
Qed.
Lemma shell_fds_used f k : shell_fds f -> (k < 2)%nat -> exists e, f !! k = Some (Some e).
Proof. intros [(a & b & rest & ->) _] Hk. destruct k as [|[|k]]; [by exists a|by exists b|lia]. Qed.
Lemma shell_fds_insert f k d : shell_fds f -> (k < 2)%nat -> shell_fds (<[k := Some d]> f).
Proof.
  intros Hf Hk. destruct (shell_fds_used f k Hf Hk) as [e He].
  pose proof Hf as [(a & b & rest & Ef) (i & j & Hij & Hi & Hj)]. split.
  - rewrite Ef. destruct k as [|[|k]]; [by exists d, b, rest|by exists a, d, rest|lia].
  - exists i, j. split; [done|]. split; [apply lowest_insert_used; [done|by exists e]|].
    rewrite list_lookup_insert_ne; [done|]. intros ->. congruence.
Qed.
(** Closing a used descriptor below which all are used, and opening another. *)
Lemma reopen f k d :
  shell_fds f -> (k < 2)%nat ->
  sys_install d (sys_close k f) = Some (k, <[k := Some d]> f).
Proof.
  intros Hf Hk. destruct (shell_fds_used f k Hf Hk) as [e He].
  assert (k < length f)%nat by (by eapply lookup_lt_Some).
  rewrite (sys_install_at _ _ k).
  - unfold sys_close. by rewrite list_insert_insert_eq.
  - apply lowest_Some. unfold sys_close. split; [by apply list_lookup_insert_eq|].
    intros j Hj. rewrite list_lookup_insert_ne by lia. apply shell_fds_used; [done|lia].
Qed.
Lemma sys_pipe_at name f :
  shell_fds f -> exists i j, sys_pipe name f = Some (i, j, <[j := Some (DWrite name)]> (<[i := Some (DRead name)]> f)) /\
    f !! i = Some None /\ f !! j = Some None /\ (2 <= i < j)%nat.
Proof.
  intros Hf. pose proof Hf as [_ (i & j0 & Hij & Hi & Hj)].
  pose proof (proj1 (lowest_Some _ _) Hi) as [Hi1 Hi2].
  assert (exists j, lowest (<[i := Some (DRead name)]> f) = Some j) as [j Hj1].
  { assert ((<[i := Some (DRead name)]> f) !! j0 = Some None) as Hn
      by (rewrite list_lookup_insert_ne; [done|lia]).
    clear - Hn. revert j0 Hn. generalize (<[i := Some (DRead name)]> f). intros g.
    induction g as [|[d|] g IH]; intros j0 Hn; simpl; [done| |by eexists].
    destruct j0 as [|j0]; [done|]. destruct (IH j0 Hn) as [j ->]. by eexists. }
  exists i, j. unfold sys_pipe. rewrite (sys_install_at _ _ i) by done. simpl.
  rewrite (sys_install_at _ _ j) by done. simpl.
  pose proof (proj1 (lowest_Some _ _) Hj1) as [Hj2 Hj3].
  assert (i < length f)%nat by (by eapply lookup_lt_Some).
  assert (i <> j) by (intros ->; rewrite list_lookup_insert_eq in Hj2; done).
  rewrite list_lookup_insert_ne in Hj2 by done.
  repeat split; try done.
  - destruct (decide (2 <= i)%nat); [done|]. destruct (shell_fds_used f i Hf); [lia|congruence].
  - destruct (decide (i < j)%nat); [done|]. destruct (Hi2 j); [lia|congruence].
Qed.
(** Dropping both ends of the pipe, once one is duplicated, leaves the other descriptors. *)
Lemma close_ends f i j k (d r w : desc) :
  f !! i = Some None -> f !! j = Some None -> i <> j -> (k < 2)%nat -> (2 <= i)%nat -> (2 <= j)%nat ->
  sys_close j (sys_close i (<[k := Some d]> (<[j := Some w]> (<[i := Some r]> f)))) =
    <[k := Some d]> f.
Proof.
  intros Hi Hj Hij Hk Hi2 Hj2. unfold sys_close. apply list_eq. intros x.
  assert (i < length f)%nat by (by eapply lookup_lt_Some).
  assert (j < length f)%nat by (by eapply lookup_lt_Some).
  destruct (decide (x = j)) as [->|Hxj].
  { rewrite list_lookup_insert_eq by (rewrite !length_insert; done).
    by rewrite list_lookup_insert_ne by lia. }
  rewrite list_lookup_insert_ne by done. destruct (decide (x = i)) as [->|Hxi].
  { rewrite list_lookup_insert_eq by (rewrite !length_insert; done).
    by rewrite list_lookup_insert_ne by lia. }
  rewrite list_lookup_insert_ne by done. destruct (decide (x = k)) as [->|Hxk].
  - rewrite !list_lookup_insert_eq by (rewrite ?length_insert; lia). done.
  - by rewrite !list_lookup_insert_ne by done.
Qed.
Lemma pipe_end name f i j k e :
  shell_fds f -> f !! i = Some None -> f !! j = Some None -> (2 <= i < j)%nat -> (k < 2)%nat ->
  (e = i /\ k = 0 \/ e = j /\ k = 1)%nat ->
  let f2 := <[j := Some (DWrite name)]> (<[i := Some (DRead name)]> f) in
  sys_close j (sys_close i (sys_dup e (sys_close k f2))) =
    <[k := Some (if decide (e = i) then DRead name else DWrite name)]> f.
Proof.
  intros Hf Hi Hj Hij Hk He f2.
  assert (i < length f)%nat by (by eapply lookup_lt_Some).
  assert (j < length f)%nat by (by eapply lookup_lt_Some).
  assert (sys_close k f2 !! e = Some (Some (if decide (e = i) then DRead name else DWrite name))) as Hd.
  { unfold sys_close, f2. rewrite list_lookup_insert_ne by lia. destruct He as [[-> _]|[-> _]].
    - rewrite decide_True by done. rewrite list_lookup_insert_ne by lia. by apply list_lookup_insert_eq.
    - rewrite decide_False by lia. apply list_lookup_insert_eq. by rewrite length_insert. }
  unfold sys_dup. rewrite Hd. simpl mjoin. cbv iota.
  rewrite (sys_install_at _ _ k).
  - unfold sys_close at 3. rewrite list_insert_insert_eq. by apply close_ends; try lia.
  - apply lowest_Some. unfold sys_close, f2.
    destruct (shell_fds_used f k Hf Hk) as [e0 He0].
    assert (k < length f)%nat by (by eapply lookup_lt_Some). split.
    + apply list_lookup_insert_eq. by rewrite !length_insert.
    + intros x Hx. rewrite !list_lookup_insert_ne by lia. apply shell_fds_used; [done|lia].
Qed.
Lemma runcmd_wired name c f :
  std_redirs c -> shell_fds f -> runcmd name c f = wired name c f.
Proof.
  revert name f. induction c as [argv|c IH file mode fd|l IHl r IHr|l IHl r IHr|c IH];
    intros name f Hc Hf; simpl in *.
  - done.
  - destruct Hc as [Hfd Hc]. destruct (openable file mode); [|done].
    rewrite reopen by (done || destruct Hfd; subst; simpl; lia).
    apply IH; [done|]. apply shell_fds_insert; [done|]. destruct Hfd; subst; simpl; lia.
  - destruct Hc as [Hl Hr]. destruct (sys_pipe_at name f Hf) as (i & j & -> & Hi & Hj & Hij).
    rewrite (pipe_end name f i j 1 j), (pipe_end name f i j 0 i) by (done || lia || auto).
    rewrite decide_False, decide_True by lia.
    rewrite IHl, IHr; try done; apply shell_fds_insert; done || lia.
  - destruct Hc as [Hl Hr]. by rewrite IHl, IHr.
  - by rewrite IH.
Qed.
End Run.

(** The tree of a line only redirects standard input and output. *)
Lemma redirect_std rs t : std_redirs t -> std_redirs (foldl redirect t rs).
Proof.
  revert t. induction rs as [|r rs IH]; intros t H; simpl; [done|]. apply IH. destruct r; simpl; auto.
Qed.
Lemma back_std n t : std_redirs t -> std_redirs (Nat.iter n TBack t).
Proof. induction n; simpl; auto. Qed.
Lemma grammar_std :
  (forall l, std_redirs (line_tree l)) /\ (forall p, std_redirs (pipe_tree p)) /\
  (forall e, std_redirs (command_tree e)).
Proof.
  apply grammar_ind; simpl; intros; try (split; auto); try (by apply back_std);
    try (by apply redirect_std); auto.
Qed.

Definition three_fds : fdtable :=
  [Some (DInherited 0); Some (DInherited 1); Some (DInherited 2)] ++ replicate 13 None.
