(* ===== verification/Hw.v ===== *)
(** The hardware as the code that runs before and below the kernel sees it: ports, device
    registers in memory, and physical memory. *)
From ITree Require Import ITree.
From S2P Require Import Prelude Interact KString Bytes.

(** in, out, rep insl and cpuid of x86_64.h; loads and stores of device registers; text given to
    cprintf; panic; and the jump that leaves the boot loader. *)
Inductive hwE : Type -> Type :=
| Inb (port : Z) : hwE Z
| Outb (port data : Z) : hwE unit
| Insl (port cnt : Z) : hwE (list Z)
| Load (a : Z) : hwE Z
| Store (a v : Z) : hwE unit
| Cpuid (info : Z) : hwE (Z * Z * Z * Z)
| Print (text : list Z) : hwE unit
| Panics : hwE Empty_set
| Jump (entry mbi : Z) (m : mem) : hwE Empty_set.
Abbreviation hw := (itree hwE).

Definition inb (port : Z) : hw Z := call (Inb port).
Definition outb (port data : Z) : hw unit := call (Outb port (u8 data)).

(** Any hardware at all: what is written is recorded, what is read may be anything. *)
Definition any_answers (w : list (Z * Z)) {A} (e : hwE A) : A -> list (Z * Z) -> Prop :=
  match e in hwE A return A -> list (Z * Z) -> Prop with
  | Inb _ => fun v w' => 0 <= v < 256 /\ w' = w
  | Load _ => fun v w' => 0 <= v < 2 ^ 32 /\ w' = w
  | Insl _ cnt => fun bs w' => Z.of_nat (length bs) = 4 * cnt /\ w' = w
  | Outb a v | Store a v => fun _ w' => w' = w ++ [(a, v)]
  | Cpuid _ => fun _ w' => w' = w
  | Print _ => fun _ w' => w' = w
  | _ => fun _ _ => False
  end.
#[export] Instance any_hw : World hwE (list (Z * Z)) := {|
  answers w A e := any_answers w e;
  final w A e := None |}.
Lemma any_outb (Q : option unit -> list (Z * Z) -> Prop) a v w : Q (Some tt) (w ++ [(a, u8 v)]) -> must Q (outb a v) w.
Proof. intros H. apply must_call; cbn; [by exists tt; eexists|]. by intros [] w' ->. Qed.
Lemma any_inb (Q : option Z -> list (Z * Z) -> Prop) a w : (forall v, 0 <= v < 256 -> Q (Some v) w) -> must Q (inb a) w.
Proof. intros H. apply must_call; cbn; [by exists 0, w|]. intros v w' [? ->]. by apply H. Qed.

(** A 16-bit and a 32-bit field of a struct in memory. *)
Definition word16 (m : mem) (a : Z) : Z := of_le (bytes 2 a m).
Definition word32 (m : mem) (a : Z) : Z := of_le (bytes 4 a m).
Definition word64 (m : mem) (a : Z) : Z := of_le (bytes 8 a m).
(** rep insl: what was read is stored from [a] on, in 32-bit addresses. *)
Definition put (a : Z) (bs : list Z) (m : mem) : mem := fun x =>
  match bs !! Z.to_nat (u32 (x - a)) with Some b => b | None => m x end.

Lemma bytes_ext n a a' m m' :
  (forall i, 0 <= i < Z.of_nat n -> m' (a' + i) = m (a + i)) -> bytes n a' m' = bytes n a m.
Proof.
  revert a a'. induction n as [|n IH]; intros a a' H; [done|]. cbn. f_equal.
  - specialize (H 0). rewrite !Z.add_0_r in H. apply H. lia.
  - apply IH. intros i Hi. rewrite <-!Z.add_assoc. apply H. lia.
Qed.
Lemma store32_out m a v x : x < a \/ a + 4 <= x -> store32 m a v x = m x.
Proof. intros H. unfold store32. rewrite !store_ne by lia. done. Qed.
Lemma word32_store32 m a v : 0 <= v < 2 ^ 32 -> word32 (store32 m a v) a = v.
Proof.
  intros H. unfold word32, store32, store, u8. cbn [bytes of_le].
  rewrite !Z.shiftr_div_pow2 by lia. zcase; try lia. Z.to_euclidean_division_equations. lia.
Qed.
