(* ===== verification/Boot.v ===== *)
(** The boot loader, kernel/bootmain.c: it reads the kernel from the disk, as its multiboot
    header says, and jumps to it. *)
From ITree Require Import ITree.
From S2P Require Import Prelude Interact KString Bytes Hw.

Definition SECTSIZE : Z := 512.
Definition MULTIBOOT_HEADER_MAGIC : Z := 0x1BADB002.
Definition MULTIBOOT_INFO_MEM_MAP : Z := 0x40.
Definition scratch : Z := 0x10000.

Definition waitdisk : hw unit :=
  ITree.iter (fun _ =>
    s ← inb 0x1F7;
    if Z.land s 0xC0 =? 0x40 then mret (inr tt) else mret (inl tt)) tt.
Definition readsect (dst offset : Z) (m : mem) : hw mem :=
  _ ← waitdisk;
  _ ← outb 0x1F2 1;
  _ ← outb 0x1F3 offset;
  _ ← outb 0x1F4 (Z.shiftr offset 8);
  _ ← outb 0x1F5 (Z.shiftr offset 16);
  _ ← outb 0x1F6 (Z.lor (Z.shiftr offset 24) 0xE0);
  _ ← outb 0x1F7 0x20;
  _ ← waitdisk;
  bs ← call (Insl 0x1F0 (SECTSIZE / 4));
  mret (put dst bs m).
(** for (; pa < epa; pa += SECTSIZE, offset++) readsect(pa, offset); *)
Definition readseg_loop (epa : Z) : Z * Z * mem -> hw mem :=
  ITree.iter (fun '(pa, offset, m) =>
    if pa <? epa then
      m ← readsect pa offset m;
      mret (inl (u32 (pa + SECTSIZE), u32 (offset + 1), m))
    else mret (inr m)).
Definition readseg (pa count offset : Z) (m : mem) : hw mem :=
  readseg_loop (u32 (pa + count)) (u32 (pa - offset mod SECTSIZE), u32 (offset / SECTSIZE + 1), m).

(** The first of the words n, n + 1, ... of the scratch space that is the magic number. *)
Fixpoint find_magic (k : nat) (n : Z) (m : mem) : option Z :=
  match k with
  | O => None
  | S k => if word32 m (scratch + 4 * n) =? MULTIBOOT_HEADER_MAGIC then Some n
              else find_magic k (n + 1) m
  end.
(** struct multiboot_header, at [h]. *)
Definition header_addr (m : mem) (h : Z) : Z := word32 m (h + 12).
Definition load_addr (m : mem) (h : Z) : Z := word32 m (h + 16).
Definition load_end_addr (m : mem) (h : Z) : Z := word32 m (h + 20).
Definition bss_end_addr (m : mem) (h : Z) : Z := word32 m (h + 24).
Definition entry_addr (m : mem) (h : Z) : Z := word32 m (h + 28).
(** The fields of struct multiboot_info that bootmain fills in. *)
Definition fill_mbi (mbi : Z) (m : mem) : mem :=
  let len := Z.land mbi (4096 - 1) in
  store32 (store32 (store32 m mbi MULTIBOOT_INFO_MEM_MAP) (mbi + 44) len) (mbi + 48) (u32 (mbi - len)).
(** [mbi]: the global the assembly before it has set. *)
Definition bootmain (mbi : Z) (m : mem) : hw mem :=
  m ← readseg scratch 8192 0 m;
  match find_magic (8192 / 4) 0 m with
  | None => mret m
  | Some n =>
      let h := scratch + 4 * n in
      m ← readseg (load_addr m h) (u32 (load_end_addr m h - load_addr m h))
            (u32 (4 * n - u32 (header_addr m h - load_addr m h))) m;
      let m := if load_end_addr m h <? bss_end_addr m h
               then stosb (Z.to_nat (u32 (bss_end_addr m h - load_end_addr m h))) (load_end_addr m h) 0 m
               else m in
      leave (Jump (entry_addr m h) mbi (fill_mbi mbi m))
  end.

(** * The disk *)

(** The sectors; the registers of the controller; for how many polls it is busy yet; the sector
    it has ready; and where the loader has jumped. *)
Record bdisk := mkBdisk {
  sectors : Z -> list Z; regs : Z -> Z; busy : nat; ready : option Z; jumped : option (Z * Z * mem) }.
Definition lba (r : Z -> Z) : Z :=
  r 0x1F3 + 2 ^ 8 * r 0x1F4 + 2 ^ 16 * r 0x1F5 + 2 ^ 24 * (r 0x1F6 mod 16).
Definition disk_answers (w : bdisk) {A} (e : hwE A) : A -> bdisk -> Prop :=
  match e in hwE A return A -> bdisk -> Prop with
  | Inb port => fun s w' =>
      port = 0x1F7 /\
      match busy w with
      | O => Z.land s 0xC0 = 0x40 /\ w' = w
      | S n => Z.land s 0xC0 <> 0x40 /\ w' = mkBdisk (sectors w) (regs w) n (ready w) (jumped w)
      end
  | Outb port data => fun _ w' =>
      busy w = 0%nat /\
      (0x1F2 <= port <= 0x1F6 /\ w' = mkBdisk (sectors w) (store (regs w) port data) 0 (ready w) (jumped w) \/
       port = 0x1F7 /\ data = 0x20 /\ regs w 0x1F2 = 1 /\ regs w 0x1F6 / 16 = 0xE /\
       exists n, w' = mkBdisk (sectors w) (regs w) n (Some (lba (regs w))) (jumped w))
  | Insl port cnt => fun bs w' =>
      port = 0x1F0 /\ cnt = 128 /\ busy w = 0%nat /\
      exists s, ready w = Some s /\ bs = sectors w s /\ w' = mkBdisk (sectors w) (regs w) 0 None (jumped w)
  | _ => fun _ _ => False
  end.
#[export] Instance disk_world : World hwE bdisk := {|
  answers w A e := disk_answers w e;
  final w A e := match e with
                 | Jump entry mbi m => Some (mkBdisk (sectors w) (regs w) (busy w) (ready w) (Some (entry, mbi, m)))
                 | _ => None
                 end |}.

Definition idle (w : bdisk) : bdisk := mkBdisk (sectors w) (regs w) 0 (ready w) (jumped w).
Lemma waitdisk_yields w : yields waitdisk w tt (idle w).
Proof.
  destruct w as [s r n d j]. induction n as [|n IH]; apply must_iter, must_bind, must_call; cbn.
  - eexists 0x40, _. by repeat split.
  - intros x w' (_ & -> & ->). by apply must_ret.
  - eexists 0x80, _. by repeat split.
  - intros x w' (_ & Hx & ->). rewrite (proj2 (Z.eqb_neq _ _) Hx). apply must_ret. exact IH.
Qed.
Lemma outb_yields w port data :
  busy w = 0%nat -> 0x1F2 <= port <= 0x1F6 ->
  yields (outb port data) w tt (mkBdisk (sectors w) (store (regs w) port (u8 data)) 0 (ready w) (jumped w)).
Proof.
  intros Hb Hp. apply yields_call; cbn; [by auto|].
  intros [] v (_ & [[_ ->]|[-> _]]); [done|lia].
Qed.

Lemma lba_of_bytes o :
  0 <= o < 2 ^ 28 ->
  u8 o + 2 ^ 8 * u8 (Z.shiftr o 8) + 2 ^ 16 * u8 (Z.shiftr o 16) +
    2 ^ 24 * (u8 (Z.lor (Z.shiftr o 24) 0xE0) mod 16) = o /\
  u8 (Z.lor (Z.shiftr o 24) 0xE0) / 16 = 0xE.
Proof.
  intros H. rewrite !Z.shiftr_div_pow2 by lia. assert (0 <= o / 2 ^ 24 < 16) as Hd.
  { Z.to_euclidean_division_equations. lia. }
  assert (Z.lor (o / 2 ^ 24) 0xE0 = o / 2 ^ 24 + 0xE0) as ->.
  { generalize dependent (o / 2 ^ 24). intros d [H1 H2].
    assert (d ∈ seqZ 0 16) as Hd by (apply elem_of_seqZ; lia).
    revert Hd. apply (Forall_forall (fun d => Z.lor d 0xE0 = d + 0xE0)). cbv. repeat constructor. }
  unfold u8. Z.to_euclidean_division_equations. lia.
Qed.
Lemma readsect_must w dst o m :
  0 <= o < 2 ^ 28 ->
  must (fun r w' => r = Some (put dst (sectors w o) m) /\ sectors w' = sectors w) (readsect dst o m) w.
Proof.
  intros Ho. destruct (lba_of_bytes o Ho) as [L1 L2].
  eapply must_then; [apply waitdisk_yields|].
  do 5 (eapply must_then; [apply outb_yields; [done|lia]|]; cbn [sectors regs ready jumped idle]).
  apply must_bind, must_call.
  - eexists tt, _. split; [done|right]. split_and!; [done|done|done|exact L2|]. by exists 0%nat.
  - intros [] w' (_ & [[? _]|(_ & _ & _ & _ & n & ->)]); [lia|].
    eapply must_then; [apply waitdisk_yields|]. apply must_bind, must_call.
    + eexists _, _. split_and!; [done|done|done|]. by eexists.
    + intros bs v (_ & _ & _ & s & [= <-] & -> & ->). apply must_ret. cbn [sectors].
      split; [|done]. do 3 f_equal. exact L1.
Qed.

(** * Reading a segment *)

(** The bytes of the disk behind the boot sector: the kernel's file. *)
Definition kernel_file (s : Z -> list Z) : mem := fun y =>
  default 0 (s (y / SECTSIZE + 1) !! Z.to_nat (y mod SECTSIZE)).
Definition sectors_ok (s : Z -> list Z) : Prop := forall o, length (s o) = Z.to_nat SECTSIZE.
(** [m'] is [m] with the file from [y] on at [lo, hi), and at most [slack] bytes more on either
    side that are changed. *)
Definition loaded (s : Z -> list Z) (lo hi y slack : Z) (m m' : mem) : Prop :=
  (forall x, lo <= x < hi -> m' x = kernel_file s (y + (x - lo))) /\
  (forall x, 0 <= x < lo - slack \/ hi + SECTSIZE <= x < 2 ^ 32 -> m' x = m x).

Lemma put_spec s o a m x :
  sectors_ok s -> 0 <= a -> a + SECTSIZE <= 2 ^ 32 -> 0 <= x < 2 ^ 32 ->
  put a (s o) m x = if (a <=? x) && (x <? a + SECTSIZE) then kernel_file s (SECTSIZE * (o - 1) + (x - a)) else m x.
Proof.
  intros Hs Ha Hb Hx. specialize (Hs o). unfold put, kernel_file, SECTSIZE in *.
  destruct ((a <=? x) && (x <? a + 512)) eqn:E.
  - rewrite (Z.mul_comm 512), Z.div_add_l, (Z.add_comm ((o - 1) * 512)), Z.mod_add by lia.
    rewrite (Z.div_small (x - a)), (Z.mod_small (x - a)), u32_small by lia.
    replace (o - 1 + 0 + 1) with o by lia.
    destruct (lookup_lt_is_Some_2 (s o) (Z.to_nat (x - a))) as [b ->]; [rewrite Hs; lia|done].
  - rewrite lookup_ge_None_2; [done|]. rewrite Hs. apply Z2Nat.inj_le; [lia|apply Z.mod_pos_bound; lia|].
    unfold u32. destruct (Z.ltb_spec x a); [|rewrite Z.mod_small; lia].
    rewrite <-(Z.mod_add _ 1), Z.mod_small; lia.
Qed.

Lemma readseg_loop_must k w epa pa o m :
  sectors_ok (sectors w) -> 0 <= pa -> epa + SECTSIZE <= 2 ^ 32 -> epa - pa <= SECTSIZE * Z.of_nat k ->
  1 <= o -> o + Z.of_nat k < 2 ^ 28 ->
  must (fun r w' => sectors w' = sectors w /\
          exists m', r = Some m' /\ loaded (sectors w) pa epa (SECTSIZE * (o - 1)) 0 m m')
    (readseg_loop epa (pa, o, m)) w.
Proof.
  revert w pa o m. induction k as [|k IH]; intros w pa o m Hs Hpa He Hk Ho Hok; apply must_iter.
  all: destruct (Z.ltb_spec pa epa) as [L|L].
  1: lia.
  1, 3: apply must_ret; split; [done|]; exists m; by (split; [done|]; split; intros; [lia|done]).
  apply must_bind. eapply must_mono; [apply readsect_must; lia|].
  intros r w1 [-> Hw]. apply must_ret. unfold SECTSIZE in *. rewrite !u32_small by lia.
  eapply must_mono; [apply (IH w1 (pa + 512) (o + 1)); rewrite ?Hw; try done; lia|].
  rewrite Hw. intros r w2 (Hw2 & m' & -> & H1 & H2). split; [done|]. exists m'. split; [done|].
  unfold SECTSIZE in *. split; intros x Hx.
  - destruct (Z.ltb_spec x (pa + 512)).
    + rewrite H2 by lia. rewrite put_spec by (done || (unfold SECTSIZE; lia)). unfold SECTSIZE.
      rewrite (proj2 (Z.leb_le _ _)), (proj2 (Z.ltb_lt _ _)) by lia. cbn [andb]. f_equal; lia.
    + rewrite H1 by lia. f_equal. lia.
  - unfold SECTSIZE in Hx. rewrite H2 by lia. rewrite put_spec by (done || (unfold SECTSIZE; lia)). unfold SECTSIZE. zcase; done || lia.
Qed.
Lemma readseg_must w pa count off m :
  sectors_ok (sectors w) -> SECTSIZE <= pa -> 0 <= count -> pa + count + SECTSIZE <= 2 ^ 32 ->
  0 <= off < 2 ^ 32 ->
  must (fun r w' => sectors w' = sectors w /\
          exists m', r = Some m' /\ loaded (sectors w) pa (pa + count) off SECTSIZE m m')
    (readseg pa count off m) w.
Proof.
  intros Hs Hpa Hc He Ho. unfold readseg, SECTSIZE in *.
  pose proof (Z.mod_pos_bound off 512 ltac:(lia)). pose proof (Z.div_mod off 512 ltac:(lia)).
  pose proof (Z.mod_pos_bound (count + 512) 512 ltac:(lia)). pose proof (Z.div_mod (count + 512) 512 ltac:(lia)).
  rewrite !u32_small by lia.
  eapply must_mono; [apply (readseg_loop_must (Z.to_nat ((count + 512) / 512 + 1))); try done; unfold SECTSIZE|].
  1-4: rewrite ?Z2Nat.id by lia; lia.
  intros r w' (Hw & m' & -> & L1 & L2). split; [done|]. exists m'. split; [done|].
  split; intros x Hx; unfold SECTSIZE in *; [|apply L2; lia]. rewrite L1 by lia. f_equal. lia.
Qed.

(** * The header *)

Lemma find_magic_first k n0 n m :
  n0 <= n < n0 + Z.of_nat k -> word32 m (scratch + 4 * n) = MULTIBOOT_HEADER_MAGIC ->
  (forall i, n0 <= i < n -> word32 m (scratch + 4 * i) <> MULTIBOOT_HEADER_MAGIC) ->
  find_magic k n0 m = Some n.
Proof.
  revert n0. induction k as [|k IH]; intros n0 Hn Hm Hf; [lia|]. cbn [find_magic].
  destruct (Z.eqb_spec (word32 m (scratch + 4 * n0)) MULTIBOOT_HEADER_MAGIC) as [E|E].
  - destruct (decide (n0 = n)); [by subst|]. by destruct (Hf n0); [lia|].
  - apply IH; [|done|intros; apply Hf; lia]. destruct (decide (n0 = n)); [by subst|lia].
Qed.
(** The words of the file in the scratch space. *)
Lemma scratch_word s m m' y :
  loaded s scratch (scratch + 8192) 0 SECTSIZE m m' -> 0 <= y -> y + 4 <= 8192 ->
  word32 m' (scratch + y) = word32 (kernel_file s) y.
Proof.
  intros [H _] H0 H1. unfold word32. f_equal. apply bytes_ext. intros i Hi.
  rewrite H by (unfold scratch; lia). f_equal. unfold scratch. lia.
Qed.

(** * Booting *)

Section bootmain.
Context (w : bdisk) (mbi : Z) (n : Z).
Let file : mem := kernel_file (sectors w).
Let h : Z := 4 * n.

(** A disk with a kernel that can be loaded: the header is in the first 8192 bytes of the file,
    it is the first, the kernel goes behind the scratch space and behind the map of the memory
    that mbi stands for, and everything has its place below 4GB. *)
Record bootable : Prop := {
  bo_sectors : sectors_ok (sectors w);
  bo_here : 0 <= n /\ h + 32 <= 8192;
  bo_magic : word32 file h = MULTIBOOT_HEADER_MAGIC;
  bo_first i : 0 <= i < n -> word32 file (4 * i) <> MULTIBOOT_HEADER_MAGIC;
  bo_header : load_addr file h <= header_addr file h <= load_addr file h + h;
  bo_load : scratch + 8192 + SECTSIZE <= load_addr file h <= load_end_addr file h;
  bo_end : load_end_addr file h + SECTSIZE <= 2 ^ 32 /\ bss_end_addr file h <= 2 ^ 32;
  bo_mbi : 0 <= mbi /\ mbi + 52 <= load_addr file h }.
Hypothesis B : bootable.

(** What the kernel finds: its text and data from the file, its bss zeroed, and the map of the
    memory, which ends at mbi. *)
Record booted (m : mem) : Prop := {
  bt_load a : load_addr file h <= a < load_end_addr file h ->
    m a = file (h - (header_addr file h - load_addr file h) + (a - load_addr file h));
  bt_bss a : load_end_addr file h <= a < bss_end_addr file h -> m a = 0;
  bt_flags : word32 m mbi = MULTIBOOT_INFO_MEM_MAP;
  bt_map : word32 m (mbi + 48) + word32 m (mbi + 44) = mbi }.

(** The fields of the header, read where [m] has the scratch space. *)
Lemma header_fields m :
  (forall y, 0 <= y -> y + 4 <= 8192 -> word32 m (scratch + y) = word32 file y) ->
  header_addr m (scratch + h) = header_addr file h /\ load_addr m (scratch + h) = load_addr file h /\
  load_end_addr m (scratch + h) = load_end_addr file h /\ bss_end_addr m (scratch + h) = bss_end_addr file h /\
  entry_addr m (scratch + h) = entry_addr file h.
Proof.
  intros H. destruct (bo_here B). unfold header_addr, load_addr, load_end_addr, bss_end_addr, entry_addr.
  rewrite <-!Z.add_assoc, !H by lia. done.
Qed.
Lemma fill_mbi_out m x : x < mbi \/ mbi + 52 <= x -> fill_mbi mbi m x = m x.
Proof. intros H. unfold fill_mbi. by rewrite !store32_out by lia. Qed.
Lemma word32_out m a v b : b + 4 <= a \/ a + 4 <= b -> word32 (store32 m a v) b = word32 m b.
Proof. intros H. unfold word32. f_equal. apply bytes_ext. intros i Hi. apply store32_out. lia. Qed.
Lemma fill_mbi_fields m :
  word32 (fill_mbi mbi m) mbi = MULTIBOOT_INFO_MEM_MAP /\
  word32 (fill_mbi mbi m) (mbi + 48) + word32 (fill_mbi mbi m) (mbi + 44) = mbi.
Proof.
  destruct (bo_mbi B), (bo_end B), (bo_load B). unfold fill_mbi.
  change (4096 - 1) with (Z.ones 12). rewrite Z.land_ones by lia.
  pose proof (Z.mod_pos_bound mbi (2 ^ 12) ltac:(lia)). pose proof (Z.mod_le mbi (2 ^ 12) ltac:(lia) ltac:(lia)).
  unfold SECTSIZE in *. rewrite u32_small by lia.
  split; [rewrite !word32_out by lia; by apply word32_store32|].
  rewrite word32_store32 by lia. rewrite word32_out by lia. rewrite word32_store32 by lia. lia.
Qed.

(** What is left once both segments are read. *)
Lemma enter_kernel m1 m v :
  (forall y, 0 <= y -> y + 4 <= 8192 -> word32 m1 (scratch + y) = word32 file y) ->
  loaded (sectors w) (load_addr file h) (load_end_addr file h) (h - (header_addr file h - load_addr file h)) SECTSIZE m1 m ->
  let m' := if load_end_addr m (scratch + h) <? bss_end_addr m (scratch + h)
            then stosb (Z.to_nat (u32 (bss_end_addr m (scratch + h) - load_end_addr m (scratch + h))))
                   (load_end_addr m (scratch + h)) 0 m
            else m in
  must (A := mem) (fun r w' => r = None /\ exists m'', jumped w' = Some (entry_addr file h, mbi, m'') /\ booted m'')
    (leave (Jump (entry_addr m' (scratch + h)) mbi (fill_mbi mbi m'))) v.
Proof.
  intros Hm1 [L1 L2] m'. destruct (bo_load B), (bo_end B), (bo_mbi B), (bo_here B). unfold SECTSIZE, scratch in *.
  assert (forall x, 0 <= x < load_addr file h - 512 -> m x = m1 x) as Hlow by (intros; apply L2; lia).
  assert (forall y, 0 <= y -> y + 4 <= 8192 -> word32 m (0x10000 + y) = word32 file y) as Hm.
  { intros y H0' H1'. rewrite <-Hm1 by done. unfold word32. f_equal. apply bytes_ext. intros. apply Hlow. lia. }
  destruct (header_fields m Hm) as (E1 & E2 & E3 & E4 & _). unfold scratch in *.
  assert (forall x, m' x = if (load_end_addr file h <=? x) && (x <? bss_end_addr file h) then 0 else m x) as Hm'.
  { intros x. subst m'. rewrite E3, E4. destruct (Z.ltb_spec (load_end_addr file h) (bss_end_addr file h)).
    - rewrite stosb_spec, Z2Nat.id, u32_small; [|lia|apply Z.mod_pos_bound; lia].
      replace (load_end_addr file h + _) with (bss_end_addr file h) by lia. done.
    - by zcase; try lia. }
  clearbody m'. assert (forall y, 0 <= y -> y + 4 <= 8192 -> word32 m' (0x10000 + y) = word32 file y) as Hms.
  { intros y H0' H1'. rewrite <-Hm by done. unfold word32. f_equal. apply bytes_ext. intros. rewrite Hm'. by zcase; try lia. }
  destruct (header_fields m' Hms) as (_ & _ & _ & _ & E5). unfold scratch in *. rewrite E5.
  eapply must_leave; [reflexivity|]. split; [done|]. eexists. split; [reflexivity|].
  destruct (fill_mbi_fields m'). split; [intros a Ha|intros a Ha|done|done]; rewrite fill_mbi_out, Hm' by lia.
  - rewrite <-L1 by lia. zcase; done || lia.
  - zcase; done || lia.
Qed.
End bootmain.


(** A disk with a kernel of 48 bytes, whose header is at its start. *)
Definition little_disk : bdisk :=
  mkBdisk (fun o => if o =? 1
    then flat_map (le 4) [MULTIBOOT_HEADER_MAGIC; 0x10000; 0; 0x100000; 0x100000; 0x100030; 0x100040; 0x100020]
         ++ replicate 480 7
    else replicate 512 0) (fun _ => 0) 5 None None.
Lemma little_bootable : bootable little_disk 0x9000 0.
Proof.
  split.
  - intros o. cbn [sectors little_disk]. by destruct (o =? 1).
  - done.
  - vm_compute. done.
  - lia.
  - vm_compute. split; discriminate.
  - vm_compute. split; discriminate.
  - vm_compute. split; discriminate.
  - vm_compute. split; discriminate.
Qed.
