(* ===== verification/Mp.v ===== *)
(** Multiprocessor tables, kernel/mp.c: the search for the floating pointer structure, the
    checks of the configuration table, and mpinit, which collects the processors. *)
From ITree Require Import ITree.
From S2P Require Import Prelude Interact KString Bytes Hw.

(** Addresses are physical ones; the code adds KERNBASE to them with P2V. *)
Definition NCPU : nat := 8.
Definition sizeof_mp : Z := 16.
Definition sizeof_mpconf : Z := 44.
Definition sizeof_mpproc : Z := 20.
Definition sizeof_mpioapic : Z := 8.
Definition MPPROC : Z := 0.
Definition MPBUS : Z := 1.
Definition MPIOAPIC : Z := 2.
Definition MPIOINTR : Z := 3.
Definition MPLINTR : Z := 4.
Definition sig_mp : list Z := [95; 77; 80; 95].
Definition sig_pcmp : list Z := [80; 67; 77; 80].
Definition IO2V (a : Z) : Z := u64 (a + 0xFFFFFFFF00000000).

(** The globals of mp.c, and lapic of lapic.c. *)
Record mpstate := mkMpstate {
  cpu_apicids : list Z;
  ismp : bool;
  ncpu : nat;
  ioapicid : Z;
  lapic : Z }.
Definition mp_bss : mpstate := mkMpstate (replicate NCPU 0) false 0 0 0.

Definition sum (m : mem) (addr len : Z) : Z := u8 (foldr Z.add 0 (bytes (Z.to_nat len) addr m)).
Definition is_mp (m : mem) (p : Z) : bool :=
  bool_decide (bytes 4 p m = sig_mp) && (sum m p sizeof_mp =? 0).
Fixpoint mpsearch1_loop (fuel : nat) (m : mem) (p e : Z) : option Z :=
  match fuel with
  | O => None
  | S fuel => if p <? e then if is_mp m p then Some p else mpsearch1_loop fuel m (p + sizeof_mp) e else None
  end.
Definition mpsearch1 (m : mem) (a len : Z) : option Z :=
  mpsearch1_loop (Z.to_nat (len / sizeof_mp + 1)) m a (a + len).
Definition bda : Z := 0x400.
Definition mpsearch (m : mem) : option Z :=
  let p := Z.shiftl (Z.lor (Z.shiftl (m (bda + 0x0F)) 8) (m (bda + 0x0E))) 4 in
  let first := if negb (p =? 0) then mpsearch1 m p 1024
               else mpsearch1 m (u32 (Z.lor (Z.shiftl (m (bda + 0x14)) 8) (m (bda + 0x13)) * 1024 - 1024)) 1024 in
  match first with Some mp => Some mp | None => mpsearch1 m 0xF0000 0x10000 end.

(** Fields of struct mp and struct mpconf. *)
Definition mp_physaddr (m : mem) (p : Z) : Z := word32 m (p + 4).
Definition mp_imcrp (m : mem) (p : Z) : Z := m (p + 12).
Definition conf_length (m : mem) (c : Z) : Z := word16 m (c + 4).
Definition conf_version (m : mem) (c : Z) : Z := m (c + 6).
Definition conf_lapicaddr (m : mem) (c : Z) : Z := word32 m (c + 36).

(** The structure and the table. *)
Definition mpconfig (m : mem) : option (Z * Z) :=
  match mpsearch m with
  | None => None
  | Some mp =>
      let conf := mp_physaddr m mp in
      if conf =? 0 then None else
      if negb (bool_decide (bytes 4 conf m = sig_pcmp)) then None else
      if negb (conf_version m conf =? 1) && negb (conf_version m conf =? 4) then None else
      if negb (sum m conf (conf_length m conf) =? 0) then None else Some (mp, conf)
  end.

Definition add_cpu (id : Z) (s : mpstate) : mpstate :=
  if (ncpu s <? NCPU)%nat
  then mkMpstate (<[ncpu s := id]> (cpu_apicids s)) (ismp s) (S (ncpu s)) (ioapicid s) (lapic s) else s.
Definition set_ioapicid (id : Z) (s : mpstate) : mpstate :=
  mkMpstate (cpu_apicids s) (ismp s) (ncpu s) id (lapic s).
(** One turn of the loop over the table; the default case leaves only the switch. *)
Definition mp_step (m : mem) (e : Z) (ps : Z * mpstate) : (Z * mpstate) + mpstate :=
  let '(p, s) := ps in
  if p <? e then
    if m p =? MPPROC then inl (p + sizeof_mpproc, add_cpu (m (p + 1)) s)
    else if m p =? MPIOAPIC then inl (p + sizeof_mpioapic, set_ioapicid (m (p + 1)) s)
    else if (m p =? MPBUS) || (m p =? MPIOINTR) || (m p =? MPLINTR) then inl (p + 8, s)
    else inl (p, mkMpstate (cpu_apicids s) false (ncpu s) (ioapicid s) (lapic s))
  else inr s.
Definition mpinit (m : mem) (s : mpstate) : hw mpstate :=
  match mpconfig m with
  | None => mret s
  | Some (mp, conf) =>
      s ← pure_loop (mp_step m (conf + conf_length m conf))
            (conf + sizeof_mpconf, mkMpstate (cpu_apicids s) true (ncpu s) (ioapicid s) (IO2V (conf_lapicaddr m conf)));
      if negb (ismp s) then mret (mkMpstate (cpu_apicids s) false 1 0 0) else
      if negb (mp_imcrp m mp =? 0) then
        _ ← outb 0x22 0x70;
        v ← inb 0x23;
        _ ← outb 0x23 (Z.lor v 1);
        mret s
      else mret s
  end.

(** cpunum of lapic.c, on the local APIC's id register; [warn]: that interrupts are enabled and
    nothing was said about it yet. *)
Fixpoint find_cpu (id : Z) (ids : list Z) (i : Z) : option Z :=
  match ids with [] => None | x :: ids => if x =? id then Some i else find_cpu id ids (i + 1) end.
Definition LAPIC_ID : Z := 0x20.
Definition cpunum (warn : option (list Z)) (s : mpstate) : hw Z :=
  _ ← match warn with Some text => call (Print text) | None => mret tt end;
  if lapic s =? 0 then mret 0 else
  v ← call (Load (lapic s + LAPIC_ID));
  match find_cpu (Z.shiftr v 24) (take (ncpu s) (cpu_apicids s)) 0 with
  | Some i => mret i
  | None => leave Panics
  end.

(** * The search *)

(** mpsearch1 gives the first of the 16-byte steps at which there is a structure. *)
Lemma mpsearch1_loop_spec fuel m p e q :
  e - p <= sizeof_mp * Z.of_nat fuel ->
  mpsearch1_loop fuel m p e = Some q <->
  exists i, 0 <= i /\ q = p + sizeof_mp * i /\ q < e /\ is_mp m q = true /\
    forall j, 0 <= j < i -> is_mp m (p + sizeof_mp * j) = false.
Proof.
  revert p. induction fuel as [|fuel IH]; intros p H; cbn [mpsearch1_loop].
  - split; [done|]. intros (i & Hi & -> & Hq & _). unfold sizeof_mp in *. lia.
  - destruct (Z.ltb_spec p e) as [L|L].
    2: { split; [done|]. intros (i & Hi & -> & Hq & _). unfold sizeof_mp in *. lia. }
    destruct (is_mp m p) eqn:E.
    + split.
      * intros [= <-]. exists 0. split_and!; [lia|lia|done|done|lia].
      * intros (i & Hi & -> & Hq & Hm & Hf). destruct (decide (i = 0)) as [->|]; [f_equal; lia|].
        specialize (Hf 0 ltac:(lia)). replace (p + sizeof_mp * 0) with p in Hf by lia. congruence.
    + rewrite IH by (unfold sizeof_mp in *; lia). split; intros (i & Hi & -> & Hq & Hm & Hf).
      * exists (i + 1). split_and!; [lia|lia|done|done|]. intros j Hj. destruct (decide (j = 0)) as [->|].
        -- by replace (p + sizeof_mp * 0) with p by lia.
        -- rewrite <-(Hf (j - 1)) by lia. f_equal. lia.
      * exists (i - 1). destruct (decide (i = 0)) as [->|].
        { replace (p + sizeof_mp * 0) with p in Hm by lia. congruence. }
        split_and!; [lia|lia|lia|done|]. intros j Hj. rewrite <-(Hf (j + 1)) by lia. f_equal. lia.
Qed.

(** * The configuration table *)

Inductive mpentry := EProc (apicid : Z) | EIoapic (apicno : Z) | EOther (type : Z).
Definition entry_size (x : mpentry) : Z := match x with EProc _ => 20 | _ => 8 end.
Definition entry_at (m : mem) (p : Z) (x : mpentry) : Prop :=
  match x with
  | EProc id => m p = MPPROC /\ m (p + 1) = id
  | EIoapic id => m p = MPIOAPIC /\ m (p + 1) = id
  | EOther t => m p = t /\ t ∈ [MPBUS; MPIOINTR; MPLINTR]
  end.
(** The entries lie one behind the other from [p] to [e]. *)
Fixpoint table_at (m : mem) (p e : Z) (l : list mpentry) : Prop :=
  match l with [] => p = e | x :: l => entry_at m p x /\ table_at m (p + entry_size x) e l end.
Definition proc_ids (l : list mpentry) : list Z := omap (fun x => match x with EProc id => Some id | _ => None end) l.
Definition ioapic_ids (l : list mpentry) : list Z := omap (fun x => match x with EIoapic id => Some id | _ => None end) l.

Definition take_entry (s : mpstate) (x : mpentry) : mpstate :=
  match x with EProc id => add_cpu id s | EIoapic id => set_ioapicid id s | EOther _ => s end.
Lemma table_le m p e l : table_at m p e l -> p <= e.
Proof.
  revert p. induction l as [|x l IH]; intros p H; cbn in H; [lia|].
  destruct H as [_ H%IH]. destruct x; cbn in H; lia.
Qed.
Lemma mp_step_entry m p e x s :
  entry_at m p x -> p + entry_size x <= e -> mp_step m e (p, s) = inl (p + entry_size x, take_entry s x).
Proof.
  intros Hx Hl. assert (p <? e = true) as Hp by (apply Z.ltb_lt; destruct x; cbn in Hl; lia).
  unfold mp_step. rewrite Hp. destruct x as [id|id|t]; cbn in Hx; destruct Hx as [E1 E2]; rewrite E1; cbn.
  - by rewrite E2.
  - by rewrite E2.
  - repeat (apply elem_of_cons in E2 as [->|E2]; [done|]). by apply elem_of_nil in E2.
Qed.
Lemma must_table {A} Q m p e l s (k : mpstate -> hw A) (w : list (Z * Z)) :
  table_at m p e l -> must Q (k (foldl take_entry s l)) w ->
  must Q (pure_loop (mp_step m e) (p, s) ≫= k) w.
Proof.
  revert p s. induction l as [|x l IH]; intros p s H M.
  - apply (must_pure_loop_end _ _ _ s); [|done]. unfold mp_step. cbn in H. by rewrite H, Z.ltb_irrefl.
  - destruct H as [Hx Hl]. eapply must_pure_loop; [apply mp_step_entry; [done|by eapply table_le]|]. by apply IH.
Qed.

Lemma take_entries l s :
  (ncpu s <= NCPU)%nat -> length (cpu_apicids s) = NCPU ->
  let s' := foldl take_entry s l in
  take (ncpu s') (cpu_apicids s') = take NCPU (take (ncpu s) (cpu_apicids s) ++ proc_ids l) /\
  ismp s' = ismp s /\ lapic s' = lapic s /\ ioapicid s' = default (ioapicid s) (last (ioapic_ids l)).
Proof.
  revert s. induction l as [|x l IH]; intros s H1 H2; cbn [foldl].
  { unfold proc_ids. cbn. rewrite app_nil_r, take_take, Nat.min_r by done. done. }
  assert ((ncpu (take_entry s x) <= NCPU)%nat /\ length (cpu_apicids (take_entry s x)) = NCPU /\
    ismp (take_entry s x) = ismp s /\ lapic (take_entry s x) = lapic s) as (K1 & K2 & K3 & K4).
  { destruct x; cbn; unfold add_cpu; try case_match eqn:E; cbn; rewrite ?length_insert; try apply Nat.ltb_lt in E; auto. }
  destruct (IH _ K1 K2) as (E1 & E2 & E3 & E4). rewrite E1, E2, E3, E4, K3, K4.
  split_and!; [|done|done|].
  - destruct x as [id|id|t]; cbn [take_entry]; [|done|done]. unfold add_cpu.
    unfold proc_ids. cbn [omap list_omap]. destruct (Nat.ltb_spec (ncpu s) NCPU) as [L|L]; cbn [ncpu cpu_apicids].
    + rewrite (take_S_r _ _ id) by (apply list_lookup_insert_eq; lia). rewrite take_insert_ge by lia. by rewrite <-(assoc_L (++)).
    + assert (ncpu s = NCPU) as -> by lia. rewrite !take_app_le; [done|rewrite length_take; lia..].
  - destruct x as [id|id|t]; cbn [take_entry ioapicid set_ioapicid]; unfold ioapic_ids; cbn [omap list_omap].
    + unfold add_cpu. by case_match.
    + rewrite last_cons. by destruct (last _).
    + done.
Qed.

(** Mpinit.  When the tables are there and made of the entries the code knows, mpinit notes
    the local APIC and the APIC ids of the first NCPU processors in the order of the table, and
    the id of the last I/O APIC, whatever the IMCR register reads. *)
Theorem mpinit_collects m mp conf l (w : list (Z * Z)) :
  mpconfig m = Some (mp, conf) -> table_at m (conf + sizeof_mpconf) (conf + conf_length m conf) l ->
  must (fun r _ => exists s, r = Some s /\ ismp s = true /\
          take (ncpu s) (cpu_apicids s) = take NCPU (proc_ids l) /\
          ioapicid s = default 0 (last (ioapic_ids l)) /\ lapic s = IO2V (conf_lapicaddr m conf))
    (mpinit m mp_bss) w.
Proof.
  intros C T. unfold mpinit. rewrite C. apply (must_table _ _ _ _ _ _ _ _ T).
  match goal with |- context [foldl take_entry ?s0 l] => set (s1 := s0); set (s := foldl take_entry s1 l) end.
  destruct (take_entries l s1 ltac:(cbn; unfold NCPU; lia) eq_refl) as (E1 & E2 & E3 & E4).
  fold s in E1, E2, E3, E4. rewrite E2. cbn [negb ismp s1].
  destruct (mp_imcrp m mp =? 0); cbn [negb].
  - apply must_ret. by exists s.
  - apply must_bind, any_outb, must_bind, any_inb. intros v _. apply must_bind, any_outb, must_ret. by exists s.
Qed.

(** An entry of any other type makes mpinit loop for ever: the break of the default case leaves
    the switch, not the loop, and the pointer is not moved. *)
Lemma mpinit_unknown_entry_hangs m mp conf l p (w : list (Z * Z)) Q :
  mpconfig m = Some (mp, conf) -> table_at m (conf + sizeof_mpconf) p l ->
  p < conf + conf_length m conf -> m p ∉ [MPPROC; MPBUS; MPIOAPIC; MPIOINTR; MPLINTR] ->
  ~ must Q (mpinit m mp_bss) w.
Proof.
  intros C T Hp Hm M. unfold mpinit in M. rewrite C in M. set (e := conf + conf_length m conf) in *.
  assert (forall p0 l s k, table_at m p0 p l -> must Q (pure_loop (mp_step m e) (p0, s) ≫= k) w ->
    exists s', must Q (pure_loop (mp_step m e) (p, s') ≫= k) w) as Walk.
  { clear -Hp. intros p0 l. revert p0. induction l as [|x l IH]; intros p0 s k T M; cbn in T; [subst; by eexists|].
    destruct T as [Hx Ht]. apply (IH _ (take_entry s x) k Ht). refine (proj1 (must_pure_loop _ _ _ _ _ _ _) M).
    apply mp_step_entry; [done|]. apply table_le in Ht. lia. }
  destruct (Walk _ _ _ _ T M) as [s M1]. clear Walk M.
  assert (forall s, mp_step m e (p, s) = inl (p, mkMpstate (cpu_apicids s) false (ncpu s) (ioapicid s) (lapic s))) as St.
  { intros s1. unfold mp_step. rewrite (proj2 (Z.ltb_lt p e) Hp).
    rewrite !(proj2 (Z.eqb_neq (m p) _)) by (intros E; apply Hm; rewrite E; set_solver). done. }
  apply (must_pure_loop _ _ _ _ _ _ (St s)) in M1. revert M1. apply spins.
  by rewrite pure_loop_observe, St.
Qed.

(** Memory with a table of two processors and an I/O APIC at 0x2000, and the structure that
    points at it in the first KB of the EBDA. *)
Definition little_mp : list Z := [95; 77; 80; 95; 0; 32; 0; 0; 1; 4; 0; 0; 128; 0; 0; 0].
Definition little_table : list Z :=
  [80; 67; 77; 80; 92; 0; 4; 128; 0; 0; 0; 0; 0; 0; 0; 0; 0; 0; 0; 0; 0; 0; 0; 0; 0; 0; 0; 0; 0; 0; 0; 0; 0; 0; 3; 0; 0; 0; 224; 254; 0; 0; 0; 0] ++
  [0; 3; 0; 0; 0; 0; 0; 0; 0; 0; 0; 0; 0; 0; 0; 0; 0; 0; 0; 0; 0; 1; 0; 0; 0; 0; 0; 0; 0; 0; 0; 0; 0; 0; 0; 0; 0; 0; 0; 0; 2; 9; 0; 0; 0; 0; 0; 0].
Definition little_mem : mem := fun a =>
  if a =? bda + 0x0E then 0xC0 else if a =? bda + 0x0F then 0x9F
  else if (0x9FC00 <=? a) && (a <? 0x9FC10) then default 0 (little_mp !! Z.to_nat (a - 0x9FC00))
  else if (0x2000 <=? a) && (a <? 0x205C) then default 0 (little_table !! Z.to_nat (a - 0x2000)) else 0.
Lemma mpinit_collects_witness :
  must (fun r _ => exists s, r = Some s /\ ismp s = true /\ take (ncpu s) (cpu_apicids s) = [3; 1] /\
          ioapicid s = 9 /\ lapic s = IO2V 0xFEE00000)
    (mpinit little_mem mp_bss) [].
Proof.
  apply (mpinit_collects little_mem 0x9FC00 0x2000 [EProc 3; EProc 1; EIoapic 9] []).
  - vm_compute. reflexivity.
  - vm_compute. repeat split.
Defined.
