(* ===== verification/Devices.v ===== *)
(** The other devices of the machine: the 8259A interrupt controllers (picirq.c), the I/O APIC
    (ioapic.c), the local APIC and the clock (lapic.c), the serial port (uart.c), the start of the
    disk (ide.c), and the features of the processor (cpuid.c), as the accesses to ports and
    registers that the code makes. *)
From ITree Require Import ITree.
From S2P Require Import Prelude Interact Kstate KString Bytes Locks Kalloc Sched Bio Ide Hw Printf Mp.

Definition cprint (text : list Z) : hw unit := call (Print text).

(** * picirq.c *)

Definition IO_PIC1 : Z := 0x20.
Definition IO_PIC2 : Z := 0xA0.
Definition IRQ_SLAVE : Z := 2.
Definition irqmask_init : Z := Z.land 0xFFFF (Z.lnot (Z.shiftl 1 IRQ_SLAVE)).
(** Each gives the new irqmask. *)
Definition picsetmask (mask : Z) : hw Z :=
  _ ← outb (IO_PIC1 + 1) mask;
  _ ← outb (IO_PIC2 + 1) (Z.shiftr mask 8);
  mret mask.
Definition picenable (irqmask irq : Z) : hw Z :=
  picsetmask (u16 (Z.land irqmask (Z.lnot (Z.shiftl 1 irq)))).
Definition picinit (irqmask : Z) : hw Z :=
  _ ← outb (IO_PIC1 + 1) 0xFF;
  _ ← outb (IO_PIC2 + 1) 0xFF;
  _ ← outb IO_PIC1 0x11;
  _ ← outb (IO_PIC1 + 1) TRAP_IRQ0;
  _ ← outb (IO_PIC1 + 1) (Z.shiftl 1 IRQ_SLAVE);
  _ ← outb (IO_PIC1 + 1) 0x3;
  _ ← outb IO_PIC2 0x11;
  _ ← outb (IO_PIC2 + 1) (TRAP_IRQ0 + 8);
  _ ← outb (IO_PIC2 + 1) IRQ_SLAVE;
  _ ← outb (IO_PIC2 + 1) 0x3;
  _ ← outb IO_PIC1 0x68;
  _ ← outb IO_PIC1 0x0a;
  _ ← outb IO_PIC2 0x68;
  _ ← outb IO_PIC2 0x0a;
  if negb (irqmask =? 0xFFFF) then picsetmask irqmask else mret irqmask.

(** * ioapic.c *)

Definition IOAPIC : Z := 0xFEC00000.
Definition REG_ID : Z := 0x00.
Definition REG_VER : Z := 0x01.
Definition REG_TABLE : Z := 0x10.
Definition INT_DISABLED : Z := 0x00010000.
(** [io]: the pointer ioapic, to the register index; the data is 16 bytes behind it. *)
Definition ioapicread (io reg : Z) : hw Z :=
  _ ← call (Store io (u32 reg));
  call (Load (io + 16)).
Definition ioapicwrite (io reg data : Z) : hw unit :=
  _ ← call (Store io (u32 reg));
  call (Store (io + 16) (u32 data)).
(** for (i = 0; i <= maxintr; i++), in [n] turns. *)
Fixpoint ioapic_disable (n : nat) (io i : Z) : hw unit :=
  match n with
  | O => mret tt
  | S n =>
      _ ← ioapicwrite io (REG_TABLE + 2 * i) (Z.lor INT_DISABLED (TRAP_IRQ0 + i));
      _ ← ioapicwrite io (REG_TABLE + 2 * i + 1) 0;
      ioapic_disable n io (i + 1)
  end.
(** Gives the new value of ioapic. *)
Definition ioapicinit (s : mpstate) (io : Z) : hw Z :=
  if negb (ismp s) then mret io else
  let io := IO2V IOAPIC in
  ver ← ioapicread io REG_VER;
  let maxintr := Z.land (Z.shiftr ver 16) 0xFF in
  idreg ← ioapicread io REG_ID;
  _ ← (if negb (Z.shiftr idreg 24 =? ioapicid s)
       then cprint (str "ioapicinit: id isn't equal to ioapicid; not a MP" ++ nl) else mret tt);
  _ ← ioapic_disable (Z.to_nat (maxintr + 1)) io 0;
  mret io.
Definition ioapicenable (s : mpstate) (io irq cpunum : Z) : hw unit :=
  if negb (ismp s) then mret tt else
  _ ← ioapicwrite io (REG_TABLE + 2 * irq) (TRAP_IRQ0 + irq);
  ioapicwrite io (REG_TABLE + 2 * irq + 1) (Z.shiftl cpunum 24).

(** * lapic.c *)

(** The registers, as offsets in bytes. *)
Definition VER : Z := 0x30.
Definition TPR : Z := 0x80.
Definition EOI : Z := 0xB0.
Definition SVR : Z := 0xF0.
Definition ENABLE : Z := 0x100.
Definition ESR : Z := 0x280.
Definition ICRLO : Z := 0x300.
Definition INIT : Z := 0x500.
Definition STARTUP : Z := 0x600.
Definition DELIVS : Z := 0x1000.
Definition ASSERT : Z := 0x4000.
Definition LEVEL : Z := 0x8000.
Definition BCAST : Z := 0x80000.
Definition ICRHI : Z := 0x310.
Definition TIMER : Z := 0x320.
Definition X1 : Z := 0xB.
Definition PERIODIC : Z := 0x20000.
Definition PCINT : Z := 0x340.
Definition LINT0 : Z := 0x350.
Definition LINT1 : Z := 0x360.
Definition ERROR : Z := 0x370.
Definition MASKED : Z := 0x10000.
Definition TICR : Z := 0x380.
Definition TDCR : Z := 0x3E0.

Definition lapicw (la index value : Z) : hw unit :=
  _ ← call (Store (la + index) (u32 value));
  _ ← call (Load (la + LAPIC_ID));
  mret tt.
(** while (lapic[ICRLO] & DELIVS); *)
Definition lapic_delivered (la : Z) : hw unit :=
  ITree.iter (fun _ =>
    v ← call (Load (la + ICRLO));
    mret (if Z.land v DELIVS =? 0 then inr tt else inl tt)) tt.
Definition lapicinit (la : Z) : hw unit :=
  if la =? 0 then mret tt else
  _ ← lapicw la SVR (Z.lor ENABLE (TRAP_IRQ0 + IRQ_SPURIOUS));
  _ ← lapicw la TDCR X1;
  _ ← lapicw la TIMER (Z.lor PERIODIC (TRAP_IRQ0 + IRQ_TIMER));
  _ ← lapicw la TICR 10000000;
  _ ← lapicw la LINT0 MASKED;
  _ ← lapicw la LINT1 MASKED;
  ver ← call (Load (la + VER));
  _ ← (if 4 <=? Z.land (Z.shiftr ver 16) 0xFF then lapicw la PCINT MASKED else mret tt);
  _ ← lapicw la ERROR (TRAP_IRQ0 + IRQ_ERROR);
  _ ← lapicw la ESR 0;
  _ ← lapicw la ESR 0;
  _ ← lapicw la EOI 0;
  _ ← lapicw la ICRHI 0;
  _ ← lapicw la ICRLO (Z.lor (Z.lor BCAST INIT) LEVEL);
  _ ← lapic_delivered la;
  lapicw la TPR 0.
Definition lapiceoi (la : Z) : hw unit := if la =? 0 then mret tt else lapicw la EOI 0.

Definition CMOS_PORT : Z := 0x70.
Definition CMOS_RETURN : Z := 0x71.
Definition store16 (m : mem) (a v : Z) : mem := store (store m a (u8 v)) (a + 1) (u8 (Z.shiftr v 8)).
Definition warm_reset_vector : Z := 0x467.
(** for (i = 0; i < 2; i++), in [n] turns. *)
Fixpoint send_startup (n : nat) (la apicid addr : Z) : hw unit :=
  match n with
  | O => mret tt
  | S n =>
      _ ← lapicw la ICRHI (Z.shiftl apicid 24);
      _ ← lapicw la ICRLO (Z.lor STARTUP (Z.shiftr addr 12));
      send_startup n la apicid addr
  end.
Definition lapicstartap (la apicid addr : Z) (m : mem) : hw mem :=
  _ ← outb CMOS_PORT 0xF;
  _ ← outb (CMOS_PORT + 1) 0x0A;
  let m := store16 (store16 m warm_reset_vector 0) (warm_reset_vector + 2) (u16 (Z.shiftr addr 4)) in
  _ ← lapicw la ICRHI (Z.shiftl apicid 24);
  _ ← lapicw la ICRLO (Z.lor (Z.lor INIT LEVEL) ASSERT);
  _ ← lapicw la ICRLO (Z.lor INIT LEVEL);
  _ ← send_startup 2 la apicid addr;
  mret m.

(** ** The real time clock *)

Definition CMOS_STATA : Z := 0x0a.
Definition CMOS_STATB : Z := 0x0b.
Definition CMOS_UIP : Z := Z.shiftl 1 7.
Definition SECS : Z := 0x00.
Definition MINS : Z := 0x02.
Definition HOURS : Z := 0x04.
Definition DAY : Z := 0x07.
Definition MONTH : Z := 0x08.
Definition YEAR : Z := 0x09.
Record rtcdate := mkRtcdate { second : Z; minute : Z; hour : Z; day : Z; month : Z; year : Z }.
#[export] Instance rtcdate_eq_dec : EqDecision rtcdate.
Proof. solve_decision. Defined.
Definition cmos_read (reg : Z) : hw Z :=
  _ ← outb CMOS_PORT reg;
  inb CMOS_RETURN.
Definition fill_rtcdate : hw rtcdate :=
  s ← cmos_read SECS;
  mi ← cmos_read MINS;
  h ← cmos_read HOURS;
  d ← cmos_read DAY;
  mo ← cmos_read MONTH;
  y ← cmos_read YEAR;
  mret (mkRtcdate s mi h d mo y).
Definition bcd_conv (x : Z) : Z := u32 (Z.shiftr x 4 * 10 + Z.land x 0xf).
Definition bcd_date (t : rtcdate) : rtcdate :=
  mkRtcdate (bcd_conv (second t)) (bcd_conv (minute t)) (bcd_conv (hour t))
    (bcd_conv (day t)) (bcd_conv (month t)) (bcd_conv (year t)).
Definition cmos_stable : hw rtcdate :=
  ITree.iter (fun _ =>
    t1 ← fill_rtcdate;
    a ← cmos_read CMOS_STATA;
    if negb (Z.land a CMOS_UIP =? 0) then mret (inl tt) else
    t2 ← fill_rtcdate;
    mret (if bool_decide (t1 = t2) then inr t1 else inl tt)) tt.
Definition cmostime : hw rtcdate :=
  sb ← cmos_read CMOS_STATB;
  let bcd := Z.land sb (Z.shiftl 1 2) =? 0 in
  t1 ← cmos_stable;
  let t1 := if bcd then bcd_date t1 else t1 in
  mret (mkRtcdate (second t1) (minute t1) (hour t1) (day t1) (month t1) (u32 (year t1 + 2000))).

(** * uart.c *)

Definition COM1 : Z := 0x3f8.
(** [n] turns of the wait for the transmitter at most. *)
Fixpoint uart_wait (n : nat) : hw unit :=
  match n with
  | O => mret tt
  | S n => v ← inb (COM1 + 5); if Z.land v 0x20 =? 0 then uart_wait n else mret tt
  end.
(** [uart]: whether there is a serial port. *)
Definition uartputc (uart : bool) (c : Z) : hw unit :=
  if negb uart then mret tt else
  _ ← uart_wait 128;
  outb (COM1 + 0) c.
Definition uartgetc (uart : bool) : hw Z :=
  if negb uart then mret (-1) else
  v ← inb (COM1 + 5);
  if Z.land v 0x01 =? 0 then mret (-1) else inb (COM1 + 0).
Fixpoint uart_announce (text : list Z) : hw unit :=
  match text with [] => mret tt | c :: text => _ ← uartputc true c; uart_announce text end.
(** Gives uart and irqmask. *)
Definition uartinit (s : mpstate) (io irqmask : Z) : hw (bool * Z) :=
  _ ← outb (COM1 + 2) 0;
  _ ← outb (COM1 + 3) 0x80;
  _ ← outb (COM1 + 0) (115200 / 9600);
  _ ← outb (COM1 + 1) 0;
  _ ← outb (COM1 + 3) 0x03;
  _ ← outb (COM1 + 4) 0;
  _ ← outb (COM1 + 1) 0x01;
  v ← inb (COM1 + 5);
  if v =? 0xFF then mret (false, irqmask) else
  _ ← inb (COM1 + 2);
  _ ← inb (COM1 + 0);
  irqmask ← picenable irqmask IRQ_COM1;
  _ ← ioapicenable s io IRQ_COM1 0;
  _ ← uart_announce (str "xk..." ++ nl);
  mret (true, irqmask).

(** * ide.c, proc.c *)

(** idewait(0) *)
Definition ide_ready : hw unit :=
  ITree.iter (fun _ =>
    r ← inb 0x1f7;
    mret (if Z.land r (Z.lor IDE_BSY IDE_DRDY) =? IDE_DRDY then inr tt else inl tt)) tt.
Fixpoint probe_disk1 (n : nat) : hw bool :=
  match n with
  | O => mret false
  | S n => v ← inb 0x1f7; if negb (v =? 0) then mret true else probe_disk1 n
  end.
(** ideinit, but for the lock: gives irqmask and havedisk1. *)
Definition ideinit (s : mpstate) (io irqmask : Z) : hw (Z * bool) :=
  irqmask ← picenable irqmask IRQ_IDE;
  _ ← ioapicenable s io IRQ_IDE (Z.of_nat (ncpu s) - 1);
  _ ← ide_ready;
  _ ← outb 0x1f6 (Z.lor 0xe0 (Z.shiftl 1 4));
  havedisk1 ← probe_disk1 1000;
  _ ← outb 0x1f6 (Z.lor 0xe0 (Z.shiftl 0 4));
  mret (irqmask, havedisk1).
(** reboot asks the keyboard controller for a reset and halts. *)
Definition reboot : hw Empty_set :=
  _ ← ITree.iter (fun _ => good ← inb 0x64; mret (if Z.land good 0x02 =? 0 then inr tt else inl tt)) tt;
  _ ← outb 0x64 0xFE;
  ITree.iter (fun _ => mret (inl tt)) tt.

(** * cpuid.c *)

(** CPUID(1): EDX *)
Definition names_1_edx : list (Z * string) :=
  [(0, "fpu"); (1, "vme"); (2, "de"); (3, "pse"); (4, "tsc"); (5, "msr"); (6, "pae"); (7, "mce");
   (8, "cx8"); (9, "apic"); (11, "sep"); (12, "mtrr"); (13, "pge"); (14, "mca"); (15, "cmov");
   (16, "pat"); (17, "pse36"); (18, "pn"); (19, "clflush"); (21, "ds"); (22, "acpi"); (23, "mmx");
   (24, "fxsr"); (25, "sse"); (26, "sse2"); (27, "ss"); (28, "ht"); (29, "tm"); (30, "ia64");
   (31, "pbe")].
(** CPUID(1): ECX *)
Definition names_1_ecx : list (Z * string) :=
  [(0, "sse3"); (1, "pclmulqdq"); (2, "dtes64"); (3, "monitor"); (4, "ds_cpl"); (5, "vmx");
   (6, "smx"); (7, "est"); (8, "tm2"); (9, "ssse3"); (10, "cid"); (11, "sdbg"); (12, "fma");
   (13, "cx16"); (14, "xtpr"); (15, "pdcm"); (17, "pcid"); (18, "dca"); (19, "sse4.1");
   (20, "sse4.2"); (21, "x2apic"); (22, "movbe"); (23, "popcnt"); (24, "tsc-deadline");
   (25, "aes"); (26, "xsave"); (27, "osxsave"); (28, "avx"); (29, "f16c"); (30, "rdrand");
   (31, "hypervisor")].
(** CPUID(0x80000001): EDX *)
Definition names_80000001_edx : list (Z * string) :=
  [(11, "syscall"); (19, "mp"); (20, "nx"); (22, "mmxext"); (25, "fxsr_opt"); (26, "pdpe1gb");
   (27, "rdtscp"); (29, "lm"); (30, "3dnowext"); (31, "3dnow")].
(** CPUID(0x80000001): ECX *)
Definition names_80000001_ecx : list (Z * string) :=
  [(0, "lahf_lm"); (1, "cmp_legacy"); (2, "svm"); (3, "extapic"); (4, "cr8legacy"); (5, "abm");
   (6, "sse4a"); (7, "misalignsse"); (8, "3dnowprefetch"); (9, "osvw"); (10, "ibs"); (11, "xop");
   (12, "skinit"); (13, "wdt"); (15, "lwp"); (16, "fma4"); (17, "tce"); (19, "nodeid_msr");
   (21, "tbm"); (22, "topoext"); (23, "perfctr_core"); (24, "perfctr_nb")].
(** names[CPUID_BIT(i, j)] *)
Definition names (i : nat) : list (Z * string) :=
  match i with
  | 0 => names_1_edx | 1 => names_1_ecx | 3 => names_80000001_edx | 4 => names_80000001_ecx | _ => []
  end%nat.
Fixpoint name_of (j : Z) (l : list (Z * string)) : option string :=
  match l with [] => None | (k, n) :: l => if k =? j then Some n else name_of j l end.
Fixpoint print_bits (n : nat) (i : nat) (v j : Z) : hw unit :=
  match n with
  | O => mret tt
  | S n =>
      _ ← match name_of j (names i) with
          | Some name => if Z.testbit v j then cprint (str " " ++ str name) else mret tt
          | None => mret tt
          end;
      print_bits n i v (j + 1)
  end.
Fixpoint print_feature (i : nat) (feature : list Z) : hw unit :=
  match feature with
  | [] => mret tt
  | v :: feature =>
      _ ← (if v =? 0 then mret tt else
             _ ← cprint (str " ");
             _ ← print_bits 32 i v 0;
             cprint nl);
      print_feature (S i) feature
  end.
Definition cpuid_has (feature : list Z) (bit : Z) : bool :=
  Z.testbit (default 0 (feature !! Z.to_nat (bit / 32))) (bit mod 32).
Definition CPUID_FEATURE_PSE : Z := 3.
Definition CPUID_FEATURE_APIC : Z := 9.
Definition regs_bytes (r : Z * Z * Z * Z) : list Z :=
  let '(a, b, c, d) := r in le 4 a ++ le 4 b ++ le 4 c ++ le 4 d.
Definition cpuid_print : hw unit :=
  '(eax, _, _, _) ← call (Cpuid 0x80000000);
  if eax <? 0x80000004 then leave Panics else
  b1 ← call (Cpuid 0x80000002);
  b2 ← call (Cpuid 0x80000003);
  b3 ← call (Cpuid 0x80000004);
  _ ← cprint (str "CPU: " ++ upto_nul (regs_bytes b1 ++ regs_bytes b2 ++ regs_bytes b3) ++ nl);
  '(_, _, ecx1, edx1) ← call (Cpuid 1);
  '(_, _, ecx8, edx8) ← call (Cpuid 0x80000001);
  let feature := [edx1; ecx1; 0; edx8; ecx8] in
  _ ← print_feature 0 feature;
  if negb (cpuid_has feature CPUID_FEATURE_PSE) then leave Panics else
  if negb (cpuid_has feature CPUID_FEATURE_APIC) then leave Panics else mret tt.

(** * What the controllers are left with *)

(** picenable unmasks its line and no other, on both controllers. *)
Lemma picenable_unmasks irqmask irq (w : list (Z * Z)) :
  0 <= irqmask < 2 ^ 16 -> 0 <= irq < 16 ->
  must (fun r w' => exists mask, r = Some mask /\
          w' = w ++ [(IO_PIC1 + 1, mask mod 256); (IO_PIC2 + 1, mask / 256)] /\
          forall i, 0 <= i -> Z.testbit mask i = Z.testbit irqmask i && negb (i =? irq))
    (picenable irqmask irq) w.
Proof.
  intros Hm Hi. unfold picenable, picsetmask. set (mask := u16 (Z.land irqmask (Z.lnot (Z.shiftl 1 irq)))).
  assert (0 <= mask < 2 ^ 16) as Hr by (apply Z.mod_pos_bound; lia).
  apply must_bind, any_outb, must_bind, any_outb, must_ret. exists mask. split_and!; [done| |].
  - rewrite <-(assoc_L (++)). unfold u8. rewrite Z.shiftr_div_pow2, (Z.mod_small (mask / 2 ^ 8)); [done| |lia].
    Z.to_euclidean_division_equations. lia.
  - intros i H0. subst mask. unfold u16. destruct (Z.ltb_spec i 16).
    + rewrite Z.mod_pow2_bits_low, Z.land_spec, Z.lnot_spec, Z.shiftl_1_l, Z.pow2_bits_eqb by lia.
      by rewrite Z.eqb_sym.
    + rewrite <-(Z.mod_small irqmask (2 ^ 16)), !Z.mod_pow2_bits_high by lia. done.
Qed.

(** The I/O APIC: the register index, and the registers. *)
Record ioapic_regs := mkIoapic { io_sel : Z; io_reg : Z -> Z }.
Definition ioapic_answers (w : ioapic_regs) {A} (e : hwE A) : A -> ioapic_regs -> Prop :=
  match e in hwE A return A -> ioapic_regs -> Prop with
  | Load a => fun v w' => a = IO2V IOAPIC + 16 /\ v = io_reg w (io_sel w) /\ w' = w
  | Store a v => fun _ w' =>
      a = IO2V IOAPIC /\ w' = mkIoapic v (io_reg w) \/
      a = IO2V IOAPIC + 16 /\ w' = mkIoapic (io_sel w) (store (io_reg w) (io_sel w) v)
  | Print _ => fun _ w' => w' = w
  | _ => fun _ _ => False
  end.
#[export] Instance ioapic_world : World hwE ioapic_regs := {|
  answers w A e := ioapic_answers w e;
  final w A e := None |}.

Lemma ioapic_select reg w : yields (call (Store (IO2V IOAPIC) reg)) w tt (mkIoapic reg (io_reg w)).
Proof. apply yields_call; cbn; [by left|]. intros [] v [[_ ->]|[H _]]; [done|]. unfold IO2V, IOAPIC, u64 in H. lia. Qed.
Lemma ioapicwrite_yields reg data w :
  0 <= reg < 2 ^ 32 -> 0 <= data < 2 ^ 32 ->
  yields (ioapicwrite (IO2V IOAPIC) reg data) w tt (mkIoapic reg (store (io_reg w) reg data)).
Proof.
  intros Hr Hd. unfold ioapicwrite. rewrite !u32_small by lia. eapply must_then; [apply ioapic_select|].
  apply yields_call; cbn; [by right|]. intros [] v [[H _]|[_ ->]]; [|done]. unfold IO2V, IOAPIC, u64 in H. lia.
Qed.
Lemma ioapicread_yields reg w :
  0 <= reg < 2 ^ 32 -> yields (ioapicread (IO2V IOAPIC) reg) w (io_reg w reg) (mkIoapic reg (io_reg w)).
Proof.
  intros Hr. unfold ioapicread. rewrite u32_small by lia. eapply must_then; [apply ioapic_select|].
  apply yields_call; cbn; [done|]. by intros x v (_ & -> & ->).
Qed.

(** The entries [i, i + n) of the redirection table are disabled and go nowhere; the rest is as
    it was. *)
Definition disabled (i n : Z) (r r' : Z -> Z) : Prop :=
  (forall k, i <= k < i + n -> r' (REG_TABLE + 2 * k) = Z.lor INT_DISABLED (TRAP_IRQ0 + k) /\
                              r' (REG_TABLE + 2 * k + 1) = 0) /\
  (forall x, x < REG_TABLE + 2 * i \/ REG_TABLE + 2 * (i + n) <= x -> r' x = r x).
Lemma ioapic_disable_must n i w :
  0 <= i -> i + Z.of_nat n <= 256 ->
  must (fun r w' => r = Some tt /\ disabled i (Z.of_nat n) (io_reg w) (io_reg w'))
    (ioapic_disable n (IO2V IOAPIC) i) w.
Proof.
  revert i w. induction n as [|n IH]; intros i w H0 H1; cbn [ioapic_disable].
  { apply must_ret. split; [done|]. split; intros; [lia|done]. }
  assert (0 <= Z.lor INT_DISABLED (TRAP_IRQ0 + i) < 2 ^ 32) as Hl.
  { assert (0 <= Z.lor INT_DISABLED (TRAP_IRQ0 + i)) by (apply Z.lor_nonneg; unfold INT_DISABLED, TRAP_IRQ0; lia).
    split; [done|]. destruct (decide (Z.lor INT_DISABLED (TRAP_IRQ0 + i) = 0)); [lia|]. apply Z.log2_lt_pow2; [lia|].
    rewrite Z.log2_lor by (unfold INT_DISABLED, TRAP_IRQ0; lia). apply Z.max_lub_lt; [done|].
    apply Z.log2_lt_pow2; unfold TRAP_IRQ0; lia. }
  eapply must_then; [apply ioapicwrite_yields; unfold REG_TABLE; lia|].
  eapply must_then; [apply ioapicwrite_yields; unfold REG_TABLE; lia|].
  eapply must_mono; [apply IH; lia|]. cbn [io_reg]. intros r w' [-> [D1 D2]]. split; [done|]. split.
  - intros k Hk. destruct (decide (k = i)) as [->|]; [|apply D1; lia].
    rewrite !D2 by lia. rewrite store_eq, store_ne, store_eq by lia. done.
  - intros x Hx. rewrite D2, !store_ne by lia. done.
Qed.

(** ioapicinit leaves every interrupt the I/O APIC has disabled and routed nowhere; ioapicenable
    then enables one, towards one processor, and leaves the others alone. *)
Lemma ioapicinit_disables s io w :
  ismp s = true ->
  let maxintr := Z.land (Z.shiftr (io_reg w REG_VER) 16) 0xFF in
  must (fun r w' => r = Some (IO2V IOAPIC) /\ disabled 0 (maxintr + 1) (io_reg w) (io_reg w')) (ioapicinit s io) w.
Proof.
  intros Hs maxintr. unfold ioapicinit. rewrite Hs. cbn [negb].
  eapply must_then; [by apply ioapicread_yields|]. fold maxintr.
  eapply must_then; [by apply ioapicread_yields|]. cbn [io_reg].
  assert (0 <= maxintr <= 255) as Hm.
  { subst maxintr. change 0xFF with (Z.ones 8). rewrite Z.land_ones by lia.
    pose proof (Z.mod_pos_bound (Z.shiftr (io_reg w REG_VER) 16) (2 ^ 8) ltac:(lia)). change (Z.ones 8) with 255. lia. }
  apply must_bind. apply (must_mono (fun r w' => r = Some tt /\ w' = mkIoapic REG_ID (io_reg w))).
  - destruct (negb _); [|by apply must_ret]. apply must_call; cbn; [by exists tt; eexists|]. by intros [] w' ->.
  - intros r w' [-> ->]. apply must_bind. eapply must_mono; [apply ioapic_disable_must; lia|].
    cbn [io_reg]. rewrite Z2Nat.id by lia. intros r w' [-> D]. by apply must_ret.
Qed.
Lemma ioapicenable_enables s irq cpu w :
  ismp s = true -> 0 <= irq < 120 -> 0 <= cpu < 256 ->
  must (fun r w' => io_reg w' (REG_TABLE + 2 * irq) = TRAP_IRQ0 + irq /\
          io_reg w' (REG_TABLE + 2 * irq + 1) = cpu * 2 ^ 24 /\
          forall x, x <> REG_TABLE + 2 * irq -> x <> REG_TABLE + 2 * irq + 1 -> io_reg w' x = io_reg w x)
    (ioapicenable s (IO2V IOAPIC) irq cpu) w.
Proof.
  intros Hs Hi Hc. unfold ioapicenable. rewrite Hs, Z.shiftl_mul_pow2 by lia. cbn [negb].
  eapply must_then; [apply ioapicwrite_yields; unfold REG_TABLE, TRAP_IRQ0; lia|].
  eapply must_mono; [apply ioapicwrite_yields; unfold REG_TABLE; lia|]. cbn [io_reg].
  intros r w' [-> ->]. cbn [io_reg]. split_and!; [rewrite store_ne, store_eq by lia; done|apply store_eq|].
  intros x H1 H2. by rewrite !store_ne by done.
Qed.

(** uartputc ends on any hardware, even when the transmitter never gets ready, and what it writes
    is its character. *)
Lemma uartputc_writes c (w : list (Z * Z)) :
  must (fun r w' => r = Some tt /\ w' = w ++ [(COM1 + 0, u8 c)]) (uartputc true c) w.
Proof.
  apply must_bind. assert (must (fun r w' => r = Some tt /\ w' = w) (uart_wait 128) w) as Wt.
  { generalize 128%nat. induction n as [|n IH]; cbn [uart_wait]; [by apply must_ret|].
    apply must_bind, any_inb. intros v _. destruct (_ =? 0); [exact IH|by apply must_ret]. }
  eapply must_mono; [exact Wt|]. intros r w' [-> ->]. by apply any_outb.
Qed.

(** The conversion of the clock's fields inverts their binary coded decimal form. *)
Lemma bcd_conv_correct x : 0 <= x < 100 -> bcd_conv (16 * (x / 10) + x mod 10) = x.
Proof.
  intros H. unfold bcd_conv. rewrite Z.shiftr_div_pow2 by lia. change 0xf with (Z.ones 4). rewrite Z.land_ones by lia.
  rewrite u32_small; Z.to_euclidean_division_equations; lia.
Qed.
