(* ===== verification/E820.v ===== *)
(** The map of the physical memory, kernel/e820.c: e820_init copies what the boot loader found. *)
From S2P Require Import Prelude Kstate KString Bytes Locks Kalloc Printf Hw Boot.

Definition E820_NR_MAX : nat := 64.
Definition sizeof_mmap_entry : Z := 24.

(** struct e820_map, with the fields of its entries that detect_memory reads and their types. *)
Record e820_map := mkE820Map { mmap_addr : Z; mmap_length : Z; entries : list (e820_entry * Z) }.
(** The loop of e820_init; None is a failed assertion.  The assertion on [i] ends it after
    E820_NR_MAX turns at the latest. *)
Fixpoint e820_loop (fuel : nat) (m : mem) (addr addr_end : Z) (acc : list (e820_entry * Z)) :
    option (list (e820_entry * Z)) :=
  if addr <? addr_end then
    if addr_end - addr <? sizeof_mmap_entry then None else
    match fuel with
    | O => None
    | S fuel =>
        e820_loop fuel m (u64 (addr + u32 (word32 m addr + 4))) addr_end
          (acc ++ [(mkE820 (word64 m (addr + 4)) (word64 m (addr + 12)), word32 m (addr + 20))])
    end
  else Some acc.
(** struct multiboot_info: flags, mmap_length and mmap_addr. *)
Definition e820_init (m : mem) (mbi : Z) : option e820_map :=
  if Z.land (word32 m mbi) MULTIBOOT_INFO_MEM_MAP =? 0 then None else
  let len := word32 m (mbi + 44) in
  let addr := word32 m (mbi + 48) in
  es ← e820_loop E820_NR_MAX m addr (u32 (addr + len)) [];
  Some (mkE820Map addr len es).

(** What e820_print prints. *)
Definition e820_map_types : list string :=
  ["available"; "reserved"; "ACPI reclaimable"; "ACPI NVS"; "unusable"].
Definition print_e820_map_type (type : Z) : option (list Z) :=
  match e820_map_types !! Z.to_nat (type - 1) with
  | Some s => if 1 <=? type then cprintf (str s) [] else cprintf (str "type %u") [AInt type]
  | None => cprintf (str "type %u") [AInt type]
  end.
Fixpoint print_entries (es : list (e820_entry * Z)) : option (list Z) :=
  match es with
  | [] => Some []
  | (e, type) :: es =>
      a ← cprintf (str "  [mem 0x%x-0x%x] ") [AInt (e_addr e); AInt (u64 (e_addr e + e_len e - 1))];
      b ← print_e820_map_type type;
      c ← cprintf nl [];
      d ← print_entries es;
      Some (a ++ b ++ c ++ d)
  end.
Definition e820_print (p : e820_map) : option (list Z) :=
  a ← cprintf (str "E820: physical memory map [mem 0x%x-0x%x]" ++ nl)
        [AInt (mmap_addr p); AInt (u32 (mmap_addr p + mmap_length p - 1))];
  b ← print_entries (entries p);
  Some (a ++ b).

(** * The copy *)

(** The entries [es] lie in memory from [a] to [e], each behind a size that leads to the next. *)
Fixpoint map_at (m : mem) (a e : Z) (es : list (e820_entry * Z)) : Prop :=
  match es with
  | [] => a = e
  | (x, type) :: es =>
      exists size, word32 m a = size /\ 20 <= size < 2 ^ 32 - 4 /\
        word64 m (a + 4) = e_addr x /\ word64 m (a + 12) = e_len x /\ word32 m (a + 20) = type /\
        map_at m (a + size + 4) e es
  end.
Lemma map_at_le m a e es : map_at m a e es -> a + 24 * Z.of_nat (length es) <= e.
Proof.
  revert a. induction es as [|[x t] es IH]; intros a H; cbn in H; [cbn; lia|].
  destruct H as (size & _ & Hs & _ & _ & _ & H%IH). cbn [length]. lia.
Qed.
Lemma e820_loop_copies fuel m a e acc es :
  map_at m a e es -> 0 <= a -> e < 2 ^ 32 -> (length es <= fuel)%nat -> e820_loop fuel m a e acc = Some (acc ++ es).
Proof.
  revert a acc es. induction fuel as [|fuel IH]; intros a acc es H Ha He Hl; destruct es as [|[x t] es]; cbn in Hl; try lia.
  1, 2: cbn in H; subst; cbn [e820_loop]; by rewrite Z.ltb_irrefl, app_nil_r.
  pose proof (map_at_le _ _ _ _ H) as L. cbn [length] in L.
  destruct H as (size & E1 & Hs & E2 & E3 & E4 & H). pose proof (map_at_le _ _ _ _ H) as L2.
  cbn [e820_loop]. unfold sizeof_mmap_entry. rewrite (proj2 (Z.ltb_lt a e)), (proj2 (Z.ltb_ge (e - a) 24)) by lia.
  rewrite E1, E2, E3, E4, u32_small, u64_small by lia. rewrite Z.add_assoc, (IH _ _ es) by (done || lia).
  rewrite <-(assoc_L (++)). by destruct x.
Qed.
(** e820_init copies a map of at most E820_NR_MAX entries in order, and detect_memory then takes
    the end of the highest of them, available or not, up to the 2GB the kernel maps. *)
Lemma e820_init_copies m mbi es :
  let len := word32 m (mbi + 44) in
  let addr := word32 m (mbi + 48) in
  word32 m mbi = MULTIBOOT_INFO_MEM_MAP -> 0 <= addr -> addr + len < 2 ^ 32 -> 0 <= len ->
  (length es <= E820_NR_MAX)%nat -> map_at m addr (addr + len) es ->
  e820_init m mbi = Some (mkE820Map addr len es).
Proof.
  intros len addr Hf Ha He Hl Hn H. unfold e820_init. rewrite Hf. change (Z.land _ _ =? 0) with false. cbv iota zeta.
  fold len addr. rewrite u32_small by lia. erewrite e820_loop_copies by (done || lia). done.
Qed.
