(* ===== verification/Asm.v ===== *)
(** The assembly of the kernel around its C code: the entry and the exit of traps (vectors.S,
    trapasm.S) and the switch of contexts (swtch.S), as lists of instructions of a small machine.

    A word of the stack is a slot, named by its address, which is a multiple of 8. *)
From S2P Require Import Prelude KString Kstate.

Inductive reg :=
  RAX | RBX | RCX | RDX | RBP | RSI | RDI | R8 | R9 | R10 | R11 | R12 | R13 | R14 | R15.
#[export] Instance reg_eq_dec : EqDecision reg.
Proof. solve_decision. Defined.
Record machine := mkMachine {
  gpr : reg -> Z; m_rsp : Z; m_rip : Z; m_cs : Z; m_rflags : Z; m_ss : Z; slots : Z -> Z }.
Inductive instr :=
| Push (r : reg)
| PushI (v : Z)
| Pop (r : reg)
| MovFromRsp (r : reg)  (* mov %rsp, r *)
| StoreRsp (r : reg)    (* mov %rsp, (r) *)
| MovToRsp (r : reg)    (* mov r, %rsp *)
| AddRsp (n : Z)
| Retq
| Iretq.

Definition push_word (v : Z) (c : machine) : machine :=
  let a := m_rsp c - 8 in
  mkMachine (gpr c) a (m_rip c) (m_cs c) (m_rflags c) (m_ss c) (store (slots c) a v).
Definition set_reg (r : reg) (v : Z) (c : machine) : machine :=
  mkMachine (fun x => if decide (x = r) then v else gpr c x) (m_rsp c) (m_rip c) (m_cs c) (m_rflags c) (m_ss c) (slots c).
Definition set_rsp (v : Z) (c : machine) : machine :=
  mkMachine (gpr c) v (m_rip c) (m_cs c) (m_rflags c) (m_ss c) (slots c).
Definition exec_instr (c : machine) (i : instr) : machine :=
  match i with
  | Push r => push_word (gpr c r) c
  | PushI v => push_word v c
  | Pop r => set_rsp (m_rsp c + 8) (set_reg r (slots c (m_rsp c)) c)
  | MovFromRsp r => set_reg r (m_rsp c) c
  | StoreRsp r =>
      mkMachine (gpr c) (m_rsp c) (m_rip c) (m_cs c) (m_rflags c) (m_ss c) (store (slots c) (gpr c r) (m_rsp c))
  | MovToRsp r => set_rsp (gpr c r) c
  | AddRsp n => set_rsp (m_rsp c + n) c
  | Retq => mkMachine (gpr c) (m_rsp c + 8) (slots c (m_rsp c)) (m_cs c) (m_rflags c) (m_ss c) (slots c)
  | Iretq =>
      let s := m_rsp c in
      mkMachine (gpr c) (slots c (s + 24)) (slots c s) (slots c (s + 8)) (slots c (s + 16)) (slots c (s + 32)) (slots c)
  end.
Definition exec_code (p : list instr) (c : machine) : machine := foldl exec_instr c p.

(** vector<i>: the traps for which the processor has not pushed an error code get a 0. *)
Definition pushes_error (i : Z) : bool := bool_decide (i ∈ [8; 10; 11; 12; 13; 14; 17]).
Definition vector (i : Z) : list instr := if pushes_error i then [PushI i] else [PushI 0; PushI i].
(** Up to the call of trap, whose argument is in rdi. *)
Definition alltraps : list instr :=
  [Push R15; Push R14; Push R13; Push R12; Push R11; Push R10; Push R9; Push R8; Push RDI; Push RSI;
   Push RBP; Push RDX; Push RCX; Push RBX; Push RAX; MovFromRsp RDI].
Definition trapret : list instr :=
  [Pop RAX; Pop RBX; Pop RCX; Pop RDX; Pop RBP; Pop RSI; Pop RDI; Pop R8; Pop R9; Pop R10; Pop R11;
   Pop R12; Pop R13; Pop R14; Pop R15; AddRsp 16; Iretq].
Definition swtch : list instr :=
  [Push RBP; Push RBX; Push R11; Push R12; Push R13; Push R14; Push R15;
   StoreRsp RDI; MovToRsp RSI;
   Pop R15; Pop R14; Pop R13; Pop R12; Pop R11; Pop RBX; Pop RBP; Retq].

(** What the processor does on trap [i] before it goes to the vector: on the stack at [top] it
    saves where it was, and the error code [e] where the trap has one. *)
Definition take_trap (top i e : Z) (c : machine) : machine :=
  let c1 := push_word (m_rip c) (push_word (m_cs c) (push_word (m_rflags c)
              (push_word (m_rsp c) (push_word (m_ss c) (set_rsp top c))))) in
  if pushes_error i then push_word e c1 else c1.

(** * Trap frames *)

(** struct trap_frame at [a]. *)
Definition frame_at (s : Z -> Z) (a : Z) : trap_frame :=
  mkTf (s a) (s (a + 8)) (s (a + 16)) (s (a + 24)) (s (a + 32)) (s (a + 40)) (s (a + 48)) (s (a + 56))
    (s (a + 64)) (s (a + 72)) (s (a + 80)) (s (a + 88)) (s (a + 96)) (s (a + 104)) (s (a + 112)) (s (a + 120))
    (s (a + 128)) (s (a + 136)) (s (a + 144)) (s (a + 152)) (s (a + 160)) (s (a + 168)).
(** The state of the processor as a trap frame. *)
Definition saved (i e : Z) (c : machine) : trap_frame :=
  mkTf (gpr c RAX) (gpr c RBX) (gpr c RCX) (gpr c RDX) (gpr c RBP) (gpr c RSI) (gpr c RDI) (gpr c R8)
    (gpr c R9) (gpr c R10) (gpr c R11) (gpr c R12) (gpr c R13) (gpr c R14) (gpr c R15)
    i e (m_rip c) (m_cs c) (m_rflags c) (m_rsp c) (m_ss c).

Ltac read_slots :=
  unfold store; repeat match goal with
  | |- context [?a =? ?b] =>
      first [rewrite (proj2 (Z.eqb_eq a b)) by lia | rewrite (proj2 (Z.eqb_neq a b)) by lia]; cbv iota
  end.

Lemma trap_entry top i e c :
  let c1 := exec_code (vector i ++ alltraps) (take_trap top i e c) in
  gpr c1 RDI = m_rsp c1 /\ m_rsp c1 = top - 176 /\
  frame_at (slots c1) (m_rsp c1) = saved i (if pushes_error i then e else 0) c /\
  (forall a, a < top - 176 \/ top <= a -> slots c1 a = slots c a).
Proof.
  unfold take_trap, vector, saved. destruct (pushes_error i).
  all: cbn -[Z.add Z.sub]; split_and!; [done|lia| |intros a Ha; read_slots; done].
  all: unfold frame_at; f_equal; read_slots; done.
Qed.
Lemma trap_exit c :
  let f := frame_at (slots c) (m_rsp c) in saved (trapno f) (err f) (exec_code trapret c) = f.
Proof. cbn -[Z.add]. unfold saved, frame_at. cbn -[Z.add]. f_equal; f_equal; lia. Qed.


(** * Contexts *)

(** struct context at [a], and the registers it is for; [ip] is where the thread goes on. *)
Definition context_at (s : Z -> Z) (a : Z) : list Z :=
  [s a; s (a + 8); s (a + 16); s (a + 24); s (a + 32); s (a + 40); s (a + 48); s (a + 56)].
Definition callee_saved (c : machine) (ip : Z) : list Z :=
  [gpr c R15; gpr c R14; gpr c R13; gpr c R12; gpr c R11; gpr c RBX; gpr c RBP; ip].
(** Two ranges of the stack that do not meet. *)
Definition apart (a n b k : Z) : Prop := a + n <= b \/ b + k <= a.

(** swtch(&old, new): the old context, below the return address, and the pointer to it. *)
Lemma swtch_saves c :
  let p := m_rsp c - 56 in
  apart (gpr c RDI) 8 p 64 ->
  slots (exec_code swtch c) (gpr c RDI) = p /\
  context_at (slots (exec_code swtch c)) p = callee_saved c (slots c (m_rsp c)).
Proof.
  intros p H. unfold apart, p in *. clear p. cbn -[Z.add Z.sub]. unfold context_at, callee_saved.
  split; [|repeat f_equal]; read_slots; try done; try lia; f_equal; lia.
Qed.
Lemma swtch_loads c :
  let a := gpr c RSI in
  apart (gpr c RDI) 8 a 64 -> apart (m_rsp c - 56) 56 a 64 ->
  let c1 := exec_code swtch c in
  callee_saved c1 (m_rip c1) = context_at (slots c) a /\ m_rsp c1 = a + 64.
Proof.
  intros a H1 H2. unfold apart, a in *. clear a. cbn -[Z.add Z.sub]. unfold context_at, callee_saved. cbn -[Z.add Z.sub].
  split; [|lia]. repeat f_equal; read_slots; try done; f_equal; lia.
Qed.

(** C6: switching contexts.  A thread that calls swtch(&old, new), whatever runs meanwhile, goes on
    behind its call with the registers the calling convention makes it keep and with its stack, once
    some thread calls swtch with the pointer that was stored in old, provided the saved context on
    its stack was left alone. *)
Theorem swtch_resumes c c2 :
  let c1 := exec_code swtch c in
  let old := slots c1 (gpr c RDI) in
  apart (gpr c RDI) 8 (m_rsp c - 56) 64 ->
  gpr c2 RSI = old -> context_at (slots c2) old = context_at (slots c1) old ->
  apart (gpr c2 RDI) 8 old 64 -> apart (m_rsp c2 - 56) 56 old 64 ->
  let c3 := exec_code swtch c2 in
  m_rip c3 = slots c (m_rsp c) /\ m_rsp c3 = m_rsp c + 8 /\
  callee_saved c3 (m_rip c3) = callee_saved c (slots c (m_rsp c)).
Proof.
  intros c1 old H1 H2 H3 H4 H5 c3. destruct (swtch_saves c H1) as [S1 S2]. fold c1 in S1, S2.
  assert (old = m_rsp c - 56) as Eo by exact S1.
  destruct (swtch_loads c2) as [L1 L2]; [by rewrite H2..|]. fold c3 in L1, L2.
  rewrite H2, H3, Eo, S2 in L1. split_and!; [|lia|exact L1]. by injection L1.
Qed.

(** Two threads on stacks at 0x1000 and 0x2000, the second saved at 0x1F00. *)
Definition thread1 : machine :=
  mkMachine (fun r => if decide (r = RDI) then 0x500 else if decide (r = RSI) then 0x1F00 else 7)
    0x1000 0 0 0 0 (fun a => a + 1).
Definition thread2 : machine :=
  mkMachine (fun r => if decide (r = RDI) then 0x508 else if decide (r = RSI) then 0xFC8 else 9)
    0x1F40 0 0 0 0 (slots (exec_code swtch thread1)).
Lemma swtch_resumes_witness :
  m_rip (exec_code swtch thread2) = 0x1001 /\ m_rsp (exec_code swtch thread2) = 0x1008 /\
  callee_saved (exec_code swtch thread2) (m_rip (exec_code swtch thread2)) = [7; 7; 7; 7; 7; 7; 7; 0x1001].
Proof.
  apply (swtch_resumes thread1 thread2); try reflexivity; vm_compute; first [left; discriminate | right; discriminate].
Defined.
