(* ===== verification/Segment.v ===== *)
(** Descriptors: the gates of traps that tvinit of trap.c sets up with set_gate_desc of segment.h,
    and the segments of seginit of x86_64vm.c with the macros of mmu.h. *)
From S2P Require Import Prelude KString Kstate Proc.

(** [w] bits of a bit field. *)
Definition bits (w v : Z) : Z := v mod 2 ^ w.

(** * Gates *)

Record gate_desc := mkGate {
  off_15_0 : Z; sel : Z; ist : Z; rsv1 : Z; g_type : Z; g_s : Z; g_dpl : Z; g_p : Z;
  off_31_16 : Z; off_63_32 : Z; rsv2 : Z }.
Definition STS_T64A : Z := 0x9.
Definition STS_IG64 : Z := 0xe.
Definition STS_TG64 : Z := 0xf.
Definition KERNEL_PL : Z := 0.
Definition USER_PL : Z := 3.
Definition SEG_KCODE : Z := 1.
Definition set_gate_desc (istrap : bool) (selector off dpl : Z) : gate_desc :=
  mkGate (Z.land (Z.shiftr off 0) 0xffff) (bits 16 selector) 0 0
    (if istrap then STS_TG64 else STS_IG64) 0 (bits 2 dpl) 1
    (Z.land (Z.shiftr off 16) 0xffff) (Z.land (Z.shiftr off 32) 0xffffffff) 0.
(** The table after tvinit; [vectors] gives the addresses of vectors.S. *)
Definition tvinit_idt (vectors : Z -> Z) (i : Z) : gate_desc :=
  if i =? TRAP_SYSCALL then set_gate_desc true (Z.shiftl SEG_KCODE 3) (vectors i) USER_PL
  else set_gate_desc false (Z.shiftl SEG_KCODE 3) (vectors i) KERNEL_PL.

(** Where a gate leads. *)
Definition gate_offset (g : gate_desc) : Z := off_15_0 g + 2 ^ 16 * off_31_16 g + 2 ^ 32 * off_63_32 g.
Lemma set_gate_desc_offset istrap selector off dpl :
  0 <= off < 2 ^ 64 -> gate_offset (set_gate_desc istrap selector off dpl) = off.
Proof.
  intros H. unfold gate_offset, set_gate_desc. cbn [off_15_0 off_31_16 off_63_32].
  change 0xffff with (Z.ones 16). change 0xffffffff with (Z.ones 32).
  rewrite !Z.land_ones, !Z.shiftr_div_pow2 by lia. Z.to_euclidean_division_equations. lia.
Qed.
(** Every gate leads to its vector in the kernel's code segment; a program can call only the one of
    the system calls, and interrupts stay enabled only there. *)
Lemma tvinit_gates vectors i :
  0 <= vectors i < 2 ^ 64 ->
  let g := tvinit_idt vectors i in
  gate_offset g = vectors i /\ sel g = 8 /\ g_p g = 1 /\
  (g_dpl g = 3 <-> i = TRAP_SYSCALL) /\ (g_type g = STS_TG64 <-> i = TRAP_SYSCALL).
Proof.
  intros H. unfold tvinit_idt. destruct (Z.eqb_spec i TRAP_SYSCALL) as [E|E]; cbv zeta;
    (split; [by apply set_gate_desc_offset|]); cbn -[TRAP_SYSCALL]; repeat split; try done; intros X; done.
Qed.

(** * Segments *)

Record segdesc := mkSeg {
  lim_15_0 : Z; base_15_0 : Z; base_23_16 : Z; s_type : Z; s_s : Z; s_dpl : Z; s_p : Z;
  lim_19_16 : Z; avl : Z; s_rsv1 : Z; db : Z; s_g : Z; base_31_24 : Z }.
Definition STA_X : Z := 0x8.
Definition STA_W : Z := 0x2.
Definition SEG64 (type base lim resv1 dpl : Z) : segdesc :=
  mkSeg (Z.land (Z.shiftr lim 12) 0xffff) (Z.land base 0xffff) (Z.land (Z.shiftr base 16) 0xff) type 1 (bits 2 dpl) 1
    (bits 4 (Z.shiftr lim 28)) 0 resv1 0 0 (bits 8 (Z.shiftr base 24)).
Definition SEG16 (type base lim dpl : Z) : segdesc :=
  mkSeg (Z.land lim 0xffff) (Z.land (u32 base) 0xffff) (Z.land (Z.shiftr (u32 base) 16) 0xff) type 0 (bits 2 dpl) 1
    (bits 4 (Z.shiftr lim 16)) 0 0 0 0 (bits 8 (Z.shiftr (u32 base) 24)).
(** The 64 bits of a descriptor. *)
Definition seg_word (d : segdesc) : Z :=
  lim_15_0 d + 2 ^ 16 * base_15_0 d + 2 ^ 32 * base_23_16 d + 2 ^ 40 * s_type d + 2 ^ 44 * s_s d +
  2 ^ 45 * s_dpl d + 2 ^ 47 * s_p d + 2 ^ 48 * lim_19_16 d + 2 ^ 52 * avl d + 2 ^ 53 * s_rsv1 d +
  2 ^ 54 * db d + 2 ^ 55 * s_g d + 2 ^ 56 * base_31_24 d.
Definition sizeof_tss : Z := 104.
(** The table seginit fills in, for the cpu whose field cpu is at [cpu] and whose task state is at
    [tss]. *)
Definition seginit_gdt (cpu tss : Z) : list Z :=
  [0; seg_word (SEG64 STA_X 0 0 1 0); seg_word (SEG64 STA_W 0 0 0 0); seg_word (SEG64 STA_W cpu 8 0 0);
   seg_word (SEG64 STA_X 0 0 1 DPL_USER); seg_word (SEG64 STA_W 0 0 0 DPL_USER);
   seg_word (SEG16 STS_T64A tss sizeof_tss DPL_USER); Z.shiftr tss 32].

(** The base of the task state segment, over its two slots. *)
Definition tss_base (lo hi : Z) : Z := lo / 2 ^ 16 mod 2 ^ 24 + 2 ^ 24 * (lo / 2 ^ 56 mod 2 ^ 8) + 2 ^ 32 * hi.
Lemma seginit_tss cpu tss :
  0 <= tss < 2 ^ 64 ->
  exists lo hi, seginit_gdt cpu tss !! 6%nat = Some lo /\ seginit_gdt cpu tss !! 7%nat = Some hi /\ tss_base lo hi = tss.
Proof.
  intros H. eexists _, _. split_and!; [reflexivity..|].
  unfold tss_base, seg_word, SEG16, u32. cbn [lim_15_0 base_15_0 base_23_16 s_type s_s s_dpl s_p lim_19_16 avl s_rsv1 db s_g base_31_24].
  change 0xffff with (Z.ones 16). change 0xff with (Z.ones 8).
  rewrite !Z.land_ones, !Z.shiftr_div_pow2 by lia. unfold bits, sizeof_tss, STS_T64A, DPL_USER.
  Z.to_euclidean_division_equations. lia.
Qed.
