(* ===== verification/Programs.v ===== *)
(** The small user programs: cat, echo, init, kill, ln, ls, rm, stressfs, sysinfo, wc and zombie
    of user/, as trees of the system calls they make.

    A system call is an event whose answer the program goes on with, so that a program which
    never ends, as init, is a program too.  The answer of read is None for -1, and else the
    bytes it stored, whose number it returns.  exit does not return; [Crash] is a printf that
    runs out of arguments or of its buffer. *)
From ITree Require Import ITree.
From S2P Require Import Prelude Interact Kstate Bytes Printf.

(** * System calls *)

(** The calls of user.h, each a stub of usys.S; what a call stores behind a pointer is part of
    its answer. *)
Record sys_info := mkSysInfo {
  si_in_use : Z; si_in_swap : Z; si_free : Z; si_faults : Z; si_disk_reads : Z }.
Inductive sysE : Type -> Type :=
| Exit : sysE Empty_set
| Crash : sysE Empty_set
| Open (path : list Z) (mode : Z) : sysE Z
| Close (fd : Z) : sysE Z
| Read (fd n : Z) : sysE (option (list Z))
| Write (fd : Z) (bytes : list Z) : sysE Z
| Dup (fd : Z) : sysE Z
| Fstat (fd : Z) : sysE (Z * stat)
| Mknod (path : list Z) (major minor : Z) : sysE Z
| Link (old new : list Z) : sysE Z
| Unlink (path : list Z) : sysE Z
| Fork : sysE Z
| Wait : sysE Z
| Kill (pid : Z) : sysE Z
| Exec (path : list Z) (argv : list (list Z)) : sysE Z
| Sleeps (n : Z) : sysE Z
| Sysinfo : sysE sys_info
| Pipe : sysE (Z * (Z * Z))
| Mkdir (path : list Z) : sysE Z
| Chdir (path : list Z) : sysE Z
| Getpid : sysE Z
| Sbrk (n : Z) : sysE Z
| Uptime : sysE Z
| Crashn (n : Z) : sysE Z.
Abbreviation prog := (itree sysE).

Definition exit_ {A} : prog A := leave Exit.
Definition crash {A} : prog A := leave Crash.

(** putc of printf.c, for every character in turn. *)
Fixpoint puts (fd : Z) (out : list Z) : prog unit :=
  match out with [] => mret tt | c :: out => _ ← call (Write fd [c]); puts fd out end.
Definition print (fd : Z) (fmt : list Z) (args : list arg) : prog unit :=
  match printf fmt args with Some out => puts fd out | None => crash end.
Definition AText (s : list Z) : arg := AStr (Some s).
(** stat of ulib.c; [st]: what the caller's struct holds before. *)
Definition ulib_stat (path : list Z) (st : stat) : prog (Z * stat) :=
  fd ← call (Open path O_RDONLY);
  if fd <? 0 then mret (-1, st) else
  r ← call (Fstat fd);
  _ ← call (Close fd);
  mret r.

(** * cat and wc *)

(** while ((n = read(fd, buf, sizeof(buf))) > 0) body; gives whether the last [n] is negative. *)
Definition read_loop {S} (fd : Z) (body : S -> list Z -> prog S) (s : S) : prog (S * bool) :=
  ITree.iter (fun s =>
    r ← call (Read fd 512);
    match r with
    | None => mret (inr (s, true))
    | Some [] => mret (inr (s, false))
    | Some buf => s ← body s buf; mret (inl s)
    end) s.
Definition cat (fd : Z) : prog unit :=
  '(_, failed) ← read_loop fd (fun _ buf =>
    r ← call (Write 1 buf);
    if r =? Z.of_nat (length buf) then mret tt
    else _ ← print 1 (str "cat: write error" ++ nl) []; exit_) tt;
  if failed : bool then _ ← print 1 (str "cat: read error" ++ nl) []; exit_ else mret tt.
(** The loop over the files of the command line, of cat and of wc. *)
Fixpoint each_file (name : string) (body : Z -> list Z -> prog unit) (argv : list (list Z)) : prog unit :=
  match argv with
  | [] => exit_
  | a :: argv =>
      fd ← call (Open a 0);
      if fd <? 0 then _ ← print 1 (str name ++ str ": cannot open %s" ++ nl) [AText a]; exit_ else
      _ ← body fd a;
      _ ← call (Close fd);
      each_file name body argv
  end.
(** [argv]: the arguments behind the name of the program. *)
Definition cat_main (argv : list (list Z)) : prog unit :=
  match argv with
  | [] => _ ← cat 0; exit_
  | _ => each_file "cat" (fun fd _ => cat fd) argv
  end.

Definition is_space (c : Z) : bool := bool_decide (c ∈ [32; 13; 9; 10; 11]).
Record counts := mkCounts { lines : Z; words : Z; chars : Z; inword : bool }.
Definition count (k : counts) (c : Z) : counts :=
  let l := if c =? 10 then s32 (lines k + 1) else lines k in
  if is_space c then mkCounts l (words k) (s32 (chars k + 1)) false
  else if inword k then mkCounts l (words k) (s32 (chars k + 1)) true
  else mkCounts l (s32 (words k + 1)) (s32 (chars k + 1)) true.
Definition wc (fd : Z) (name : list Z) : prog unit :=
  '(k, failed) ← read_loop fd (fun k buf => mret (foldl count k buf)) (mkCounts 0 0 0 false);
  if failed : bool then _ ← print 1 (str "wc: read error" ++ nl) []; exit_ else
  print 1 (str "%d %d %d %s" ++ nl) [AInt (lines k); AInt (words k); AInt (chars k); AText name].
Definition wc_main (argv : list (list Z)) : prog unit :=
  match argv with
  | [] => _ ← wc 0 []; exit_
  | _ => each_file "wc" wc argv
  end.

(** * echo, kill, ln, rm *)

Fixpoint echo_main (argv : list (list Z)) : prog unit :=
  match argv with
  | [] => exit_
  | a :: argv =>
      _ ← print 1 (str "%s%s") [AText a; AText (match argv with [] => nl | _ => str " " end)];
      echo_main argv
  end.
Fixpoint kill_all (argv : list (list Z)) : prog unit :=
  match argv with [] => exit_ | a :: argv => _ ← call (Kill (atoi a)); kill_all argv end.
Definition kill_main (argv : list (list Z)) : prog unit :=
  match argv with
  | [] => _ ← print 2 (str "usage: kill pid..." ++ nl) []; exit_
  | _ => kill_all argv
  end.
Definition ln_main (argv : list (list Z)) : prog unit :=
  match argv with
  | [old; new] =>
      r ← call (Link old new);
      _ ← (if r <? 0 then print 2 (str "link %s %s: failed" ++ nl) [AText old; AText new] else mret tt);
      exit_
  | _ => _ ← print 2 (str "Usage: ln old new" ++ nl) []; exit_
  end.
Fixpoint rm_all (argv : list (list Z)) : prog unit :=
  match argv with
  | [] => exit_
  | a :: argv =>
      r ← call (Unlink a);
      if r <? 0 then _ ← print 2 (str "rm: %s failed to delete" ++ nl) [AText a]; exit_ else rm_all argv
  end.
Definition rm_main (argv : list (list Z)) : prog unit :=
  match argv with
  | [] => _ ← print 2 (str "Usage: rm files..." ++ nl) []; exit_
  | _ => rm_all argv
  end.

(** * ls *)

Definition ch_slash : Z := 47.
(** What stands behind the last slash. *)
Fixpoint after_slash (path : list Z) : list Z :=
  match path with
  | [] => []
  | c :: rest => if bool_decide (ch_slash ∈ rest) then after_slash rest
                 else if c =? ch_slash then rest else path
  end.
Definition fmtname (path : list Z) : list Z :=
  let p := after_slash path in
  if (DIRSIZ <=? length p)%nat then p else p ++ replicate (DIRSIZ - length p) 32.
Definition print_stat (path : list Z) (st : stat) : prog unit :=
  print 1 (str "%s %d %d %d" ++ nl) [AText (fmtname path); AInt (st_type st); AInt (st_ino st); AInt (st_size st)].
(** The loop over the entries of a directory; [st] is the struct the calls of stat fill in. *)
Definition ls_dir (fd : Z) (path : list Z) (st : stat) : prog stat :=
  ITree.iter (fun st =>
    r ← call (Read fd sizeof_dirent);
    let bs := default [] r in
    if negb (Z.of_nat (length bs) =? sizeof_dirent) then mret (inr st) else
    let de := dirent_of bs in
    if de_inum de =? 0 then mret (inl st) else
    let buf := path ++ [ch_slash] ++ upto_nul (de_name de) in
    '(r, st) ← ulib_stat buf st;
    if r <? 0 then _ ← print 1 (str "ls: cannot stat %s" ++ nl) [AText buf]; mret (inl st) else
    _ ← print_stat buf st;
    mret (inl st)) st.
Definition ls (path : list Z) : prog unit :=
  fd ← call (Open path 0);
  if fd <? 0 then print 2 (str "ls: cannot open %s" ++ nl) [AText path] else
  '(r, st) ← call (Fstat fd);
  if r <? 0 then
    _ ← print 2 (str "ls: cannot stat %s" ++ nl) [AText path];
    _ ← call (Close fd);
    mret tt
  else
  _ ← (if st_type st =? T_FILE then print_stat path st
       else if st_type st =? T_DIR then
         if (512 <? length path + 1 + DIRSIZ + 1)%nat then print 1 (str "ls: path too long" ++ nl) []
         else _ ← ls_dir fd path st; mret tt
       else mret tt);
  _ ← call (Close fd);
  mret tt.
Fixpoint ls_all (argv : list (list Z)) : prog unit :=
  match argv with [] => exit_ | a :: argv => _ ← ls a; ls_all argv end.
Definition ls_main (argv : list (list Z)) : prog unit :=
  match argv with [] => _ ← ls (str "."); exit_ | _ => ls_all argv end.

(** * init *)

Definition open_console : prog unit :=
  fd ← call (Open (str "console") O_RDWR);
  _ ← (if fd <? 0 then
         _ ← call (Mknod (str "console") 1 1);
         _ ← call (Open (str "console") O_RDWR);
         mret tt
       else mret tt);
  _ ← call (Dup 0);
  _ ← call (Dup 0);
  mret tt.
(** while ((wpid = wait()) >= 0 && wpid != pid) *)
Definition reap (pid : Z) : prog unit :=
  ITree.iter (fun _ =>
    wpid ← call Wait;
    if (0 <=? wpid) && negb (wpid =? pid)
    then _ ← print 1 (str "zombie!" ++ nl) []; mret (inl tt)
    else mret (inr tt)) tt.
Definition init_main : prog Empty_set :=
  _ ← open_console;
  ITree.iter (fun _ =>
    _ ← print 1 (str "init: starting sh" ++ nl) [];
    pid ← call Fork;
    if pid <? 0 then _ ← print 1 (str "init: fork failed" ++ nl) []; exit_ else
    if pid =? 0 then
      _ ← call (Exec (str "sh") [str "sh"]);
      _ ← print 1 (str "init: exec sh failed" ++ nl) [];
      exit_
    else
      _ ← reap pid;
      mret (inl tt)) tt.
Definition lab3init_main : prog unit :=
  _ ← open_console;
  _ ← print 1 (str "lab3init running" ++ nl) [];
  _ ← call (Exec (str "lab4test_a") [str "lab3test"]);
  _ ← print 1 (str "lab3init: exec failed" ++ nl) [];
  exit_.

(** * sysinfo, stressfs, zombie *)

Definition print_counter (name : string) (v : Z) : prog unit :=
  print 1 (str name ++ str " = %d" ++ nl) [AInt v].
Definition sysinfo_main : prog unit :=
  '(mkSysInfo used swap free faults reads) ← call Sysinfo;
  _ ← print_counter "pages_in_use" used;
  _ ← print_counter "pages_in_swap" swap;
  _ ← print_counter "free_pages" free;
  _ ← print_counter "num_page_faults" faults;
  _ ← print_counter "num_disk_reads" reads;
  exit_.

Fixpoint repeat_call {A} (n : nat) (e : sysE A) : prog unit :=
  match n with O => mret tt | S n => _ ← call e; repeat_call n e end.
(** for (i = 0; i < 4; i++) if (fork() > 0) break; *)
Fixpoint fork_some (n : nat) (i : Z) : prog Z :=
  match n with
  | O => mret i
  | S n => pid ← call Fork; if 0 <? pid then mret i else fork_some n (i + 1)
  end.
Definition stressfs_main : prog unit :=
  _ ← print 1 (str "stressfs starting" ++ nl) [];
  i ← fork_some 4 0;
  _ ← print 1 (str "write %d" ++ nl) [AInt i];
  let path := str "stressfs" ++ [48 + i] in
  fd ← call (Open path (Z.lor O_CREATE O_RDWR));
  _ ← repeat_call 20 (Write fd (replicate 512 97));
  _ ← call (Close fd);
  _ ← print 1 (str "read" ++ nl) [];
  fd ← call (Open path O_RDONLY);
  _ ← repeat_call 20 (Read fd 512);
  _ ← call (Close fd);
  _ ← call Wait;
  exit_.
Definition zombie_main : prog unit :=
  pid ← call Fork;
  _ ← (if 0 <? pid then _ ← call (Sleeps 5); mret tt else mret tt);
  exit_.
