(* ===== verification/ProgramsProofs.v ===== *)
(** What cat, wc and echo write, over any way the kernel may cut their reads.

    The calls are answered as their documentation has it: open gives a descriptor that is not in
    use, read some of the bytes that follow and none at the end, write takes all it is given. *)
From ITree Require Import ITree.
From S2P Require Import Prelude Interact Kstate Bytes Printf Programs.

(** * The world *)

(** The files by their path, what is left to read behind each descriptor, and what was written
    to the standard output; what goes to descriptor 2 is not kept. *)
Record world := mkWorld { disk : list Z -> option (list Z); fds : gmap Z (list Z); out : list Z }.
Definition says (o : list Z) (w : world) : world := mkWorld (disk w) (fds w) (out w ++ o).
Definition sets (f : gmap Z (list Z)) (w : world) : world := mkWorld (disk w) f (out w).

Definition user_answers (w : world) {A} (e : sysE A) : A -> world -> Prop :=
  match e in sysE A return A -> world -> Prop with
  | Open path mode => fun fd w' =>
      mode = 0 /\
      match disk w path with
      | Some data => 2 < fd /\ fds w !! fd = None /\ w' = sets (<[fd := data]> (fds w)) w
      | None => fd < 0 /\ w' = w
      end
  | Read fd n => fun r w' =>
      exists rest k, fds w !! fd = Some rest /\ (k <= length rest)%nat /\ Z.of_nat k <= n /\
        (k = 0%nat -> rest = []) /\
        r = Some (take k rest) /\ w' = sets (<[fd := drop k rest]> (fds w)) w
  | Write fd bs => fun r w' =>
      r = Z.of_nat (length bs) /\ (fd = 1 /\ w' = says bs w \/ fd = 2 /\ w' = w)
  | Close fd => fun r w' => is_Some (fds w !! fd) /\ r = 0 /\ w' = sets (delete fd (fds w)) w
  | _ => fun _ _ => False
  end.

#[export] Instance user_world : World sysE world := {|
  answers w A e := user_answers w e;
  final w A e := match e with Exit => Some w | _ => None end |}.

Lemma must_exit {A} (Q : option A -> world -> Prop) w : Q None w -> must Q exit_ w.
Proof. by apply must_leave. Qed.

(** * Printing *)

Lemma says_says a b w : says b (says a w) = says (a ++ b) w.
Proof. unfold says. cbn. by rewrite <-(assoc_L (++)). Qed.
Lemma says_nil w : says [] w = w.
Proof. destruct w. unfold says. cbn. by rewrite app_nil_r. Qed.
Lemma sets_same w : sets (fds w) w = w.
Proof. by destruct w. Qed.

Lemma write_yields bs w : yields (call (Write 1 bs)) w (Z.of_nat (length bs)) (says bs w).
Proof. apply must_call; cbn; [by eexists _, _; split; [done|left]|]. by intros x w' (-> & [[_ ->]|[[=] _]]). Qed.
Lemma puts_yields o w : yields (puts 1 o) w tt (says o w).
Proof.
  revert w. induction o as [|c o IH]; intros w; cbn.
  - apply must_ret. by rewrite says_nil.
  - eapply must_then; [apply write_yields|].
    specialize (IH (says [c] w)). by rewrite says_says in IH.
Qed.
Lemma print_yields fmt args o w : printf fmt args = Some o -> yields (print 1 fmt args) w tt (says o w).
Proof. unfold print. intros ->. apply puts_yields. Qed.

(** Text without a percent sign is printed as it stands. *)
Lemma printf_text l fmt args :
  Forall (.≠ percent) l -> printf (l ++ fmt) args = app l <$> printf fmt args.
Proof.
  unfold printf. induction 1 as [|c l Hc _ IH]; cbn.
  - by destruct (printf_loop fmt None args).
  - rewrite (proj2 (Z.eqb_neq _ _) Hc), IH. by destruct (printf_loop fmt None args).
Qed.

(** * Reading to the end *)

Lemma some_to_read (rest : list Z) :
  exists k, (k <= length rest)%nat /\ Z.of_nat k <= 1 /\ (k = 0%nat -> rest = []).
Proof. destruct rest; [exists 0%nat|exists 1%nat]; cbn; split_and!; done || lia. Qed.
Section read_loop.
Context {S : Type} (body : S -> list Z -> prog S) (f : S -> list Z -> S) (g : list Z -> list Z).
Hypothesis f_nil : forall s, f s [] = s.
Hypothesis f_app : forall s a b, f s (a ++ b) = f (f s a) b.
Hypothesis g_nil : g [] = [].
Hypothesis g_app : forall a b, g (a ++ b) = g a ++ g b.
Hypothesis body_yields : forall s w buf, yields (body s buf) w (f s buf) (says (g buf) w).

Lemma read_loop_yields fd rest s w :
  fds w !! fd = Some rest ->
  yields (read_loop fd body s) w (f s rest, false) (says (g rest) (sets (<[fd := []]> (fds w)) w)).
Proof.
  remember (length rest) as n eqn:Hn. revert rest s w Hn.
  induction (lt_wf n) as [n _ IH]; intros rest s w -> Hw.
  apply must_iter, must_bind, must_call; cbn.
  { destruct (some_to_read rest) as (k & Hk & Hk' & H0).
    eexists _, _, rest, k. split_and!; try done; lia. }
  intros x w' (rest' & k & Hw' & Hk & Hk' & H0 & -> & ->). simplify_eq.
  destruct (take k rest) as [|c l] eqn:E.
  - apply must_ret. destruct rest as [|c l]; [|destruct k; [by specialize (H0 eq_refl)|done]].
    rewrite f_nil, g_nil, says_nil, drop_nil. done.
  - eapply must_then; [apply body_yields|]. apply must_ret. rewrite <-E.
    set (w1 := says (g (take k rest)) (sets (<[fd := drop k rest]> (fds w)) w)).
    assert (length (drop k rest) < length rest)%nat as Hlt.
    { apply (f_equal length) in E. rewrite length_take in E. cbn in E. rewrite length_drop. lia. }
    pose proof (IH _ Hlt (drop k rest) (f s (take k rest)) w1 eq_refl) as Y.
    rewrite <-f_app, take_drop in Y. eapply must_mono; [apply Y; subst w1; cbn; by rewrite lookup_insert_eq|].
    intros r v [-> ->]. split; [done|]. subst w1. unfold says, sets. cbn.
    by rewrite insert_insert_eq, <-(assoc_L (++)), <-g_app, take_drop.
Qed.
End read_loop.

(** * Programs that go through their files *)

(** What such a program writes: its text for every file in turn, up to a file that is missing. *)
Fixpoint files_text (name : string) (show : list Z -> list Z -> list Z)
    (disk : list Z -> option (list Z)) (argv : list (list Z)) : list Z :=
  match argv with
  | [] => []
  | a :: argv =>
      match disk a with
      | Some data => show data a ++ files_text name show disk argv
      | None => str name ++ str ": cannot open " ++ a ++ nl
      end
  end.

Lemma unused_fd (m : gmap Z (list Z)) : exists fd, 2 < fd /\ m !! fd = None.
Proof.
  assert (forall l : list Z, exists b, 2 < b /\ Forall (fun x => x < b) l) as B.
  { induction l as [|x l (b & L & F)]; [by exists 3|]. exists (Z.max b (x + 1)).
    split; [lia|]. constructor; [lia|]. eapply Forall_impl; [exact F|]. cbn. lia. }
  destruct (B (elements (dom m))) as (b & L & F). exists b. split; [done|].
  apply not_elem_of_dom. intros I%elem_of_elements.
  pose proof (proj1 (Forall_forall _ _) F b I). cbn in *. lia.
Qed.
Lemma open_missing a w (Q : option Z -> world -> Prop) :
  disk w a = None -> (forall fd, fd < 0 -> Q (Some fd) w) -> must Q (call (Open a 0)) w.
Proof.
  intros E H. apply must_call; cbn; rewrite E; [exists (-1), w; split_and!; done || lia|].
  intros fd w' (_ & L & ->). by apply H.
Qed.
Lemma open_there a w data (Q : option Z -> world -> Prop) :
  disk w a = Some data ->
  (forall fd, 2 < fd -> fds w !! fd = None -> Q (Some fd) (sets (<[fd := data]> (fds w)) w)) ->
  must Q (call (Open a 0)) w.
Proof.
  intros E H. apply must_call; cbn; rewrite E.
  - destruct (unused_fd (fds w)) as (fd & L & F). by eexists fd, _.
  - intros fd w' (_ & L & F & ->). by apply H.
Qed.
Lemma close_yields fd w : is_Some (fds w !! fd) -> yields (call (Close fd)) w 0 (sets (delete fd (fds w)) w).
Proof. intros H. apply must_call; cbn; [by eauto|]. by intros x w' (_ & -> & ->). Qed.

Section each_file.
Context (name : string) (body : Z -> list Z -> prog unit) (show : list Z -> list Z -> list Z).
Hypothesis name_text : Forall (.≠ percent) (str name).
Hypothesis body_yields : forall fd a data w, fds w !! fd = Some data ->
  yields (body fd a) w tt (says (show data a) (sets (<[fd := []]> (fds w)) w)).

Lemma each_file_exits argv w :
  exits (each_file name body argv) w (says (files_text name show (disk w) argv) w).
Proof.
  revert w. induction argv as [|a argv IH]; intros w; cbn [each_file files_text].
  { apply must_exit. by rewrite says_nil. }
  apply must_bind. destruct (disk w a) as [data|] eqn:E.
  - apply (open_there _ _ data); [done|]. intros fd L F.
    rewrite (proj2 (Z.ltb_ge _ _)) by lia.
    eapply must_then; [apply body_yields; cbn; by rewrite lookup_insert_eq|].
    eapply must_then; [apply close_yields; cbn; rewrite lookup_insert_eq; by eauto|].
    cbn. rewrite insert_insert_eq, delete_insert_id by done.
    change (sets _ _) with (says (show data a) w). cbn.
    pose proof (IH (says (show data a) w)) as Y. by rewrite says_says in Y.
  - apply open_missing; [done|]. intros fd L. rewrite (proj2 (Z.ltb_lt _ _)) by done.
    eapply must_then; [|by apply must_exit]. apply print_yields.
    rewrite printf_text by done. reflexivity.
Qed.
End each_file.

(** * cat *)

Lemma cat_yields fd w data :
  fds w !! fd = Some data -> yields (cat fd) w tt (says data (sets (<[fd := []]> (fds w)) w)).
Proof.
  intros H. eapply must_then.
  - apply (read_loop_yields _ (fun _ _ => tt) id); [by intros []|done..| |exact H].
    intros [] v buf. eapply must_then; [apply write_yields|]. rewrite Z.eqb_refl. by apply must_ret.
  - by apply must_ret.
Qed.

(** The output of cat: the standard input, or the files, up to one that is missing. *)
Definition cat_text (disk : list Z -> option (list Z)) (input : list Z) (argv : list (list Z)) : list Z :=
  match argv with [] => input | _ => files_text "cat" (fun data _ => data) disk argv end.


(** * wc *)

(** The pieces of a text between its spaces; its words are those that are not empty. *)
Fixpoint pieces (l : list Z) : list (list Z) :=
  match l with
  | [] => [[]]
  | c :: l =>
      if is_space c then [] :: pieces l
      else match pieces l with [] => [[c]] | p :: ps => (c :: p) :: ps end
  end.
Definition nonempty (l : list (list Z)) : list (list Z) := filter (.≠ []) l.
Definition text_words (l : list Z) : list (list Z) := nonempty (pieces l).
Definition text_lines (l : list Z) : list Z := filter (.= 10) l.

Lemma s32_s32_add x y : s32 (s32 x + y) = s32 (x + y).
Proof.
  unfold s32. f_equal.
  replace ((x + 2 ^ 31) mod 2 ^ 32 - 2 ^ 31 + y + 2 ^ 31) with ((x + 2 ^ 31) mod 2 ^ 32 + y) by lia.
  rewrite Zplus_mod_idemp_l. f_equal. lia.
Qed.
Definition starts (l : list Z) : bool := match l with c :: _ => negb (is_space c) | [] => false end.
Lemma pieces_head l : exists p ps, pieces l = p :: ps /\ (p <> [] <-> starts l = true).
Proof.
  destruct l as [|c l]; cbn; [|destruct (is_space c); [|destruct (pieces l)]];
    eexists _, _; (split; [reflexivity|]); cbn; naive_solver.
Qed.

Lemma count_run data l w c b :
  let k := foldl count (mkCounts (s32 l) (s32 w) (s32 c) b) data in
  lines k = s32 (l + Z.of_nat (length (text_lines data))) /\
  words k = s32 (w + Z.of_nat (length (text_words data)) - Z.b2z (b && starts data)) /\
  chars k = s32 (c + Z.of_nat (length data)).
Proof.
  revert l w c b. induction data as [|x data IH]; intros l w c b; cbn [foldl].
  { rewrite andb_false_r. cbn. by rewrite !Z.add_0_r, Z.sub_0_r. }
  assert (count (mkCounts (s32 l) (s32 w) (s32 c) b) x =
    mkCounts (s32 (l + Z.b2z (x =? 10))) (s32 (w + Z.b2z (negb (is_space x) && negb b))) (s32 (c + 1))
      (negb (is_space x))) as ->.
  { unfold count. cbn. destruct (x =? 10), (is_space x), b; cbn; rewrite ?s32_s32_add, ?Z.add_0_r; done. }
  destruct (IH (l + Z.b2z (x =? 10)) (w + Z.b2z (negb (is_space x) && negb b)) (c + 1) (negb (is_space x)))
    as (-> & -> & ->).
  split_and!; f_equal.
  - unfold text_lines. rewrite filter_cons. destruct (Z.eqb_spec x 10); case_decide; cbn [length]; cbn; lia.
  - unfold text_words. cbn [pieces starts]. destruct (is_space x) eqn:Hx; cbn [negb andb].
    + unfold nonempty at 2. rewrite filter_cons, decide_False by naive_solver. fold (nonempty (pieces data)).
      rewrite andb_false_r. cbn. lia.
    + destruct (pieces_head data) as (p & ps & -> & Hp). unfold nonempty. rewrite !filter_cons.
      rewrite (decide_True (P := x :: p <> [])) by done. cbn [length].
      case_decide; destruct (starts data), b; cbn; naive_solver lia.
  - cbn [length]. lia.
Qed.

(** A line of wc. *)
Definition decimal (n : nat) : list Z := signed digits_upper 10 (s32 (Z.of_nat n)).
Definition wc_text (data name : list Z) : list Z :=
  decimal (length (text_lines data)) ++ str " " ++ decimal (length (text_words data)) ++ str " " ++
  decimal (length data) ++ str " " ++ name ++ nl.

Lemma printint_decimal z : printint (s32 (s32 z)) 10 true = Some (signed digits_upper 10 (s32 z)).
Proof.
  rewrite (s32_small (s32 z)) by apply s32_range.
  apply (printint_run (s32 z) 10 true); [apply s32_range|by left].
Qed.
Lemma printf_counts a b c name :
  printf (str "%d %d %d %s" ++ nl) [AInt (s32 a); AInt (s32 b); AInt (s32 c); AText name] =
  Some (signed digits_upper 10 (s32 a) ++ str " " ++ signed digits_upper 10 (s32 b) ++ str " " ++
        signed digits_upper 10 (s32 c) ++ str " " ++ name ++ nl).
Proof.
  pose proof (printint_decimal a) as A. pose proof (printint_decimal b) as B.
  pose proof (printint_decimal c) as C.
  change (str "%d %d %d %s" ++ nl) with [37; 100; 32; 37; 100; 32; 37; 100; 32; 37; 115; 10].
  unfold printf. cbn -[s32 printint signed]. rewrite A; cbn -[s32 printint signed].
  rewrite B; cbn -[s32 printint signed]. rewrite C; cbn -[s32 printint signed]. done.
Qed.
Lemma wc_yields fd name w data :
  fds w !! fd = Some data ->
  yields (wc fd name) w tt (says (wc_text data name) (sets (<[fd := []]> (fds w)) w)).
Proof.
  intros H. eapply must_then.
  - apply (read_loop_yields _ (foldl count) (fun _ => [])); [done|intros; apply foldl_app|done|done| |exact H].
    intros k v buf. apply must_ret. by rewrite says_nil.
  - rewrite says_nil. apply print_yields.
    pose proof (count_run data 0 0 0 false) as (L & W & C). change (s32 0) with 0 in L, W, C.
    cbn [lines words chars] in *. rewrite L, W, C, Z.sub_0_r. apply printf_counts.
Qed.


(** * echo *)

Fixpoint echo_text (argv : list (list Z)) : list Z :=
  match argv with
  | [] => []
  | [a] => a ++ nl
  | a :: argv => a ++ str " " ++ echo_text argv
  end.
(** echo writes its arguments with a space between any two and a newline behind the last. *)
Lemma echo_exits argv w : exits (echo_main argv) w (says (echo_text argv) w).
Proof.
  revert w. induction argv as [|a argv IH]; intros w; cbn [echo_main].
  { apply must_exit. by rewrite says_nil. }
  eapply must_then; [apply print_yields; reflexivity|]. specialize (IH (says (a ++ (if argv is [] then nl else str " ")) w)).
  rewrite says_says in IH. destruct argv; [by rewrite app_nil_r in IH|].
  rewrite <-(assoc_L (++)) in IH. exact IH.
Qed.
