(* ===== verification/Shell.v ===== *)
(** The main loops of the shell and of grep, as trees of system calls: what Sh.v and Grep.v model
    of parsing and matching, put to work on a terminal and on files. *)
From ITree Require Import ITree.
From S2P Require Import Prelude Interact Kstate Bytes Grep Sh Printf Programs ProgramsProofs.

(** * sh.c *)

Definition sh_panic {A} (msg : list Z) : prog A := _ ← print 2 (str "%s" ++ nl) [AText msg]; exit_.
Definition fork1 : prog Z := pid ← call Fork; if pid =? -1 then sh_panic (str "fork") else mret pid.
(** runcmd on a command whose words are strings; it does not return. *)
Fixpoint runcmd (c : Sh.tree) : prog unit :=
  match c with
  | Sh.TExec [] => exit_
  | Sh.TExec ((arg0 :: _) as argv) => _ ← call (Exec arg0 argv); exit_
  | Sh.TRedir c file mode fd =>
      _ ← call (Close fd);
      r ← call (Open file mode);
      if r <? 0 then exit_ else runcmd c
  | Sh.TList l r =>
      pid ← fork1;
      if pid =? 0 then runcmd l else _ ← call Wait; runcmd r
  | Sh.TPipe l r =>
      '(res, (p0, p1)) ← call Pipe;
      if res <? 0 then sh_panic (str "pipe") else
      pid ← fork1;
      if pid =? 0 then
        _ ← call (Close 1); _ ← call (Dup p1); _ ← call (Close p0); _ ← call (Close p1);
        runcmd l
      else
      pid ← fork1;
      if pid =? 0 then
        _ ← call (Close 0); _ ← call (Dup p0); _ ← call (Close p0); _ ← call (Close p1);
        runcmd r
      else
      _ ← call (Close p0); _ ← call (Close p1); _ ← call Wait; _ ← call Wait;
      exit_
  | Sh.TBack c => pid ← fork1; if pid =? 0 then runcmd c else exit_
  end.
(** parsecmd and runcmd on a line, in the child. *)
Definition parse_and_run (s : list Z) : prog unit :=
  match (c <- Sh.parseline (Sh.parse_fuel s); Sh.peek [];; rest <- get; ret (c, rest)) s with
  | Ok (c, []) _ => runcmd (Sh.strings s (Sh.nulterminate s c) c)
  | Ok (_, rest) _ =>
      _ ← print 2 (str "leftovers: %s" ++ nl) [AText rest];
      sh_panic (str "syntax")
  | Panic msg => sh_panic (str msg)
  | _ => crash
  end.

(** gets of ulib.c, with [room] characters left in the buffer. *)
Fixpoint gets_line (room : nat) (buf : list Z) : prog (list Z) :=
  match room with
  | O => mret buf
  | S room =>
      r ← call (Read 0 1);
      match r with
      | Some (c :: _) => if (c =? 10) || (c =? 13) then mret (buf ++ [c]) else gets_line room (buf ++ [c])
      | _ => mret buf
      end
  end.
(** None: the end of the input.  The buffer as the string it holds. *)
Definition getcmd : prog (option (list Z)) :=
  _ ← print 2 (str "$ ") [];
  buf ← gets_line 99 [];
  let s := upto_nul buf in
  mret (if bool_decide (s = []) then None else Some s).
Definition starts_cd (s : list Z) : bool := bool_decide (take 3 s = str "cd ").
Definition open_three : prog unit :=
  ITree.iter (fun _ =>
    fd ← call (Open (str "console") O_RDWR);
    if fd <? 0 then mret (inr tt) else
    if 3 <=? fd then _ ← call (Close fd); mret (inr tt) else mret (inl tt)) tt.
Definition sh_loop : prog unit :=
  ITree.iter (fun _ =>
    o ← getcmd;
    match o with
    | None => mret (inr tt)
    | Some s =>
        if starts_cd s then
          let dir := drop 3 (take (length s - 1) s) in
          r ← call (Chdir dir);
          _ ← (if r <? 0 then print 2 (str "cannot cd %s" ++ nl) [AText dir] else mret tt);
          mret (inl tt)
        else
          pid ← fork1;
          _ ← (if pid =? 0 then parse_and_run s else mret tt);
          _ ← call Wait;
          mret (inl tt)
    end) tt.
Definition sh_main : prog unit := _ ← open_three; _ ← sh_loop; exit_.

(** * grep.c *)

(** The inner loop: one write for every line that matches; gives what is behind the last newline. *)
Fixpoint grep_writes (fuel : nat) (pattern p : list Z) : prog (list Z) :=
  match fuel with
  | O => crash
  | S fuel =>
      match Grep.strchr p Grep.newline with
      | None => mret p
      | Some q =>
          let line := take q p in
          _ ← (if Grep.match_ pattern line then _ ← call (Write 1 (line ++ [Grep.newline])); mret tt else mret tt);
          grep_writes fuel pattern (drop (S q) p)
      end
  end.
(** The outer loop, with [m] in the buffer from before. *)
Definition grep_from (pattern : list Z) (fd : Z) : list Z -> prog unit :=
  ITree.iter (fun m =>
    r ← call (Read fd (1024 - Z.of_nat (length m) - 1));
    match r with
    | None | Some [] => mret (inr tt)
    | Some n =>
        let buf := m ++ n in
        p ← grep_writes (S (length buf)) pattern buf;
        mret (inl (if bool_decide (p = buf) then [] else p))
    end).
Definition grep (pattern : list Z) (fd : Z) : prog unit := grep_from pattern fd [].
Definition grep_main (argv : list (list Z)) : prog unit :=
  match argv with
  | [] => _ ← print 2 (str "usage: grep pattern [file ...]" ++ nl) []; exit_
  | [pattern] => _ ← grep pattern 0; exit_
  | pattern :: files => each_file "grep" (fun fd _ => grep pattern fd) files
  end.

(** * What they do *)

(** grep.c on a file is the grep of Grep.v on some sequence of reads that make up the file: what is
    proved there for every way of cutting the input holds of the program. *)
Lemma grep_writes_yields fuel pattern p w out rest :
  Grep.grep_lines fuel pattern p = Some (out, rest) -> yields (grep_writes fuel pattern p) w rest (says out w).
Proof.
  revert p w out. induction fuel as [|fuel IH]; intros p w o H; [done|]. cbn in H |- *.
  destruct (Grep.strchr p Grep.newline) as [q|].
  2: { injection H as <- <-. apply must_ret. by rewrite says_nil. }
  destruct (Grep.grep_lines fuel pattern (drop (S q) p)) as [[o' r']|] eqn:E; [|done].
  injection H as <- <-. rewrite <-says_says. destruct (Grep.match_ pattern (take q p)).
  - eapply must_then; [eapply must_then; [apply write_yields|by apply must_ret]|]. by apply IH.
  - eapply must_then; [by apply must_ret|]. rewrite says_nil. by apply IH.
Qed.
Lemma strchr_bound p c q : Grep.strchr p c = Some q -> (q < length p)%nat.
Proof.
  revert q. induction p as [|x p IH]; intros q H; [done|]. cbn in H.
  destruct (x =? 0); [done|]. destruct (x =? c); [injection H as <-; cbn; lia|].
  destruct (Grep.strchr p c) as [q'|]; [|done]. injection H as <-. specialize (IH _ eq_refl). cbn. lia.
Qed.
(** The inner loop ends, and what it leaves is a tail of the buffer. *)
Lemma grep_lines_total fuel pattern p :
  (length p < fuel)%nat ->
  exists out rest, Grep.grep_lines fuel pattern p = Some (out, rest) /\ (length rest <= length p)%nat /\
    (rest = p \/ (length rest < length p)%nat).
Proof.
  revert p. induction fuel as [|fuel IH]; intros p H; [lia|]. cbn.
  destruct (Grep.strchr p Grep.newline) as [q|] eqn:E; [|eexists [], p; by auto].
  pose proof (strchr_bound _ _ _ E) as Hq. pose proof (length_drop p (S q)) as Hd.
  destruct (IH (drop (S q) p)) as (o & r & -> & Hl & _); [lia|]. eexists _, _. split; [reflexivity|]. lia.
Qed.
Lemma grep_runs pattern fd m w data :
  fds w !! fd = Some data -> (length m < 1023)%nat ->
  must (fun r w' => r = Some tt /\ exists reads o, concat reads = data /\ Grep.grep pattern m reads = Some o /\
          w' = says o (sets (<[fd := []]> (fds w)) w))
    (grep_from pattern fd m) w.
Proof.
  remember (length data) as len eqn:Hlen. revert data m w Hlen.
  induction (lt_wf len) as [len _ IH]; intros data m w -> Hw Hm.
  apply must_iter, must_bind, must_call.
  { destruct (some_to_read data) as (k & Hk & Hk' & H0).
    eexists _, _, data, k. split_and!; try done; lia. }
  intros x w' (rest & k & Hw' & Hk & Hk' & H0 & -> & ->). simplify_eq.
  destruct (take k data) as [|c l] eqn:E.
  { apply must_ret. split; [done|]. assert (data = []) as ->.
    { destruct data as [|c l]; [done|]. destruct k; [by apply H0|done]. }
    exists [], []. split_and!; [done|done|]. by rewrite says_nil, drop_nil. }
  rewrite <-E. set (n := take k data) in *. assert (n <> []) as Hn by (by rewrite E).
  assert (length n <= k)%nat as Hnk by (subst n; rewrite length_take; lia).
  destruct (grep_lines_total (S (length (m ++ n))) pattern (m ++ n)) as (o & p & Eg & Hp1 & Hp2); [lia|].
  eapply must_then; [by apply grep_writes_yields|]. apply must_ret.
  set (m' := if bool_decide (p = m ++ n) then [] else p).
  assert (length m' < 1023)%nat as Hm'.
  { subst m'. case_bool_decide as Hd; [cbn; lia|]. destruct Hp2 as [->|Hp2]; [done|]. rewrite length_app in *. lia. }
  assert (length (drop k data) < length data)%nat as Hlt.
  { rewrite length_drop. destruct k; [by subst n|]. destruct data; [done|]. cbn. lia. }
  set (w1 := says o (sets (<[fd := drop k data]> (fds w)) w)).
  eapply must_mono; [apply (IH _ Hlt (drop k data) m' w1 eq_refl); [|done]|].
  { subst w1. cbn. by rewrite lookup_insert_eq. }
  intros r v (-> & reads & o' & Hc & Hg & ->). split; [done|]. exists (n :: reads), (o ++ o').
  split_and!; [cbn; rewrite Hc; subst n; apply take_drop| |].
  - cbn [Grep.grep]. rewrite (proj2 (Nat.ltb_ge _ _)) by (unfold Grep.BUFLEN; lia).
    rewrite bool_decide_eq_false_2 by done. cbn [orb]. rewrite Eg. cbn. fold m'. by rewrite Hg.
  - subst w1. unfold says, sets. cbn. by rewrite insert_insert_eq, <-(assoc_L (++)).
Qed.
Lemma grep_is_grep pattern fd w data :
  fds w !! fd = Some data ->
  must (fun r w' => r = Some tt /\ exists reads o, concat reads = data /\ Grep.grep pattern [] reads = Some o /\
          out w' = out w ++ o)
    (grep pattern fd) w.
Proof.
  intros H. eapply must_mono; [apply (grep_runs pattern fd [] w data H); cbn; lia|].
  intros r w' (-> & reads & o & Hc & Hg & ->). split; [done|]. by exists reads, o.
Qed.

(** getcmd gives the line that is typed, with its newline, and leaves the rest of the input. *)
Lemma gets_line_yields room buf l rest w :
  fds w !! 0 = Some (l ++ 10 :: rest) -> (length l < room)%nat -> Forall (fun c => c <> 10 /\ c <> 13) l ->
  yields (gets_line room buf) w (buf ++ l ++ [10]) (sets (<[0 := rest]> (fds w)) w).
Proof.
  revert room buf w. induction l as [|c l IH]; intros room buf w Hw Hr Hl; (destruct room as [|room]; [cbn in Hr; lia|]).
  all: apply must_bind, must_call; [eexists _, _, _, 1%nat; split_and!; try done; cbn; lia|].
  all: intros x w' (data & k & Hd & Hk & Hk1 & H0 & -> & ->); rewrite Hw in Hd; injection Hd as <-.
  all: assert (k = 1%nat) as -> by (destruct k as [|[|k]]; [by specialize (H0 eq_refl)|done|lia]).
  - by apply must_ret.
  - apply Forall_cons in Hl as [[H1 H2] Hl]. cbn [take app drop].
    rewrite (proj2 (Z.eqb_neq c 10)), (proj2 (Z.eqb_neq c 13)) by done. cbn [orb].
    set (w1 := sets (<[0 := l ++ 10 :: rest]> (fds w)) w).
    pose proof (IH room (buf ++ [c]) w1) as Y. subst w1. cbn [fds sets] in Y.
    rewrite lookup_insert_eq, insert_insert_eq, <-(assoc_L (++)) in Y. apply Y; [done|cbn in Hr; lia|done].
Qed.
Lemma upto_nul_all l : 0 ∉ l -> upto_nul l = l.
Proof.
  induction l as [|c l IH]; intros H; [done|]. apply not_elem_of_cons in H as [H1 H2]. cbn.
  by rewrite (proj2 (Z.eqb_neq c 0)), IH.
Qed.
Lemma getcmd_yields l rest w :
  fds w !! 0 = Some (l ++ 10 :: rest) -> (length l < 99)%nat -> Forall (fun c => c <> 10 /\ c <> 13) l -> 0 ∉ l ->
  yields getcmd w (Some (l ++ [10])) (sets (<[0 := rest]> (fds w)) w).
Proof.
  intros Hw Hl Hc H0. eapply (must_then _ _ _ _ tt w).
  { change (print 2 (str "$ ") []) with (puts 2 [36; 32]).
    assert (forall o, yields (puts 2 o) w tt w) as P; [|by apply P].
    induction o as [|c o IH]; [by apply must_ret|]. apply must_bind, must_call; cbn; [by eexists _, _; split; [done|right]|].
    by intros x w' (-> & [[[=] _]|[_ ->]]). }
  eapply must_then; [by apply gets_line_yields|]. apply must_ret. cbn [app]. split; [|done].
  rewrite upto_nul_all by (intros [?|[[=]|[]%not_elem_of_nil]%elem_of_cons]%elem_of_app; done).
  by rewrite bool_decide_eq_false_2 by (by destruct l).
Qed.
